(* ===== verification/_CoqProject ===== *)
-Q . S2P
Prelude.v
Text.v
AccessControl.v
Chunker.v
Pipeline.v
Indexing.v
RunningTurns.v
Auth.v
Json.v
Backplane.v
Storage.v
DynamoKeys.v
Dynamo.v
DynamoFacts.v
Suggestions.v
Replay.v
Widget.v
Agents.v
AppState.v
Protocol.v
Scope.v
Conversations.v
Sessions.v
Turns.v
TurnRun.v
Approvals.v
Kinds.v
TurnTail.v
Bridges.v
Connection.v
Server.v
