(* ===== verification/Prelude.v ===== *)
(** * smooth-operator: a verification development

    smooth-operator is a conversational agent server: clients open a WebSocket, create a
    session, send messages that run agent turns, and answer the questions a turn parks on;
    an ingestion pipeline fills the knowledge base those turns retrieve from.  This library
    models the core of its Rust implementation ([src/rust/]) and proves what makes it
    correct.  Definitions keep the names of the code, are executable, and follow it
    branch by branch; a doc comment names the file a development file models.

    ** The program and the files

    Knowledge, from ingestion to retrieval:
    - [Chunker] models [ingestion/src/chunker.rs]: splitting a document into overlapping
      pieces;
    - [Pipeline] models [ingestion/src/pipeline.rs] (and the metadata writers of
      [smooth-operator/src/curation.rs]): deduplication by content hash, embedding checks,
      labelling and storing;
    - [Indexing] models [ingestion/src/indexing.rs]: incremental runs over a connector, with
      cursors and their records;
    - [AccessControl] models [smooth-operator/src/access_control.rs]: document ACLs, the
      requester's context, and the reader that filters retrieval.

    Identity and durable data:
    - [Auth] models [smooth-operator/src/auth.rs]: the verifiers, the JWKS cache, and the
      selection of a verifier from the environment;
    - [Widget] models [smooth-operator/src/widget_auth.rs]: embedding policies;
    - [Storage] models [domain.rs] and [adapter.rs] of smooth-operator (the records, and the
      storage contract as the class [StorageAdapter] with the laws [StorageLaws]) and
      [adapters/in-memory/src/lib.rs] (the instance on [Tables], which satisfies them);
    - [DynamoKeys], [Dynamo] and [DynamoFacts] model [adapters/dynamodb/src/keys.rs] and
      [lib.rs]: the keys of the single table, the adapter over a service that answers as
      DynamoDB documents (the class [DynamoLaws]), its invariant, and the same
      [StorageLaws] for it.

    The server ([smooth-operator-server/src/]):
    - [RunningTurns] models [running_turns.rs]: one running turn per conversation, as a
      registry and as a step relation of the connections that hold its handles;
    - [Backplane] models [smooth-operator/src/backplane.rs]: who receives a published event;
    - [AppState] models [state.rs]: the registries the connections of a pod share, held-back
      creates, session metadata written through to storage, parked turns;
    - [Json] and [Protocol] model [serde_json] values and [protocol.rs]: every event;
    - [Scope], [Conversations], [Sessions], [Turns] and [Approvals] model [handler.rs]: the
      read boundary; listing, reading and renaming; [create_conversation_session];
      [send_message] up to the spawn of its turn, with the configuration the turn gets
      (also [skills.rs], [config.rs], [gateway_key.rs], [settings.rs]); and
      [confirm_tool_action], [submit_interaction] and [verify_otp] (also [otp.rs],
      [interaction.rs]);
    - [Agents] models [smooth-operator/src/agent_config.rs]: an agent's row, its tool gate,
      and the workflow pointer with its judge ([judge_next_step] of [runner.rs]);
    - [Connection] models [server.rs] and the dispatch of [handler.rs]: the handshake, the
      frame loop with the turn a connection tracks, cancellation, and the writer;
    - [Server] is the transition system of a pod: all its connections and the tasks they
      started, over one [AppState].

    A turn, in its task:
    - [Replay] models what it reads and writes of its conversation ([runner.rs],
      [runtime.rs] and [domain.rs] of smooth-operator) and the citations of its answer;
    - [TurnRun] models [run_streaming_turn] of [runner.rs] around the agent loop, with the
      tools it offers and the translation of the loop's events;
    - [Suggestions] models [suggestions.rs]: the quick replies kept off the live stream;
    - [Bridges] models the tasks of [runner.rs] that carry a parked tool's question out, and
      the writes of its durable record;
    - [Kinds] models the interactions a model raises ([interaction.rs],
      [identity_intake.rs], [choices.rs] of smooth-operator) and their validation;
    - [TurnTail] models the end of the task in [handler.rs]: the workflow pointer, the code
      for a refused tool, the answer or the recorded failure, and the title job.

    [Prelude] and [Text] hold what they share: results, saturating arithmetic, stable
    sorting, list lemmas, and strings as lists of Unicode scalar values with the operations
    of Rust's [str].

    ** How the model reads

    - A handler maps a [World] (the pod's [AppState] and the events sent so far on the
      connection's sink) to the next one; what it hands to a task or a channel (a spawned
      turn, a deferred write, a verdict) is returned as data.  Fallible code returns
      [result]; a panic is [None] where the code can panic ([verify_auth_context]).
    - Shared objects (flags, tasks, sinks, channels) are names; the registry records which
      flags were raised and which tasks aborted.
    - Code of other crates is an argument: the knowledge base, connector and embedder
      ([KnowledgeBase], [Connector], ...), JWT decoding ([Jwt]), HMAC ([Signing]), SHA-256,
      time formats and base64 ([WireText]), JSON text ([JsonText], [JsonParse]).  A law
      they rely on is a field of a class ([StorageLaws], [WireTextLaws], [DocumentLaws])
      and every theorem that needs one has a witness at a concrete instance.
    - [usize] and [u64] are [N] with the saturation or wrap-around written out; [i64] is [Z]
      with its range written out; timestamps are [Z] in a fixed unit.
    - All recursion of the code is structural (on lists, on the turns played, on the frames
      sent).  Only a reader of pages that follows cursors, [read_pages], is written with
      fuel: it gives [None] when the fuel ends before the pages do, and the theorems give it
      any fuel above the length of the conversation (above two, newest first on DynamoDB)
      and conclude that a last page is reached, after at most that many.
    - A bridge's loop is interleaved with arbitrary changes of the pod's registries, one
      iteration of it being a step; a frame sent carries the state a reply would find.

    ** What the theorems show

    - Confidentiality: a tenant retrieves its own documents only ([tenant_isolation]), a
      retrieval is exactly the readable prefix of the ranking ([reader_query_exact]), an
      ingested ACL is the one enforced ([ingested_acl_enforced]); no connection reads
      another tenant's conversation ([no_cross_tenant_read]), and who reads an owned one is
      decided exactly ([may_read_decides]); a connection's identity comes from a verified
      token or from nothing ([ws_access_fail_closed], [verify_principal],
      [jwks_algorithm_pinned], [from_env_secure]); embedding origins match exactly what the
      patterns say ([origin_allowed_exact]).
    - Sessions and listings: a resume tells nothing about conversations out of reach
      ([resume_not_an_oracle]), a created conversation is its creator's
      ([created_conversation_owned]), an empty open writes nothing
      ([bare_open_writes_nothing]), a create refines its sequence of writes, deferred or
      not ([materialize_refines], [create_job_refines]); both listing paths agree
      ([listing_paths_agree]) and show only what may be read ([listing_only_readable]);
      paging loses and repeats nothing and ends ([keyset_paging],
      [message_paging_complete], and on DynamoDB [dynamo_forward_paging], while
      [dynamo_history_cut] says where reading backwards stops); on DynamoDB what a lookup
      returns is what was asked for ([dynamo_lookups_exact]) and messages keep the order of
      appending ([dynamo_append_order]).
    - Turns: an accepted message holds the only claim on its conversation
      ([accepted_send_claims]), keeps it until it is released or cancelled whatever stale
      handles do ([registration_stable]), runs for one organization ([turn_has_one_org]); a
      refused one leaves nothing ([refused_send_no_effects]); every frame is answered but a
      [cancel] with nothing to cancel ([every_frame_answered]); a tracked turn is kept or
      stopped ([tracked_turn_kept]) and [cancelled] is its last word on the wire
      ([cancelled_is_terminal]); over a whole pod, one turn runs per conversation
      ([one_active_turn]), outlives the connection that started it
      ([turn_outlives_connection]) and is cancelled only by who may ([cancel_needs_reach]).
    - Inside a turn: what it leaves in the log ([turn_transcript]) and what a later one
      replays ([persisted_is_replayed]); what is streamed is what is kept
      ([streamed_answer_is_reply], [stream_is_chunk_invariant]); the tools it may call
      ([allow_list_enforced]); how it ends in its client's eyes, a code that could not be
      sent counted ([tail_ends_once]), and the workflow pointer it leaves
      ([durable_pointer_refines]).
    - Humans in the loop: a write runs only when somebody who may said yes
      ([confirm_fails_closed]), once while its record is not written back
      ([durable_approval_once]); every call that parks is asked about, and can be answered
      when it is ([every_park_announced]); an interaction is announced with the contract its
      answer is validated against ([raised_contract], [intake_validated],
      [choices_validated]); a card answers its own question ([submit_answers_its_park]); a
      gated session opens by its code
      ([verification_needs_code]); tools are gated as configured ([auth_gate_enforced]);
      workflow steps are walked in order and never for ever ([accepted_turns_walk_in_order],
      [attempt_cap_frees]).
    - Ingestion: chunks keep the content and the size cap ([chunk_preserves_content],
      [chunk_hard_cap]), a second ingest stores nothing ([reingest_idempotent]), cursors
      only advance ([cursor_monotone]); published events reach exactly the connections of
      their target ([publish_reaches_exactly]).
    - Where the code falls short, a theorem says how: [refused_continuation_leaves_grant],
      [durable_confirm_displaces_turn], [late_frames_pass], [stale_pod_erases_verification],
      [blip_wipes_metadata], [auth_context_window], [failed_store_never_retried],
      [org_stamp_overridden], [malformed_key_starts_single_user],
      [failing_fetches_not_limited], [failed_code_hides_answer], [retired_record_returns],
      [host_prompts_routed], [teardown_clears_parks], [dynamo_create_half_done],
      [dynamo_history_cut].

    ** What is not modelled

    The agent loop that runs a turn, with its tools (a crate of its own, the argument
    [engine] of [TurnRun]); the admin API, the Lambda host, the local host, extensions, MCP
    and the knowledge tools; the Redis, NATS and Postgres adapters and DynamoDB's side
    stores, which are clients of services behind the modelled interfaces; the curated
    reader, rerankers and embedders; connectors; start-up, routing, logging and telemetry.
    Locks are
    never poisoned, and one frame of a connection is one step: interleavings inside a
    handler, such as the writer taking an event between the two statements that send
    [cancelled] and set the gate, are not explored. *)

From Stdlib Require Import Sorting.Sorted.
From stdpp Require Import prelude gmap sorting.

(** ** Fallible code *)

Inductive result (E A : Type) : Type :=
| Ok (a : A)
| Err (e : E).
Arguments Ok {E A} a.
Arguments Err {E A} e.

#[export] Instance result_ret E : MRet (result E) := @Ok E.
#[export] Instance result_bind E : MBind (result E) :=
  λ A B (f : A → result E B) (r : result E A),
    match r with Ok a => f a | Err e => Err e end.
#[export] Instance result_fmap E : FMap (result E) :=
  λ A B (f : A → B) (r : result E A),
    match r with Ok a => Ok (f a) | Err e => Err e end.

#[export] Instance result_eq_dec {E A} `{EqDecision E, EqDecision A} :
  EqDecision (result E A).
Proof. solve_decision. Defined.

Lemma Ok_inj {E A} (x y : A) : Ok (E := E) x = Ok y → x = y.
Proof. by intros [= ->]. Qed.

Definition ok_or {E A} (o : option A) (e : E) : result E A :=
  match o with Some a => Ok a | None => Err e end.

Definition map_err {E F A} (f : E → F) (r : result E A) : result F A :=
  match r with Ok a => Ok a | Err e => Err (f e) end.

(** [Result::ok]. *)
Definition result_ok {E A} (r : result E A) : option A :=
  match r with Ok a => Some a | Err _ => None end.

Definition is_ok {E A} (r : result E A) : bool :=
  match r with Ok _ => true | Err _ => false end.

(** [Option::is_some_and] and [Option::is_none_or]. *)
Definition is_some_and {A} (f : A → bool) (o : option A) : bool :=
  match o with Some a => f a | None => false end.
Definition is_none_or {A} (f : A → bool) (o : option A) : bool :=
  match o with Some a => f a | None => true end.

(** [Option::filter] (with a boolean predicate) and [Option::or]. *)
Definition opt_filter {A} (f : A → bool) (o : option A) : option A :=
  match o with Some a => if f a then Some a else None | None => None end.
Definition opt_or {A} (o1 o2 : option A) : option A :=
  match o1 with Some a => Some a | None => o2 end.

Definition is_some {A} (o : option A) : bool :=
  match o with Some _ => true | None => false end.
Definition is_none {A} (o : option A) : bool := negb (is_some o).

(** ** Machine-width arithmetic

    [usize] is 64 bits wide on every platform the program ships on; values are
    kept in [N] with the saturation written out. *)

Definition usize_max : N := (2 ^ 64 - 1)%N.
Definition saturating_mul (a b : N) : N := N.min (a * b) usize_max.
Definition saturating_add (a b : N) : N := N.min (a + b) usize_max.

(** An instant ([DateTime<Utc>]), in any fixed unit. *)
Definition Timestamp : Type := Z.

(** An [anyhow] error: its message and the contexts around it, outermost first. *)
Definition error : Type := list (list N).

(** ** Automation *)

Create HintDb rust discriminated.
Create Rewrite HintDb rust_simpl.

(** Case analysis on the scrutinee of every [match] and [if] of the goal or of
    a hypothesis, with the equation kept, then cleanup. *)
Ltac case_all := repeat (case_match; simplify_eq/=).

(** Destructs a hypothesis made of boolean connectives. *)
Ltac bool_props :=
  repeat match goal with
  | H : (_ && _) = true |- _ => apply andb_true_iff in H as [? ?]
  | H : (_ || _) = false |- _ => apply orb_false_iff in H as [? ?]
  | H : negb _ = true |- _ => apply negb_true_iff in H
  | H : negb _ = false |- _ => apply negb_false_iff in H
  | H : bool_decide _ = true |- _ => apply bool_decide_eq_true in H
  | H : bool_decide _ = false |- _ => apply bool_decide_eq_false in H
  end.

(** ** Lists *)

Section lists.
Context {A B : Type}.
Implicit Types (l : list A) (p : A → bool).

(** [Iterator::any], [Iterator::all], [Iterator::find] and
    [Iterator::position]. *)
Definition any p l : bool := existsb p l.
Definition all p l : bool := forallb p l.
Fixpoint find_first p l : option A :=
  match l with
  | [] => None
  | x :: l' => if p x then Some x else find_first p l'
  end.

Lemma any_true p l : any p l = true ↔ ∃ x, x ∈ l ∧ p x = true.
Proof.
  unfold any. rewrite existsb_exists. setoid_rewrite <- list_elem_of_In. done.
Qed.

Lemma any_false p l : any p l = false ↔ ∀ x, x ∈ l → p x = false.
Proof.
  rewrite <- not_true_iff_false, any_true. split.
  - intros H x Hx. apply not_true_iff_false. eauto.
  - intros H (x & Hx & Hp). by rewrite H in Hp.
Qed.

Lemma all_true p l : all p l = true ↔ ∀ x, x ∈ l → p x = true.
Proof.
  unfold all. rewrite forallb_forall. setoid_rewrite <- list_elem_of_In. done.
Qed.

Lemma find_first_Some p l x :
  find_first p l = Some x → x ∈ l ∧ p x = true.
Proof.
  induction l as [|y l IH]; intros; simplify_eq/=. case_match; simplify_eq/=.
  - split; [left|done].
  - destruct IH; [done|]. split; [by right|done].
Qed.

Lemma find_first_None p l :
  find_first p l = None ↔ ∀ x, x ∈ l → p x = false.
Proof.
  induction l as [|y l IH]; simpl.
  - split; [|done]. intros _ x Hx. by apply not_elem_of_nil in Hx.
  - case_match eqn:E; split.
    + done.
    + intros H. rewrite H in E; [done|left].
    + intros H x [->|Hx]%elem_of_cons; [done|by apply IH].
    + intros H. apply IH. intros x Hx. apply H. by right.
Qed.
End lists.

#[export] Instance filter_Permutation {A} (p : A → bool) : Proper (Permutation ==> Permutation) (List.filter p).
Proof.
  induction 1 as [|x l k _ IH|x y l|l k m _ IH1 _ IH2]; simpl; [done| | |by transitivity (List.filter p k)].
  - destruct (p x); [by constructor|done].
  - destruct (p x), (p y); solve [constructor|done].
Qed.

(** ** Stable sorting ([slice::sort_by]) *)

Section sort.
Context {A : Type} (le : A → A → bool).

Fixpoint sort_insert (x : A) (l : list A) : list A :=
  match l with
  | [] => [x]
  | y :: l' => if le x y then x :: y :: l' else y :: sort_insert x l'
  end.
Definition sort_by (l : list A) : list A := foldr sort_insert [] l.

Lemma sort_insert_perm x l : sort_insert x l ≡ₚ x :: l.
Proof.
  induction l as [|y l IH]; simpl; [done|]. case_match; [done|]. rewrite IH. constructor.
Qed.

Lemma sort_by_perm l : sort_by l ≡ₚ l.
Proof. induction l as [|x l IH]; simpl; [done|]. by rewrite sort_insert_perm, IH. Qed.

Context (le_total : ∀ x y, le x y = true ∨ le y x = true).
Context (le_trans : ∀ x y z, le x y = true → le y z = true → le x z = true).

Definition sorted (l : list A) : Prop := StronglySorted (λ x y, le x y = true) l.

Lemma sort_insert_sorted x l : sorted l → sorted (sort_insert x l).
Proof.
  induction 1 as [|y l Hs IH Hy]; simpl; [by repeat constructor|].
  destruct (le x y) eqn:E.
  - constructor; [by constructor|]. constructor; [done|].
    eapply Forall_impl; [done|]. simpl. eauto.
  - constructor; [done|]. rewrite sort_insert_perm. constructor; [|done].
    destruct (le_total x y); congruence.
Qed.

Lemma sort_by_sorted l : sorted (sort_by l).
Proof. induction l; simpl; [constructor|by apply sort_insert_sorted]. Qed.

(** Filtering commutes with sorting. *)
Lemma sort_insert_filter (p : A → bool) x l :
  sorted l →
  List.filter p (sort_insert x l) =
    if p x then sort_insert x (List.filter p l) else List.filter p l.
Proof.
  induction 1 as [|y l Hs IH Hy]; simpl; [by destruct (p x)|].
  destruct (le x y) eqn:E; simpl.
  - destruct (p x) eqn:Ex; [|done]. destruct (p y) eqn:Ey; simpl; [by rewrite E|].
    assert (Hx : Forall (λ z, le x z = true) (List.filter p l)).
    { apply List.incl_Forall with l; [intros z Hz; by apply filter_In in Hz as [? _]|].
      eapply Forall_impl; [exact Hy|]. simpl. eauto. }
    destruct Hx as [|z l' Hz _]; simpl; [done|by rewrite Hz].
  - rewrite IH. destruct (p y) eqn:Ey, (p x) eqn:Ex; simpl; rewrite ?E; done.
Qed.

Lemma sort_by_filter (p : A → bool) l : List.filter p (sort_by l) = sort_by (List.filter p l).
Proof.
  induction l as [|x l IH]; simpl; [done|].
  rewrite sort_insert_filter by apply sort_by_sorted. rewrite IH. by destruct (p x).
Qed.
End sort.
