(* ===== verification/Text.v ===== *)
(** * Text: Rust's [str] and [char]

    A string is the list of its Unicode scalar values, which is how the program
    counts ([chars().count()]), trims, splits and joins it.  The operations are
    the standard library's, on the arguments the program calls them with. *)

From Stdlib Require Import String Ascii DecimalString DecimalNat.
From stdpp Require Import prelude strings.
From S2P Require Import Prelude.

Abbreviation char := N (only parsing).
Abbreviation str := (list N) (only parsing).

(** An ASCII literal of the source. *)
Definition lit (s : string) : str := N_of_ascii <$> list_ascii_of_string s.

(** [char::is_whitespace]: the Unicode [White_Space] property. *)
Definition is_whitespace (c : char) : bool :=
  ((9 <=? c) && (c <=? 13) || (c =? 32) || (c =? 133) || (c =? 160)
   || (c =? 5760) || (8192 <=? c) && (c <=? 8202) || (c =? 8232)
   || (c =? 8233) || (c =? 8239) || (c =? 8287) || (c =? 12288))%N.

(** [str::is_empty]. *)
Definition str_is_empty (s : str) : bool :=
  match s with [] => true | _ => false end.

Definition str_eqb (a b : str) : bool := bool_decide (a = b).

(** ** Trimming *)

Section trim.
Context (p : char → bool).

Fixpoint trim_start_matches (s : str) : str :=
  match s with
  | [] => []
  | c :: s' => if p c then trim_start_matches s' else s
  end.

Definition trim_end_matches (s : str) : str :=
  reverse (trim_start_matches (reverse s)).

Definition trim_matches (s : str) : str :=
  trim_end_matches (trim_start_matches s).
End trim.

Definition trim_end : str → str := trim_end_matches is_whitespace.
Definition trim : str → str := trim_matches is_whitespace.

(** ** ASCII case *)

Definition ascii_lower (c : char) : char :=
  if ((65 <=? c) && (c <=? 90))%N then (c + 32)%N else c.
Definition to_ascii_lowercase (s : str) : str := ascii_lower <$> s.
Definition eq_ignore_ascii_case (a b : str) : bool :=
  str_eqb (to_ascii_lowercase a) (to_ascii_lowercase b).

(** ** Searching and splitting *)

Fixpoint starts_with (pat s : str) : bool :=
  match pat, s with
  | [], _ => true
  | a :: pat', b :: s' => (a =? b)%N && starts_with pat' s'
  | _ :: _, [] => false
  end.

Definition ends_with (pat s : str) : bool := starts_with (reverse pat) (reverse s).

Fixpoint contains (pat s : str) : bool :=
  starts_with pat s ||
  match s with [] => false | _ :: s' => contains pat s' end.

Fixpoint strip_prefix (pat s : str) : option str :=
  match pat, s with
  | [], _ => Some s
  | a :: pat', b :: s' => if (a =? b)%N then strip_prefix pat' s' else None
  | _ :: _, [] => None
  end.

(** [str::split] on a character predicate: the pieces between the matching
    characters, empty pieces included. *)
Fixpoint split_on (p : char → bool) (s : str) : list str :=
  match s with
  | [] => [[]]
  | c :: s' =>
      if p c then [] :: split_on p s'
      else match split_on p s' with
           | [] => [[c]]
           | w :: ws => (c :: w) :: ws
           end
  end.

Definition split_whitespace (s : str) : list str :=
  List.filter (λ w, negb (str_is_empty w)) (split_on is_whitespace s).

(** [str::split] on a non-empty string pattern, left to right and without
    overlap: [skip] counts the characters of a match still to be dropped. *)
Fixpoint split_str_go (pat : str) (skip : nat) (acc s : str) : list str :=
  match s with
  | [] => [reverse acc]
  | c :: s' =>
      match skip with
      | S k => split_str_go pat k acc s'
      | O => if starts_with pat s
             then reverse acc :: split_str_go pat (Nat.pred (length pat)) [] s'
             else split_str_go pat 0 (c :: acc) s'
      end
  end.

Definition split_str (pat s : str) : list str := split_str_go pat 0 [] s.

(** [slice::join]. *)
Fixpoint join (sep : str) (ws : list str) : str :=
  match ws with
  | [] => []
  | [w] => w
  | w :: ws' => w ++ sep ++ join sep ws'
  end.

(** [str::replace] of a non-empty pattern. *)
Definition replace (pat to s : str) : str := join to (split_str pat s).

(** [split_once] on a character. *)
Fixpoint split_once (c : char) (s : str) : option (str * str) :=
  match s with
  | [] => None
  | d :: s' =>
      if (d =? c)%N then Some ([], s')
      else '(a, b) ← split_once c s'; Some (d :: a, b)
  end.

(** [Display] of an unsigned integer. *)
Definition show_nat (n : nat) : str := lit (NilEmpty.string_of_uint (Nat.to_uint n)).

(** Byte-lexicographic [Ord] of [str]; on scalar values it is the
    lexicographic order of the code points (UTF-8 preserves it). *)
Fixpoint str_compare (a b : str) : comparison :=
  match a, b with
  | [], [] => Eq
  | [], _ :: _ => Lt
  | _ :: _, [] => Gt
  | x :: a', y :: b' =>
      match (x ?= y)%N with Eq => str_compare a' b' | c => c end
  end.
Definition str_ltb (a b : str) : bool :=
  match str_compare a b with Lt => true | _ => false end.

(** ** Lemmas *)

Lemma str_eqb_true a b : str_eqb a b = true ↔ a = b.
Proof. apply bool_decide_eq_true. Qed.
Lemma str_eqb_false a b : str_eqb a b = false ↔ a ≠ b.
Proof. apply bool_decide_eq_false. Qed.
Lemma str_eqb_refl a : str_eqb a a = true.
Proof. by apply str_eqb_true. Qed.
#[export] Hint Rewrite str_eqb_refl : rust_simpl.

Lemma str_is_empty_true s : str_is_empty s = true ↔ s = [].
Proof. by destruct s. Qed.
Lemma str_is_empty_false s : str_is_empty s = false ↔ s ≠ [].
Proof. by destruct s. Qed.

Lemma starts_with_spec pat s : starts_with pat s = true ↔ ∃ k, s = pat ++ k.
Proof.
  revert s. induction pat as [|a pat IH]; intros s; simpl.
  - split; [by exists s|done].
  - destruct s as [|b s]; [by split; [|intros [??]]|].
    rewrite andb_true_iff, N.eqb_eq, IH. split.
    + intros [-> [k ->]]. by exists k.
    + intros [k [= -> ->]]. split; [done|by exists k].
Qed.

Lemma strip_prefix_Some pat s k : strip_prefix pat s = Some k ↔ s = pat ++ k.
Proof.
  revert s. induction pat as [|a pat IH]; intros s; simpl.
  - split; [by intros [= ->]|by intros ->].
  - destruct s as [|b s]; [done|]. destruct (N.eqb_spec a b) as [->|]; simpl.
    + rewrite IH. split; [by intros ->|by intros [= ->]].
    + split; [done|]. by intros [= ->].
Qed.

Section trim_lemmas.
Context (p : char → bool).
Implicit Types s : str.

Lemma trim_start_suffix s : ∃ k, s = k ++ trim_start_matches p s ∧ Forall (λ c, p c = true) k.
Proof.
  induction s as [|c s (k & Hs & Hk)]; simpl; [by exists []|].
  case_match; [|by exists []].
  exists (c :: k). split; [simpl; congruence|by constructor].
Qed.

Lemma trim_start_head s c : head (trim_start_matches p s) = Some c → p c = false.
Proof. induction s as [|d s IH]; intros; simplify_eq/=. case_match; simplify_eq/=; auto. Qed.

Lemma trim_end_prefix s : ∃ k, s = trim_end_matches p s ++ k ∧ Forall (λ c, p c = true) k.
Proof.
  destruct (trim_start_suffix (reverse s)) as (k & Hs & Hk).
  exists (reverse k). unfold trim_end_matches. split.
  - by rewrite <- reverse_app, <- Hs, reverse_involutive.
  - by apply Forall_reverse.
Qed.

Lemma trim_decompose s :
  ∃ l r, s = l ++ trim_matches p s ++ r ∧
    Forall (λ c, p c = true) l ∧ Forall (λ c, p c = true) r.
Proof.
  destruct (trim_start_suffix s) as (l & Hl & ?).
  destruct (trim_end_prefix (trim_start_matches p s)) as (r & Hr & ?).
  exists l, r. unfold trim_matches. rewrite <- Hr. done.
Qed.

Lemma trim_length s : length (trim_matches p s) ≤ length s.
Proof.
  destruct (trim_decompose s) as (l & r & Hs & _).
  rewrite Hs at 2. rewrite !length_app. lia.
Qed.

Lemma trim_nil_iff s : trim_matches p s = [] ↔ Forall (λ c, p c = true) s.
Proof.
  split.
  - intros E. destruct (trim_decompose s) as (l & r & Hs & ? & ?).
    rewrite E in Hs. rewrite Hs. apply Forall_app; auto.
  - intros H. unfold trim_matches.
    assert (trim_start_matches p s = []) as ->; [|done].
    induction H as [|c s Hc _ IH]; simpl; [done|]. by rewrite Hc.
Qed.

Lemma trim_start_fixed s : match head s with Some c => p c = false | None => True end →
  trim_start_matches p s = s.
Proof. destruct s as [|c s]; simpl; [done|]. by intros ->. Qed.

Lemma trim_last s c : last (trim_matches p s) = Some c → p c = false.
Proof.
  unfold trim_matches, trim_end_matches. rewrite last_reverse.
  apply trim_start_head.
Qed.

Lemma trim_head s c : head (trim_matches p s) = Some c → p c = false.
Proof.
  unfold trim_matches. intros H.
  destruct (trim_end_prefix (trim_start_matches p s)) as (k & E & _).
  apply (trim_start_head s). rewrite E.
  destruct (trim_end_matches p (trim_start_matches p s)); simplify_eq/=. done.
Qed.

(** Trimming is idempotent. *)
Lemma trim_idemp s : trim_matches p (trim_matches p s) = trim_matches p s.
Proof.
  assert (trim_start_matches p (trim_matches p s) = trim_matches p s) as E.
  { apply trim_start_fixed. case_match; [|done]. by eapply trim_head. }
  unfold trim_matches at 1. rewrite E. unfold trim_end_matches.
  rewrite trim_start_fixed; [by rewrite reverse_involutive|].
  destruct (head (reverse (trim_matches p s))) eqn:Hh; [|done].
  apply (trim_last s). by rewrite <- Hh, head_reverse.
Qed.
End trim_lemmas.

Lemma str_compare_eq a b : str_compare a b = Eq ↔ a = b.
Proof.
  revert b. induction a as [|x a IH]; intros [|y b]; simpl; try done.
  destruct (N.compare_spec x y) as [->| |]; rewrite ?IH.
  - split; congruence.
  - split; [done|]. intros [= -> ->]. lia.
  - split; [done|]. intros [= -> ->]. lia.
Qed.

Lemma str_compare_antisym a b : str_compare b a = CompOpp (str_compare a b).
Proof.
  revert b. induction a as [|x a IH]; intros [|y b]; simpl; try done.
  rewrite (N.compare_antisym x y). destruct (x ?= y)%N; simpl; auto.
Qed.

Lemma str_ltb_irrefl a : str_ltb a a = false.
Proof. unfold str_ltb. by rewrite (proj2 (str_compare_eq a a)). Qed.

Lemma str_ltb_trans a b c : str_ltb a b = true → str_ltb b c = true → str_ltb a c = true.
Proof.
  unfold str_ltb. revert b c.
  induction a as [|x a IH]; intros [|y b] [|z c]; simpl; try done.
  destruct (N.compare_spec x y) as [E1|E1|E1]; try done;
    destruct (N.compare_spec y z) as [E2|E2|E2]; try done; intros ??.
  2-4: by rewrite (proj2 (N.compare_lt_iff x z)) by lia.
  subst. rewrite N.compare_refl. by apply (IH b).
Qed.

Lemma str_ltb_total a b : str_ltb a b = false → str_ltb b a = false → a = b.
Proof.
  unfold str_ltb. rewrite (str_compare_antisym a b).
  destruct (str_compare a b) eqn:E; simpl; try done.
  intros. by apply str_compare_eq.
Qed.

Lemma N_of_ascii_inj : Inj (=) (=) N_of_ascii.
Proof. intros a b H. by rewrite <- (ascii_N_embedding a), H, ascii_N_embedding. Qed.

(** Literals are equal only when they are spelled the same. *)
Lemma lit_inj s1 s2 : lit s1 = lit s2 → s1 = s2.
Proof.
  unfold lit. intros H.
  rewrite <- (string_of_list_ascii_of_string s1), <- (string_of_list_ascii_of_string s2).
  f_equal. revert H. apply list_fmap_eq_inj. apply N_of_ascii_inj.
Qed.

Lemma show_nat_inj n m : show_nat n = show_nat m → n = m.
Proof.
  unfold show_nat. intros H%lit_inj.
  apply (f_equal NilEmpty.uint_of_string) in H. rewrite !NilEmpty.usu in H.
  apply DecimalNat.Unsigned.to_uint_inj. congruence.
Qed.

(** [Display] of an integer prints decimal digits only. *)
Lemma show_nat_digits n c : c ∈ show_nat n → (48 ≤ c ≤ 57)%N.
Proof.
  unfold show_nat, lit. generalize (Nat.to_uint n). intros d.
  induction d; simpl; try (by intros ?%not_elem_of_nil);
    (intros [->|?]%elem_of_cons; [vm_compute; split; discriminate|auto]).
Qed.

(** ** Encodings *)

(** The UTF-8 bytes of a scalar value and of a string ([str::bytes]). *)
Definition utf8_char (c : char) : list N :=
  (if c <? 128 then [c]
   else if c <? 2048 then [192 + N.shiftr c 6; 128 + N.land c 63]
   else if c <? 65536 then
     [224 + N.shiftr c 12; 128 + N.land (N.shiftr c 6) 63; 128 + N.land c 63]
   else [240 + N.shiftr c 18; 128 + N.land (N.shiftr c 12) 63;
         128 + N.land (N.shiftr c 6) 63; 128 + N.land c 63])%N.

Definition utf8 (s : str) : list N := s ≫= utf8_char.

(** Lower-case hexadecimal, zero-padded to [n] digits ([{:0nx}]). *)
Definition hex_digit (d : N) : char := (if d <? 10 then 48 + d else 87 + d)%N.
Fixpoint hex_pad (n : nat) (v : N) : str :=
  match n with
  | O => []
  | S n' => hex_pad n' (N.shiftr v 4) ++ [hex_digit (N.land v 15)]
  end.

Lemma hex_pad_length n v : length (hex_pad n v) = n.
Proof. revert v. induction n as [|n IH]; intros v; simpl; [done|]. rewrite length_app, IH. simpl. lia. Qed.

(** A Unicode scalar value, and a string of them: what a Rust [char] and [str] hold. *)
Definition is_scalar (c : char) : bool :=
  ((c <? 55296) || (57343 <? c) && (c <? 1114112))%N.
Definition is_str (s : str) : Prop := Forall (λ c, is_scalar c = true) s.

Definition is_cont (b : N) : bool := ((128 <=? b) && (b <? 192))%N.

(** [String::from_utf8]: the first scalar value of the bytes and the rest. *)
Definition decode_char (bytes : list N) : option (char * list N) :=
  match bytes with
  | [] => None
  | b0 :: r0 =>
      if (b0 <? 128)%N then Some (b0, r0)
      else if ((194 <=? b0) && (b0 <? 224))%N then
        match r0 with
        | b1 :: r1 => if is_cont b1 then Some ((b0 - 192) * 64 + (b1 - 128), r1)%N else None
        | _ => None
        end
      else if ((224 <=? b0) && (b0 <? 240))%N then
        match r0 with
        | b1 :: b2 :: r2 =>
            let c := ((b0 - 224) * 4096 + (b1 - 128) * 64 + (b2 - 128))%N in
            if is_cont b1 && is_cont b2 && (2048 <=? c)%N && is_scalar c then Some (c, r2) else None
        | _ => None
        end
      else if ((240 <=? b0) && (b0 <? 245))%N then
        match r0 with
        | b1 :: b2 :: b3 :: r3 =>
            let c := ((b0 - 240) * 262144 + (b1 - 128) * 4096 + (b2 - 128) * 64 + (b3 - 128))%N in
            if is_cont b1 && is_cont b2 && is_cont b3 && (65536 <=? c)%N && is_scalar c
            then Some (c, r3) else None
        | _ => None
        end
      else None
  end.

Fixpoint from_utf8_go (fuel : nat) (bytes : list N) : option str :=
  match bytes, fuel with
  | [], _ => Some []
  | _, O => None
  | _, S fuel =>
      '(c, rest) ← decode_char bytes;
      s ← from_utf8_go fuel rest;
      Some (c :: s)
  end.
Definition from_utf8 (bytes : list N) : option str := from_utf8_go (length bytes) bytes.

Lemma land63 n : N.land n 63 = (n mod 64)%N.
Proof. change 63%N with (N.ones 6). by rewrite N.land_ones. Qed.

Lemma shiftr_div n k : N.shiftr n k = (n / 2 ^ k)%N.
Proof. apply N.shiftr_div_pow2. Qed.

Ltac bool_arith :=
  repeat match goal with
  | |- context [(?a <? ?b)%N] => destruct (N.ltb_spec a b); try (exfalso; lia)
  | |- context [(?a <=? ?b)%N] => destruct (N.leb_spec a b); try (exfalso; lia)
  end.

Lemma decode_utf8_char c rest :
  is_scalar c = true → decode_char (utf8_char c ++ rest) = Some (c, rest).
Proof.
  unfold is_scalar. intros Hs.
  assert (Hc : (c < 55296 ∨ 57343 < c < 1114112)%N).
  { rewrite orb_true_iff, andb_true_iff, !N.ltb_lt in Hs. lia. }
  clear Hs. unfold utf8_char. rewrite !land63, !shiftr_div.
  change (2 ^ 6)%N with 64%N. change (2 ^ 12)%N with 4096%N. change (2 ^ 18)%N with 262144%N.
  pose proof (N.div_mod c 64 ltac:(done)) as H64.
  pose proof (N.mod_lt c 64 ltac:(done)) as L64.
  assert (H4096 : (c / 4096 = c / 64 / 64)%N) by (rewrite N.Div0.div_div; done).
  assert (H262144 : (c / 262144 = c / 64 / 64 / 64)%N) by (rewrite !N.Div0.div_div; done).
  rewrite H4096, H262144. set (q := (c / 64)%N) in *. set (r := (c mod 64)%N) in *.
  pose proof (N.div_mod q 64 ltac:(done)) as Hq. pose proof (N.mod_lt q 64 ltac:(done)) as Lq.
  set (q2 := (q / 64)%N) in *. set (r2 := (q mod 64)%N) in *.
  pose proof (N.div_mod q2 64 ltac:(done)) as Hq2. pose proof (N.mod_lt q2 64 ltac:(done)) as Lq2.
  set (q3 := (q2 / 64)%N) in *. set (r3 := (q2 mod 64)%N) in *.
  clearbody q r q2 r2 q3 r3.
  destruct (N.ltb_spec c 128); [|destruct (N.ltb_spec c 2048); [|destruct (N.ltb_spec c 65536)]].
  - unfold decode_char; simpl. bool_arith. done.
  - unfold decode_char, is_cont; simpl. bool_arith. simpl. do 2 f_equal. lia.
  - unfold decode_char, is_cont; simpl. bool_arith. simpl.
    unfold is_scalar. bool_arith; simpl; do 2 f_equal; lia.
  - unfold decode_char, is_cont; simpl. bool_arith. simpl.
    unfold is_scalar. bool_arith; simpl; do 2 f_equal; lia.
Qed.

Lemma utf8_char_length c : 1 ≤ length (utf8_char c).
Proof. unfold utf8_char. repeat case_match; simpl; lia. Qed.

Lemma from_utf8_go_utf8 fuel s :
  is_str s → length (utf8 s) ≤ fuel → from_utf8_go fuel (utf8 s) = Some s.
Proof.
  unfold utf8. intros Hs. revert fuel. induction Hs as [|c s Hc _ IH]; intros fuel Hf.
  - by destruct fuel.
  - rewrite bind_cons in *. rewrite length_app in Hf. pose proof (utf8_char_length c).
    destruct (utf8_char c ++ (s ≫= utf8_char)) as [|b bs] eqn:E.
    { apply (f_equal length) in E. rewrite length_app in E. simpl in E. lia. }
    destruct fuel as [|fuel]; [lia|]. cbn [from_utf8_go]. rewrite <- E.
    rewrite decode_utf8_char by done. simpl. rewrite IH by lia. done.
Qed.

(** Encoding and decoding a string. *)
Lemma from_utf8_utf8 s : is_str s → from_utf8 (utf8 s) = Some s.
Proof. intros. by apply from_utf8_go_utf8. Qed.
