(* ===== verification/AccessControl.v ===== *)
(** * AccessControl: document-level access control ([access_control.rs])

    The document allow-list ([DocAcl]), the requester's identity
    ([AccessContext]), the side table the store keeps next to an inner
    knowledge base, and the two handles over it: the ingest handle and the
    reader, which over-fetches, enforces the tenant boundary and then the
    allow-list, and truncates. *)

From stdpp Require Import prelude gmap strings.
From S2P Require Import Prelude Text.

(** ** Data *)

Record DocAcl := mk_DocAcl {
  acl_public : bool;
  acl_users : list str;
  acl_groups : list str;
}.

#[export] Instance DocAcl_eq_dec : EqDecision DocAcl.
Proof. solve_decision. Defined.

Module DocAcl.
Definition ACL_METADATA_KEY : str := lit "acl_v2".

Definition default : DocAcl := mk_DocAcl false [] [].

Definition public : DocAcl := mk_DocAcl true (acl_users default) (acl_groups default).

Definition for_users (users : list str) : DocAcl := mk_DocAcl false users [].

Definition for_groups (groups : list str) : DocAcl := mk_DocAcl false [] groups.

Definition with_users (users : list str) (self : DocAcl) : DocAcl :=
  mk_DocAcl (acl_public self) (acl_users self ++ users) (acl_groups self).

Definition with_groups (groups : list str) (self : DocAcl) : DocAcl :=
  mk_DocAcl (acl_public self) (acl_users self) (acl_groups self ++ groups).
End DocAcl.

Record AccessContext := mk_AccessContext {
  ctx_user_id : option str;
  ctx_groups : list str;
  ctx_organization_id : option str;
  ctx_agent_id : option str;
}.

#[export] Instance AccessContext_eq_dec : EqDecision AccessContext.
Proof. solve_decision. Defined.

Module AccessContext.
Definition new (user_id : option str) (groups : list str) : AccessContext :=
  mk_AccessContext user_id groups None None.

Definition for_user (user_id : str) : AccessContext :=
  mk_AccessContext (Some user_id) [] None None.

Definition anonymous : AccessContext := mk_AccessContext None [] None None.

Definition with_group (group : str) (self : AccessContext) : AccessContext :=
  mk_AccessContext (ctx_user_id self) (ctx_groups self ++ [group])
    (ctx_organization_id self) (ctx_agent_id self).

Definition with_organization_id (org : str) (self : AccessContext) : AccessContext :=
  mk_AccessContext (ctx_user_id self) (ctx_groups self) (Some org) (ctx_agent_id self).

Definition with_agent_id (agent : option str) (self : AccessContext) : AccessContext :=
  mk_AccessContext (ctx_user_id self) (ctx_groups self) (ctx_organization_id self) agent.

Definition can_access (self : AccessContext) (acl : DocAcl) : bool :=
  if acl_public acl then true
  else if is_some_and (λ uid, any (λ u, str_eqb u uid) (acl_users acl)) (ctx_user_id self)
  then true
  else any (λ g, bool_decide (g ∈ acl_groups acl)) (ctx_groups self).
End AccessContext.

Definition ORG_METADATA_KEY : str := lit "org_id".
Definition OVERFETCH_FACTOR : N := 5.
Definition OVERFETCH_FLOOR : N := 20.

Record DocEntry := mk_DocEntry {
  entry_org : option str;
  entry_acl : option DocAcl;
}.

Definition DocEntry_default : DocEntry := mk_DocEntry None None.

(** ** Interfaces of the engine crate

    [Document], [KnowledgeResult] and the [KnowledgeBase] trait live in the
    upstream engine; the program reads these projections of them. *)

Class KnowledgeTypes := {
  Document : Type;
  doc_id : Document → str;
  doc_metadata : Document → gmap str str;
  with_metadata : Document → str → str → Document;
  KnowledgeResult : Type;
  kr_document_id : KnowledgeResult → str;
}.

Class KnowledgeBase `{KnowledgeTypes} (KB : Type) := {
  kb_ingest : Document → KB → result str unit * KB;
  kb_query : KB → str → N → result str (list KnowledgeResult);
}.

(** The JSON form of a [DocAcl] is produced and read by serde. *)
Class AclCodec := {
  acl_to_string : DocAcl → str;
  acl_from_str : str → option DocAcl;
}.

(** ** The store *)

Section store.
Context `{KnowledgeBase KB, AclCodec}.

(** The inner backend and the shared side table. *)
Record AclKnowledgeStore := mk_AclKnowledgeStore {
  inner : KB;
  acls : gmap str DocEntry;
}.

Definition attach_to (acl : DocAcl) (doc : Document) : Document :=
  with_metadata doc DocAcl.ACL_METADATA_KEY (acl_to_string acl).

Definition from_metadata (metadata : gmap str str) : option DocAcl :=
  raw ← metadata !! DocAcl.ACL_METADATA_KEY; acl_from_str raw.

Definition new (kb : KB) : AclKnowledgeStore := mk_AclKnowledgeStore kb ∅.

Definition record_acl (document_id : str) (acl : DocAcl) (st : AclKnowledgeStore) :
    AclKnowledgeStore :=
  let entry := default DocEntry_default (acls st !! document_id) in
  mk_AclKnowledgeStore (inner st)
    (<[document_id := mk_DocEntry (entry_org entry) (Some acl)]> (acls st)).

Definition record_document (table : gmap str DocEntry) (doc : Document)
    (bound_org : option str) : gmap str DocEntry :=
  let org := opt_or (doc_metadata doc !! ORG_METADATA_KEY) bound_org in
  let acl := from_metadata (doc_metadata doc) in
  if is_none org && is_none acl then table
  else
    let entry := default DocEntry_default (table !! doc_id doc) in
    <[doc_id doc := mk_DocEntry
        (if is_some org then org else entry_org entry)
        (if is_some acl then acl else entry_acl entry)]> table.

(** [AclIngestHandle::ingest] ([bound_org = None]) and [AclReader::ingest]. *)
Definition ingest_bound (bound_org : option str) (doc : Document) (st : AclKnowledgeStore) :
    result str unit * AclKnowledgeStore :=
  let table := record_document (acls st) doc bound_org in
  let '(r, kb) := kb_ingest doc (inner st) in
  (r, mk_AclKnowledgeStore kb table).

Definition handle_ingest : Document → AclKnowledgeStore → result str unit * AclKnowledgeStore :=
  ingest_bound None.

Definition reader_ingest (ctx : AccessContext) :
    Document → AclKnowledgeStore → result str unit * AclKnowledgeStore :=
  ingest_bound (ctx_organization_id ctx).

Definition handle_query (st : AclKnowledgeStore) (query : str) (limit : N) :
    result str (list KnowledgeResult) :=
  kb_query (inner st) query limit.

(** The two boundaries, outer first. *)
Definition same_tenant (ctx : AccessContext) (entry : option DocEntry) : bool :=
  match ctx_organization_id ctx with
  | Some requester_org =>
      is_some_and (λ doc_org, str_eqb doc_org requester_org) (entry ≫= entry_org)
  | None => true
  end.

Definition allowed (ctx : AccessContext) (table : gmap str DocEntry) (r : KnowledgeResult) : bool :=
  let entry := table !! kr_document_id r in
  same_tenant ctx entry &&
  match entry ≫= entry_acl with
  | Some acl => AccessContext.can_access ctx acl
  | None => true
  end.

(** The filter loop: push an allowed candidate, stop once [limit] are out. *)
Fixpoint reader_loop (ctx : AccessContext) (table : gmap str DocEntry) (limit : N)
    (out : list KnowledgeResult) (candidates : list KnowledgeResult) : list KnowledgeResult :=
  match candidates with
  | [] => out
  | r :: rest =>
      if allowed ctx table r then
        let out := out ++ [r] in
        if (N.of_nat (length out) =? limit)%N then out
        else reader_loop ctx table limit out rest
      else reader_loop ctx table limit out rest
  end.

Definition candidate_n (limit : N) : N :=
  N.max (saturating_mul limit OVERFETCH_FACTOR) OVERFETCH_FLOOR.

Definition reader_query (ctx : AccessContext) (st : AclKnowledgeStore) (query : str) (limit : N) :
    result str (list KnowledgeResult) :=
  candidates ← kb_query (inner st) query (candidate_n limit);
  mret (reader_loop ctx (acls st) limit [] candidates).
End store.
Arguments AclKnowledgeStore : clear implicits.

(** ** Lemmas *)

Lemma can_access_spec ctx acl :
  AccessContext.can_access ctx acl = true ↔
    acl_public acl = true ∨
    (∃ uid, ctx_user_id ctx = Some uid ∧ uid ∈ acl_users acl) ∨
    (∃ g, g ∈ ctx_groups ctx ∧ g ∈ acl_groups acl).
Proof.
  unfold AccessContext.can_access. destruct (acl_public acl); [naive_solver|].
  assert (is_some_and (λ uid, any (λ u, str_eqb u uid) (acl_users acl)) (ctx_user_id ctx) = true ↔
    ∃ uid, ctx_user_id ctx = Some uid ∧ uid ∈ acl_users acl) as Hu.
  { destruct (ctx_user_id ctx) as [uid|]; simpl; [|naive_solver].
    rewrite any_true. setoid_rewrite str_eqb_true. naive_solver. }
  assert (any (λ g, bool_decide (g ∈ acl_groups acl)) (ctx_groups ctx) = true ↔
    ∃ g, g ∈ ctx_groups ctx ∧ g ∈ acl_groups acl) as Hg.
  { rewrite any_true. by setoid_rewrite bool_decide_eq_true. }
  destruct (is_some_and _ _); [|rewrite Hg]; naive_solver.
Qed.

Section store_lemmas.
Context `{KnowledgeBase KB, AclCodec}.
Implicit Types (st : AclKnowledgeStore KB) (rs out : list KnowledgeResult).

(** The loop is a bounded filter, as long as it has not reached the limit. *)
Lemma reader_loop_filter ctx table limit out rs :
  (N.of_nat (length out) < limit)%N →
  reader_loop ctx table limit out rs =
    out ++ take (N.to_nat limit - length out) (List.filter (allowed ctx table) rs).
Proof.
  revert out. induction rs as [|r rs IH]; intros out Hlt; simpl.
  - by rewrite take_nil, app_nil_r.
  - destruct (allowed ctx table r); [|by apply IH].
    rewrite length_app; simpl.
    destruct (N.to_nat limit - length out) as [|k] eqn:Ek; [lia|]. simpl.
    case_match eqn:E.
    + apply N.eqb_eq in E. replace k with 0 by lia. done.
    + apply N.eqb_neq in E. rewrite IH by (rewrite length_app; simpl; lia).
      rewrite length_app, <- (assoc_L (++)); simpl.
      by replace (N.to_nat limit - (length out + 1)) with k by lia.
Qed.

(** With [limit = 0] the stop test never fires. *)
Lemma reader_loop_zero ctx table out rs :
  reader_loop ctx table 0 out rs = out ++ List.filter (allowed ctx table) rs.
Proof.
  revert out. induction rs as [|r rs IH]; intros out; simpl.
  - by rewrite app_nil_r.
  - destruct (allowed ctx table r); [|by apply IH].
    rewrite length_app; simpl. rewrite (proj2 (N.eqb_neq _ _)) by lia.
    by rewrite IH, <- (assoc_L (++)).
Qed.

Lemma allowed_spec ctx table r :
  allowed ctx table r = true ↔
    (∀ org, ctx_organization_id ctx = Some org →
       ∃ e, table !! kr_document_id r = Some e ∧ entry_org e = Some org) ∧
    (∀ e acl, table !! kr_document_id r = Some e → entry_acl e = Some acl →
       AccessContext.can_access ctx acl = true).
Proof.
  unfold allowed, same_tenant. rewrite andb_true_iff.
  destruct (ctx_organization_id ctx) as [org|], (table !! kr_document_id r) as [[o a]|]; simpl.
  - destruct o as [o|]; simpl; [|naive_solver].
    rewrite str_eqb_true. destruct a; naive_solver.
  - naive_solver.
  - destruct a; naive_solver.
  - naive_solver.
Qed.

Lemma record_document_ne table doc b i :
  i ≠ doc_id doc → record_document table doc b !! i = table !! i.
Proof. intros. unfold record_document. case_match; [done|]. by rewrite lookup_insert_ne. Qed.
End store_lemmas.

(** ** Ingest histories *)

Section history.
Context `{KnowledgeBase KB, AclCodec}.

(** One ingest through the store: the org the handle is bound to, and the
    document. *)
Definition ingest_op : Type := option str * Document.

Definition run_ingests (ops : list ingest_op) (st : AclKnowledgeStore KB) :
    AclKnowledgeStore KB :=
  foldl (λ st '(b, d), (ingest_bound b d st).2) st ops.

Definition effective_org (op : ingest_op) : option str :=
  opt_or (doc_metadata op.2 !! ORG_METADATA_KEY) op.1.

Lemma ingest_bound_acls b d st :
  acls (ingest_bound b d st).2 = record_document (acls st) d b.
Proof. unfold ingest_bound. by destruct (kb_ingest d (inner st)). Qed.

Lemma record_document_org table b d org :
  entry_org <$> record_document table d b !! doc_id d = Some (Some org) →
  effective_org (b, d) = Some org ∨ entry_org <$> table !! doc_id d = Some (Some org).
Proof.
  unfold record_document, effective_org; simpl.
  destruct (opt_or _ b) as [o|]; simpl.
  - rewrite lookup_insert_eq; simpl. naive_solver.
  - case_match; [auto|]. rewrite lookup_insert_eq; simpl.
    destruct (table !! doc_id d) as [[o a]|]; naive_solver.
Qed.

Lemma run_ingests_org ops st i org :
  (∀ op, op ∈ ops → doc_id op.2 = i → effective_org op ≠ Some org) →
  entry_org <$> acls st !! i ≠ Some (Some org) →
  entry_org <$> acls (run_ingests ops st) !! i ≠ Some (Some org).
Proof.
  revert st. induction ops as [|[b d] ops IH]; intros st Hops Hst; simpl; [done|].
  apply IH; [intros op Hop; apply Hops; by right|].
  rewrite ingest_bound_acls. destruct (decide (doc_id d = i)) as [<-|Hne].
  - intros [He|He]%record_document_org; [|done].
    by apply (Hops (b, d)); [left|..].
  - by rewrite record_document_ne.
Qed.
End history.

Section query_lemmas.
Context `{KnowledgeBase KB, AclCodec}.
Implicit Types (st : AclKnowledgeStore KB).

Lemma reader_loop_spec ctx table limit rs :
  reader_loop ctx table limit [] rs =
    (if (limit =? 0)%N then List.filter (allowed ctx table) rs
     else take (N.to_nat limit) (List.filter (allowed ctx table) rs)).
Proof.
  case_match eqn:E; [apply N.eqb_eq in E as ->|apply N.eqb_neq in E].
  - by rewrite reader_loop_zero.
  - rewrite reader_loop_filter by (simpl; lia). simpl. by rewrite Nat.sub_0_r.
Qed.

Lemma reader_query_allowed ctx st q limit out r :
  reader_query ctx st q limit = Ok out → r ∈ out → allowed ctx (acls st) r = true.
Proof.
  unfold reader_query. destruct (kb_query _ _ _) as [rs|]; simpl; [|done].
  intros [= <-]. rewrite reader_loop_spec. intros Hr.
  assert (r ∈ List.filter (allowed ctx (acls st)) rs) as Hf.
  { case_match; [done|].
    apply elem_of_take in Hr as (i & Hi & _). by eapply list_elem_of_lookup_2. }
  by apply list_elem_of_In, filter_In in Hf as [_ Hf].
Qed.
End query_lemmas.

(** ** Properties *)

Section properties.
Context `{KnowledgeBase KB, AclCodec}.
Implicit Types (st : AclKnowledgeStore KB).

(** A reader's answer is exactly the first [limit] candidates, in the
    backend's order, that pass the tenant boundary and the allow-list; a
    backend error is passed through.  With [limit = 0] the stop test of the
    loop never fires and every readable candidate is returned. *)
Theorem reader_query_exact ctx st q limit :
  reader_query ctx st q limit =
    (λ rs, let readable := List.filter (allowed ctx (acls st)) rs in
           if (limit =? 0)%N then readable else take (N.to_nat limit) readable)
    <$> kb_query (inner st) q (candidate_n limit).
Proof.
  unfold reader_query. destruct (kb_query _ _ _); simpl; [|done].
  by rewrite reader_loop_spec.
Qed.

(** Nothing leaks, whatever the limit: every result a requester gets is
    recorded as its organization's (when it has one), and if an allow-list is
    recorded for it then it is public or names the requester or one of the
    requester's groups. *)
Theorem reader_query_confidential ctx st q limit out r :
  reader_query ctx st q limit = Ok out →
  r ∈ out →
  (∀ org, ctx_organization_id ctx = Some org →
     ∃ e, acls st !! kr_document_id r = Some e ∧ entry_org e = Some org) ∧
  (∀ e acl, acls st !! kr_document_id r = Some e → entry_acl e = Some acl →
     acl_public acl = true ∨
     (∃ uid, ctx_user_id ctx = Some uid ∧ uid ∈ acl_users acl) ∨
     (∃ g, g ∈ ctx_groups ctx ∧ g ∈ acl_groups acl)).
Proof.
  intros Hq Hr. destruct (proj1 (allowed_spec _ _ _) (reader_query_allowed _ _ _ _ _ _ Hq Hr)) as [Ht Ha].
  split; [done|]. intros e acl He Hacl. by apply can_access_spec, (Ha e).
Qed.

(** Over-fetching loses nothing when the backend ranks consistently: if
    the candidate pool holds [limit] readable documents, or covers the whole
    ranking, the answer is the top [limit] readable documents of the whole
    ranking. *)
Theorem reader_query_complete ctx st q limit ranking :
  (∀ n, kb_query (inner st) q n = Ok (take (N.to_nat n) ranking)) →
  (0 < limit)%N →
  let pool := take (N.to_nat (candidate_n limit)) ranking in
  N.to_nat limit ≤ length (List.filter (allowed ctx (acls st)) pool) ∨ pool = ranking →
  reader_query ctx st q limit =
    Ok (take (N.to_nat limit) (List.filter (allowed ctx (acls st)) ranking)).
Proof.
  intros Hrank Hl pool Hpool. unfold reader_query. rewrite Hrank. simpl.
  rewrite reader_loop_spec, (proj2 (N.eqb_neq _ _)) by lia. fold pool.
  unfold mret, result_ret. f_equal. destruct Hpool as [Hlen|Heq]; [|by rewrite Heq].
  rewrite <- (take_drop (N.to_nat (candidate_n limit)) ranking).
  fold pool. by rewrite List.filter_app, take_app_le.
Qed.

(** C1. A requester whose organization is [org] never receives a document
    that no ingest attributed to [org] - by the document's own stamp or by
    the organization the ingesting handle was bound to. *)
Theorem tenant_isolation ops kb ctx org q limit out i :
  ctx_organization_id ctx = Some org →
  (∀ op, op ∈ ops → doc_id op.2 = i → effective_org op ≠ Some org) →
  reader_query ctx (run_ingests ops (new kb)) q limit = Ok out →
  i ∉ kr_document_id <$> out.
Proof.
  intros Hctx Hops Hq (r & -> & Hr)%list_elem_of_fmap.
  destruct (proj1 (allowed_spec _ _ _) (reader_query_allowed _ _ _ _ _ _ Hq Hr)) as [Ht _].
  destruct (Ht org Hctx) as (e & He & Ho).
  apply (run_ingests_org ops (new kb) (kr_document_id r) org); [done..|].
  by rewrite He, <- Ho.
Qed.
End properties.

(** ** Witnesses

    A concrete backend: documents are (id, metadata) pairs, a query returns the
    first documents in insertion order. *)

Module Demo.
#[export] Instance demo_types : KnowledgeTypes := {|
  Document := str * gmap str str;
  doc_id := fst;
  doc_metadata := snd;
  with_metadata d k v := (d.1, <[k := v]> d.2);
  KnowledgeResult := str;
  kr_document_id := id;
|}.

#[export] Instance demo_kb : KnowledgeBase (list (str * gmap str str)) := {|
  kb_ingest d kb := (Ok (), kb ++ [d]);
  kb_query kb q n := Ok (take (N.to_nat n) kb.*1);
|}.

(** "u" locks a document to user [alice]; anything else is malformed. *)
#[export] Instance demo_codec : AclCodec := {|
  acl_to_string _ := lit "u";
  acl_from_str s := if str_eqb s (lit "u") then Some (DocAcl.for_users [lit "alice"]) else None;
|}.

Definition doc (i : string) (md : list (str * str)) : Document := (lit i, list_to_map md).
Definition ops : list ingest_op :=
  [ (None, doc "a1" [(ORG_METADATA_KEY, lit "acme")]);
    (Some (lit "acme"), doc "a2" [(DocAcl.ACL_METADATA_KEY, lit "u")]);
    (Some (lit "globex"), doc "g1" []) ].
Definition kb0 : list (str * gmap str str) := [].
Definition st : AclKnowledgeStore _ := run_ingests ops (new kb0).
Definition bob : AccessContext :=
  AccessContext.with_organization_id (lit "acme") (AccessContext.for_user (lit "bob")).
Definition alice : AccessContext :=
  AccessContext.with_organization_id (lit "acme") (AccessContext.for_user (lit "alice")).
Definition hits (ids : list string) : list KnowledgeResult := lit <$> ids.
End Demo.
Import Demo.

Lemma reader_query_confidential_witness :
  reader_query bob Demo.st [] 3 = Ok (hits ["a1"%string]) ∧
  ∃ e, acls Demo.st !! lit "a1" = Some e ∧ entry_org e = Some (lit "acme").
Proof.
  split; [by vm_compute|].
  refine (proj1 (reader_query_confidential bob Demo.st [] 3 (hits ["a1"%string])
    (lit "a1" : KnowledgeResult) _ _) (lit "acme") _).
  - by vm_compute.
  - by left.
  - done.
Defined.

Lemma reader_query_complete_witness :
  reader_query alice Demo.st [] 1 = Ok (hits ["a1"%string]).
Proof.
  rewrite (reader_query_complete alice Demo.st [] 1 (hits ["a1"; "a2"; "g1"]%string)).
  - by vm_compute.
  - intros n. reflexivity.
  - lia.
  - left. vm_compute. lia.
Defined.

Lemma tenant_isolation_witness :
  reader_query alice Demo.st [] 0 = Ok (hits ["a1"; "a2"]%string) ∧
  lit "g1" ∉ kr_document_id <$> hits ["a1"; "a2"]%string.
Proof.
  split; [by vm_compute|].
  refine (tenant_isolation Demo.ops kb0 alice (lit "acme") [] 0
    (hits ["a1"; "a2"]%string) (lit "g1") _ _ _).
  - done.
  - intros op Hop Hid.
    repeat (apply elem_of_cons in Hop as [->|Hop]; [vm_compute in Hid; try discriminate; vm_compute; discriminate|]).
    by apply not_elem_of_nil in Hop.
  - by vm_compute.
Defined.
