(* ===== verification/Chunker.v ===== *)
(** * Chunker: document to chunks ([ingestion/src/chunker.rs], [connector.rs])

    The size-capped, overlapping splitter of the ingestion pipeline, with the
    paragraph split, the spill of oversized paragraphs, the greedy packer that
    breaks before headings and the overlap pass as the source composes them. *)

From stdpp Require Import prelude gmap strings list.
From S2P Require Import Prelude Text.

(** ** Data *)

Record RawDocument := mk_RawDocument {
  raw_id : str;
  raw_source : str;
  raw_title : option str;
  raw_content : str;
  raw_metadata : gmap str str;
  raw_acl : option (list str);
}.

Record Chunk := mk_Chunk {
  chunk_id : str;
  chunk_document_id : str;
  chunk_index : nat;
  chunk_text : str;
  chunk_metadata : gmap str str;
  chunk_acl : option (list str);
}.

Record Chunker := mk_Chunker { max_chars : nat; overlap_chars : nat }.

Definition DEFAULT_MAX_CHARS : nat := 500.
Definition DEFAULT_OVERLAP_CHARS : nat := 64.

Definition chunker_new (max_chars overlap_chars : nat) : Chunker :=
  let max_chars := Nat.max max_chars 1 in
  mk_Chunker max_chars (Nat.min overlap_chars (max_chars - 1)).

Definition chunker_default : Chunker := chunker_new DEFAULT_MAX_CHARS DEFAULT_OVERLAP_CHARS.

(** Characters left for packed content once the overlap is reserved. *)
Definition pack_budget (self : Chunker) : nat :=
  if Nat.eqb (overlap_chars self) 0 then max_chars self
  else Nat.max (max_chars self - (overlap_chars self + 1)) 1.

(** A markdown heading line is a hard boundary. *)
Definition is_heading (unit : str) : bool := starts_with (lit "#") unit.

(** [slice::chunks]; the length of the slice is enough fuel. *)
Fixpoint slice_chunks_go (fuel n : nat) (l : str) : list str :=
  match fuel, l with
  | _, [] => []
  | O, _ => []
  | S f, _ => take n l :: slice_chunks_go f n (drop n l)
  end.
Definition slice_chunks (n : nat) (l : str) : list str := slice_chunks_go (length l) n l.

Definition split_oversized_word (word : str) (budget : nat) : list str :=
  if length word <=? budget then [word]
  else slice_chunks (Nat.max budget 1) word.

(** How many trailing words fit in [limit]: [ws] are the words, last first. *)
Fixpoint trailing_take (limit taken len : nat) (ws : list str) : nat :=
  match ws with
  | [] => taken
  | w :: ws' =>
      let add := length w + (if 0 <? taken then 1 else 0) in
      if limit <? len + add then taken
      else trailing_take limit (S taken) (len + add) ws'
  end.

Definition trailing_words (s : str) (limit : nat) : str :=
  if Nat.eqb limit 0 then []
  else
    let words := split_whitespace s in
    let taken := trailing_take limit 0 0 (reverse words) in
    if Nat.eqb taken 0 then []
    else join (lit " ") (drop (length words - taken) words).

Definition spill_step (budget : nat) (st : list str * str) (piece : str) : list str * str :=
  let '(out, current) := st in
  if str_is_empty current then (out, piece)
  else if budget <? length current + 1 + length piece then (out ++ [current], piece)
  else (out, current ++ lit " " ++ piece).

Definition flush (st : list str * str) : list str :=
  let '(out, current) := st in
  if str_is_empty current then out else out ++ [current].

Definition spill (para : str) (budget : nat) : list str :=
  flush (foldl (λ st word, foldl (spill_step budget) st (split_oversized_word word budget))
           ([], []) (split_whitespace para)).

Definition newline : str := [10%N].
Definition blank_line : str := [10; 10]%N.
Definition crlf : str := [13; 10]%N.

(** One paragraph as atomic units, and all of them. *)
Definition para_units (budget : nat) (para : str) : list str :=
  let trimmed := trim para in
  if str_is_empty trimmed then []
  else if length trimmed <=? budget then [trimmed]
  else spill trimmed budget.

Definition units_of (budget : nat) (content : str) : list str :=
  split_str blank_line content ≫= para_units budget.

Definition pack_step (budget : nat) (st : list str * str) (unit : str) : list str * str :=
  let '(chunks, current) := st in
  if str_is_empty current then (chunks, unit)
  else if is_heading unit then (chunks ++ [current], unit)
  else if length current + 2 + length unit <=? budget
  then (chunks, current ++ blank_line ++ unit)
  else (chunks ++ [current], unit).

Definition pack (budget : nat) (units : list str) : list str :=
  flush (foldl (pack_step budget) ([], []) units).

Definition with_overlap (self : Chunker) (prev chunk : str) : str :=
  let room := Nat.min (max_chars self - (length chunk + 1)) (overlap_chars self) in
  let tail := trailing_words prev room in
  if str_is_empty tail then chunk else tail ++ lit " " ++ chunk.

Fixpoint overlap_rest (self : Chunker) (prev : str) (chunks : list str) : list str :=
  match chunks with
  | [] => []
  | chunk :: rest => with_overlap self prev chunk :: overlap_rest self chunk rest
  end.

Definition apply_overlap (self : Chunker) (chunks : list str) : list str :=
  if Nat.eqb (overlap_chars self) 0 || (length chunks <? 2) then chunks
  else match chunks with
       | [] => []
       | c :: rest => c :: overlap_rest self c rest
       end.

Definition split_text (self : Chunker) (content : str) : list str :=
  let content := replace crlf newline content in
  let budget := pack_budget self in
  apply_overlap self (pack budget (units_of budget content)).

Definition base_metadata (doc : RawDocument) : gmap str str :=
  let or_insert k v (m : gmap str str) :=
    match m !! k with Some _ => m | None => <[k := v]> m end in
  let m := match raw_title doc with
           | Some title => or_insert (lit "title") title (raw_metadata doc)
           | None => raw_metadata doc
           end in
  or_insert (lit "source") (raw_source doc) m.

Definition chunk (self : Chunker) (doc : RawDocument) : list Chunk :=
  imap (λ index text,
    mk_Chunk (raw_id doc ++ lit "#" ++ show_nat index) (raw_id doc) index text
      (base_metadata doc) (raw_acl doc))
    (split_text self (raw_content doc)).

(** ** Well-formedness *)

Definition chunker_wf (c : Chunker) : Prop :=
  1 ≤ max_chars c ∧ overlap_chars c < max_chars c.

Lemma chunker_new_wf m o : chunker_wf (chunker_new m o).
Proof. unfold chunker_wf, chunker_new; simpl. lia. Qed.

Lemma pack_budget_pos c : chunker_wf c → 1 ≤ pack_budget c.
Proof. intros [??]. unfold pack_budget. case_match; lia. Qed.

Lemma pack_budget_le c : chunker_wf c → pack_budget c ≤ max_chars c.
Proof. intros [??]. unfold pack_budget. case_match; lia. Qed.

#[export] Hint Resolve chunker_new_wf pack_budget_pos pack_budget_le : rust.

(** ** The visible content

    The characters that are not whitespace, in order: what chunking must not
    lose, duplicate or reorder. *)

Definition ink (s : str) : str := List.filter (λ c, negb (is_whitespace c)) s.

Definition blank (s : str) : Prop := Forall (λ c, is_whitespace c = true) s.

Lemma ink_app a b : ink (a ++ b) = ink a ++ ink b.
Proof. apply List.filter_app. Qed.

Lemma ink_blank s : blank s → ink s = [].
Proof. induction 1 as [|c s Hc _ IH]; unfold ink; simpl; [done|]. by rewrite Hc. Qed.

Lemma ink_nil_inv s : ink s = [] → blank s.
Proof.
  induction s as [|c s IH]; unfold ink, blank; simpl; [by constructor|].
  destruct (is_whitespace c) eqn:E; simpl; [|done]. intros H. constructor; [done|]. by apply IH.
Qed.

Lemma ink_trim s : ink (trim s) = ink s.
Proof.
  destruct (trim_decompose is_whitespace s) as (l & r & Hs & Hl & Hr).
  unfold trim. rewrite Hs at 2. rewrite !ink_app, (ink_blank l), (ink_blank r) by done.
  by rewrite app_nil_r.
Qed.

Lemma ink_join sep ws : blank sep → ink (join sep ws) = ink (concat ws).
Proof.
  intros Hs. induction ws as [|w [|w' ws] IH]; [done| |].
  - simpl. by rewrite app_nil_r.
  - change (ink (w ++ sep ++ join sep (w' :: ws)) = ink (w ++ concat (w' :: ws))).
    by rewrite !ink_app, IH, (ink_blank sep).
Qed.

Lemma concat_split_on p s : concat (split_on p s) = List.filter (λ c, negb (p c)) s.
Proof.
  induction s as [|c s IH]; simpl; [done|]. destruct (p c); simpl; [done|].
  rewrite <- IH. by destruct (split_on p s).
Qed.

Lemma concat_filter_nonempty (ws : list str) :
  concat (List.filter (λ w, negb (str_is_empty w)) ws) = concat ws.
Proof. induction ws as [|[|c w] ws IH]; simpl; congruence. Qed.

Lemma concat_split_whitespace s : concat (split_whitespace s) = ink s.
Proof. unfold split_whitespace. by rewrite concat_filter_nonempty, concat_split_on. Qed.

Lemma ink_idemp s : ink (ink s) = ink s.
Proof.
  unfold ink. induction s as [|c s IH]; simpl; [done|].
  destruct (is_whitespace c) eqn:E; simpl; [done|]. rewrite E. simpl. congruence.
Qed.

Lemma ink_split_whitespace s : ink (concat (split_whitespace s)) = ink s.
Proof. by rewrite concat_split_whitespace, ink_idemp. Qed.

Lemma ink_split_str_go pat skip acc s :
  pat ≠ [] → blank pat → blank (take skip s) →
  ink (concat (split_str_go pat skip acc s)) = ink (reverse acc) ++ ink s.
Proof.
  intros Hne Hp. revert skip acc. induction s as [|c s IH]; intros skip acc Hskip; simpl.
  - by rewrite !app_nil_r.
  - destruct skip as [|k]; simpl.
    + case_match eqn:E.
      * apply starts_with_spec in E as [r Hr]. simpl.
        destruct pat as [|d pat]; simplify_eq/=.
        inversion Hp as [|?? Hd Hpat]; subst.
        rewrite ink_app, IH; [unfold ink at 4; simpl; by rewrite Hd|].
        by rewrite take_app_length.
      * rewrite IH by apply Forall_nil_2.
        rewrite reverse_cons, ink_app, <- (assoc_L (++)).
        f_equal. by rewrite <- ink_app.
    + simpl in Hskip. inversion Hskip as [|?? Hc Hrest]; subst.
      rewrite IH by done. unfold ink; simpl. by rewrite Hc.
Qed.

Lemma ink_split_str pat s : pat ≠ [] → blank pat → ink (concat (split_str pat s)) = ink s.
Proof.
  intros. unfold split_str. rewrite ink_split_str_go; [done..|].
  apply Forall_nil_2.
Qed.

Lemma ink_replace pat to s : pat ≠ [] → blank pat → blank to → ink (replace pat to s) = ink s.
Proof. intros. unfold replace. rewrite ink_join by done. by apply ink_split_str. Qed.

Lemma blank_newlines : blank blank_line ∧ blank crlf ∧ blank newline ∧ blank (lit " ").
Proof. repeat split; repeat constructor. Qed.

(** ** Slices *)

Definition fits (b : nat) (s : str) : Prop := s ≠ [] ∧ length s ≤ b.

Lemma slice_chunks_go_spec fuel n l :
  1 ≤ n → length l ≤ fuel →
  concat (slice_chunks_go fuel n l) = l ∧ Forall (fits n) (slice_chunks_go fuel n l).
Proof.
  intros Hn. revert l. induction fuel as [|f IH]; intros l Hl; destruct l as [|c l];
    simpl in *; try (split; [done|constructor]); [lia|].
  destruct n as [|n]; [lia|]. simpl.
  destruct (IH (drop n l)) as [Hc Hf]; [rewrite length_drop; lia|].
  rewrite Hc, take_drop. split; [done|]. constructor; [|done].
  split; [done|]. simpl. rewrite length_take. lia.
Qed.

Lemma split_oversized_word_spec w b :
  1 ≤ b → w ≠ [] →
  concat (split_oversized_word w b) = w ∧ Forall (fits b) (split_oversized_word w b).
Proof.
  intros Hb Hw. unfold split_oversized_word. case_match eqn:E.
  - apply Nat.leb_le in E. simpl. rewrite app_nil_r. repeat constructor; done.
  - unfold slice_chunks. replace (Nat.max b 1) with b by lia.
    by apply slice_chunks_go_spec.
Qed.

Lemma split_whitespace_nonempty s : Forall (λ w, w ≠ []) (split_whitespace s).
Proof.
  apply Forall_forall. intros w Hw.
  apply list_elem_of_In, filter_In in Hw as [_ Hw]. by destruct w.
Qed.

Lemma foldl_bind {A B C} (f : A → C → A) (g : B → list C) a (bs : list B) :
  foldl (λ a b, foldl f a (g b)) a bs = foldl f a (bs ≫= g).
Proof. revert a. induction bs as [|b bs IH]; intros a; simpl; [done|]. by rewrite foldl_app, IH. Qed.

(** ** The packing machines

    [spill_step] and [pack_step] both keep the finished pieces and the one being
    filled; the invariant they share. *)

Definition packed (b : nat) (ws : list str) (st : list str * str) : Prop :=
  Forall (fits b) st.1 ∧ length st.2 ≤ b ∧ ink (concat st.1 ++ st.2) = ink (concat ws).

Definition packs (b : nat) (step : list str * str → str → list str * str) : Prop :=
  ∀ ws st w, fits b w → packed b ws st → packed b (ws ++ [w]) (step st w).

Lemma concat_snoc {A} (xs : list (list A)) x : concat (xs ++ [x]) = concat xs ++ x.
Proof. by rewrite concat_app, concat_cons, app_nil_r. Qed.

Lemma packed_foldl b step ws : packs b step → Forall (fits b) ws →
  packed b ws (foldl step ([], []) ws).
Proof.
  intros Hstep. induction ws as [|w ws IH] using rev_ind.
  - intros _. repeat split; simpl; [constructor|lia].
  - intros [Hws Hw]%Forall_app. rewrite foldl_snoc. apply Hstep; [by inversion Hw|auto].
Qed.

Lemma packed_flush b ws st : packed b ws st →
  Forall (fits b) (flush st) ∧ ink (concat (flush st)) = ink (concat ws).
Proof.
  destruct st as [out cur]. intros (Ho & Hc & Hi); simpl in *.
  case_match eqn:E.
  - apply str_is_empty_true in E as ->. rewrite app_nil_r in Hi. done.
  - apply str_is_empty_false in E. rewrite concat_snoc. split; [|done].
    apply Forall_app. split; [done|]. by repeat constructor.
Qed.

(** Closing the current piece and starting the next one. *)
Lemma packed_break b ws out cur w :
  fits b w → cur ≠ [] → packed b ws (out, cur) → packed b (ws ++ [w]) (out ++ [cur], w).
Proof.
  intros [Hw Hwl] Hcur (Ho & Hc & Hi); simpl in *. repeat split; simpl; [|done|].
  - apply Forall_app. split; [done|]. by repeat constructor.
  - by rewrite !concat_snoc, !ink_app, <- Hi, ink_app.
Qed.

(** Starting from an empty current piece. *)
Lemma packed_start b ws out w :
  fits b w → packed b ws (out, []) → packed b (ws ++ [w]) (out, w).
Proof.
  intros [Hw Hwl] (Ho & _ & Hi); simpl in *. rewrite app_nil_r in Hi.
  repeat split; simpl; [done..|]. by rewrite concat_snoc, !ink_app, Hi.
Qed.

(** Extending the current piece over a blank separator. *)
Lemma packed_extend b ws out cur sep w :
  blank sep → length cur + length sep + length w ≤ b → packed b ws (out, cur) →
  packed b (ws ++ [w]) (out, cur ++ sep ++ w).
Proof.
  intros Hs Hlen (Ho & Hc & Hi); simpl in *.
  repeat split; simpl; [done|rewrite !length_app; lia|].
  by rewrite concat_snoc, !ink_app, <- Hi, ink_app, (ink_blank sep), (assoc_L (++)).
Qed.

Lemma spill_step_packs b : packs b (spill_step b).
Proof.
  intros ws [out cur] w Hw Hp. unfold spill_step.
  case_match eqn:E; [apply str_is_empty_true in E as ->|apply str_is_empty_false in E].
  - by apply packed_start.
  - case_match eqn:E2; [by apply packed_break|]. apply Nat.ltb_ge in E2.
    apply packed_extend; [apply blank_newlines|simpl; lia|done].
Qed.

Lemma pack_step_packs b : packs b (pack_step b).
Proof.
  intros ws [out cur] w Hw Hp. unfold pack_step.
  case_match eqn:E; [apply str_is_empty_true in E as ->|apply str_is_empty_false in E].
  - by apply packed_start.
  - case_match; [by apply packed_break|].
    case_match eqn:E2; [|by apply packed_break]. apply Nat.leb_le in E2.
    apply packed_extend; [apply blank_newlines|simpl; lia|done].
Qed.

#[export] Hint Resolve spill_step_packs pack_step_packs : rust.

Lemma split_words_spec b ws : 1 ≤ b → Forall (λ w, w ≠ []) ws →
  Forall (fits b) (ws ≫= λ w, split_oversized_word w b) ∧
  concat (ws ≫= λ w, split_oversized_word w b) = concat ws.
Proof.
  intros Hb. induction 1 as [|w ws Hw _ [IHf IHc]]; [by split; [constructor|]|].
  destruct (split_oversized_word_spec w b Hb Hw) as [Hwc Hwf].
  rewrite bind_cons, concat_app, Hwc, IHc. split; [by apply Forall_app|done].
Qed.

Lemma spill_spec para b : 1 ≤ b →
  Forall (fits b) (spill para b) ∧ ink (concat (spill para b)) = ink para.
Proof.
  intros Hb. unfold spill. rewrite foldl_bind.
  destruct (split_words_spec b (split_whitespace para) Hb (split_whitespace_nonempty para))
    as [Hf Hc].
  destruct (packed_flush b _ _ (packed_foldl b (spill_step b) _ (spill_step_packs b) Hf)) as [H1 H2].
  split; [done|]. by rewrite H2, Hc, ink_split_whitespace.
Qed.

Lemma para_units_spec b para : 1 ≤ b →
  Forall (fits b) (para_units b para) ∧ ink (concat (para_units b para)) = ink para.
Proof.
  intros Hb. unfold para_units. rewrite <- (ink_trim para).
  case_match eqn:E; [|apply str_is_empty_false in E; case_match eqn:E2].
  - apply str_is_empty_true in E as ->. by split; [constructor|].
  - apply Nat.leb_le in E2. simpl. rewrite app_nil_r. by repeat constructor.
  - by apply spill_spec.
Qed.

Lemma bind_ink_spec (f : str → list str) (P : str → Prop) ps :
  (∀ p, Forall P (f p) ∧ ink (concat (f p)) = ink p) →
  Forall P (ps ≫= f) ∧ ink (concat (ps ≫= f)) = ink (concat ps).
Proof.
  intros H. induction ps as [|p ps [IHf IHi]]; [by split; [constructor|]|].
  destruct (H p) as [Hf Hi]. rewrite bind_cons, concat_app, concat_cons, !ink_app, IHi, Hi.
  split; [by apply Forall_app|done].
Qed.

Lemma units_of_spec b content : 1 ≤ b →
  Forall (fits b) (units_of b content) ∧ ink (concat (units_of b content)) = ink content.
Proof.
  intros Hb. unfold units_of.
  rewrite <- (ink_split_str blank_line content) by (done || apply blank_newlines).
  apply bind_ink_spec. intros p. by apply para_units_spec.
Qed.

Lemma pack_spec b units : Forall (fits b) units →
  Forall (fits b) (pack b units) ∧ ink (concat (pack b units)) = ink (concat units).
Proof. intros H. unfold pack. by apply packed_flush, packed_foldl; [apply pack_step_packs|]. Qed.

Lemma pack_units_spec c content : chunker_wf c →
  let pieces := pack (pack_budget c) (units_of (pack_budget c) (replace crlf newline content)) in
  Forall (fits (pack_budget c)) pieces ∧ ink (concat pieces) = ink content.
Proof.
  intros Hc. simpl. pose proof (pack_budget_pos c Hc) as Hb.
  destruct (units_of_spec (pack_budget c) (replace crlf newline content) Hb) as [Hu Hi].
  destruct (pack_spec _ _ Hu) as [Hp Hpi]. split; [done|].
  rewrite Hpi, Hi. apply ink_replace; [done|apply blank_newlines..].
Qed.

Lemma trim_blank s : blank s → trim s = [].
Proof.
  intros H. unfold trim, trim_matches. replace (trim_start_matches is_whitespace s) with (@nil N); [done|].
  induction H as [|c s Hc _ IH]; simpl; [done|]. by rewrite Hc.
Qed.

Lemma blank_concat ps : blank (concat ps) → Forall blank ps.
Proof.
  unfold blank. induction ps as [|p ps IH]; simpl; [by constructor|].
  intros [? ?]%Forall_app. constructor; auto.
Qed.

Lemma units_of_blank b content : blank content → units_of b content = [].
Proof.
  intros H. unfold units_of.
  assert (Hp : Forall blank (split_str blank_line content)).
  { apply blank_concat, ink_nil_inv. rewrite ink_split_str by (done || apply blank_newlines).
    by apply ink_blank. }
  induction Hp as [|p ps Hp _ IH]; [done|].
  rewrite bind_cons, IH. unfold para_units. by rewrite (trim_blank p Hp).
Qed.

(** ** The overlap pass *)

Definition sp : str := lit " ".

Lemma length_join_sp (w : str) ws :
  length (join sp (w :: ws)) = length w + (if 0 <? length ws then 1 else 0) + length (join sp ws).
Proof. destruct ws; simpl; [lia|]. rewrite !length_app. simpl. lia. Qed.

(** The words taken are the longest suffix that fits. *)
Definition longest_suffix (limit : nat) (words suf : list str) : Prop :=
  length (join sp suf) ≤ limit ∧
  ∃ pre, words = pre ++ suf ∧
         ∀ w, last pre = Some w → limit < length (join sp (w :: suf)).

Lemma trailing_take_spec limit ws d :
  length (join sp d) ≤ limit →
  ∃ suf, longest_suffix limit (reverse ws ++ d) suf ∧
         trailing_take limit (length d) (length (join sp d)) ws = length suf.
Proof.
  revert d. induction ws as [|w ws IH]; intros d Hd; cbn [trailing_take].
  - exists d. split; [|done]. split; [done|]. by exists [].
  - case_match eqn:E.
    + apply Nat.ltb_lt in E. exists d. split; [|done]. split; [done|].
      exists (reverse (w :: ws)). split; [done|]. intros w' Hw.
      rewrite last_reverse in Hw. simplify_eq/=. change ([32%N]) with sp.
      pose proof (length_join_sp w' d). simpl in *. lia.
    + apply Nat.ltb_ge in E. pose proof (length_join_sp w d) as Hj.
      destruct (IH (w :: d)) as (suf & Hs & Ht); [lia|].
      exists suf. rewrite reverse_cons, <- (assoc_L (++)). split; [done|].
      rewrite <- Ht. cbn [length]. f_equal. lia.
Qed.

Lemma trailing_words_spec s limit :
  ∃ suf, longest_suffix limit (split_whitespace s) suf ∧ trailing_words s limit = join sp suf.
Proof.
  unfold trailing_words. destruct (Nat.eqb_spec limit 0) as [->|Hl].
  - exists []. split; [|done]. split; [simpl; lia|].
    exists (split_whitespace s). rewrite app_nil_r. split; [done|].
    intros w Hw%last_Some_elem_of. pose proof (split_whitespace_nonempty s) as Hf.
    rewrite Forall_forall in Hf. apply Hf in Hw. destruct w; [done|simpl; lia].
  - destruct (trailing_take_spec limit (reverse (split_whitespace s)) [])
      as (suf & (Hlen & pre & Hp & Hmax) & Ht); [simpl; lia|].
    rewrite reverse_involutive, app_nil_r in Hp. simpl in Ht. rewrite Ht.
    exists suf. split; [split; [done|]; by exists pre|].
    destruct (Nat.eqb_spec (length suf) 0) as [H0%nil_length_inv|_]; [by subst|].
    rewrite Hp. rewrite length_app. replace (length pre + length suf - length suf)
      with (length pre) by lia. by rewrite drop_app_length.
Qed.

(** [text] is [base] after a whole-word tail of [prev], or [base] itself when no
    word of [prev] fits in the room left. *)
Definition overlaps (c : Chunker) (prev base text : str) : Prop :=
  ∃ suf, longest_suffix (Nat.min (max_chars c - (length base + 1)) (overlap_chars c))
           (split_whitespace prev) suf ∧
         text = if str_is_empty (join sp suf) then base else join sp suf ++ sp ++ base.

Lemma with_overlap_spec c prev base : overlaps c prev base (with_overlap c prev base).
Proof.
  unfold with_overlap.
  destruct (trailing_words_spec prev
    (Nat.min (max_chars c - (length base + 1)) (overlap_chars c))) as (suf & Hs & ->).
  by exists suf.
Qed.

Lemma overlaps_cap c prev base text :
  length base ≤ max_chars c → overlaps c prev base text → length text ≤ max_chars c.
Proof.
  intros Hb (suf & [Hlen _] & ->). case_match eqn:E; [done|].
  apply str_is_empty_false in E. rewrite !length_app. change (length sp) with 1.
  destruct (join sp suf); [done|]. simpl in *. lia.
Qed.

Inductive overlapped (c : Chunker) : list str → list str → Prop :=
| overlapped_nil : overlapped c [] []
| overlapped_cons b bs ts : overlapped_rest c b bs ts → overlapped c (b :: bs) (b :: ts)
with overlapped_rest (c : Chunker) : str → list str → list str → Prop :=
| rest_nil prev : overlapped_rest c prev [] []
| rest_cons prev b bs t ts :
    overlaps c prev b t → overlapped_rest c b bs ts →
    overlapped_rest c prev (b :: bs) (t :: ts).

#[export] Hint Constructors overlapped overlapped_rest : rust.
#[export] Hint Resolve with_overlap_spec : rust.

Lemma overlap_rest_spec c prev bs : overlapped_rest c prev bs (overlap_rest c prev bs).
Proof. revert prev. induction bs; simpl; eauto with rust. Qed.

Lemma overlap_rest_id c prev bs : overlap_chars c = 0 → overlap_rest c prev bs = bs.
Proof.
  intros H0. revert prev. induction bs as [|b bs IH]; intros prev; simpl; [done|].
  rewrite IH. f_equal. unfold with_overlap. rewrite H0, Nat.min_0_r. done.
Qed.

Lemma apply_overlap_spec c bs : overlapped c bs (apply_overlap c bs).
Proof.
  unfold apply_overlap. destruct bs as [|b [|b' bs]].
  - case_match; constructor.
  - rewrite orb_true_r. eauto with rust.
  - case_match eqn:E; [|constructor; apply overlap_rest_spec].
    rewrite orb_false_r in E. apply Nat.eqb_eq in E.
    constructor. rewrite <- (overlap_rest_id c b (b' :: bs) E) at 2. apply overlap_rest_spec.
Qed.

Lemma overlapped_rest_cap c prev bs ts :
  overlapped_rest c prev bs ts → Forall (fits (max_chars c)) bs → Forall (fits (max_chars c)) ts.
Proof.
  induction 1 as [|prev b bs t ts Ho _ IH]; intros Hf; [constructor|].
  inversion Hf as [|?? [Hne Hl] Hr]; subst. constructor; [|by apply IH].
  split; [|by eapply overlaps_cap].
  destruct Ho as (suf & _ & ->). case_match; [done|].
  intros [_ [_ ?]%app_eq_nil]%app_eq_nil. done.
Qed.

Lemma overlapped_cap c bs ts :
  overlapped c bs ts → Forall (fits (max_chars c)) bs → Forall (fits (max_chars c)) ts.
Proof.
  intros [|b bs' ts' H] Hf; [constructor|]. inversion Hf; subst.
  constructor; [done|]. by eapply overlapped_rest_cap.
Qed.

Lemma overlapped_nil_iff c bs ts : overlapped c bs ts → ts = [] ↔ bs = [].
Proof. by intros [|]. Qed.

Lemma fits_mono a b s : a ≤ b → fits a s → fits b s.
Proof. unfold fits. intros ? [? ?]. split; [done|lia]. Qed.

(** ** Properties *)

(** C40. The hard cap: every chunk [Chunker::chunk] produces is non-empty and has at
    most [max_chars] characters, the prepended overlap included. *)
Theorem chunk_hard_cap (c : Chunker) (doc : RawDocument) (Hc : chunker_wf c) :
  Forall (λ k, chunk_text k ≠ [] ∧ length (chunk_text k) ≤ max_chars c) (chunk c doc).
Proof.
  destruct (pack_units_spec c (raw_content doc) Hc) as [Hf _].
  assert (Hall : Forall (fits (max_chars c)) (split_text c (raw_content doc))).
  { eapply overlapped_cap; [apply apply_overlap_spec|].
    eapply Forall_impl; [done|]. intros s. by apply fits_mono, pack_budget_le. }
  apply Forall_lookup. intros i k Hk. unfold chunk in Hk.
  rewrite list_lookup_imap in Hk. destruct (split_text _ _ !! i) as [t|] eqn:E; simplify_eq/=.
  by apply (Forall_lookup_1 _ _ _ _ Hall E).
Qed.

(** C16. Nothing is lost, repeated or reordered: the chunk texts are base pieces whose
    visible characters, in order, are the document's, each one after the first preceded
    only by the longest whole-word tail of the piece before it that fits in the room
    the cap and [overlap_chars] leave; a document with no visible character gives no
    chunk. *)
Theorem chunk_preserves_content (c : Chunker) (doc : RawDocument) (Hc : chunker_wf c) :
  ∃ bases, overlapped c bases (chunk_text <$> chunk c doc) ∧
           ink (concat bases) = ink (raw_content doc) ∧
           (chunk c doc = [] ↔ blank (raw_content doc)).
Proof.
  destruct (pack_units_spec c (raw_content doc) Hc) as [Hf Hi].
  set (bases := pack _ _) in *.
  assert (Ht : chunk_text <$> chunk c doc = split_text c (raw_content doc)).
  { unfold chunk. apply list_eq. intros i. rewrite list_lookup_fmap, list_lookup_imap.
    by destruct (_ !! i). }
  assert (Ho : overlapped c bases (split_text c (raw_content doc))) by apply apply_overlap_spec.
  exists bases. rewrite Ht. split; [exact Ho|]. split; [done|].
  assert (Hn : chunk c doc = [] ↔ bases = []).
  { rewrite <- (overlapped_nil_iff _ _ _ Ho), <- Ht. by destruct (chunk c doc). }
  rewrite Hn. split; intros H.
  - apply ink_nil_inv. by rewrite <- Hi, H.
  - unfold bases. rewrite units_of_blank; [done|].
    apply ink_nil_inv. rewrite ink_replace; [by apply ink_blank|done|apply blank_newlines..].
Qed.

(** Chunk ids are the document's id, [#] and the chunk's position: they name the
    document and the ordinal, and no two chunks of a document share one, so that
    re-ingesting a document addresses the same chunks. *)
Theorem chunk_ids_stable (c : Chunker) (doc : RawDocument) :
  chunk_id <$> chunk c doc =
    (λ i, raw_id doc ++ lit "#" ++ show_nat i) <$> seq 0 (length (chunk c doc)) ∧
  NoDup (chunk_id <$> chunk c doc) ∧
  Forall (λ k, chunk_document_id k = raw_id doc ∧ chunk_acl k = raw_acl doc) (chunk c doc).
Proof.
  assert (Hids : chunk_id <$> chunk c doc =
    (λ i, raw_id doc ++ lit "#" ++ show_nat i) <$> seq 0 (length (chunk c doc))).
  { unfold chunk. rewrite length_imap. apply list_eq. intros i.
    rewrite !list_lookup_fmap, list_lookup_imap.
    destruct (split_text _ _ !! i) as [t|] eqn:E; simpl.
    - apply lookup_lt_Some in E. by rewrite lookup_seq_lt.
    - apply lookup_ge_None in E. by rewrite lookup_seq_ge. }
  split; [done|]. split.
  - rewrite Hids. apply NoDup_fmap_2; [|apply NoDup_seq].
    intros i j H. simplify_list_eq. by apply show_nat_inj.
  - apply Forall_lookup. intros i k Hk. unfold chunk in Hk.
    rewrite list_lookup_imap in Hk. by destruct (split_text _ _ !! i); simplify_eq/=.
Qed.

(** ** Headings *)

Lemma join_snoc sep ws w : ws ≠ [] → join sep (ws ++ [w]) = join sep ws ++ sep ++ w.
Proof.
  induction ws as [|a [|b ws] IH]; intros Hne; [done..|].
  change (a ++ sep ++ join sep ((b :: ws) ++ [w]) = (a ++ sep ++ join sep (b :: ws)) ++ sep ++ w).
  rewrite IH by done. by rewrite <- !(assoc_L (++)).
Qed.

(** A group of units packed into one piece: a heading only at its start. *)
Definition heading_group (g : list str) : Prop :=
  g ≠ [] ∧ Forall (λ u, is_heading u = false) (tail g).

Definition grouped (units : list str) (st : list str * str) : Prop :=
  ∃ gs g, units = concat gs ++ g ∧ st = (join blank_line <$> gs, join blank_line g) ∧
          Forall heading_group gs ∧ (g = [] ∧ gs = [] ∨ heading_group g ∧ st.2 ≠ []).

Lemma heading_group_snoc g u :
  heading_group g → is_heading u = false → heading_group (g ++ [u]).
Proof.
  intros [Hne Ht] Hu. destruct g as [|a g]; [done|]. split; [done|]. simpl in *.
  apply Forall_app. split; [done|]. by repeat constructor.
Qed.

Lemma grouped_step b us st u : u ≠ [] → grouped us st → grouped (us ++ [u]) (pack_step b st u).
Proof.
  intros Hu (gs & g & -> & -> & Hgs & Hg). unfold pack_step.
  assert (Hone : heading_group [u]) by (split; [done|constructor]).
  destruct Hg as [[-> ->]|[Hg Hne]].
  { exists [], [u]. repeat split; [constructor|by right]. }
  simpl in Hne. destruct (str_is_empty (join blank_line g)) eqn:E.
  { by apply str_is_empty_true in E. }
  assert (Hbreak : grouped ((concat gs ++ g) ++ [u])
                     ((join blank_line <$> gs) ++ [join blank_line g], u)).
  { exists (gs ++ [g]), [u]. rewrite concat_snoc, fmap_app. repeat split.
    - apply Forall_app. split; [done|]. by repeat constructor; destruct Hg.
    - by right. }
  case_match eqn:Eh; [done|]. case_match; [|done].
  exists gs, (g ++ [u]). rewrite <- (assoc_L (++)), join_snoc by apply Hg.
  repeat split; [done|]. right. split; [by apply heading_group_snoc|].
  simpl. by destruct (join blank_line g).
Qed.

Lemma grouped_foldl b us : Forall (λ u, u ≠ []) us → grouped us (foldl (pack_step b) ([], []) us).
Proof.
  induction us as [|u us IH] using rev_ind.
  - intros _. exists [], []. repeat split; [constructor|by left].
  - intros [H Hu]%Forall_app. rewrite foldl_snoc. apply grouped_step; [by inversion Hu|auto].
Qed.

(** A markdown heading is a hard boundary: the packer splits the units, in order,
    into groups joined by a blank line, and a unit that starts with [#] only ever starts
    a group, so no piece spans a section boundary (only the overlap words do). *)
Theorem headings_start_pieces (b : nat) (units : list str) (Hu : Forall (fits b) units) :
  ∃ groups, concat groups = units ∧ pack b units = join blank_line <$> groups ∧
            Forall heading_group groups.
Proof.
  destruct (grouped_foldl b units) as (gs & g & Hus & Hst & Hgs & Hg).
  { eapply Forall_impl; [done|]. by intros u [? _]. }
  unfold pack. rewrite Hst in *. simpl. destruct Hg as [[-> ->]|[Hg Hne]].
  - by exists [].
  - simpl in Hne. exists (gs ++ [g]). rewrite concat_snoc, fmap_app. split; [done|]. split.
    + case_match eqn:E; [by apply str_is_empty_true in E|done].
    + apply Forall_app. split; [done|]. by constructor.
Qed.

(** ** Concrete runs *)

Module Demo.
Definition doc : RawDocument :=
  mk_RawDocument (lit "d") (lit "github:o/r") None
    (lit "# T" ++ blank_line ++ lit "aa bb" ++ blank_line ++ lit "# U" ++ blank_line ++ lit "cccccccccc")
    ∅ None.
Definition c : Chunker := chunker_new 12 3.

Example chunks : chunk_text <$> chunk c doc =
  [lit "# T"; lit "# T aa bb"; lit "bb # U"; lit "# U cccccccc"; lit "cc"].
Proof. vm_compute. reflexivity. Qed.
End Demo.

Lemma chunk_hard_cap_witness :
  chunker_wf Demo.c ∧
  Forall (λ k, chunk_text k ≠ [] ∧ length (chunk_text k) ≤ max_chars Demo.c) (chunk Demo.c Demo.doc).
Proof. split; [apply chunker_new_wf|]. apply chunk_hard_cap, chunker_new_wf. Defined.

Lemma chunk_preserves_content_witness :
  chunker_wf Demo.c ∧
  ∃ bases, overlapped Demo.c bases (chunk_text <$> chunk Demo.c Demo.doc) ∧
           ink (concat bases) = ink (raw_content Demo.doc) ∧
           (chunk Demo.c Demo.doc = [] ↔ blank (raw_content Demo.doc)).
Proof. split; [apply chunker_new_wf|]. apply chunk_preserves_content, chunker_new_wf. Defined.

Lemma headings_start_pieces_witness :
  Forall (fits 8) [lit "# T"; lit "aa"; lit "# U"] ∧
  ∃ groups, concat groups = [lit "# T"; lit "aa"; lit "# U"] ∧
            pack 8 [lit "# T"; lit "aa"; lit "# U"] = join blank_line <$> groups ∧
            Forall heading_group groups.
Proof.
  split; [repeat constructor; simpl; (done || lia)|].
  apply headings_start_pieces. repeat constructor; simpl; (done || lia).
Defined.
