(* ===== verification/Pipeline.v ===== *)
(** * Pipeline: pull, chunk, embed, store ([ingestion/src/pipeline.rs])

    The idempotent ingestion loop over a connector's documents, with its dedup
    ledger, its content hash and the metadata every stored chunk is stamped with.
    The effects (the shared ledger, the knowledge store, the ids the engine mints)
    are threaded explicitly, so that what a failing run leaves behind is visible. *)

From stdpp Require Import prelude gmap strings list.
From Stdlib Require Import SpecFloat.
From S2P Require Import Prelude Text AccessControl Chunker.

(** ** Curation stamps ([smooth-operator/src/curation.rs]) *)

(** An [f32]; its [FromStr] and [Display] are the standard library's float text
    conversions, taken as they are. *)
Definition f32 : Type := spec_float.

Class F32Text := { f32_display : f32 → str; f32_parse : str → option f32 }.

Definition is_finite (b : f32) : bool :=
  match b with S754_zero _ | S754_finite _ _ _ => true | _ => false end.

(** [b.max(0.0)] on a finite value. *)
Definition max_zero (b : f32) : f32 :=
  match b with S754_finite true _ _ | S754_zero _ => S754_zero false | _ => b end.

Definition DOCUMENT_SET_KEY : str := lit "document_set".
Definition BOOST_KEY : str := lit "boost".
Definition DEFAULT_BOOST : f32 := S754_finite false 8388608 (-23).

(** ** The engine's document constructor *)

(** [Document::new] mints the document's id. *)
Class DocumentNew `{KnowledgeTypes} := {
  DocumentType : Type;
  Documentation : DocumentType;
  document_new : str → str → str → DocumentType → Document;
}.

(** What the engine promises of a document's metadata map. *)
Class DocumentLaws `{DocumentNew} : Prop := {
  document_new_metadata id content source ty :
    doc_metadata (document_new id content source ty) = ∅;
  with_metadata_metadata d k v :
    doc_metadata (with_metadata d k v) = <[k := v]> (doc_metadata d);
}.

Section curation.
Context `{KnowledgeTypes, F32Text}.

Definition with_document_set (doc : Document) (sets : list str) : Document :=
  let joined := join (lit ",") (List.filter (λ s, negb (str_is_empty (trim s))) sets) in
  if str_is_empty joined then doc else with_metadata doc DOCUMENT_SET_KEY joined.

Definition with_boost (doc : Document) (boost : f32) : Document :=
  let boost := if is_finite boost then max_zero boost else DEFAULT_BOOST in
  with_metadata doc BOOST_KEY (f32_display boost).
End curation.

(** ** Connectors and embedders (traits) *)

(** [Context::with_context]. *)
Definition with_context {A} (c : str) (r : result error A) : result error A :=
  map_err (cons c) r.
(** [{err:#}]. *)
Definition show_error (e : error) : str := join (lit ": ") e.

Record Connector := mk_Connector {
  connector_name : str;
  pull : option Timestamp → result error (list RawDocument);
}.

Inductive InputType := InputDocument | InputQuery.

Record Embedder := mk_Embedder {
  dim : nat;
  embed : list str → InputType → result error (list (list f32));
}.

(** ** The dedup ledger *)

Definition IngestLedger : Type := gset str.

Definition ledger_contains (ledger : IngestLedger) (key : str) : bool :=
  bool_decide (key ∈ ledger).

(** Returns whether the key is new. *)
Definition record (ledger : IngestLedger) (key : str) : bool * IngestLedger :=
  (negb (bool_decide (key ∈ ledger)), {[key]} ∪ ledger).

(** FNV-1a over the UTF-8 bytes, in 64-bit wrapping arithmetic. *)
Definition fnv_step (hash b : N) : N :=
  ((N.lxor hash b * 0x100000001b3) mod 2 ^ 64)%N.
Definition fnv1a (bytes : list N) : N := foldl fnv_step 0xcbf29ce484222325%N bytes.
Definition content_hash (text : str) : str := hex_pad 16 (fnv1a (utf8 text)).

Record IngestOptions `{DocumentNew} := mk_IngestOptions {
  org_id : str;
  since : option Timestamp;
  doc_type : DocumentType;
  document_sets : list str;
  boost : option f32;
}.

Arguments mk_IngestOptions {_ _} _ _ _ _ _.
Arguments org_id {_ _} _.
Arguments since {_ _} _.
Arguments doc_type {_ _} _.
Arguments document_sets {_ _} _.
Arguments boost {_ _} _.

(** The ledger of the source's options lives in the state. *)
Definition for_org `{DocumentNew} (org : str) : IngestOptions :=
  mk_IngestOptions org None Documentation [] None.

Record IngestReport := mk_IngestReport {
  documents_pulled : nat;
  documents_skipped : nat;
  chunks_stored : nat;
  embedding_dim : nat;
}.

Definition skip_document (r : IngestReport) : IngestReport :=
  mk_IngestReport (documents_pulled r) (S (documents_skipped r)) (chunks_stored r) (embedding_dim r).
Definition stored_chunk (r : IngestReport) : IngestReport :=
  mk_IngestReport (documents_pulled r) (documents_skipped r) (S (chunks_stored r)) (embedding_dim r).

Definition chunk_key (org doc_id text : str) : str :=
  org ++ lit "::" ++ doc_id ++ lit "::" ++ content_hash text.

Section pipeline.
Context `{KnowledgeBase KB, !DocumentNew, AclCodec, F32Text}.

(** The state the run works on: the shared ledger, the knowledge store and the
    ids the engine will mint. *)
Record IngestState := mk_IngestState {
  ledger : IngestLedger;
  knowledge : KB;
  minted : nat → str;
}.

(** The document [store_chunk] builds for a chunk. *)
Definition chunk_document (uuid doc_id : str) (c : Chunk) (options : IngestOptions) : Document :=
  let source := default (lit "ingestion") (chunk_metadata c !! lit "source") in
  let document := document_new uuid (chunk_text c) source (doc_type options) in
  let document := with_metadata document (lit "org_id") (org_id options) in
  let document := with_metadata document (lit "document_id") doc_id in
  let document := with_metadata document (lit "chunk_id") (chunk_id c) in
  let document := with_metadata document (lit "chunk_index") (show_nat (chunk_index c)) in
  let document := foldl (λ d kv, with_metadata d kv.1 kv.2) document
                    (map_to_list (chunk_metadata c)) in
  let document :=
    if negb (bool_decide (document_sets options = [])) &&
       is_none (doc_metadata document !! DOCUMENT_SET_KEY)
    then with_document_set document (document_sets options) else document in
  let document :=
    match boost options with
    | Some b => if is_none (doc_metadata document !! BOOST_KEY)
                then with_boost document b else document
    | None => document
    end in
  match chunk_acl c with
  | Some acl =>
      if bool_decide (acl = []) then document
      else
        let document := with_metadata document (lit "acl") (join (lit ",") acl) in
        attach_to (DocAcl.for_groups acl) document
  | None => document
  end.

Definition store_chunk (doc_id : str) (c : Chunk) (options : IngestOptions) (st : IngestState) :
    result error unit * IngestState :=
  let document := chunk_document (minted st 0) doc_id c options in
  let '(r, kb) := kb_ingest document (knowledge st) in
  (with_context (lit "storing chunk '" ++ chunk_id c ++ lit "'") (map_err (λ e, [e]) r),
   mk_IngestState (ledger st) kb (λ n, minted st (S n))).

(** The store loop over a document's chunks and keys. *)
Fixpoint store_chunks (doc_id : str) (options : IngestOptions) (chunks : list (Chunk * str))
    (report : IngestReport) (st : IngestState) : result error IngestReport * IngestState :=
  match chunks with
  | [] => (Ok report, st)
  | (c, key) :: rest =>
      let '(new, l) := record (ledger st) key in
      let st := mk_IngestState l (knowledge st) (minted st) in
      if negb new then store_chunks doc_id options rest report st
      else
        match store_chunk doc_id c options st with
        | (Err e, st) => (Err e, st)
        | (Ok _, st) => store_chunks doc_id options rest (stored_chunk report) st
        end
  end.

(** The dimension of every vector returned; that there is one per chunk is a [debug_assert]
    of the code, which a release build leaves out, and so is it here. *)
Definition check_dims (embedder : Embedder) (vectors : list (list f32)) : result error unit :=
  match find_first (λ v, negb (length v =? dim embedder)%nat) vectors with
  | Some v => Err [lit "embedder returned dim " ++ show_nat (length v) ++
                   lit " but reports dim " ++ show_nat (dim embedder)]
  | None => Ok ()
  end.

Definition chunk_keys (options : IngestOptions) (raw : RawDocument) (chunks : list Chunk) : list str :=
  (λ c, chunk_key (org_id options) (raw_id raw) (chunk_text c)) <$> chunks.

(** The loop's body, for one document. *)
Definition ingest_document (chunker : Chunker) (embedder : Embedder) (options : IngestOptions)
    (raw : RawDocument) (report : IngestReport) (st : IngestState) :
    result error IngestReport * IngestState :=
  let chunks := chunk chunker raw in
  if bool_decide (chunks = []) then (Ok (skip_document report), st)
  else
    let keys := chunk_keys options raw chunks in
    let any_new := any (λ k, negb (ledger_contains (ledger st) k)) keys in
    if negb any_new then (Ok (skip_document report), st)
    else
      match with_context (lit "embedding chunks for document '" ++ raw_id raw ++ lit "'")
              (embed embedder (chunk_text <$> chunks) InputDocument) with
      | Err e => (Err e, st)
      | Ok vectors =>
          match check_dims embedder vectors with
          | Err e => (Err e, st)
          | Ok _ => store_chunks (raw_id raw) options (zip chunks keys) report st
          end
      end.

Fixpoint ingest_documents (chunker : Chunker) (embedder : Embedder) (options : IngestOptions)
    (docs : list RawDocument) (report : IngestReport) (st : IngestState) :
    result error IngestReport * IngestState :=
  match docs with
  | [] => (Ok report, st)
  | raw :: rest =>
      match ingest_document chunker embedder options raw report st with
      | (Err e, st) => (Err e, st)
      | (Ok report, st) => ingest_documents chunker embedder options rest report st
      end
  end.

Definition ingest (connector : Connector) (chunker : Chunker) (embedder : Embedder)
    (options : IngestOptions) (st : IngestState) : result error IngestReport * IngestState :=
  match with_context (lit "connector '" ++ connector_name connector ++ lit "' pull failed")
          (pull connector (since options)) with
  | Err e => (Err e, st)
  | Ok docs =>
      ingest_documents chunker embedder options docs
        (mk_IngestReport (length docs) 0 0 (dim embedder)) st
  end.
End pipeline.
Arguments IngestState : clear implicits.

(** ** Lemmas *)

Lemma fnv_step_bound h b : (fnv_step h b < 2 ^ 64)%N.
Proof. unfold fnv_step. apply N.mod_lt. done. Qed.

Lemma fnv1a_bound bytes : (fnv1a bytes < 2 ^ 64)%N.
Proof.
  unfold fnv1a. destruct bytes as [|b bytes] using rev_ind; [done|].
  rewrite foldl_snoc. apply fnv_step_bound.
Qed.

Lemma content_hash_length t : length (content_hash t) = 16.
Proof. apply hex_pad_length. Qed.

(** The reference vectors of FNV-1a. *)
Example content_hash_empty : content_hash [] = lit "cbf29ce484222325".
Proof. vm_compute. reflexivity. Qed.
Example content_hash_a : content_hash (lit "a") = lit "af63dc4c8601ec8c".
Proof. vm_compute. reflexivity. Qed.
Example content_hash_foobar : content_hash (lit "foobar") = lit "85944171f73967e8".
Proof. vm_compute. reflexivity. Qed.

Lemma ledger_contains_true l k : ledger_contains l k = true ↔ k ∈ l.
Proof. apply bool_decide_eq_true. Qed.

Section pipeline_lemmas.
Context `{KnowledgeBase KB, !DocumentNew, AclCodec, F32Text}.
Implicit Types (st : IngestState KB) (options : IngestOptions).

(** Every key a document's chunks give is recorded. *)
Definition seen options chunker (raw : RawDocument) (l : IngestLedger) : Prop :=
  ∀ k, k ∈ chunk_keys options raw (chunk chunker raw) → k ∈ l.

Lemma seen_mono options chunker raw l l' : l ⊆ l' → seen options chunker raw l → seen options chunker raw l'.
Proof. unfold seen. set_solver. Qed.

Lemma store_chunk_ledger doc_id c options st r st' :
  store_chunk doc_id c options st = (r, st') → ledger st' = ledger st.
Proof. unfold store_chunk. intros. by case_all. Qed.

(** What the store loop does to the ledger and the counters: every key it finished is
    recorded, and each recorded key that was new is one chunk counted. *)
Definition stored_ok (keys : list str) (r : IngestReport) st (r' : IngestReport) st' : Prop :=
  ledger st' = list_to_set keys ∪ ledger st ∧
  size (ledger st') + chunks_stored r = size (ledger st) + chunks_stored r' ∧
  documents_pulled r' = documents_pulled r ∧ documents_skipped r' = documents_skipped r ∧
  embedding_dim r' = embedding_dim r.

Lemma store_chunks_ok doc_id options cks r st r' st' :
  store_chunks doc_id options cks r st = (Ok r', st') → stored_ok cks.*2 r st r' st'.
Proof.
  revert r st. induction cks as [|[c k] cks IH]; intros r st Heq; simpl in *.
  - simplify_eq. unfold stored_ok. split; [set_solver|lia].
  - unfold record in Heq; simpl in Heq. destruct (bool_decide_reflect (k ∈ ledger st)) as [Hk|Hk]; simpl in Heq.
    + apply IH in Heq as (Hl & Hn & ?); simpl in *. unfold stored_ok. simpl.
      assert ({[k]} ∪ ledger st = ledger st) as E by set_solver.
      rewrite E in *. split; [rewrite Hl; set_solver|done].
    + destruct (store_chunk _ _ _ _) as [[?|?] st2] eqn:Es; simplify_eq.
      apply store_chunk_ledger in Es. apply IH in Heq as (Hl & Hn & ?); simpl in *.
      unfold stored_ok; simpl. rewrite Es in *; simpl in *.
      rewrite size_union, size_singleton in Hn by set_solver.
      split; [rewrite Hl; set_solver|]. split; [lia|done].
Qed.

Lemma store_chunks_ledger_mono doc_id options cks r st r' st' :
  store_chunks doc_id options cks r st = (r', st') → ledger st ⊆ ledger st'.
Proof.
  revert r st. induction cks as [|[c k] cks IH]; intros r st Heq; simpl in *; [by simplify_eq|].
  unfold record in Heq; simpl in Heq. destruct (negb _) eqn:Ek; simpl in Heq.
  - apply IH in Heq; simpl in Heq. set_solver.
  - destruct (store_chunk _ _ _ _) as [[?|?] st2] eqn:Es;
      apply store_chunk_ledger in Es; simpl in Es.
    + apply IH in Heq. rewrite Es in Heq. set_solver.
    + simplify_eq. rewrite Es. set_solver.
Qed.

Lemma chunk_keys_length options raw cs : length (chunk_keys options raw cs) = length cs.
Proof. unfold chunk_keys. apply length_fmap. Qed.

(** A seen document is skipped whole. *)
Lemma ingest_document_seen chunker embedder options raw r st :
  seen options chunker raw (ledger st) →
  ingest_document chunker embedder options raw r st = (Ok (skip_document r), st).
Proof.
  intros Hs. unfold ingest_document. case_match; [done|].
  destruct (any _ _) eqn:E; [|done]. apply any_true in E as (k & Hk & Hn).
  apply Hs, ledger_contains_true in Hk. by rewrite Hk in Hn.
Qed.

(** A processed document is seen, and the counters tell how. *)
Lemma ingest_document_ok chunker embedder options raw r st r' st' :
  ingest_document chunker embedder options raw r st = (Ok r', st') →
  seen options chunker raw (ledger st') ∧ ledger st ⊆ ledger st' ∧
  size (ledger st') + chunks_stored r = size (ledger st) + chunks_stored r'.
Proof.
  unfold ingest_document. intros Heq. case_match eqn:E1.
  { simplify_eq. split; [|done]. apply bool_decide_eq_true in E1.
    unfold seen, chunk_keys. rewrite E1. intros k Hk. by apply elem_of_nil in Hk. }
  destruct (any _ _) eqn:Ea; simpl in Heq.
  - destruct (with_context _ _); [|done]. destruct (check_dims _ _); [|done].
    apply store_chunks_ok in Heq as (Hl & Hn & _).
    rewrite snd_zip in Hl by (by rewrite chunk_keys_length).
    split; [|split; [set_solver|lia]].
    intros k Hk. rewrite Hl. apply elem_of_union_l, elem_of_list_to_set, Hk.
  - simplify_eq. split; [|done]. intros k Hk.
    pose proof (proj1 (any_false _ _) Ea k Hk) as Hc.
    apply negb_false_iff in Hc. by apply ledger_contains_true.
Qed.

Lemma ingest_documents_ok chunker embedder options docs r st r' st' :
  ingest_documents chunker embedder options docs r st = (Ok r', st') →
  Forall (λ raw, seen options chunker raw (ledger st')) docs ∧ ledger st ⊆ ledger st' ∧
  size (ledger st') + chunks_stored r = size (ledger st) + chunks_stored r'.
Proof.
  revert r st. induction docs as [|raw docs IH]; intros r st Heq; simpl in *.
  - simplify_eq. repeat split; [constructor|done].
  - destruct (ingest_document _ _ _ _ _ _) as [[r1|e] st1] eqn:E; [|done].
    apply ingest_document_ok in E as (Hs & Hl1 & Hn1).
    apply IH in Heq as (Hf & Hl & Hn). split; [|split; [set_solver|lia]].
    constructor; [by eapply seen_mono|done].
Qed.

Lemma ingest_documents_seen chunker embedder options docs r st :
  Forall (λ raw, seen options chunker raw (ledger st)) docs →
  ingest_documents chunker embedder options docs r st =
    (Ok (mk_IngestReport (documents_pulled r) (length docs + documents_skipped r)
           (chunks_stored r) (embedding_dim r)), st).
Proof.
  intros Hf. revert r. induction Hf as [|raw docs Hs _ IH]; intros r; simpl.
  - by destruct r.
  - rewrite ingest_document_seen by done. rewrite IH. simpl. do 3 f_equal. lia.
Qed.
End pipeline_lemmas.

(** ** The stored metadata *)

Section metadata.
Context `{KnowledgeBase KB, !DocumentNew, AclCodec, F32Text, !DocumentLaws}.
Implicit Types (d : Document) (m : gmap str str).

Lemma fold_metadata d (kvs : list (str * str)) k :
  NoDup kvs.*1 →
  doc_metadata (foldl (λ d kv, with_metadata d kv.1 kv.2) d kvs) !! k =
    opt_or (list_to_map (M := gmap str str) kvs !! k) (doc_metadata d !! k).
Proof.
  revert d. induction kvs as [|[k' v] kvs IH]; intros d Hnd; [done|].
  apply NoDup_cons in Hnd as [Hk Hnd]. simpl. rewrite IH by done. rewrite with_metadata_metadata.
  destruct (decide (k = k')) as [->|Hne].
  - rewrite (not_elem_of_list_to_map_1 kvs k') by done. by rewrite !lookup_insert_eq.
  - by rewrite !lookup_insert_ne.
Qed.

Lemma carry_metadata d m k :
  doc_metadata (foldl (λ d kv, with_metadata d kv.1 kv.2) d (map_to_list m)) !! k =
    opt_or (m !! k) (doc_metadata d !! k).
Proof. rewrite fold_metadata by apply NoDup_fst_map_to_list. by rewrite list_to_map_to_list. Qed.

Lemma with_document_set_other d sets k :
  k ≠ DOCUMENT_SET_KEY → doc_metadata (with_document_set d sets) !! k = doc_metadata d !! k.
Proof.
  intros. unfold with_document_set. case_match; [done|].
  by rewrite with_metadata_metadata, lookup_insert_ne.
Qed.

Lemma with_boost_other d b k :
  k ≠ BOOST_KEY → doc_metadata (with_boost d b) !! k = doc_metadata d !! k.
Proof. intros. unfold with_boost. by rewrite with_metadata_metadata, lookup_insert_ne. Qed.

Lemma with_metadata_other d k k' v :
  k' ≠ k → doc_metadata (with_metadata d k v) !! k' = doc_metadata d !! k'.
Proof. intros. by rewrite with_metadata_metadata, lookup_insert_ne. Qed.

Lemma with_metadata_same d k v : doc_metadata (with_metadata d k v) !! k = Some v.
Proof. by rewrite with_metadata_metadata, lookup_insert_eq. Qed.

(** Keys the curation and ACL stamps leave alone keep what the chunk carried, or else
    what the pipeline stamped first. *)
Lemma chunk_document_lookup u id c options k :
  k ≠ DOCUMENT_SET_KEY → k ≠ BOOST_KEY → k ≠ lit "acl" → k ≠ DocAcl.ACL_METADATA_KEY →
  doc_metadata (chunk_document u id c options) !! k =
    opt_or (chunk_metadata c !! k)
      ((<[lit "chunk_index" := show_nat (chunk_index c)]>
        (<[lit "chunk_id" := chunk_id c]> (<[lit "document_id" := id]>
         {[lit "org_id" := org_id options]})) : gmap str str) !! k).
Proof.
  intros Hs Hb Ha Hv. unfold chunk_document.
  assert (Hset : ∀ d b sets, doc_metadata (if b : bool then with_document_set d sets else d) !! k
    = doc_metadata d !! k) by (intros d [] sets; [by apply with_document_set_other|done]).
  assert (Hboost : ∀ d (b : bool) x, doc_metadata (if b then with_boost d x else d) !! k
    = doc_metadata d !! k) by (intros d [] x; [by apply with_boost_other|done]).
  assert (Hacl : ∀ d o, doc_metadata (match o with
      | Some acl => if bool_decide (acl = []) then d
          else attach_to (DocAcl.for_groups acl) (with_metadata d (lit "acl") (join (lit ",") acl))
      | None => d end) !! k = doc_metadata d !! k).
  { intros d [acl|]; [|done]. case_match; [done|]. unfold attach_to.
    by rewrite !with_metadata_other. }
  rewrite Hacl.
  destruct (boost options); [rewrite Hboost|]; rewrite Hset, carry_metadata;
    by rewrite !with_metadata_metadata, document_new_metadata.
Qed.

Lemma chunk_document_acl u id c options acl :
  chunk_acl c = Some acl → acl ≠ [] →
  acl_from_str (acl_to_string (DocAcl.for_groups acl)) = Some (DocAcl.for_groups acl) →
  from_metadata (doc_metadata (chunk_document u id c options)) = Some (DocAcl.for_groups acl).
Proof.
  intros Hacl Hne Hrt. unfold chunk_document. rewrite Hacl.
  rewrite bool_decide_eq_false_2 by done. unfold from_metadata, attach_to.
  rewrite with_metadata_same. done.
Qed.
End metadata.

(** ** Properties *)

Section properties.
Context `{KnowledgeBase KB, !DocumentNew, AclCodec, F32Text}.
Implicit Types (st : IngestState KB) (options : IngestOptions).

(** C33. Idempotent ingestion: after a successful run, running the pipeline again over
    the same pull with the same ledger skips every document, stores nothing and leaves
    the ledger and the knowledge store as they were; and the first run counted exactly
    the keys it added to the ledger. *)
Theorem reingest_idempotent connector chunker embedder options st docs r st'
    (Hpull : pull connector (since options) = Ok docs)
    (Hrun : ingest connector chunker embedder options st = (Ok r, st')) :
  ingest connector chunker embedder options st' =
    (Ok (mk_IngestReport (length docs) (length docs) 0 (dim embedder)), st') ∧
  size (ledger st') = size (ledger st) + chunks_stored r.
Proof.
  unfold ingest in *. rewrite Hpull in *. simpl in *.
  apply ingest_documents_ok in Hrun as (Hf & _ & Hn). simpl in Hn. split; [|lia].
  rewrite ingest_documents_seen by done. simpl. by rewrite Nat.add_0_r.
Qed.

(** The tenant stamp of a stored chunk is the run's organization unless the
    document's own metadata carries an [org_id], which is then what is stored: the
    connector's metadata is applied over the stamp. *)
Theorem org_stamp_overridden `{!DocumentLaws} uuid id c options :
  doc_metadata (chunk_document uuid id c options) !! ORG_METADATA_KEY =
    Some (default (org_id options) (chunk_metadata c !! ORG_METADATA_KEY)).
Proof.
  change ORG_METADATA_KEY with (lit "org_id"). rewrite chunk_document_lookup by done.
  by destruct (chunk_metadata c !! _).
Qed.

(** A chunk lost to a failing store is never retried: the ledger holds the chunk's
    key before the store is called, so when the store fails the run stops with the
    error, and every later run with that ledger skips the document as unchanged without
    calling the store. *)
Theorem failed_store_never_retried chunker embedder options raw c v r st e
    (Hchunk : chunk chunker raw = [c])
    (Hnew : chunk_key (org_id options) (raw_id raw) (chunk_text c) ∉ ledger st)
    (Hembed : embed embedder [chunk_text c] InputDocument = Ok [v])
    (Hdim : length v = dim embedder)
    (Hfail : (kb_ingest (chunk_document (minted st 0) (raw_id raw) c options) (knowledge st)).1
             = Err e) :
  ∃ err st1, ingest_document chunker embedder options raw r st = (Err err, st1) ∧
    ∀ r', ingest_document chunker embedder options raw r' st1 = (Ok (skip_document r'), st1).
Proof.
  destruct (ingest_document chunker embedder options raw r st) as [res st1] eqn:Hrun.
  assert (Hres : is_ok res = false ∧ ledger st1 =
    {[chunk_key (org_id options) (raw_id raw) (chunk_text c)]} ∪ ledger st).
  { revert Hrun. unfold ingest_document. rewrite Hchunk. simpl.
    replace (ledger_contains _ _) with false by (symmetry; by apply bool_decide_eq_false).
    simpl. rewrite Hembed. simpl. unfold check_dims. simpl. rewrite Hdim, Nat.eqb_refl. simpl.
    unfold record. simpl. rewrite bool_decide_eq_false_2 by done. simpl. unfold store_chunk. simpl.
    destruct (kb_ingest _ _) as [[]] eqn:E; simpl in *; intros; by simplify_eq/=. }
  destruct Hres as [Herr Hl]. destruct res as [|err]; [done|].
  exists err, st1. split; [done|]. intros r'. apply ingest_document_seen.
  unfold seen, chunk_keys. rewrite Hchunk, Hl. simpl. set_solver.
Qed.
End properties.

(** The connector's ACL reaches the reader: a chunk of a document with ACL labels,
    stored through the ACL store's ingest handle, is recorded as readable by exactly
    those groups, so a requester in none of them never gets it from a query. *)
Theorem ingested_acl_enforced `{KnowledgeBase KB, !DocumentNew, AclCodec, F32Text, !DocumentLaws}
    uuid id (c : Chunk) options (acl : list str) (st : AclKnowledgeStore KB)
    (ctx : AccessContext) query limit rs
    (Hacl : chunk_acl c = Some acl) (Hne : acl ≠ [])
    (Hcodec : acl_from_str (acl_to_string (DocAcl.for_groups acl)) = Some (DocAcl.for_groups acl))
    (Hout : ∀ g, g ∈ ctx_groups ctx → g ∉ acl)
    (Hq : reader_query ctx (handle_ingest (chunk_document uuid id c options) st).2 query limit = Ok rs) :
  doc_id (chunk_document uuid id c options) ∉ kr_document_id <$> rs.
Proof.
  set (d := chunk_document uuid id c options) in *.
  assert (He : acls (handle_ingest d st).2 !! doc_id d ≫= entry_acl = Some (DocAcl.for_groups acl)).
  { unfold handle_ingest, ingest_bound, record_document.
    rewrite (chunk_document_acl uuid id c options acl Hacl Hne Hcodec : from_metadata (doc_metadata d) = _).
    destruct (kb_ingest _ _); simpl. rewrite andb_false_r. by rewrite lookup_insert_eq. }
  intros (x & Hx & Hr)%list_elem_of_fmap.
  destruct (proj1 (allowed_spec _ _ _) (reader_query_allowed _ _ _ _ _ _ Hq Hr)) as [_ Ha].
  apply bind_Some in He as (entry & Hentry & Hacl').
  rewrite Hx in Hentry. specialize (Ha _ _ Hentry Hacl').
  apply can_access_spec in Ha as [?|[(uid & _ & Hu)|(g & Hg & Hin)]]; [done| |by apply (Hout g)].
  by apply elem_of_nil in Hu.
Qed.

(** ** A concrete deployment *)

Module Demo.
Import AccessControl.Demo.

(** A store that fails its first [n] calls. *)
#[export] Instance flaky_kb : KnowledgeBase (nat * list (str * gmap str str)) := {|
  kb_ingest d kb := match kb.1 with
                    | S n => (Err (lit "unavailable"), (n, kb.2))
                    | O => (Ok (), (0, kb.2 ++ [d]))
                    end;
  kb_query kb _ n := Ok (take (N.to_nat n) kb.2.*1);
|}.

#[export] Instance demo_new : DocumentNew := {|
  DocumentType := unit; Documentation := (); document_new id _ _ _ := (id, ∅) |}.
#[export] Instance demo_laws : DocumentLaws.
Proof. by split. Qed.

#[export] Instance demo_f32 : F32Text := {| f32_display _ := lit "1"; f32_parse _ := None |}.

(** Groups only, comma-joined. *)
#[export] Instance group_codec : AclCodec := {|
  acl_to_string a := join (lit ",") (acl_groups a);
  acl_from_str s := Some (DocAcl.for_groups (split_on (N.eqb 44) s)); |}.

Definition raw : RawDocument :=
  mk_RawDocument (lit "d1") (lit "web") None (lit "hello") {[lit "org_id" := lit "globex"]}
    (Some [lit "eng"]).
Definition connector : Connector := mk_Connector (lit "web") (λ _, Ok [raw; raw]).
Definition embedder : Embedder := mk_Embedder 1 (λ ts _, Ok ((λ _, [S754_nan]) <$> ts)).
Definition st (failures : nat) : IngestState (nat * list (str * gmap str str)) :=
  mk_IngestState ∅ (failures, []) show_nat.
Definition opts : IngestOptions := for_org (lit "acme").
End Demo.
Import AccessControl.Demo Demo.

Lemma reingest_idempotent_witness :
  let r := ingest Demo.connector chunker_default Demo.embedder Demo.opts (Demo.st 0) in
  (chunks_stored <$> r.1) = Ok 1 ∧
  ingest Demo.connector chunker_default Demo.embedder Demo.opts r.2 =
    (Ok (mk_IngestReport 2 2 0 1), r.2) ∧
  size (ledger r.2) = 1.
Proof.
  split; [by vm_compute|].
  assert (E : ingest Demo.connector chunker_default Demo.embedder Demo.opts (Demo.st 0) =
    (Ok (mk_IngestReport 2 1 1 1),
     (ingest Demo.connector chunker_default Demo.embedder Demo.opts (Demo.st 0)).2)).
  { rewrite (surjective_pairing (ingest _ _ _ _ _)) at 1. by apply (f_equal2 pair); [vm_compute|]. }
  destruct (reingest_idempotent Demo.connector chunker_default Demo.embedder Demo.opts (Demo.st 0)
    [Demo.raw; Demo.raw] _ _ eq_refl E) as [H1 H2].
  split; [exact H1|exact H2].
Defined.

Lemma failed_store_never_retried_witness :
  (ingest_document chunker_default Demo.embedder Demo.opts Demo.raw (mk_IngestReport 1 0 0 1)
     (Demo.st 1)).1 = Err [lit "storing chunk 'd1#0'"; lit "unavailable"] ∧
  ∃ err st1, ingest_document chunker_default Demo.embedder Demo.opts Demo.raw
               (mk_IngestReport 1 0 0 1) (Demo.st 1) = (Err err, st1) ∧
    ∀ r', ingest_document chunker_default Demo.embedder Demo.opts Demo.raw r' st1 =
          (Ok (skip_document r'), st1).
Proof.
  split; [by vm_compute|].
  eapply (failed_store_never_retried chunker_default Demo.embedder Demo.opts Demo.raw
    (mk_Chunk (lit "d1#0") (lit "d1") 0 (lit "hello") _ _) [S754_nan]).
  - by vm_compute.
  - apply not_elem_of_empty.
  - done.
  - done.
  - done.
Defined.

Lemma ingested_acl_enforced_witness :
  let d := chunk_document (lit "u") (lit "d1")
             (mk_Chunk (lit "d1#0") (lit "d1") 0 (lit "hello") ∅ (Some [lit "eng"])) Demo.opts in
  let st := (handle_ingest d (new (KB := nat * list (str * gmap str str)) (0, []))).2 in
  reader_query (AccessContext.for_user (lit "bob")) st [] 5 = Ok [] ∧
  kr_document_id <$> ([] : list KnowledgeResult) = [] ∧ doc_id d ∉ kr_document_id <$> ([] : list KnowledgeResult).
Proof.
  intros d st. split; [by vm_compute|]. split; [done|].
  refine (ingested_acl_enforced (lit "u") (lit "d1")
    (mk_Chunk (lit "d1#0") (lit "d1") 0 (lit "hello") ∅ (Some [lit "eng"])) Demo.opts [lit "eng"]
    (new (0, [])) (AccessContext.for_user (lit "bob")) [] 5 [] eq_refl _ _ _ _).
  - done.
  - by vm_compute.
  - intros g Hg. by apply elem_of_nil in Hg.
  - by vm_compute.
Defined.
