(* ===== verification/Indexing.v ===== *)
(** * Indexing: incremental runs and cursors ([ingestion/src/indexing.rs])

    [IndexingStore] is the interface [run_once] is verified against; the
    in-memory store is its instance, and discharges the interface's laws. *)

From stdpp Require Import prelude gmap strings list.
From S2P Require Import Prelude Text AccessControl Chunker Pipeline.

(** ** Runs *)

Inductive IndexingRunStatus := Running | Succeeded | Failed.
#[export] Instance IndexingRunStatus_eq_dec : EqDecision IndexingRunStatus.
Proof. solve_decision. Defined.

Record IndexingRun := mk_IndexingRun {
  run_id : str;
  run_connector_name : str;
  run_status : IndexingRunStatus;
  started_at : Timestamp;
  finished_at : option Timestamp;
  documents_seen : nat;
  chunks_indexed : nat;
  run_documents_skipped : nat;
  cursor : option Timestamp;
  run_error : option str;
}.

Definition succeeded (r : IndexingRun) : bool := bool_decide (run_status r = Succeeded).

(** [Iterator::max] over timestamps. *)
Definition opt_max (a b : option Timestamp) : option Timestamp :=
  match a, b with
  | Some x, Some y => Some (Z.max x y)
  | Some x, None | None, Some x => Some x
  | None, None => None
  end.
Definition max_timestamp (l : list Timestamp) : option Timestamp :=
  foldr (λ t acc, opt_max (Some t) acc) None l.

(** Absent is below everything. *)
Definition cursor_le (a b : option Timestamp) : Prop :=
  match a, b with
  | None, _ => True
  | Some x, Some y => (x ≤ y)%Z
  | Some _, None => False
  end.

#[export] Instance cursor_le_preorder : PreOrder cursor_le.
Proof.
  split.
  - intros [x|]; simpl; [lia|done].
  - intros [x|] [y|] [z|]; simpl; try done. lia.
Qed.

(** ** The store (trait [IndexingStore]) *)

Class IndexingStore (S : Type) := {
  record_run : IndexingRun → S → S;
  latest_cursor : S → str → option Timestamp;
  list_runs : S → str → list IndexingRun;
}.

(** What the trait's documentation promises: the latest cursor is the maximum over the
    successful runs of the connector, and recording is an upsert by id. *)
Definition run_cursors (runs : list IndexingRun) : list Timestamp :=
  omap (λ r, if succeeded r then cursor r else None) runs.

Class IndexingStoreLaws (S : Type) `{IndexingStore S} : Prop := {
  latest_cursor_spec (s : S) name :
    latest_cursor s name = max_timestamp (run_cursors (list_runs s name));
  record_run_fresh (s : S) run name :
    (∀ n, run_id run ∉ run_id <$> list_runs s n) →
    list_runs (record_run run s) name =
      list_runs s name ++ (if decide (run_connector_name run = name) then [run] else []);
}.

(** *** The in-memory store *)

Definition InMemoryIndexingStore : Type := list IndexingRun.

Module InMemory.
(** [iter_mut().find] by id, else push. *)
Fixpoint record_run (run : IndexingRun) (runs : InMemoryIndexingStore) : InMemoryIndexingStore :=
  match runs with
  | [] => [run]
  | r :: runs' => if str_eqb (run_id r) (run_id run) then run :: runs'
                  else r :: record_run run runs'
  end.

Definition latest_cursor (runs : InMemoryIndexingStore) (name : str) : option Timestamp :=
  max_timestamp
    (omap cursor
       (List.filter (λ r, str_eqb (run_connector_name r) name && succeeded r) runs)).

Definition list_runs (runs : InMemoryIndexingStore) (name : str) : list IndexingRun :=
  List.filter (λ r, str_eqb (run_connector_name r) name) runs.
End InMemory.

#[export] Instance in_memory_store : IndexingStore InMemoryIndexingStore := {|
  record_run := InMemory.record_run;
  latest_cursor := InMemory.latest_cursor;
  list_runs := InMemory.list_runs;
|}.

Lemma in_memory_record_fresh run runs :
  run_id run ∉ run_id <$> runs → InMemory.record_run run runs = runs ++ [run].
Proof.
  induction runs as [|r runs IH]; simpl; [done|]. intros Hn%not_elem_of_cons.
  destruct Hn as [Hne Hn]. case_match eqn:E; [|by rewrite IH].
  by apply str_eqb_true in E.
Qed.

#[export] Instance in_memory_laws : IndexingStoreLaws InMemoryIndexingStore.
Proof.
  split.
  - intros s name. simpl. unfold InMemory.latest_cursor, InMemory.list_runs. f_equal.
    unfold run_cursors. induction s as [|r s IH]; simpl; [done|].
    destruct (str_eqb _ name) eqn:En, (succeeded r) eqn:Es; simpl; rewrite ?Es; simpl;
      destruct (cursor r); simpl; first [exact IH | f_equal; exact IH].
  - intros s run name Hn. simpl. rewrite in_memory_record_fresh.
    + unfold InMemory.list_runs. rewrite List.filter_app. f_equal. simpl.
      unfold str_eqb. case_decide; by case_bool_decide.
    + intros (r & Hr & Hin)%list_elem_of_fmap. apply (Hn (run_connector_name r)).
      rewrite Hr. apply list_elem_of_fmap_2. simpl. unfold InMemory.list_runs.
      apply list_elem_of_In, filter_In. split; [by apply list_elem_of_In|].
      apply str_eqb_refl.
Qed.

(** ** The service *)

Inductive IndexingEvent :=
| Started (connector_name : str) (documents_seen : nat)
| Finished (run : IndexingRun).

(** RFC 3339 parsing is the [chrono] crate's. *)
Class Rfc3339 := { parse_from_rfc3339 : str → option Timestamp }.

Definition max_updated_at `{Rfc3339} (docs : list RawDocument) : option Timestamp :=
  max_timestamp
    (omap (λ d, raw_metadata d !! lit "updated_at" ≫= parse_from_rfc3339) docs).

Section service.
Context `{KnowledgeBase KB, !DocumentNew, AclCodec, F32Text, !Rfc3339}.
Context {S : Type} `{!IndexingStore S}.

(** [svc_ledger] is the injected shared ledger, [svc_progress] whether a progress
    callback is installed; the callback receives the events [emit] returns. *)
Record IndexingService := mk_IndexingService {
  svc_org_id : str;
  svc_doc_type : DocumentType;
  svc_ledger : option IngestLedger;
  svc_progress : bool;
}.

Definition service_new (org : str) : IndexingService :=
  mk_IndexingService org Documentation None false.
Definition service_with_ledger (l : IngestLedger) (self : IndexingService) : IndexingService :=
  mk_IndexingService (svc_org_id self) (svc_doc_type self) (Some l) (svc_progress self).
Definition service_with_progress (self : IndexingService) : IndexingService :=
  mk_IndexingService (svc_org_id self) (svc_doc_type self) (svc_ledger self) true.

(** What a run changes: the service's shared ledger, the indexing store, the knowledge
    store, the ids left and the events emitted so far. *)
Record World := mk_World {
  w_service : IndexingService;
  w_store : S;
  w_knowledge : KB;
  w_minted : nat → str;
  w_events : list IndexingEvent;
}.

Definition emit (e : IndexingEvent) (w : World) : World :=
  mk_World (w_service w) (w_store w) (w_knowledge w) (w_minted w)
    (if svc_progress (w_service w) then w_events w ++ [e] else w_events w).

Definition store_run (run : IndexingRun) (w : World) : World :=
  mk_World (w_service w) (record_run run (w_store w)) (w_knowledge w) (w_minted w) (w_events w).

Definition record_failed (id name : str) (started now : Timestamp) (err : error) (w : World) :
    IndexingRun * World :=
  let run := mk_IndexingRun id name Failed started (Some now) 0 0 0 None (Some (show_error err)) in
  (run, emit (Finished run) (store_run run w)).

(** The replay connector of [ingest_pulled]. *)
Definition ingest_pulled (source_name : str) (docs : list RawDocument) (chunker : Chunker)
    (embedder : Embedder) (options : IngestOptions) (st : IngestState KB) :
    result error IngestReport * IngestState KB :=
  ingest (mk_Connector source_name (λ _, Ok docs)) chunker embedder options st.

(** The ledger of the options is the injected one or a fresh one; only the injected one
    outlives the run. *)
Definition run_ledger (svc : IndexingService) : IngestLedger := default ∅ (svc_ledger svc).
Definition keep_ledger (l : IngestLedger) (svc : IndexingService) : IndexingService :=
  match svc_ledger svc with Some _ => service_with_ledger l svc | None => svc end.

(** [started] and [now] are the two clock readings of the run, [id] its uuid. *)
Definition run_once (connector : Connector) (chunker : Chunker) (embedder : Embedder)
    (id : str) (started now : Timestamp) (w : World) : IndexingRun * World :=
  let name := connector_name connector in
  let svc := w_service w in
  let since := latest_cursor (w_store w) name in
  let options := mk_IngestOptions (svc_org_id svc) since (svc_doc_type svc) [] None in
  match pull connector since with
  | Err err => record_failed id name started now err w
  | Ok pulled =>
      let documents_seen := length pulled in
      let w := emit (Started name documents_seen) w in
      let max_seen := max_updated_at pulled in
      let '(outcome, st) :=
        ingest_pulled name pulled chunker embedder options
          (mk_IngestState (run_ledger svc) (w_knowledge w) (w_minted w)) in
      let w := mk_World (keep_ledger (ledger st) svc) (w_store w) (knowledge st) (minted st)
                 (w_events w) in
      match outcome with
      | Err err => record_failed id name started now err w
      | Ok report =>
          let cursor := if (documents_seen =? 0)%nat then since
                        else Some (default started max_seen) in
          let run := mk_IndexingRun id name Succeeded started (Some now) documents_seen
                       (chunks_stored report) (documents_skipped report) cursor None in
          (run, emit (Finished run) (store_run run w))
      end
  end.
End service.
Arguments World {_} KB {_} S.

(** ** Lemmas *)

Lemma max_timestamp_app a b :
  max_timestamp (a ++ b) = opt_max (max_timestamp a) (max_timestamp b).
Proof.
  induction a as [|x a IH]; simpl.
  - by destruct (max_timestamp b).
  - rewrite IH. destruct (max_timestamp a), (max_timestamp b); simpl; try done. f_equal. lia.
Qed.

Lemma cursor_le_max_l a b : cursor_le a (opt_max a b).
Proof. destruct a, b; simpl; lia. Qed.

Section runs.
Context {S : Type} `{!IndexingStore S, !IndexingStoreLaws S}.

(** Recording a fresh run moves one connector's cursor, to the maximum, and only when
    the run succeeded. *)
Lemma record_run_cursor (s : S) run name :
  (∀ n, run_id run ∉ run_id <$> list_runs s n) →
  latest_cursor (record_run run s) name =
    if decide (run_connector_name run = name)
    then if succeeded run then opt_max (latest_cursor s name) (cursor run) else latest_cursor s name
    else latest_cursor s name.
Proof.
  intros Hf. rewrite !latest_cursor_spec, record_run_fresh by done.
  unfold run_cursors. rewrite omap_app, max_timestamp_app.
  assert (∀ o, opt_max o None = o) as Hn by (by intros []).
  case_decide; simpl; [|apply Hn].
  destruct (succeeded run); simpl; [|apply Hn].
  destruct (cursor run); simpl; [done|by rewrite Hn].
Qed.
End runs.

(** ** Properties *)

Section properties.
Context `{KnowledgeBase KB, !DocumentNew, AclCodec, F32Text, !Rfc3339}.
Context {S : Type} `{!IndexingStore S, !IndexingStoreLaws S}.
Implicit Types (w : World KB S).

Lemma run_once_store connector chunker embedder id started now w run w' :
  run_once connector chunker embedder id started now w = (run, w') →
  w_store w' = record_run run (w_store w) ∧ run_id run = id ∧
  run_connector_name run = connector_name connector ∧
  (succeeded run = false ∧ cursor run = None ∨
   succeeded run = true ∧ ∃ docs, pull connector (latest_cursor (w_store w) (connector_name connector)) = Ok docs ∧
     documents_seen run = length docs ∧
     cursor run = if decide (docs = []) then latest_cursor (w_store w) (connector_name connector)
                  else Some (default started (max_updated_at docs))).
Proof.
  unfold run_once. intros Hr. destruct (pull _ _) as [docs|err] eqn:Hp.
  - destruct (ingest_pulled _ _ _ _ _ _) as [[report|err] st].
    + simplify_eq/=. split; [done|]. split; [done|]. split; [done|]. right. split; [done|].
      exists docs. split; [done|]. split; [done|]. by destruct docs.
    + unfold record_failed in Hr. simplify_eq/=. split; [done|]. split; [done|]. split; [done|]. by left.
  - unfold record_failed in Hr. simplify_eq/=. split; [done|]. split; [done|]. split; [done|]. by left.
Qed.

(** Cursors only move forward, one connector at a time: a run with a fresh id leaves
    every other connector's cursor alone and never lowers its own; when the run failed
    the cursor is exactly what it was, and when it succeeded over a non-empty pull the
    cursor is the maximum of the old one and the newest timestamp pulled (the start time
    when no document carries one). *)
Theorem cursor_monotone connector chunker embedder id started now w run w'
    (Hfresh : ∀ n, id ∉ run_id <$> list_runs (w_store w) n)
    (Hrun : run_once connector chunker embedder id started now w = (run, w')) :
  let name := connector_name connector in
  (∀ other, other ≠ name → latest_cursor (w_store w') other = latest_cursor (w_store w) other) ∧
  cursor_le (latest_cursor (w_store w) name) (latest_cursor (w_store w') name) ∧
  (succeeded run = false → latest_cursor (w_store w') name = latest_cursor (w_store w) name) ∧
  (∀ docs, succeeded run = true →
     pull connector (latest_cursor (w_store w) name) = Ok docs → docs ≠ [] →
     latest_cursor (w_store w') name =
       opt_max (latest_cursor (w_store w) name) (Some (default started (max_updated_at docs)))).
Proof.
  simpl. destruct (run_once_store _ _ _ _ _ _ _ _ _ Hrun) as (Hs & Hid & Hn & Hc).
  subst id. rewrite Hs. pose proof (λ name, record_run_cursor (w_store w) run name Hfresh) as Hcur.
  split; [|split; [|split]].
  - intros other Ho. rewrite Hcur. by rewrite decide_False by congruence.
  - rewrite Hcur. rewrite decide_True by done. case_match; [apply cursor_le_max_l|reflexivity].
  - intros Hf. rewrite Hcur, decide_True by done. by rewrite Hf.
  - intros docs Ht Hp Hne. rewrite Hcur, decide_True by done. rewrite Ht.
    destruct Hc as [[? _]|(_ & docs' & Hp' & _ & ->)]; [congruence|].
    rewrite Hp in Hp'. simplify_eq. by rewrite decide_False.
Qed.

(** A run always yields a recorded run: [run_once] has an outcome for every connector,
    failure included, and it is the record the store got, with the counts of the
    pipeline; a failing pull or pipeline is a [Failed] run whose message is the
    failure's. *)
Theorem run_once_records connector chunker embedder id started now w
    (Hfresh : ∀ n, id ∉ run_id <$> list_runs (w_store w) n) :
  let name := connector_name connector in
  let r := run_once connector chunker embedder id started now w in
  list_runs (w_store r.2) name = list_runs (w_store w) name ++ [r.1] ∧
  run_status r.1 ≠ Running ∧
  (∀ err, pull connector (latest_cursor (w_store w) name) = Err err →
     run_status r.1 = Failed ∧ run_error r.1 = Some (show_error err) ∧
     w_knowledge r.2 = w_knowledge w).
Proof.
  simpl. destruct (run_once _ _ _ _ _ _ _) as [run w'] eqn:Hrun. simpl.
  destruct (run_once_store _ _ _ _ _ _ _ _ _ Hrun) as (Hs & Hid & Hn & Hc).
  subst id. rewrite Hs. split; [|split].
  - rewrite record_run_fresh by done. by rewrite Hn, decide_True.
  - revert Hrun. unfold run_once, record_failed. destruct (pull _ _) as [docs|err].
    + destruct (ingest_pulled _ _ _ _ _ _) as [[report|err] st]; intros Hr; by inversion Hr.
    + intros Hr; by inversion Hr.
  - intros err Hp. revert Hrun. unfold run_once. rewrite Hp. unfold record_failed.
    intros Hr. by inversion Hr.
Qed.
End properties.

(** ** A concrete connector *)

Module Demo.
Import AccessControl.Demo Pipeline.Demo.

(** Timestamps are their digit: "1" is the instant 1. *)
#[export] Instance digit_clock : Rfc3339 := {|
  parse_from_rfc3339 s := match s with [c] => Some (Z.of_N c - 48)%Z | _ => None end |}.

Definition doc (i t : string) : RawDocument :=
  mk_RawDocument (lit i) (lit "web") None (lit "hello") {[lit "updated_at" := lit t]} None.
Definition connector : Connector :=
  mk_Connector (lit "web") (λ _, Ok [doc "a" "5"; doc "b" "7"; doc "c" "6"]).
Definition broken : Connector := mk_Connector (lit "web") (λ _, Err [lit "timeout"]).
Definition w0 : World (nat * list (str * gmap str str)) InMemoryIndexingStore :=
  mk_World (service_with_progress (service_new (lit "acme")))
    [mk_IndexingRun (lit "r0") (lit "web") Succeeded 1%Z (Some 1%Z) 1 1 0 (Some 4%Z) None]
    (0, []) show_nat [].
End Demo.
Import AccessControl.Demo Pipeline.Demo Demo.

Lemma cursor_monotone_witness :
  let r := run_once Demo.connector chunker_default Demo.embedder (lit "r1") 9%Z 10%Z Demo.w0 in
  latest_cursor (w_store r.2) (lit "web") = Some 7%Z ∧
  cursor_le (latest_cursor (w_store Demo.w0) (lit "web")) (latest_cursor (w_store r.2) (lit "web")).
Proof.
  intros r. split; [by vm_compute|].
  assert (Hf : ∀ n, lit "r1" ∉ run_id <$> list_runs (w_store Demo.w0) n).
  { intros n. simpl. destruct (str_eqb _ _); simpl; intros Hin;
      repeat (apply elem_of_cons in Hin as [Hin|Hin]; [discriminate|]); by apply elem_of_nil in Hin. }
  exact (proj1 (proj2 (cursor_monotone Demo.connector chunker_default Demo.embedder (lit "r1")
    9%Z 10%Z Demo.w0 r.1 r.2 Hf (surjective_pairing r)))).
Defined.

Lemma run_once_records_witness :
  let r := run_once Demo.broken chunker_default Demo.embedder (lit "r1") 9%Z 10%Z Demo.w0 in
  run_error r.1 = Some (lit "timeout") ∧
  list_runs (w_store r.2) (lit "web") = list_runs (w_store Demo.w0) (lit "web") ++ [r.1].
Proof.
  intros r. split; [by vm_compute|].
  assert (Hf : ∀ n, lit "r1" ∉ run_id <$> list_runs (w_store Demo.w0) n).
  { intros n. simpl. destruct (str_eqb _ _); simpl; intros Hin;
      repeat (apply elem_of_cons in Hin as [Hin|Hin]; [discriminate|]); by apply elem_of_nil in Hin. }
  exact (proj1 (run_once_records Demo.broken chunker_default Demo.embedder (lit "r1")
    9%Z 10%Z Demo.w0 Hf)).
Defined.
