(* ===== verification/RunningTurns.v ===== *)
(** * RunningTurns: one agent turn per conversation ([server/src/running_turns.rs])

    The registry's operations, then the system of connections that use it: every handle
    ever issued may still be used, in any order and any number of times, which is what
    the registry has to survive. *)

From stdpp Require Import prelude gmap strings list.
From S2P Require Import Prelude Text.

(** ** The registry *)

(** Sinks, cancelled flags and tasks are shared objects: a turn holds their names. *)
Record RunningTurn := mk_RunningTurn {
  token : N;
  request_id : str;
  conn_id : str;
  sink : nat;
  cancelled : nat;
  abort : option nat;
}.

Record CancelledTurn := mk_CancelledTurn {
  ct_request_id : str;
  ct_conn_id : str;
  ct_sink : nat;
}.

(** A [TurnReservation] and its [TurnReleaser]s: the conversation and the token. *)
Record TurnReservation := mk_TurnReservation {
  tr_conversation_id : str;
  tr_token : N;
}.

(** The registry, with the flags raised and the tasks aborted so far. *)
Record RunningTurns := mk_RunningTurns {
  turns : gmap str RunningTurn;
  next_token : N;
  raised : gset nat;
  aborted : gset nat;
}.

Definition registry_new : RunningTurns := mk_RunningTurns ∅ 0 ∅ ∅.

(** [fetch_add] on an [AtomicU64] wraps. *)
Definition token_succ (t : N) : N := ((t + 1) mod 2 ^ 64)%N.

Definition set_turns (m : gmap str RunningTurn) (reg : RunningTurns) : RunningTurns :=
  mk_RunningTurns m (next_token reg) (raised reg) (aborted reg).

Definition try_reserve (conversation_id request_id conn_id : str) (sink cancelled : nat)
    (reg : RunningTurns) : option TurnReservation * RunningTurns :=
  if is_some (turns reg !! conversation_id) then (None, reg)
  else
    let token := next_token reg in
    (Some (mk_TurnReservation conversation_id token),
     mk_RunningTurns
       (<[conversation_id := mk_RunningTurn token request_id conn_id sink cancelled None]> (turns reg))
       (token_succ token) (raised reg) (aborted reg)).

Definition is_running (conversation_id : str) (reg : RunningTurns) : bool :=
  is_some (turns reg !! conversation_id).

Definition cancel (conversation_id : str) (reg : RunningTurns) :
    option CancelledTurn * RunningTurns :=
  match turns reg !! conversation_id with
  | None => (None, reg)
  | Some turn =>
      (Some (mk_CancelledTurn (request_id turn) (conn_id turn) (sink turn)),
       mk_RunningTurns (delete conversation_id (turns reg)) (next_token reg)
         ({[cancelled turn]} ∪ raised reg)
         (match abort turn with Some h => {[h]} ∪ aborted reg | None => aborted reg end))
  end.

Definition set_abort (r : TurnReservation) (handle : nat) (reg : RunningTurns) : RunningTurns :=
  match turns reg !! tr_conversation_id r with
  | Some turn =>
      if (token turn =? tr_token r)%N then
        set_turns (<[tr_conversation_id r :=
          mk_RunningTurn (token turn) (request_id turn) (conn_id turn) (sink turn)
            (cancelled turn) (Some handle)]> (turns reg)) reg
      else reg
  | None => reg
  end.

(** [release], also what dropping the reservation does. *)
Definition release (r : TurnReservation) (reg : RunningTurns) : RunningTurns :=
  if is_some_and (λ t, (token t =? tr_token r)%N) (turns reg !! tr_conversation_id r)
  then set_turns (delete (tr_conversation_id r) (turns reg)) reg
  else reg.

(** ** The connections *)

(** The registry and every reservation ever handed out. *)
Record system := mk_system { registry : RunningTurns; issued : list TurnReservation }.

Definition system_init : system := mk_system registry_new [].

Inductive label :=
| LReserve (conversation_id request_id conn_id : str) (sink cancelled : nat)
| LCancel (conversation_id : str)
| LSetAbort (r : TurnReservation) (handle : nat)
| LRelease (r : TurnReservation).

Inductive step : system → label → system → Prop :=
| step_reserve c q n s f reg l r reg' :
    try_reserve c q n s f reg = (r, reg') →
    step (mk_system reg l) (LReserve c q n s f)
      (mk_system reg' (match r with Some h => h :: l | None => l end))
| step_cancel c reg l t reg' :
    cancel c reg = (t, reg') → step (mk_system reg l) (LCancel c) (mk_system reg' l)
| step_set_abort r h reg l :
    r ∈ l → step (mk_system reg l) (LSetAbort r h) (mk_system (set_abort r h reg) l)
| step_release r reg l :
    r ∈ l → step (mk_system reg l) (LRelease r) (mk_system (release r reg) l).

Inductive reachable : system → Prop :=
| reachable_init : reachable system_init
| reachable_step s l s' : reachable s → step s l s' → reachable s'.

(** ** The invariant *)

(** As long as the token counter has not wrapped around, the issued tokens are the first
    ones and every registered turn was registered by an issued reservation. *)
Definition system_inv (s : system) : Prop :=
  (N.of_nat (length (issued s)) ≤ 2 ^ 64)%N →
  next_token (registry s) = (N.of_nat (length (issued s)) mod 2 ^ 64)%N ∧
  tr_token <$> issued s = N.of_nat <$> reverse (seq 0 (length (issued s))) ∧
  map_Forall (λ c t, mk_TurnReservation c (token t) ∈ issued s) (turns (registry s)).

Lemma system_init_inv : system_inv system_init.
Proof. intros _. split; [done|]. split; [done|]. apply map_Forall_empty. Qed.

Lemma set_abort_turns r h reg c t :
  turns (set_abort r h reg) !! c = Some t →
  ∃ t0, turns reg !! c = Some t0 ∧ token t = token t0.
Proof.
  unfold set_abort. destruct (turns reg !! tr_conversation_id r) as [t0|] eqn:E; [|by eauto].
  case_match; [|by eauto]. simpl. destruct (decide (c = tr_conversation_id r)) as [->|Hne].
  - rewrite lookup_insert_eq. intros; simplify_eq/=. eauto.
  - rewrite lookup_insert_ne by done. eauto.
Qed.

Lemma release_turns r reg c t :
  turns (release r reg) !! c = Some t → turns reg !! c = Some t.
Proof. unfold release. case_match; simpl; [|done]. by intros [_ ?]%lookup_delete_Some. Qed.

Lemma cancel_turns c reg t reg' c' t' :
  cancel c reg = (t, reg') → turns reg' !! c' = Some t' → turns reg !! c' = Some t'.
Proof.
  unfold cancel. intros. case_match; simplify_eq/=; [|done].
  by apply lookup_delete_Some in H0 as [_ ?].
Qed.

Lemma set_abort_next r h reg : next_token (set_abort r h reg) = next_token reg.
Proof. unfold set_abort. by repeat case_match. Qed.

Lemma release_next r reg : next_token (release r reg) = next_token reg.
Proof. unfold release. by case_match. Qed.

Lemma cancel_next c reg t reg' : cancel c reg = (t, reg') → next_token reg' = next_token reg.
Proof. unfold cancel. intros. by case_match; simplify_eq/=. Qed.

#[export] Hint Rewrite set_abort_next release_next : rust_simpl.

Lemma step_inv s l s' : system_inv s → step s l s' → system_inv s'.
Proof.
  intros Hinv Hs. inversion Hs as [c q n sk f reg li r reg' Hr|c reg li t reg' Hc|r h reg li Hin|r reg li Hin];
    subst; intros Hlen; simpl in *.
  - unfold try_reserve in Hr. destruct (is_some (turns reg !! c)); simplify_eq/=; [by apply Hinv|].
    destruct Hinv as (Hn & Hi & Hall); simpl in *; [lia|]. split; [|split].
    + rewrite Hn. unfold token_succ. rewrite N.Div0.add_mod_idemp_l. f_equal. lia.
    + change (0 :: seq 1 (length li)) with (seq 0 (S (length li))). rewrite seq_S, reverse_snoc. simpl. rewrite Hi, Hn. f_equal.
      apply N.mod_small. lia.
    + apply map_Forall_insert_2; [left|]. eapply map_Forall_impl; [done|].
      intros. by right.
  - destruct Hinv as (Hn & Hi & Hall); simpl in *; [done|]. rewrite (cancel_next _ _ _ _ Hc).
    split; [done|]. split; [done|]. intros c' t' Ht. eapply Hall, cancel_turns; done.
  - destruct Hinv as (Hn & Hi & Hall); simpl in *; [done|]. autorewrite with rust_simpl.
    split; [done|]. split; [done|]. intros c' t' Ht.
    apply set_abort_turns in Ht as (t0 & Ht0 & ->). by apply Hall.
  - destruct Hinv as (Hn & Hi & Hall); simpl in *; [done|]. autorewrite with rust_simpl.
    split; [done|]. split; [done|]. intros c' t' Ht. by eapply Hall, release_turns.
Qed.

Lemma reachable_inv s : reachable s → system_inv s.
Proof. induction 1; [apply system_init_inv|by eapply step_inv]. Qed.

Lemma issued_tokens_unique s r r' :
  system_inv s → (N.of_nat (length (issued s)) ≤ 2 ^ 64)%N →
  r ∈ issued s → r' ∈ issued s → tr_token r = tr_token r' → r = r'.
Proof.
  intros Hinv Hlen Hr Hr' Heq. destruct (Hinv Hlen) as (_ & Hi & _).
  assert (Hnd : NoDup (tr_token <$> issued s)).
  { rewrite Hi. apply NoDup_fmap_2; [by intros ???; lia|].
    rewrite reverse_Permutation. apply NoDup_seq. }
  apply list_elem_of_lookup in Hr as [i Hi1], Hr' as [j Hj1].
  assert (i = j) as ->; [|by simplify_eq].
  eapply NoDup_lookup; [exact Hnd| |]; rewrite list_lookup_fmap.
  - by rewrite Hi1.
  - by rewrite Hj1, Heq.
Qed.

(** ** Properties *)

(** The turn a reservation registered, while it is registered. *)
Definition registered (s : system) (r : TurnReservation) (t : RunningTurn) : Prop :=
  turns (registry s) !! tr_conversation_id r = Some t ∧ token t = tr_token r.

(** A turn keeps its conversation until its own reservation is released or the
    conversation is cancelled: whatever any connection does with any other handle ever
    issued, stale ones of the same conversation included, the turn stays registered and
    unchanged (as long as fewer than [2^64] turns have been started in the process). *)
Theorem registration_stable s l s' r t
    (Hreach : reachable s) (Hwrap : (N.of_nat (length (issued s)) < 2 ^ 64)%N)
    (Hreg : registered s r t) (Hstep : step s l s')
    (Hrel : l ≠ LRelease r) (Habort : ∀ h, l ≠ LSetAbort r h)
    (Hcan : l ≠ LCancel (tr_conversation_id r)) :
  registered s' r t.
Proof.
  pose proof (reachable_inv s Hreach) as Hinv. destruct Hreg as [Ht Htok].
  assert (Hr : r ∈ issued s).
  { destruct Hinv as (_ & _ & Hall); [lia|]. specialize (Hall _ _ Ht). simpl in Hall.
    rewrite Htok in Hall. by destruct r. }
  assert (Hother : ∀ r', r' ∈ issued s → r' ≠ r → tr_conversation_id r' = tr_conversation_id r →
    token t ≠ tr_token r').
  { intros r' Hr' Hne _ Heq. apply Hne. eapply issued_tokens_unique; [done|lia|done..|congruence]. }
  unfold registered.
  inversion Hstep as [c q n sk f reg li r' reg' Hr'|c reg li t' reg' Hc|r' h reg li Hin|r' reg li Hin];
    subst; simpl in *; split; try done.
  - unfold try_reserve in Hr'. destruct (is_some (turns reg !! c)) eqn:E; simplify_eq/=; [done|].
    rewrite lookup_insert_ne; [done|]. intros ->. by rewrite Ht in E.
  - unfold cancel in Hc. case_match; simplify_eq/=; [|done].
    rewrite lookup_delete_ne; [done|]. by intros ->.
  - assert (r' ≠ r) as Hne by (intros ->; by apply (Habort h)).
    unfold set_abort. case_match; [|done]. case_match eqn:E; [|done]. simpl.
    apply N.eqb_eq in E. rewrite lookup_insert_ne; [done|]. intros Heq.
    apply (Hother r' Hin Hne Heq). congruence.
  - assert (r' ≠ r) as Hne by congruence.
    unfold release. case_match eqn:E; [|done]. simpl.
    rewrite lookup_delete_ne; [done|]. intros Heq. rewrite Heq, Ht in E. simpl in E.
    apply N.eqb_eq in E. by apply (Hother r' Hin Hne Heq).
Qed.

(** At most one turn runs on a conversation: a claim succeeds exactly when no turn is
    registered, registers the caller's turn, and until then every other claim is refused
    without changing anything. *)
Theorem one_turn_per_conversation c q n s f reg :
  let '(r, reg') := try_reserve c q n s f reg in
  is_some r = negb (is_running c reg) ∧ is_running c reg' = true ∧
  (∀ c', c' ≠ c → turns reg' !! c' = turns reg !! c') ∧
  match r with
  | Some h => tr_conversation_id h = c ∧
              turns reg' !! c = Some (mk_RunningTurn (tr_token h) q n s f None)
  | None => reg' = reg
  end.
Proof.
  unfold try_reserve, is_running. destruct (is_some (turns reg !! c)) eqn:E; simpl.
  - by rewrite E.
  - rewrite lookup_insert_eq. split; [done|]. split; [done|]. split; [|done].
    intros. by rewrite lookup_insert_ne.
Qed.

(** A cancel stops the turn and frees the conversation at once: the turn's own flag is
    raised, its task is aborted when the handle was recorded, the caller learns the
    request, the connection and the sink of the turn it stopped, no other conversation is
    touched, and the conversation can be claimed again in the next step. *)
Theorem cancel_stops_and_frees c reg t (Ht : turns reg !! c = Some t) :
  let '(r, reg') := cancel c reg in
  r = Some (mk_CancelledTurn (request_id t) (conn_id t) (sink t)) ∧
  cancelled t ∈ raised reg' ∧ (∀ h, abort t = Some h → h ∈ aborted reg') ∧
  is_running c reg' = false ∧ (∀ c', c' ≠ c → turns reg' !! c' = turns reg !! c') ∧
  ∀ q n s f, is_some (try_reserve c q n s f reg').1 = true.
Proof.
  unfold cancel. rewrite Ht. split; [done|]. split; [set_solver|]. split; [|split; [|split]].
  - simpl. intros h ->. set_solver.
  - unfold is_running; simpl. by rewrite lookup_delete_eq.
  - simpl. intros. by rewrite lookup_delete_ne.
  - intros. unfold try_reserve; simpl. by rewrite lookup_delete_eq.
Qed.

(** No conversation is blocked for ever: every turn registered in a reachable state has
    an issued reservation whose release frees its conversation, and nothing else. *)
Theorem registered_can_be_released s c t
    (Hreach : reachable s) (Hwrap : (N.of_nat (length (issued s)) ≤ 2 ^ 64)%N)
    (Ht : turns (registry s) !! c = Some t) :
  ∃ r, r ∈ issued s ∧ step s (LRelease r) (mk_system (release r (registry s)) (issued s)) ∧
       is_running c (release r (registry s)) = false ∧
       ∀ c', c' ≠ c → turns (release r (registry s)) !! c' = turns (registry s) !! c'.
Proof.
  destruct (reachable_inv s Hreach Hwrap) as (_ & _ & Hall).
  specialize (Hall _ _ Ht). simpl in Hall. exists (mk_TurnReservation c (token t)).
  split; [done|]. split; [destruct s; by constructor|].
  unfold release, is_running. simpl. rewrite Ht. simpl. rewrite N.eqb_refl. simpl.
  rewrite lookup_delete_eq. split; [done|]. intros. by rewrite lookup_delete_ne.
Qed.

(** ** A concrete run *)

Module Demo.
(** A first turn is claimed and cancelled, a second one claimed. *)
Definition s1 : system := mk_system (try_reserve (lit "c") (lit "q1") (lit "n") 0 0 registry_new).2
  [mk_TurnReservation (lit "c") 0].
Definition s2 : system := mk_system (cancel (lit "c") (registry s1)).2 (issued s1).
Definition s3 : system :=
  mk_system (try_reserve (lit "c") (lit "q2") (lit "m") 1 1 (registry s2)).2
    [mk_TurnReservation (lit "c") 1; mk_TurnReservation (lit "c") 0].
Definition t2 : RunningTurn := mk_RunningTurn 1 (lit "q2") (lit "m") 1 1 None.

Lemma s3_reachable : reachable s3.
Proof.
  apply (reachable_step s2 (LReserve (lit "c") (lit "q2") (lit "m") 1 1));
    [|by apply (step_reserve _ _ _ _ _ _ _ (Some (mk_TurnReservation (lit "c") 1)))].
  apply (reachable_step s1 (LCancel (lit "c"))); [|by econstructor].
  apply (reachable_step system_init (LReserve (lit "c") (lit "q1") (lit "n") 0 0)); [constructor|].
  by apply (step_reserve _ _ _ _ _ _ _ (Some (mk_TurnReservation (lit "c") 0))).
Qed.
End Demo.

(** The stale release of the cancelled turn leaves its successor alone. *)
Lemma registration_stable_witness :
  registered (mk_system (release (mk_TurnReservation (lit "c") 0) (registry Demo.s3)) (issued Demo.s3))
    (mk_TurnReservation (lit "c") 1) Demo.t2.
Proof.
  apply (registration_stable Demo.s3 (LRelease (mk_TurnReservation (lit "c") 0))).
  - apply Demo.s3_reachable.
  - done.
  - done.
  - constructor. right. left.
  - done.
  - done.
  - done.
Defined.

Lemma cancel_stops_and_frees_witness :
  is_running (lit "c") (cancel (lit "c") (registry Demo.s3)).2 = false.
Proof.
  pose proof (cancel_stops_and_frees (lit "c") (registry Demo.s3) Demo.t2 eq_refl) as H.
  destruct (cancel _ _) as [r reg']. apply H.
Defined.

Lemma registered_can_be_released_witness :
  ∃ r, r ∈ issued Demo.s3 ∧
       is_running (lit "c") (release r (registry Demo.s3)) = false.
Proof.
  destruct (registered_can_be_released Demo.s3 (lit "c") Demo.t2 Demo.s3_reachable) as (r & Hr & _ & Hf & _).
  - done.
  - done.
  - by exists r.
Defined.
