(* ===== verification/Auth.v ===== *)
(** * Auth: tokens to principals ([smooth-operator/src/auth.rs])

    Roles and principals, the verifiers, the JWKS key cache with its refresh policy and
    the secure-by-default selection of a verifier from the environment.  JWT, JWKS,
    base64 and serde parsing are third-party crates and enter as a class. *)

From stdpp Require Import prelude gmap strings list.
From S2P Require Import Prelude Text AccessControl.

(** ** Roles *)

Inductive Role := Basic | Curator | Admin.
#[export] Instance Role_eq_dec : EqDecision Role.
Proof. solve_decision. Defined.

(** The derived order: declaration order. *)
Definition role_rank (r : Role) : nat := match r with Basic => 0 | Curator => 1 | Admin => 2 end.

Definition role_as_str (r : Role) : str :=
  match r with Admin => lit "admin" | Curator => lit "curator" | Basic => lit "basic" end.

Inductive AuthError :=
| Unauthenticated
| InvalidToken (m : str)
| MissingRole (m : str)
| Forbidden (required actual : Role)
| Misconfigured (m : str).
#[export] Instance AuthError_eq_dec : EqDecision AuthError.
Proof. solve_decision. Defined.

Definition role_parse (value : str) : result AuthError Role :=
  let v := to_ascii_lowercase (trim value) in
  if str_eqb v (lit "admin") then Ok Admin
  else if str_eqb v (lit "curator") then Ok Curator
  else if str_eqb v (lit "basic") || str_eqb v (lit "user") then Ok Basic
  else Err (MissingRole (lit "unknown role '" ++ v ++ lit "'")).

(** ** Principals *)

Record Principal := mk_Principal {
  user_id : str;
  org_id : str;
  role : Role;
  display_name : option str;
  email : option str;
  groups : list str;
}.

Definition principal_new (user_id org_id : str) (role : Role) (display_name : option str) : Principal :=
  mk_Principal user_id org_id role display_name None [].

Definition with_email (e : str) (self : Principal) : Principal :=
  mk_Principal (user_id self) (org_id self) (role self) (display_name self)
    (if str_is_empty (trim e) then None else Some e) (groups self).

Definition with_groups (gs : list str) (self : Principal) : Principal :=
  mk_Principal (user_id self) (org_id self) (role self) (display_name self) (email self) gs.

Definition has_role (self : Principal) (min : Role) : bool := role_rank min <=? role_rank (role self).

Definition access_context (self : Principal) : AccessContext :=
  AccessContext.with_organization_id (org_id self)
    (AccessContext.new (Some (user_id self)) (groups self)).

Definition is_single_user_mode (mode : str) : bool :=
  str_eqb mode (lit "none") || str_eqb mode (lit "disabled") || str_eqb mode (lit "local-token").

(** ** Claims *)

Record Claims := mk_Claims {
  sub : str;
  org : option str;
  claims_org_id : option str;
  claims_role : option str;
  name : option str;
  claims_email : option str;
  claims_groups : list str;
}.

Definition org_id_of (self : Claims) : option str := opt_or (org self) (claims_org_id self).

Definition into_principal (self : Claims) : result AuthError Principal :=
  role ← match claims_role self with
         | Some r => role_parse r
         | None => Err (MissingRole (lit "no 'role' claim"))
         end;
  org ← ok_or (org_id_of self) (InvalidToken (lit "no 'org'/'org_id' claim"));
  mret (mk_Principal (sub self) org role (name self)
    (opt_filter (λ e, negb (str_is_empty (trim e))) (claims_email self))
    (claims_groups self)).

(** ** The JWT crate *)

Class Jwt := {
  Algorithm : Type;
  HS256 : Algorithm;
  RS256 : Algorithm;
  KeyAlgorithm : Type;
  key_algorithm_to_string : KeyAlgorithm → str;
  algorithm_from_str : str → option Algorithm;
  Jwk : Type;
  jwk_key_id : Jwk → option str;
  jwk_key_algorithm : Jwk → option KeyAlgorithm;
  DecodingKey : Type;
  from_secret : list N → DecodingKey;
  from_rsa_pem : list N → result str DecodingKey;
  from_jwk : Jwk → result str DecodingKey;
  (** The header's [kid] and [alg]. *)
  decode_header : str → result str (option str * Algorithm);
  (** The fields of [Validation] the program sets. *)
  decode : str → DecodingKey → Algorithm → list str → bool → option (gset str) →
           option (gset str) → result str Claims;
  (** base64 and JSON. *)
  url_safe_no_pad : str → result str (list N);
  url_safe : str → result str (list N);
  claims_from_slice : list N → result str Claims;
}.

Section verifiers.
Context `{Jwt}.

Record Validation := mk_Validation {
  algorithm : Algorithm;
  required_spec_claims : list str;
  validate_aud : bool;
  aud : option (gset str);
  iss : option (gset str);
}.

(** The crate's documented defaults: [exp] required, the audience checked. *)
Definition validation_new (alg : Algorithm) : Validation :=
  mk_Validation alg [lit "exp"] true None None.

Definition configure_validation (v : Validation) (issuer audience : option str) : Validation :=
  let v := mk_Validation (algorithm v) [lit "exp"; lit "sub"] (validate_aud v) (aud v) (iss v) in
  let v := match audience with
           | Some a => mk_Validation (algorithm v) (required_spec_claims v) true (Some {[a]}) (iss v)
           | None => mk_Validation (algorithm v) (required_spec_claims v) false (aud v) (iss v)
           end in
  match issuer with
  | Some i => mk_Validation (algorithm v) (required_spec_claims v) (validate_aud v) (aud v) (Some {[i]})
  | None => v
  end.

Definition decode_claims (token : str) (key : DecodingKey) (v : Validation) : result AuthError Claims :=
  map_err InvalidToken
    (decode token key (algorithm v) (required_spec_claims v) (validate_aud v) (aud v) (iss v)).

(** ** The JWKS cache

    A clock reading is a number of seconds; [Instant::elapsed] never goes below zero,
    as the truncated subtraction of [N]. *)

Definition JwkSet : Type := list Jwk.
Definition Instant : Type := N.

Record CachedJwks := mk_CachedJwks { set : JwkSet; fetched_at : option Instant }.

(** [dyn JwksFetcher]: an in-memory set, or an HTTP GET of the issuer's endpoint. *)
Inductive JwksFetcher :=
| StaticJwksFetcher (s : JwkSet)
| HttpJwksFetcher (url : str).

Record JwksKeyStore := mk_JwksKeyStore {
  fetcher : JwksFetcher;
  cached : CachedJwks;
  ttl : N;
  min_refresh : N;
}.

Definition key_store_new (f : JwksFetcher) (ttl min_refresh : N) : JwksKeyStore :=
  mk_JwksKeyStore f (mk_CachedJwks [] None) ttl min_refresh.

Definition DEFAULT_JWKS_TTL : N := 300.
Definition DEFAULT_JWKS_MIN_REFRESH : N := 30.

Definition find_jwk (set : JwkSet) (kid : option str) : option Jwk :=
  match kid with
  | Some k => find_first (λ j, bool_decide (jwk_key_id j = Some k)) set
  | None => if (length set =? 1)%nat then head set else None
  end.

(** What a request reads from its environment: the clock at the cache test, at the storm
    guard and after the fetch, and what the issuer would answer to a fetch. *)
Record Reading := mk_Reading {
  at_lookup : Instant;
  at_guard : Instant;
  at_fetched : Instant;
  answer : result AuthError JwkSet;
}.

Definition fetch (f : JwksFetcher) (rd : Reading) : result AuthError JwkSet :=
  match f with StaticJwksFetcher s => Ok s | HttpJwksFetcher _ => answer rd end.

(** Whether [maybe_refresh] goes to the network, and what it does to the store. *)
Definition refresh_due (st : JwksKeyStore) (now : Instant) : bool :=
  match fetched_at (cached st) with
  | Some t => negb (now - t <? min_refresh st)%N
  | None => true
  end.

Definition maybe_refresh (st : JwksKeyStore) (rd : Reading) : result AuthError unit * JwksKeyStore :=
  if negb (refresh_due st (at_guard rd)) then (Ok (), st)
  else
    match fetch (fetcher st) rd with
    | Err e => (Err e, st)
    | Ok s => (Ok (), mk_JwksKeyStore (fetcher st) (mk_CachedJwks s (Some (at_fetched rd))) (ttl st) (min_refresh st))
    end.

Definition fresh_hit (st : JwksKeyStore) (kid : option str) (now : Instant) : option Jwk :=
  if is_some_and (λ t, now - t <? ttl st)%N (fetched_at (cached st))
  then find_jwk (set (cached st)) kid else None.

Definition no_key_error (kid : option str) : AuthError :=
  match kid with
  | Some k => InvalidToken (lit "no JWK matching kid '" ++ k ++ lit "' in issuer JWKS")
  | None => InvalidToken (lit "token has no 'kid' and the issuer JWKS does not have exactly one key")
  end.

Definition key_for (st : JwksKeyStore) (kid : option str) (rd : Reading) :
    result AuthError Jwk * JwksKeyStore :=
  match fresh_hit st kid (at_lookup rd) with
  | Some jwk => (Ok jwk, st)
  | None =>
      match maybe_refresh st rd with
      | (Err e, st) => (Err e, st)
      | (Ok _, st) => (ok_or (find_jwk (set (cached st)) kid) (no_key_error kid), st)
      end
  end.

Definition resolve_jwk_alg (jwk : Jwk) (header_alg : Algorithm) : result AuthError Algorithm :=
  match jwk_key_algorithm jwk with
  | Some ka =>
      ok_or (algorithm_from_str (key_algorithm_to_string ka))
        (InvalidToken (lit "unsupported JWK algorithm '" ++ key_algorithm_to_string ka ++ lit "'"))
  | None => Ok header_alg
  end.

(** ** The verifiers *)

Record JwksVerifier := mk_JwksVerifier {
  jwks_store : JwksKeyStore;
  jwks_issuer : option str;
  jwks_audience : option str;
}.

Definition jwks_with_policy (f : JwksFetcher) (issuer audience : option str) (ttl min_refresh : N) :
    JwksVerifier := mk_JwksVerifier (key_store_new f ttl min_refresh) issuer audience.
Definition jwks_with_fetcher (f : JwksFetcher) (issuer audience : option str) : JwksVerifier :=
  jwks_with_policy f issuer audience DEFAULT_JWKS_TTL DEFAULT_JWKS_MIN_REFRESH.
Definition jwks_from_url (url : str) (issuer audience : option str) : JwksVerifier :=
  jwks_with_fetcher (HttpJwksFetcher url) issuer audience.

Definition jwks_decode_principal (v : JwksVerifier) (token : str) (rd : Reading) :
    result AuthError Principal * JwksVerifier :=
  if str_is_empty (trim token) then (Err Unauthenticated, v)
  else
    match decode_header token with
    | Err e => (Err (InvalidToken (lit "bad JWT header: " ++ e)), v)
    | Ok (kid, header_alg) =>
        let '(k, st) := key_for (jwks_store v) kid rd in
        (jwk ← k;
         alg ← resolve_jwk_alg jwk header_alg;
         key ← map_err (λ e, InvalidToken (lit "unusable JWK: " ++ e)) (from_jwk jwk);
         claims ← decode_claims token key
                    (configure_validation (validation_new alg) (jwks_issuer v) (jwks_audience v));
         into_principal claims,
         mk_JwksVerifier st (jwks_issuer v) (jwks_audience v))
    end.

Inductive JwtBackend :=
| Static (key : DecodingKey) (validation : Validation)
| Jwks (v : JwksVerifier).

Definition jwt_hs256 (secret : list N) (issuer audience : option str) : JwtBackend :=
  Static (from_secret secret) (configure_validation (validation_new HS256) issuer audience).

Definition jwt_rs256 (pem : list N) (issuer audience : option str) : result AuthError JwtBackend :=
  key ← map_err (λ e, Misconfigured (lit "invalid RS256 public key: " ++ e)) (from_rsa_pem pem);
  mret (Static key (configure_validation (validation_new RS256) issuer audience)).

Definition jwt_jwks (url : str) (issuer audience : option str) : JwtBackend :=
  Jwks (jwks_from_url url issuer audience).

Definition decode_principal (b : JwtBackend) (token : str) (rd : Reading) :
    result AuthError Principal * JwtBackend :=
  match b with
  | Static key v =>
      (if str_is_empty (trim token) then Err Unauthenticated
       else claims ← decode_claims token key v; into_principal claims, b)
  | Jwks v => let '(p, v) := jwks_decode_principal v token rd in (p, Jwks v)
  end.

(** [local_token_eq]: the accumulated difference of the byte pairs. *)
Definition local_token_eq (a b : list N) : bool :=
  if negb (length a =? length b)%nat then false
  else (foldl (λ diff xy, N.lor diff (N.lxor xy.1 xy.2)) 0%N (zip a b) =? 0)%N.

Definition decode_trusted (forwarded : str) : result AuthError Principal :=
  let forwarded := trim forwarded in
  if str_is_empty forwarded then Err Unauthenticated
  else
    bytes ← map_err (λ e, InvalidToken (lit "trusted identity is not valid base64url: " ++ e))
              (match url_safe_no_pad forwarded with
               | Ok b => Ok b
               | Err _ => url_safe forwarded
               end);
    claims ← map_err (λ e, InvalidToken (lit "trusted identity is not valid claims JSON: " ++ e))
               (claims_from_slice bytes);
    into_principal claims.

(** [Box<dyn AuthVerifier>]: one constructor per implementation. *)
Inductive Verifier :=
| VJwt (b : JwtBackend)
| VSmoo (b : JwtBackend)
| VNoAuth (principal : Principal)
| VLocalToken (secret : str) (principal : Principal)
| VTrusted
| VAdminDisabled.

Definition no_auth_new (org : str) : Verifier :=
  VNoAuth (principal_new (lit "dev-admin") org Admin (Some (lit "Dev Admin (AUTH_MODE=none)"))).
Definition local_token_new (secret : str) : Verifier :=
  VLocalToken secret (principal_new (lit "local") (lit "local") Admin (Some (lit "Local user"))).

Definition mode (v : Verifier) : str :=
  match v with
  | VJwt _ => lit "jwt"
  | VSmoo _ => lit "smoo"
  | VNoAuth _ => lit "none"
  | VLocalToken _ _ => lit "local-token"
  | VTrusted => lit "trusted"
  | VAdminDisabled => lit "disabled"
  end.

Definition verify (v : Verifier) (bearer_token : str) (rd : Reading) :
    result AuthError Principal * Verifier :=
  match v with
  | VJwt b => let '(p, b) := decode_principal b bearer_token rd in (p, VJwt b)
  | VSmoo b => let '(p, b) := decode_principal b bearer_token rd in (p, VSmoo b)
  | VNoAuth p => (Ok p, v)
  | VLocalToken secret p =>
      (if str_is_empty bearer_token then Err Unauthenticated
       else if local_token_eq (utf8 bearer_token) (utf8 secret) then Ok p
       else Err (InvalidToken (lit "local token mismatch")), v)
  | VTrusted => (decode_trusted bearer_token, v)
  | VAdminDisabled =>
      (Err (InvalidToken (lit "admin API disabled: set AUTH_MODE=jwt|smoo + a key, or AUTH_MODE=none for dev")), v)
  end.

(** ** Selection from the environment *)

Definition Env : Type := str → option str.

Definition env_nonempty (env : Env) (key : string) : option str :=
  opt_filter (λ s, negb (str_is_empty s)) (trim <$> env (lit key)).

Definition resolve_auth_mode (canonical alias : option str) : option str :=
  (λ s, to_ascii_lowercase (trim s)) <$> opt_or canonical alias.

Definition jwks_source (env : Env) (issuer : option str) : option str :=
  match env_nonempty env "AUTH_JWT_JWKS_URL" with
  | Some url => Some url
  | None => (λ iss, trim_end_matches (N.eqb 47) iss ++ lit "/.well-known/jwks.json") <$> issuer
  end.

Definition build_jwt (env : Env) (issuer audience : option str) : result AuthError JwtBackend :=
  match env_nonempty env "AUTH_JWT_RS256_PUBLIC_KEY" with
  | Some pem => jwt_rs256 (utf8 pem) issuer audience
  | None =>
      match env_nonempty env "AUTH_JWT_HS256_SECRET" with
      | Some secret => Ok (jwt_hs256 (utf8 secret) issuer audience)
      | None =>
          match jwks_source env issuer with
          | Some url => Ok (jwt_jwks url issuer audience)
          | None => Err (Misconfigured (lit "AUTH_MODE=jwt requires AUTH_JWT_RS256_PUBLIC_KEY, AUTH_JWT_HS256_SECRET, AUTH_JWT_JWKS_URL, or AUTH_JWT_ISSUER (to derive the JWKS URL) (refusing to fall back to no-auth)"))
          end
      end
  end.

(** A start-up either gives a verifier, refuses with an error, or panics in [expect]. *)
Inductive startup := Started (v : Verifier) | Refused (e : AuthError) | Panicked.
Definition start (r : result AuthError Verifier) : startup :=
  match r with Ok v => Started v | Err e => Refused e end.

Definition build_smoo (env : Env) (issuer audience : option str) : startup :=
  match issuer with
  | None => Refused (Misconfigured (lit "AUTH_MODE=smoo requires AUTH_JWT_ISSUER (Smoo's issuer)"))
  | Some iss =>
      match env_nonempty env "AUTH_JWT_RS256_PUBLIC_KEY" with
      | Some pem => start (VSmoo <$> jwt_rs256 (utf8 pem) (Some iss) audience)
      | None =>
          match env_nonempty env "AUTH_JWT_HS256_SECRET" with
          | Some secret => Started (VSmoo (jwt_hs256 (utf8 secret) (Some iss) audience))
          | None =>
              match jwks_source env (Some iss) with
              | Some url => Started (VSmoo (jwt_jwks url (Some iss) audience))
              | None => Panicked
              end
          end
      end
  end.

Definition from_env (env : Env) : startup :=
  let raw_mode := resolve_auth_mode (env_nonempty env "SMOOTH_AGENT_AUTH_MODE")
                    (env_nonempty env "AUTH_MODE") in
  let mode_explicit := is_some raw_mode in
  let mode := default (lit "jwt") raw_mode in
  let issuer := env_nonempty env "AUTH_JWT_ISSUER" in
  let audience := env_nonempty env "AUTH_JWT_AUDIENCE" in
  if str_eqb mode (lit "none") then
    Started (no_auth_new (default (lit "dev-org") (env_nonempty env "AUTH_DEV_ORG_ID")))
  else if str_eqb mode (lit "trusted") then Started VTrusted
  else if str_eqb mode (lit "jwt") then
    match build_jwt env issuer audience with
    | Ok v => Started (VJwt v)
    | Err (Misconfigured m) => if negb mode_explicit then Started VAdminDisabled
                               else Refused (Misconfigured m)
    | Err e => Refused e
    end
  else if str_eqb mode (lit "smoo") then build_smoo env issuer audience
  else Refused (Misconfigured (lit "unknown AUTH_MODE '" ++ mode ++
                               lit "' (expected jwt | smoo | trusted | none)")).
End verifiers.

(** ** Lemmas *)

Lemma role_parse_as_str r : role_parse (role_as_str r) = Ok r.
Proof. by destruct r. Qed.

Lemma into_principal_Ok c p :
  into_principal c = Ok p ↔
    ∃ r, claims_role c = Some r ∧ role_parse r = Ok (role p) ∧ org_id_of c = Some (org_id p) ∧
         user_id p = sub c ∧ display_name p = name c ∧ groups p = claims_groups c ∧
         email p = opt_filter (λ e, negb (str_is_empty (trim e))) (claims_email c).
Proof.
  unfold into_principal. split.
  - destruct (claims_role c) as [r|]; [|done]. destruct (role_parse r) as [ro|] eqn:E; [|done]. simpl.
    destruct (org_id_of c); [|done]. simpl. intros [= <-]. eexists; done.
  - intros (r & -> & Hr & Ho & Hu & Hn & Hg & He). simpl. rewrite Hr. simpl. rewrite Ho. simpl.
    destruct p; simpl in *. by subst.
Qed.

Lemma foldl_lor_zero (xys : list (N * N)) d :
  foldl (λ diff xy, N.lor diff (N.lxor xy.1 xy.2)) d xys = 0%N ↔
    d = 0%N ∧ Forall (λ xy, xy.1 = xy.2) xys.
Proof.
  revert d. induction xys as [|xy xys IH]; intros d; simpl.
  - split; [by split; [|constructor]|by intros [? _]].
  - rewrite IH, N.lor_eq_0_iff, N.lxor_eq_0_iff, Forall_cons. tauto.
Qed.

Lemma zip_forall_eq {A} (a b : list A) :
  length a = length b → Forall (λ xy, xy.1 = xy.2) (zip a b) → a = b.
Proof.
  revert b. induction a as [|x a IH]; intros [|y b] Hl Hf; try done.
  simpl in *. inversion Hf; simplify_eq/=. f_equal. apply IH; [lia|done].
Qed.

Lemma local_token_eq_spec a b : local_token_eq a b = true ↔ a = b.
Proof.
  unfold local_token_eq. case_match eqn:E; bool_props.
  - split; [done|]. intros ->. by rewrite Nat.eqb_refl in E.
  - apply Nat.eqb_eq in E. rewrite N.eqb_eq, foldl_lor_zero. split.
    + intros [_ Hf]. by apply zip_forall_eq.
    + intros ->. split; [done|]. clear E. induction b; simpl; by constructor.
Qed.

Section verifier_lemmas.
Context `{Jwt}.

Lemma find_jwk_Some s kid j :
  find_jwk s kid = Some j →
  j ∈ s ∧ match kid with Some k => jwk_key_id j = Some k | None => s = [j] end.
Proof.
  unfold find_jwk. destruct kid as [k|].
  - intros [Hj Hk]%find_first_Some. split; [done|]. by apply bool_decide_eq_true in Hk.
  - destruct s as [|a [|b s]]; simpl; intros; simplify_eq. split; [left|done].
Qed.

(** ** A JWKS cache over a sequence of requests *)

Definition requests : Type := list (option str * Reading).

(** Whether a request goes to the network. *)
Definition fetches (st : JwksKeyStore) (kid : option str) (rd : Reading) : bool :=
  is_none (fresh_hit st kid (at_lookup rd)) && refresh_due st (at_guard rd).

Fixpoint serve (st : JwksKeyStore) (reqs : requests) : JwksKeyStore :=
  match reqs with
  | [] => st
  | (kid, rd) :: rest => serve (key_for st kid rd).2 rest
  end.

(** The requests that fetched, with the answers they got. *)
Fixpoint fetch_log (st : JwksKeyStore) (reqs : requests) : list Reading :=
  match reqs with
  | [] => []
  | (kid, rd) :: rest =>
      (if fetches st kid rd then [rd] else []) ++ fetch_log (key_for st kid rd).2 rest
  end.

Lemma key_for_store st kid rd :
  (key_for st kid rd).2 =
    if fetches st kid rd
    then match fetch (fetcher st) rd with
         | Ok s => mk_JwksKeyStore (fetcher st) (mk_CachedJwks s (Some (at_fetched rd)))
                     (ttl st) (min_refresh st)
         | Err _ => st
         end
    else st.
Proof.
  unfold key_for, fetches, maybe_refresh. destruct (fresh_hit _ _ _); [done|]. simpl.
  destruct (refresh_due _ _); simpl; [|done]. by destruct (fetch _ _).
Qed.

Lemma key_for_policy st kid rd :
  fetcher (key_for st kid rd).2 = fetcher st ∧ ttl (key_for st kid rd).2 = ttl st ∧
  min_refresh (key_for st kid rd).2 = min_refresh st.
Proof. rewrite key_for_store. by repeat case_match. Qed.

Lemma key_for_Ok st kid rd j st' :
  key_for st kid rd = (Ok j, st') → find_jwk (set (cached st')) kid = Some j.
Proof.
  unfold key_for. destruct (fresh_hit st kid (at_lookup rd)) eqn:E.
  - intros; simplify_eq. unfold fresh_hit in E. by case_match.
  - destruct (maybe_refresh st rd) as [[?|?] st1]; intros; simplify_eq.
    by destruct (find_jwk _ _); simplify_eq/=.
Qed.

Lemma fetch_log_after st reqs t :
  fetched_at (cached st) = Some t → (0 < min_refresh st)%N →
  Forall (λ q, at_guard q.2 ≤ at_fetched q.2)%N reqs →
  Forall (λ rd, t + min_refresh st ≤ at_guard rd)%N (fetch_log st reqs).
Proof.
  revert st t. induction reqs as [|[kid rd] reqs IH]; intros st t Ht Hm Hf; simpl; [constructor|].
  inversion Hf as [|?? Hle Hf']; subst; simpl in *.
  destruct (fetches st kid rd) eqn:E.
  - assert (Hg : (t + min_refresh st ≤ at_guard rd)%N).
    { unfold fetches, refresh_due in E. rewrite Ht in E. bool_props.
      apply N.ltb_ge in H1. lia. }
    simpl. constructor; [done|]. rewrite key_for_store, E.
    destruct (fetch (fetcher st) rd); [|by eapply IH].
    eapply Forall_impl; [by apply (IH _ (at_fetched rd))|]. simpl. intros. lia.
  - rewrite key_for_store, E. by apply IH.
Qed.
End verifier_lemmas.

(** ** What a credential says *)

Section credentials.
Context `{Jwt}.

(** The key and the checks a backend holds the token [tok] to. *)
Definition holds_to (b : JwtBackend) (tok : str) (rd : Reading) (key : DecodingKey) (v : Validation) : Prop :=
  match b with
  | Static key' v' => key = key' ∧ v = v'
  | Jwks jv =>
      ∃ kid halg jwk alg, decode_header tok = Ok (kid, halg) ∧ (key_for (jwks_store jv) kid rd).1 = Ok jwk ∧
        resolve_jwk_alg jwk halg = Ok alg ∧ from_jwk jwk = Ok key ∧
        v = configure_validation (validation_new alg) (jwks_issuer jv) (jwks_audience jv)
  end.

(** [c] is what the crate decodes from the token, under that key and those checks. *)
Definition signed_claims (b : JwtBackend) (tok : str) (rd : Reading) (c : Claims) : Prop :=
  ∃ key v, holds_to b tok rd key v ∧
    decode tok key (algorithm v) (required_spec_claims v) (validate_aud v) (aud v) (iss v) = Ok c.

(** [c] is the JSON the trimmed header carries, in base64url without padding or else with. *)
Definition forwarded_claims (tok : str) (c : Claims) : Prop :=
  ∃ bytes, (url_safe_no_pad (trim tok) = Ok bytes ∨
            is_ok (url_safe_no_pad (trim tok)) = false ∧ url_safe (trim tok) = Ok bytes) ∧
    claims_from_slice bytes = Ok c.

Lemma map_err_Ok {E E' A} (f : E → E') (r : result E A) x : map_err f r = Ok x ↔ r = Ok x.
Proof. destruct r; simpl; split; congruence. Qed.

Lemma bind_Ok {E A B} (r : result E A) (f : A → result E B) y :
  r ≫= f = Ok y ↔ ∃ x, r = Ok x ∧ f x = Ok y.
Proof. destruct r; simpl; split; [eauto|by intros (? & [= <-] & ?)|done|by intros (? & ? & _)]. Qed.

Lemma decode_principal_Ok b tok rd p :
  (decode_principal b tok rd).1 = Ok p ↔
    trim tok ≠ [] ∧ ∃ c, signed_claims b tok rd c ∧ into_principal c = Ok p.
Proof.
  rewrite <- str_is_empty_false. unfold signed_claims. destruct b as [key v|jv]; simpl.
  - destruct (str_is_empty (trim tok)); [by split; [|intros [? _]]|]. unfold decode_claims.
    rewrite bind_Ok. setoid_rewrite map_err_Ok. naive_solver.
  - unfold jwks_decode_principal. destruct (str_is_empty (trim tok)); [by split; [|intros [? _]]|].
    destruct (decode_header tok) as [[kid halg]|e]; [|naive_solver].
    destruct (key_for (jwks_store jv) kid rd) as [k st] eqn:Ek. simpl. unfold decode_claims.
    repeat setoid_rewrite bind_Ok. repeat setoid_rewrite map_err_Ok. split.
    + intros (jwk & -> & alg & Ha & key & Hk & c & Hc & Hp). split; [done|]. exists c. split; [|done].
      do 2 eexists. split; [|exact Hc]. exists kid, halg, jwk, alg. by rewrite Ek.
    + intros (_ & c & (key & v & (kid' & halg' & jwk & alg & [= <- <-] & Hj & Ha & Hk & ->) & Hc) & Hp).
      rewrite Ek in Hj. simpl in Hj. exists jwk. split; [done|]. exists alg. split; [done|]. exists key. split; [done|].
      by exists c.
Qed.

Lemma decode_trusted_Ok tok p :
  decode_trusted tok = Ok p ↔ trim tok ≠ [] ∧ ∃ c, forwarded_claims tok c ∧ into_principal c = Ok p.
Proof.
  rewrite <- str_is_empty_false. unfold decode_trusted, forwarded_claims.
  destruct (str_is_empty (trim tok)); [by split; [|intros [? _]]|].
  repeat setoid_rewrite bind_Ok. repeat setoid_rewrite map_err_Ok.
  destruct (url_safe_no_pad (trim tok)) as [bytes|e]; naive_solver.
Qed.
End credentials.

(** ** Properties *)

Section properties.
Context `{Jwt}.

(** C35. A principal is never invented, and none is withheld: a verifier accepts a credential as
    a principal exactly when the credential says so. A JWT or Smoo token must decode, under the
    configured key (or the issuer key its header names, cached or fetched) and the configured checks, a
    forwarded identity must be base64url of claims, and the claims decoded from it must carry a
    known role and an organization, the principal being theirs in every field; a local token
    must be the secret, byte for byte; the disabled verifier accepts nothing, and only the
    explicit no-auth one accepts anything. *)
Theorem verify_principal v tok rd p :
  (verify v tok rd).1 = Ok p ↔
  match v with
  | VNoAuth q => p = q
  | VAdminDisabled => False
  | VLocalToken secret q => p = q ∧ tok ≠ [] ∧ utf8 tok = utf8 secret
  | VTrusted | VJwt _ | VSmoo _ =>
      trim tok ≠ [] ∧
      ∃ c r,
        match v with
        | VJwt b | VSmoo b => signed_claims b tok rd c
        | _ => forwarded_claims tok c
        end ∧
        claims_role c = Some r ∧ role_parse r = Ok (role p) ∧
        org_id_of c = Some (org_id p) ∧ user_id p = sub c ∧ display_name p = name c ∧
        groups p = claims_groups c ∧
        email p = opt_filter (λ e, negb (str_is_empty (trim e))) (claims_email c)
  end.
Proof.
  assert (Hclaims : ∀ P : Claims → Prop, (∃ c, P c ∧ into_principal c = Ok p) ↔ ∃ c r, P c ∧
    claims_role c = Some r ∧ role_parse r = Ok (role p) ∧
    org_id_of c = Some (org_id p) ∧ user_id p = sub c ∧ display_name p = name c ∧
    groups p = claims_groups c ∧ email p = opt_filter (λ e, negb (str_is_empty (trim e))) (claims_email c)).
  { intros P. setoid_rewrite into_principal_Ok. naive_solver. }
  destruct v as [b|b|q|secret q| |]; simpl.
  - rewrite <- Hclaims, <- decode_principal_Ok. by destruct (decode_principal b tok rd).
  - rewrite <- Hclaims, <- decode_principal_Ok. by destruct (decode_principal b tok rd).
  - split; congruence.
  - rewrite <- str_is_empty_false, <- local_token_eq_spec.
    destruct (str_is_empty tok), (local_token_eq _ _); naive_solver.
  - rewrite <- Hclaims. apply decode_trusted_Ok.
  - split; [congruence|done].
Qed.

(** No algorithm confusion: a token accepted through the JWKS path was verified with a
    key of the cached set that carries the token's [kid], under the algorithm the key
    declares whenever it declares one (the header's otherwise), with [exp] and [sub]
    required and with the configured issuer and audience enforced. *)
Theorem jwks_algorithm_pinned v tok rd p v' (Hv : jwks_decode_principal v tok rd = (Ok p, v')) :
  ∃ kid halg jwk alg key claims,
    decode_header tok = Ok (kid, halg) ∧
    find_jwk (set (cached (jwks_store v'))) kid = Some jwk ∧
    jwk ∈ set (cached (jwks_store v')) ∧ from_jwk jwk = Ok key ∧
    match jwk_key_algorithm jwk with
    | Some ka => algorithm_from_str (key_algorithm_to_string ka) = Some alg
    | None => alg = halg
    end ∧
    decode tok key alg [lit "exp"; lit "sub"] (is_some (jwks_audience v))
      (singleton <$> jwks_audience v) (singleton <$> jwks_issuer v) = Ok claims ∧
    into_principal claims = Ok p.
Proof.
  unfold jwks_decode_principal in Hv. case_match; [congruence|].
  destruct (decode_header tok) as [[kid halg]|] eqn:Eh; [|congruence].
  destruct (key_for _ _ _) as [[jwk|] st] eqn:Ek; simpl in Hv; [|congruence].
  destruct (resolve_jwk_alg jwk halg) as [alg|] eqn:Ea; simpl in Hv; [|congruence].
  destruct (from_jwk jwk) as [key|] eqn:Ef; simpl in Hv; [|congruence].
  destruct (decode_claims _ _ _) as [claims|] eqn:Ed; simpl in Hv; [|congruence].
  injection Hv as Hp <-. apply key_for_Ok in Ek.
  exists kid, halg, jwk, alg, key, claims. simpl. split; [done|]. split; [done|].
  split; [by apply find_jwk_Some in Ek as [? _]|]. split; [done|]. split; [|split; [|done]].
  - unfold resolve_jwk_alg in Ea. case_match; [|congruence].
    by destruct (algorithm_from_str _); simplify_eq/=.
  - unfold decode_claims, configure_validation in Ed.
    destruct (jwks_audience v), (jwks_issuer v); simpl in *;
      destruct (decode _ _ _ _ _ _ _); by simplify_eq/=.
Qed.

(** The refresh floor holds after a success: once a fetch succeeded, no request of any
    later sequence goes to the issuer before [min_refresh] seconds have passed since, for
    clocks that do not run backwards within a request. *)
Theorem successful_fetches_spaced st pre kid rd post s
    (Hm : (0 < min_refresh st)%N)
    (Hclock : Forall (λ q : option str * Reading, at_guard q.2 ≤ at_fetched q.2)%N post)
    (Hdue : fetches (serve st pre) kid rd = true)
    (Hok : fetch (fetcher st) rd = Ok s) :
  Forall (λ rd', at_fetched rd + min_refresh st ≤ at_guard rd')%N
    (fetch_log (key_for (serve st pre) kid rd).2 post).
Proof.
  assert (Hpol : ∀ reqs st, fetcher (serve st reqs) = fetcher st ∧
    min_refresh (serve st reqs) = min_refresh st).
  { intros reqs. induction reqs as [|[k r] reqs IH]; intros st0; simpl; [done|].
    destruct (key_for_policy st0 k r) as (Hf & _ & Hr).
    destruct (IH (key_for st0 k r).2) as [-> ->]. done. }
  destruct (Hpol pre st) as [Hf Hr]. rewrite <- Hr. rewrite key_for_store, Hdue, Hf, Hok.
  assert (Hm' : (0 < min_refresh (serve st pre))%N) by by rewrite Hr.
  eapply (fetch_log_after (mk_JwksKeyStore (fetcher st) (mk_CachedJwks s (Some (at_fetched rd)))
    (ttl (serve st pre)) (min_refresh (serve st pre))) post (at_fetched rd)); done.
Qed.

(** The floor does not hold for a failing issuer: [fetched_at] moves only on success, so
    while the fetch fails every request of a never-filled cache goes to the network, one
    fetch per request, however close together they are. *)
Theorem failing_fetches_not_limited f ttl min_refresh reqs
    (Hfail : Forall (λ q : option str * Reading, is_ok (fetch f q.2) = false) reqs) :
  length (fetch_log (key_store_new f ttl min_refresh) reqs) = length reqs ∧
  serve (key_store_new f ttl min_refresh) reqs = key_store_new f ttl min_refresh.
Proof.
  induction Hfail as [|[kid rd] reqs Hrd _ IH]; simpl; [done|].
  assert (Hf : fetches (key_store_new f ttl min_refresh) kid rd = true) by done.
  assert (Hk : (key_for (key_store_new f ttl min_refresh) kid rd).2 = key_store_new f ttl min_refresh).
  { rewrite key_for_store, Hf. simpl in *. by destruct (fetch f rd). }
  rewrite Hk. destruct IH as [IH ->]. split; [|done]. simpl. by rewrite IH.
Qed.

(** Secure by default: the admin-for-everyone verifier is selected only by an explicit
    [none], trusted-identity only by an explicit [trusted]; with no mode set the result is
    a JWT verifier or the disabled one, never open access; an explicitly chosen [jwt]
    without a usable key refuses to start; and selection never panics. *)
Theorem from_env_secure env :
  let chosen := resolve_auth_mode (env_nonempty env "SMOOTH_AGENT_AUTH_MODE")
                  (env_nonempty env "AUTH_MODE") in
  match from_env env with
  | Started (VNoAuth p) => chosen = Some (lit "none") ∧ role p = Admin ∧
      org_id p = default (lit "dev-org") (env_nonempty env "AUTH_DEV_ORG_ID")
  | Started VTrusted => chosen = Some (lit "trusted")
  | Started VAdminDisabled => chosen = None ∧
      ∃ m, build_jwt env (env_nonempty env "AUTH_JWT_ISSUER") (env_nonempty env "AUTH_JWT_AUDIENCE")
           = Err (Misconfigured m)
  | Started (VJwt b) => (chosen = None ∨ chosen = Some (lit "jwt")) ∧
      build_jwt env (env_nonempty env "AUTH_JWT_ISSUER") (env_nonempty env "AUTH_JWT_AUDIENCE") = Ok b
  | Started (VSmoo _) => chosen = Some (lit "smoo") ∧ is_some (env_nonempty env "AUTH_JWT_ISSUER") = true
  | Started (VLocalToken _ _) => False
  | Refused e => chosen ≠ None ∧ ∃ m, e = Misconfigured m
  | Panicked => False
  end.
Proof.
  assert (Hjwt : ∀ i a, match build_jwt env i a with
    | Ok _ | Err (Misconfigured _) => True | _ => False end).
  { intros i a. unfold build_jwt, jwt_rs256.
    repeat case_match; simplify_eq/=; try done; by destruct (from_rsa_pem _); simplify_eq/=. }
  set (chosen := resolve_auth_mode _ _). unfold from_env. fold chosen.
  destruct chosen as [m|]; simpl.
  - destruct (str_eqb m (lit "none")) eqn:E1; [by apply str_eqb_true in E1 as ->|].
    destruct (str_eqb m (lit "trusted")) eqn:E2; [by apply str_eqb_true in E2 as ->|].
    destruct (str_eqb m (lit "jwt")) eqn:E3.
    { apply str_eqb_true in E3 as ->. specialize (Hjwt (env_nonempty env "AUTH_JWT_ISSUER")
        (env_nonempty env "AUTH_JWT_AUDIENCE")).
      destruct (build_jwt _ _ _) as [b|[]]; try done; [split; [by right|done]|split; [done|by eexists]]. }
    destruct (str_eqb m (lit "smoo")) eqn:E4; [|split; [done|by eexists]].
    apply str_eqb_true in E4 as ->. unfold build_smoo.
    destruct (env_nonempty env "AUTH_JWT_ISSUER"); [|split; [done|by eexists]].
    destruct (env_nonempty env "AUTH_JWT_RS256_PUBLIC_KEY").
    { unfold jwt_rs256. destruct (from_rsa_pem _); simpl; [done|split; [done|by eexists]]. }
    destruct (env_nonempty env "AUTH_JWT_HS256_SECRET"); [done|].
    unfold jwks_source. by destruct (env_nonempty env "AUTH_JWT_JWKS_URL").
  - specialize (Hjwt (env_nonempty env "AUTH_JWT_ISSUER") (env_nonempty env "AUTH_JWT_AUDIENCE")).
    destruct (build_jwt _ _ _) as [b|[]]; try done; [split; [by left|done]|split; [done|by eexists]].
Qed.

(** A malformed key is treated like no key: with no mode set and an RS256 public key
    that does not parse, the server starts with the disabled verifier, whose mode counts
    as single-user, the mode in which conversation reads are not scoped to a user. *)
Theorem malformed_key_starts_single_user env pem e
    (Hmode : env_nonempty env "SMOOTH_AGENT_AUTH_MODE" = None)
    (Halias : env_nonempty env "AUTH_MODE" = None)
    (Hkey : env_nonempty env "AUTH_JWT_RS256_PUBLIC_KEY" = Some pem)
    (Hpem : from_rsa_pem (utf8 pem) = Err e) :
  ∃ v, from_env env = Started v ∧ mode v = lit "disabled" ∧ is_single_user_mode (mode v) = true.
Proof.
  exists VAdminDisabled. split; [|done]. unfold from_env. rewrite Hmode, Halias. simpl.
  unfold build_jwt, jwt_rs256. by rewrite Hkey, Hpem.
Qed.

(** The constant-time comparison decides equality, whatever the lengths. *)
Theorem local_token_eq_iff a b : local_token_eq a b = true ↔ a = b.
Proof. apply local_token_eq_spec. Qed.
End properties.

(** ** A toy JWT crate *)

Module Demo.
(** A token is its subject; claims are fixed; keys are strings. *)
#[export] Instance demo_jwt : Jwt := {|
  Algorithm := bool; HS256 := true; RS256 := false;
  KeyAlgorithm := bool; key_algorithm_to_string b := lit (if b then "HS256" else "RS256");
  algorithm_from_str s := Some (str_eqb s (lit "HS256"));
  Jwk := str * option bool; jwk_key_id j := Some j.1; jwk_key_algorithm := snd;
  DecodingKey := list N; from_secret := id;
  from_rsa_pem b := if str_is_empty b then Err (lit "empty") else Err (lit "not pem");
  from_jwk j := Ok j.1;
  decode_header t := Ok (Some t, true);
  decode t k alg req va au iv :=
    if alg then Ok (mk_Claims t (Some (lit "acme")) None (Some (lit "Basic")) None None [])
    else Err (lit "wrong algorithm");
  url_safe_no_pad s := Ok s; url_safe s := Ok s;
  claims_from_slice s := Ok (mk_Claims s (Some (lit "acme")) None (Some (lit "user")) None None []);
|}.
Definition rd (t : N) (a : result AuthError JwkSet) : Reading := mk_Reading t t t a.
Definition k1 : Jwk := (lit "k1", Some true).
Definition good : result AuthError JwkSet := Ok [k1].
Definition down : result AuthError JwkSet := Err (InvalidToken (lit "down")).
Definition url : JwksFetcher := HttpJwksFetcher (lit "https://issuer/jwks").
Definition env : Env := λ k,
  if str_eqb k (lit "AUTH_JWT_RS256_PUBLIC_KEY") then Some (lit "oops") else None.
End Demo.
Import Demo.

Lemma verify_principal_witness :
  (∃ c, forwarded_claims (lit " u1 ") c ∧ sub c = lit "u1") ∧
  ∀ p, (verify VAdminDisabled (lit "u1") (rd 0 down)).1 ≠ Ok p.
Proof.
  split.
  - destruct (proj1 (verify_principal VTrusted (lit " u1 ") (rd 0 down)
      (mk_Principal (lit "u1") (lit "acme") Basic None None [])) eq_refl) as (_ & c & r & Hc & _ & _ & _ & Hs & _).
    exists c. by split.
  - intros p Hp. exact (proj1 (verify_principal VAdminDisabled (lit "u1") (rd 0 down) p) Hp).
Defined.

Lemma jwks_algorithm_pinned_witness :
  let v := jwks_with_fetcher url (Some (lit "iss")) None in
  let v' := mk_JwksVerifier (mk_JwksKeyStore url (mk_CachedJwks [k1] (Some 5%N)) 300 30) (Some (lit "iss")) None in
  ∃ kid halg, decode_header (lit "k1") = Ok (kid, halg) ∧
    find_jwk (set (cached (jwks_store v'))) kid = Some k1.
Proof.
  intros v v'.
  destruct (jwks_algorithm_pinned v (lit "k1") (rd 5 good)
    (mk_Principal (lit "k1") (lit "acme") Basic None None []) v')
    as (kid & halg & jwk & alg & key & claims & Hh & Hf & _); [by vm_compute|].
  exists kid, halg. split; [done|]. rewrite Hf. vm_compute in Hh. simplify_eq.
  by vm_compute in Hf.
Defined.

Lemma successful_fetches_spaced_witness :
  let st := key_store_new url 300 30 in
  fetch_log (key_for st (Some (lit "k1")) (rd 5 good)).2
    [(Some (lit "zz"), rd 6 good); (Some (lit "zz"), rd 40 good)] = [rd 40 good] ∧
  Forall (λ rd', 5 + 30 ≤ at_guard rd')%N [rd 40 good].
Proof.
  intros st. split; [by vm_compute|].
  exact (successful_fetches_spaced st [] (Some (lit "k1")) (rd 5 good)
    [(Some (lit "zz"), rd 6 good); (Some (lit "zz"), rd 40 good)] [k1]
    eq_refl ltac:(repeat constructor; simpl; lia) eq_refl eq_refl).
Defined.

Lemma failing_fetches_not_limited_witness :
  let reqs := [(None, rd 1 down); (None, rd 1 down); (None, rd 1 down)] in
  length (fetch_log (key_store_new url 300 30) reqs) = 3.
Proof.
  intros reqs. apply (failing_fetches_not_limited url 300 30 reqs). by repeat constructor.
Defined.

Lemma malformed_key_starts_single_user_witness :
  ∃ v, from_env env = Started v ∧ mode v = lit "disabled" ∧ is_single_user_mode (mode v) = true.
Proof. by apply (malformed_key_starts_single_user env (lit "oops") (lit "not pem")). Defined.
