(* ===== verification/Json.v ===== *)
(** * Json: [serde_json::Value]

    JSON values as the program builds ([json!]) and reads them ([get], [as_str], ...).
    An object is the list of its members; keys are distinct in every object the
    program builds, and [get] finds the first. *)

From stdpp Require Import prelude gmap strings list.
From Stdlib Require Import SpecFloat.
From S2P Require Import Prelude Text.

#[warnings="-register-all"]
Inductive Value :=
| Null
| Bool (b : bool)
| Int (n : Z)
| Float (f : spec_float)
| String (s : str)
| Array (l : list Value)
| Object (kvs : list (str * Value)).

Fixpoint assoc {A} (k : str) (kvs : list (str * A)) : option A :=
  match kvs with
  | [] => None
  | (k', v) :: kvs' => if str_eqb k' k then Some v else assoc k kvs'
  end.

(** [Value::get]: [None] on anything but an object with the key. *)
Definition get (v : Value) (k : str) : option Value :=
  match v with Object kvs => assoc k kvs | _ => None end.

Definition as_str (v : Value) : option str :=
  match v with String s => Some s | _ => None end.
Definition as_bool (v : Value) : option bool :=
  match v with Bool b => Some b | _ => None end.
Definition as_array (v : Value) : option (list Value) :=
  match v with Array l => Some l | _ => None end.
Definition as_object (v : Value) : option (list (str * Value)) :=
  match v with Object l => Some l | _ => None end.
Definition is_object (v : Value) : bool := is_some (as_object v).
Definition is_null (v : Value) : bool := match v with Null => true | _ => false end.

(** [Value::as_u64]: a non-negative integer below [2^64]. *)
Definition as_u64 (v : Value) : option N :=
  match v with
  | Int n => if (0 <=? n)%Z && (n <? 2 ^ 64)%Z then Some (Z.to_N n) else None
  | _ => None
  end.

(** [v.get(k).and_then(Value::as_str)] and friends. *)
Definition get_str (v : Value) (k : string) : option str := get v (lit k) ≫= as_str.
Definition get_bool (v : Value) (k : string) : option bool := get v (lit k) ≫= as_bool.
Definition get_u64 (v : Value) (k : string) : option N := get v (lit k) ≫= as_u64.

(** A member of a [json!] object literal. *)
Definition field (k : string) (v : Value) : str * Value := (lit k, v).
Definition jstr (s : string) : Value := String (lit s).

(** An [Option] serialised by [json!]: absent is [null]. *)
Definition opt_json {A} (f : A → Value) (o : option A) : Value :=
  match o with Some a => f a | None => Null end.

(** [serde_json::from_str]: the value, or the text of its error. *)
Class JsonParse := { from_str : str → result str Value }.

(** [Map::insert]: replaces in place, else appends. *)
Fixpoint assoc_insert {A} (k : str) (v : A) (kvs : list (str * A)) : list (str * A) :=
  match kvs with
  | [] => [(k, v)]
  | (k', v') :: kvs' =>
      if str_eqb k' k then (k, v) :: kvs' else (k', v') :: assoc_insert k v kvs'
  end.

Definition set (v : Value) (k : str) (x : Value) : Value :=
  match v with Object kvs => Object (assoc_insert k x kvs) | _ => v end.

Lemma assoc_insert_eq {A} k (v : A) kvs : assoc k (assoc_insert k v kvs) = Some v.
Proof.
  induction kvs as [|[k' v'] kvs IH]; simpl; [by rewrite str_eqb_refl|].
  destruct (str_eqb k' k) eqn:E; simpl; [by rewrite str_eqb_refl|by rewrite E].
Qed.

Lemma assoc_insert_ne {A} k k2 (v : A) kvs :
  k ≠ k2 → assoc k2 (assoc_insert k v kvs) = assoc k2 kvs.
Proof.
  intros Hne. assert (str_eqb k k2 = false) as Hf by by apply str_eqb_false.
  induction kvs as [|[k' v'] kvs IH]; simpl; [by rewrite Hf|].
  destruct (str_eqb k' k) eqn:E; simpl.
  - apply str_eqb_true in E as ->. by rewrite Hf.
  - by rewrite IH.
Qed.

Lemma get_set_eq kvs k x : get (set (Object kvs) k x) k = Some x.
Proof. apply assoc_insert_eq. Qed.

Lemma get_set_ne v k k2 x : k ≠ k2 → get (set v k x) k2 = get v k2.
Proof. destruct v; try done. simpl. apply assoc_insert_ne. Qed.
