(* ===== verification/Backplane.v ===== *)
(** * Backplane: which connections an event reaches ([smooth-operator/src/backplane.rs])

    The in-memory registry of a pod: each connection's sink, the targets it is associated
    with, and for each target its connections.  A sink is named by a number; publishing
    returns the sinks an event was handed to.  The registry's lock is never poisoned (no
    operation panics while holding it). *)

From stdpp Require Import prelude gmap strings list.
From S2P Require Import Prelude Text Json.

Inductive Target :=
| Connection (id : str)
| Session (id : str)
| User (id : str)
| Org (id : str)
| Agent (id : str).

#[export] Instance Target_eq_dec : EqDecision Target.
Proof. solve_decision. Defined.

Definition target_code (t : Target) : nat * str :=
  match t with
  | Connection i => (0, i) | Session i => (1, i) | User i => (2, i) | Org i => (3, i) | Agent i => (4, i)
  end.
Definition target_of_code (c : nat * str) : Target :=
  match c with
  | (0, i) => Connection i | (1, i) => Session i | (2, i) => User i | (3, i) => Org i | (_, i) => Agent i
  end.
#[export] Instance Target_countable : Countable Target.
Proof. apply (inj_countable' target_code target_of_code). by intros []. Defined.

Definition LocalSink : Type := nat.

Record Registry := mk_Registry {
  sinks : gmap str LocalSink;
  conn_targets : gmap str (gset Target);
  target_conns : gmap Target (gset str);
}.

Definition registry_default : Registry := mk_Registry ∅ ∅ ∅.

(** [map.entry(k).or_default().insert(x)]. *)
Definition add_to {K V : Type} `{Countable K, Countable V} (k : K) (x : V) (m : gmap K (gset V)) :
    gmap K (gset V) :=
  <[k := {[x]} ∪ default ∅ (m !! k)]> m.

Definition connection_count (r : Registry) : nat := size (sinks r).

Definition associate (conn_id : str) (target : Target) (r : Registry) : Registry :=
  mk_Registry (sinks r) (add_to conn_id target (conn_targets r)) (add_to target conn_id (target_conns r)).

Definition attach (conn_id : str) (sink : LocalSink) (r : Registry) : Registry :=
  let self_target := Connection conn_id in
  mk_Registry (<[conn_id := sink]> (sinks r)) (add_to conn_id self_target (conn_targets r))
    (add_to self_target conn_id (target_conns r)).

(** One round of the loop over a detached connection's targets. *)
Definition drop_target (conn_id : str) (t : Target) (m : gmap Target (gset str)) :
    gmap Target (gset str) :=
  match m !! t with
  | Some set =>
      let set := set ∖ {[conn_id]} in
      if bool_decide (set = ∅) then delete t m else <[t := set]> m
  | None => m
  end.

Definition detach (conn_id : str) (r : Registry) : Registry :=
  match conn_targets r !! conn_id with
  | Some targets =>
      mk_Registry (delete conn_id (sinks r)) (delete conn_id (conn_targets r))
        (foldr (drop_target conn_id) (target_conns r) (elements targets))
  | None => mk_Registry (delete conn_id (sinks r)) (conn_targets r) (target_conns r)
  end.

(** The connections with their sinks the event is handed to, and the count returned. *)
Definition publish (target : Target) (r : Registry) : list (str * LocalSink) * nat :=
  match target_conns r !! target with
  | None => ([], 0)
  | Some conns =>
      let delivered := omap (λ c, pair c <$> sinks r !! c) (elements conns) in
      (delivered, length delivered)
  end.

(** ** What the trait promises

    A history of calls; who is live for a target, and with which sink, read off it. *)

Inductive call :=
| CAttach (conn : str) (sink : LocalSink)
| CAssociate (conn : str) (target : Target)
| CDetach (conn : str).

Definition perform (r : Registry) (c : call) : Registry :=
  match c with
  | CAttach n k => attach n k r
  | CAssociate n t => associate n t r
  | CDetach n => detach n r
  end.
Definition run (calls : list call) : Registry := foldl perform registry_default calls.

Definition live_step (conn : str) (target : Target) (live : bool) (c : call) : bool :=
  match c with
  | CAttach n _ => live || bool_decide (n = conn ∧ target = Connection n)
  | CAssociate n t => live || bool_decide (n = conn ∧ t = target)
  | CDetach n => live && negb (bool_decide (n = conn))
  end.
(** [conn] was associated with [target] since it last went away. *)
Definition live (calls : list call) (conn : str) (target : Target) : bool :=
  foldl (live_step conn target) false calls.

Definition sink_step (conn : str) (sink : option LocalSink) (c : call) : option LocalSink :=
  match c with
  | CAttach n k => if bool_decide (n = conn) then Some k else sink
  | CAssociate _ _ => sink
  | CDetach n => if bool_decide (n = conn) then None else sink
  end.
(** The sink of its last attach since. *)
Definition open_sink (calls : list call) (conn : str) : option LocalSink :=
  foldl (sink_step conn) None calls.

(** ** Lemmas *)

Section sets.
Context {K V : Type} `{Countable K, Countable V}.

Definition members (m : gmap K (gset V)) (k : K) : gset V := default ∅ (m !! k).

Lemma members_add_to k x (m : gmap K (gset V)) k' :
  members (add_to k x m) k' = if decide (k = k') then {[x]} ∪ members m k else members m k'.
Proof.
  unfold members, add_to. case_decide as Hk.
  - subst. by rewrite lookup_insert_eq.
  - by rewrite lookup_insert_ne.
Qed.
End sets.

Lemma members_drop_target c t m t' :
  members (drop_target c t m) t' = if decide (t = t') then members m t ∖ {[c]} else members m t'.
Proof.
  unfold members, drop_target. destruct (m !! t) as [set|] eqn:E.
  - case_bool_decide as Hs; case_decide as Ht; subst; rewrite ?E; simpl;
      rewrite ?lookup_delete_eq, ?lookup_insert_eq, ?lookup_delete_ne, ?lookup_insert_ne by done;
      simpl; done.
  - case_decide as Ht; [subst; rewrite E; simpl; set_solver|done].
Qed.

Lemma members_drop_targets c ts m t :
  members (foldr (drop_target c) m ts) t =
    if decide (t ∈ ts) then members m t ∖ {[c]} else members m t.
Proof.
  induction ts as [|t' ts IH]; simpl; [done|]. rewrite members_drop_target, IH.
  case_decide as H1; case_decide as H2; repeat case_decide; subst; set_solver.
Qed.

(** The two indexes say the same, and it is what the history says. *)
Lemma run_spec calls :
  let r := run calls in
  (∀ c t, t ∈ members (conn_targets r) c ↔ live calls c t = true) ∧
  (∀ c t, c ∈ members (target_conns r) t ↔ live calls c t = true) ∧
  ∀ c, sinks r !! c = open_sink calls c.
Proof.
  simpl. induction calls as [|k calls (IHc & IHt & IHs)] using rev_ind.
  { split; [|split]; [intros c t; unfold members; simpl; rewrite lookup_empty; set_solver..|].
    intros c. simpl. by rewrite lookup_empty. }
  assert (E : ∀ c t, live (calls ++ [k]) c t = live_step c t (live calls c t) k)
    by (intros; unfold live; by rewrite foldl_snoc).
  assert (Es : ∀ c, open_sink (calls ++ [k]) c = sink_step c (open_sink calls c) k)
    by (intros; unfold open_sink; by rewrite foldl_snoc).
  unfold run. rewrite foldl_snoc. fold (run calls). setoid_rewrite E. setoid_rewrite Es.
  destruct k as [n s|n t0|n]; simpl.
  - split; [|split].
    + intros c t. rewrite members_add_to, orb_true_iff, bool_decide_eq_true, <- IHc.
      case_decide; set_solver.
    + intros c t. rewrite members_add_to, orb_true_iff, bool_decide_eq_true, <- IHt.
      case_decide; set_solver.
    + intros c. case_bool_decide; subst; [by rewrite lookup_insert_eq|by rewrite lookup_insert_ne].
  - split; [|split]; [intros c t..|done].
    + rewrite members_add_to, orb_true_iff, bool_decide_eq_true, <- IHc. case_decide; set_solver.
    + rewrite members_add_to, orb_true_iff, bool_decide_eq_true, <- IHt. case_decide; set_solver.
  - setoid_rewrite andb_true_iff. setoid_rewrite negb_true_iff.
    setoid_rewrite bool_decide_eq_false. unfold detach.
    assert (Hs : ∀ c, delete n (sinks (run calls)) !! c =
      if bool_decide (n = c) then None else open_sink calls c).
    { intros c. case_bool_decide; subst; [by rewrite lookup_delete_eq|by rewrite lookup_delete_ne]. }
    destruct (conn_targets (run calls) !! n) as [ts|] eqn:En; simpl; (split; [|split; [|exact Hs]]);
      intros c t.
    + rewrite <- IHc. unfold members. destruct (decide (n = c)) as [->|Hne].
      * rewrite lookup_delete_eq. simpl. set_solver.
      * rewrite lookup_delete_ne by done. set_solver.
    + rewrite members_drop_targets, <- IHt.
      assert (Hts : ∀ t, t ∈ elements ts ↔ live calls n t = true).
      { intros t'. rewrite elem_of_elements, <- IHc. unfold members. by rewrite En. }
      specialize (Hts t). specialize (IHt n t). case_decide; [set_solver|].
      split; [|tauto]. intros Hc. split; [done|]. intros ->. tauto.
    + rewrite <- IHc. unfold members. split; [|tauto]. intros Hc. split; [done|].
      intros ->. rewrite En in Hc. set_solver.
    + rewrite <- IHt. split; [|tauto]. intros Hc. split; [done|]. intros ->.
      apply IHt, IHc in Hc. unfold members in Hc. rewrite En in Hc. set_solver.
Qed.

(** ** Properties *)

(** C25. Publishing reaches exactly the right sockets: after any history of attaches,
    associations and detaches, an event published to a target is handed, once each, to the
    connections that are attached and were associated with that target since they last
    detached (every attached connection with its own id), through the sink of their last
    attach, and the returned count is the number of those deliveries. *)
Theorem publish_reaches_exactly calls target :
  let '(delivered, n) := publish target (run calls) in
  n = length delivered ∧ NoDup (delivered.*1) ∧
  ∀ c k, (c, k) ∈ delivered ↔ live calls c target = true ∧ open_sink calls c = Some k.
Proof.
  destruct (run_spec calls) as (_ & Ht & Hs). pose proof (λ c, Ht c target) as Ht'.
  clear Ht. unfold publish, members in *.
  destruct (target_conns (run calls) !! target) as [conns|]; simpl in *.
  - split; [done|]. split.
    + pose proof (NoDup_elements conns) as Hnd. induction Hnd as [|c cs Hc _ IH]; [constructor|].
      simpl. destruct (sinks _ !! c) as [k|]; simpl; [|done]. constructor; [|done].
      intros (p & -> & Hp)%list_elem_of_fmap. apply list_elem_of_omap in Hp as (c' & Hc' & Hp).
      destruct (sinks _ !! c'); simplify_eq/=. done.
    + intros c k. rewrite list_elem_of_omap. rewrite <- Ht', <- Hs. split.
      * intros (c' & Hc'%elem_of_elements & Hp). destruct (sinks _ !! c') eqn:E; simplify_eq/=.
        rewrite E. done.
      * intros [Hc Hk]. exists c. rewrite elem_of_elements, Hk. done.
  - split; [done|]. split; [constructor|]. intros c k. rewrite <- Ht'. set_solver.
Qed.

(** Detaching forgets the connection: nothing of it is left in any index. *)
Theorem detach_forgets calls conn target :
  live (calls ++ [CDetach conn]) conn target = false ∧
  conn ∉ members (target_conns (run (calls ++ [CDetach conn]))) target.
Proof.
  assert (H : live (calls ++ [CDetach conn]) conn target = false).
  { unfold live. rewrite foldl_snoc. simpl. rewrite bool_decide_eq_true_2 by done. apply andb_false_r. }
  split; [done|]. destruct (run_spec (calls ++ [CDetach conn])) as (_ & Ht & _). rewrite Ht, H. done.
Qed.
