(* ===== verification/Storage.v ===== *)
(** * Storage: the domain records and the storage seam
    ([smooth-operator/src/domain.rs], [adapter.rs], [adapters/in-memory/src/lib.rs])

    The domain model, the [StorageAdapter] trait as a class with its provided methods,
    the in-memory adapter as its instance, and the laws the server relies on. *)

From stdpp Require Import prelude gmap strings list.
From S2P Require Import Prelude Text Json.

(** ** Domain *)

Inductive Platform :=
| Web | Messenger | Instagram | Email | Discord | Phone | Sms | Slack | Whatsapp | Tiktok.

Record Conversation := mk_Conversation {
  conv_id : str;
  platform : Platform;
  conv_name : str;
  conv_organization_id : str;
  idempotency_key : str;
  conv_metadata_json : option Value;
  conv_analytics_json : option Value;
  conv_created_at : Timestamp;
  conv_updated_at : Timestamp;
}.

Inductive ParticipantType := User | AiAgent | HumanAgent.
#[export] Instance ParticipantType_eq_dec : EqDecision ParticipantType.
Proof. solve_decision. Defined.

Record Participant := mk_Participant {
  part_id : str;
  part_conversation_id : str;
  part_organization_id : str;
  participant_type : ParticipantType;
  part_external_id : option str;
  internal_id : option str;
  browser_fingerprint : option str;
  browser_info : option Value;
  part_name : str;
  part_email : option str;
  part_phone : option str;
  crm_contact_id : option str;
  part_metadata_json : option Value;
  part_created_at : Timestamp;
  part_updated_at : Timestamp;
}.

Inductive Direction := Inbound | Outbound.
#[export] Instance Direction_eq_dec : EqDecision Direction.
Proof. solve_decision. Defined.

Record ContentItem := mk_ContentItem {
  item_type : str;
  item_text : option str;
  item_url : option str;
}.

Definition content_text (t : str) : ContentItem := mk_ContentItem (lit "text") (Some t) None.
Definition content_image (url : str) : ContentItem := mk_ContentItem (lit "image") None (Some url).

Record MessageContent := mk_MessageContent {
  content_items : list ContentItem;
  content_flat : option str;
  structured_response : option Value;
}.

(** [Iterator::find_map]. *)
Fixpoint find_map {A B} (f : A → option B) (l : list A) : option B :=
  match l with
  | [] => None
  | x :: l' => match f x with Some y => Some y | None => find_map f l' end
  end.

Definition flat_text (self : MessageContent) : option str :=
  opt_filter (λ s, negb (str_is_empty s))
    (trim <$> opt_or (content_flat self) (find_map item_text (content_items self))).

Definition from_text (t : str) : MessageContent := mk_MessageContent [content_text t] (Some t) None.
Definition from_text_and_images (t : str) (image_urls : list str) : MessageContent :=
  mk_MessageContent (content_text t :: (content_image <$> image_urls)) (Some t) None.

Record ParticipantRef := mk_ParticipantRef {
  ref_id : str;
  ref_type : str;
  ref_name : option str;
}.

Record Message := mk_Message {
  msg_id : str;
  msg_external_id : option str;
  msg_organization_id : option str;
  msg_conversation_id : option str;
  direction : Direction;
  content : MessageContent;
  msg_from : option ParticipantRef;
  msg_to : option ParticipantRef;
  msg_metadata_json : option Value;
  msg_analytics_json : option Value;
  msg_created_at : Timestamp;
  msg_updated_at : option Timestamp;
}.

Inductive SessionStatus := Active | Idle | Ended.

Record Session := mk_Session {
  session_id : str;
  sess_conversation_id : str;
  sess_organization_id : str;
  sess_agent_id : option str;
  agent_name : str;
  user_participant_id : str;
  agent_participant_id : str;
  thread_id : str;
  status : option SessionStatus;
  token_count : option N;
  message_count : option N;
  sess_metadata : option (gmap str Value);
  sess_created_at : option Timestamp;
  sess_updated_at : option Timestamp;
  ended_at : option Timestamp;
  last_activity_at : option Timestamp;
}.

(** ** Queries *)

Record ConversationUpdate := mk_ConversationUpdate {
  up_name : option str;
  up_metadata_json : option Value;
  up_analytics_json : option Value;
}.

Record SessionUpdate := mk_SessionUpdate {
  up_status : option SessionStatus;
  up_token_count : option N;
  up_message_count : option N;
  up_last_activity_at : option Timestamp;
  up_ended_at : option Timestamp;
  up_metadata : option (gmap str Value);
}.

Record MessagePage := mk_MessagePage {
  page_messages : list Message;
  next_cursor : option str;
}.

Record MessageQuery := mk_MessageQuery {
  q_conversation_id : str;
  q_limit : nat;
  q_cursor : option str;
  q_descending : bool;
}.

Definition message_query_new (conversation_id : str) (limit : nat) : MessageQuery :=
  mk_MessageQuery conversation_id limit None false.

Record ConversationSummary := mk_ConversationSummary {
  sum_conversation : Conversation;
  first_inbound_text : option str;
  sum_message_count : nat;
}.

Definition SUMMARY_MESSAGE_CAP : nat := 200.
Definition DEFAULT_CONVERSATION_NAME_PREFIX : str := lit "Session ".

(** ** Sidebar order *)

Record ConversationKey := mk_ConversationKey { key_updated_at : Timestamp; key_id : str }.

Definition key_of (c : Conversation) : ConversationKey :=
  mk_ConversationKey (conv_updated_at c) (conv_id c).

Definition precedes (self : ConversationKey) (updated_at : Timestamp) (id : str) : bool :=
  (updated_at <? key_updated_at self)%Z
  || (updated_at =? key_updated_at self)%Z && str_ltb id (key_id self).

(** The wire cursor. RFC 3339 text and unpadded URL-safe base64 are the [chrono] and
    [base64] crates'. *)
Class WireText := {
  to_rfc3339_auto : Timestamp → str;
  to_rfc3339 : Timestamp → str;
  serialize_time : Timestamp → str;
  parse_rfc3339 : str → option Timestamp;
  b64_encode : list N → str;
  b64_decode : str → option (list N);
}.

Definition key_encode `{WireText} (self : ConversationKey) : str :=
  b64_encode (utf8 (to_rfc3339_auto (key_updated_at self) ++ lit "|" ++ key_id self)).

Definition key_decode `{WireText} (cursor : str) : option ConversationKey :=
  bytes ← b64_decode (trim cursor);
  raw ← from_utf8 bytes;
  '(ts, id) ← split_once 124 raw;
  if str_is_empty id then None
  else updated_at ← parse_rfc3339 ts; Some (mk_ConversationKey updated_at id).

Record ConversationSummaryQuery := mk_ConversationSummaryQuery {
  sq_limit : nat;
  sq_after : option ConversationKey;
  sq_search : option str;
}.

Definition summary_query_new (limit : nat) : ConversationSummaryQuery :=
  mk_ConversationSummaryQuery limit None None.
Definition summary_query_after (key : option ConversationKey) (self : ConversationSummaryQuery) :
    ConversationSummaryQuery := mk_ConversationSummaryQuery (sq_limit self) key (sq_search self).
Definition with_search (search : option str) (self : ConversationSummaryQuery) :
    ConversationSummaryQuery :=
  mk_ConversationSummaryQuery (sq_limit self) (sq_after self)
    (opt_filter (λ s, negb (str_is_empty s)) (trim <$> search)).

Definition admits_position (self : ConversationSummaryQuery) (c : Conversation) : bool :=
  is_none_or (λ key, precedes key (conv_updated_at c) (conv_id c)) (sq_after self).

(** Full Unicode lower-casing is the standard library's table; it is a parameter of the
    search only. *)
Class Lowercase := { to_lowercase : str → str }.

Definition matches_search `{Lowercase} (self : ConversationSummaryQuery) (name : str)
    (first_inbound : option str) : bool :=
  match sq_search self with
  | None => true
  | Some needle =>
      let needle := to_lowercase needle in
      let meaningful_name :=
        if negb (starts_with DEFAULT_CONVERSATION_NAME_PREFIX name) then Some name else None in
      any (λ haystack, contains needle (to_lowercase haystack))
        (omap id [meaningful_name; first_inbound])
  end.

(** [b] sorts no earlier than [a]: newest first, then id descending. *)
Definition newest_first (a b : Conversation) : bool :=
  (conv_updated_at b <? conv_updated_at a)%Z
  || (conv_updated_at a =? conv_updated_at b)%Z && negb (str_ltb (conv_id a) (conv_id b)).

Definition sort_conversations_newest_first (l : list Conversation) : list Conversation :=
  sort_by newest_first l.

Definition is_owner (p : Participant) (user_email : str) : bool :=
  if str_is_empty (trim user_email) then false
  else bool_decide (participant_type p = User) &&
       is_some_and (λ e, eq_ignore_ascii_case (trim e) (trim user_email)) (part_email p).

(** ** The adapter (trait [StorageAdapter])

    A backend's reads may fail but do not change it; a write returns the backend it
    leaves, and reads the clock where the source does. *)

Class StorageAdapter (S : Type) := {
  create_conversation : Conversation → S → result error Conversation * S;
  get_conversation : S → str → result error (option Conversation);
  list_conversations_by_org : S → str → result error (list Conversation);
  update_conversation : str → ConversationUpdate → Timestamp → S → result error Conversation * S;
  add_participant : Participant → S → result error Participant * S;
  get_participant : S → str → result error (option Participant);
  list_participants_by_conversation : S → str → result error (list Participant);
  resolve_participant_by_external_id : S → str → str → result error (option Participant);
  append_message : Message → S → result error Message * S;
  get_message : S → str → result error (option Message);
  list_messages_by_conversation : S → MessageQuery → result error MessagePage;
  create_session : Session → S → result error Session * S;
  get_session : S → str → result error (option Session);
  update_session : str → SessionUpdate → Timestamp → S → result error Session * S;
  list_sessions_by_conversation : S → str → result error (list Session);
}.

Section provided.
Context {S : Type} `{!StorageAdapter S, !Lowercase}.

(** The owned conversations of [cs], in order; the first failing read stops it. *)
Fixpoint filter_owned (s : S) (user_email : str) (cs : list Conversation) :
    result error (list Conversation) :=
  match cs with
  | [] => mret []
  | c :: rest =>
      participants ← list_participants_by_conversation s (conv_id c);
      owned ← filter_owned s user_email rest;
      mret (if any (λ p, is_owner p user_email) participants then c :: owned else owned)
  end.

Definition list_conversations_by_org_and_user (s : S) (organization_id user_email : str) :
    result error (list Conversation) :=
  cs ← list_conversations_by_org s organization_id;
  filter_owned s user_email cs.

(** One candidate's row: none when it has no message or does not match. *)
Definition summary_row (s : S) (query : ConversationSummaryQuery) (c : Conversation) :
    result error (option ConversationSummary) :=
  page ← list_messages_by_conversation s (message_query_new (conv_id c) SUMMARY_MESSAGE_CAP);
  mret (match page_messages page with
        | [] => None
        | ms =>
            let first := find_first (λ m, bool_decide (direction m = Inbound)) ms
                           ≫= λ m, flat_text (content m) in
            if negb (matches_search query (conv_name c) first) then None
            else Some (mk_ConversationSummary c first (length ms))
        end).

(** The row loop: stops as soon as the page is full. *)
Fixpoint summary_rows (s : S) (query : ConversationSummaryQuery) (rows : list ConversationSummary)
    (cs : list Conversation) : result error (list ConversationSummary) :=
  match cs with
  | [] => mret rows
  | c :: rest =>
      if (sq_limit query <=? length rows)%nat then mret rows
      else if negb (admits_position query c) then summary_rows s query rows rest
      else
        row ← summary_row s query c;
        summary_rows s query (rows ++ match row with Some r => [r] | None => [] end) rest
  end.

Definition list_owned_conversation_summaries_page (s : S) (organization_id user_email : str)
    (query : ConversationSummaryQuery) : result error (list ConversationSummary) :=
  owned ← list_conversations_by_org_and_user s organization_id user_email;
  summary_rows s query [] (sort_conversations_newest_first owned).

Definition list_owned_conversation_summaries (s : S) (organization_id user_email : str)
    (limit : nat) : result error (list ConversationSummary) :=
  list_owned_conversation_summaries_page s organization_id user_email (summary_query_new limit).
End provided.

(** ** The in-memory adapter *)

Record Tables := mk_Tables {
  conversations : gmap str Conversation;
  participants : gmap str Participant;
  messages : gmap str Message;
  message_order : gmap str (list str);
  sessions : gmap str Session;
}.

Definition tables_default : Tables := mk_Tables ∅ ∅ ∅ ∅ ∅.

Definition values {V} (m : gmap str V) : list V := (map_to_list m).*2.

(** [Iterator::position]. *)
Fixpoint position (p : str → bool) (l : list str) : option nat :=
  match l with
  | [] => None
  | x :: l' => if p x then Some 0 else S <$> position p l'
  end.

Definition not_found (what id : str) : error := [what ++ lit " '" ++ id ++ lit "' not found"].

Module InMemory.
Definition create_conversation (c : Conversation) (t : Tables) : result error Conversation * Tables :=
  match find_first (λ e, str_eqb (conv_organization_id e) (conv_organization_id c) &&
                         str_eqb (idempotency_key e) (idempotency_key c))
          (values (conversations t)) with
  | Some existing => (Ok existing, t)
  | None =>
      (Ok c, mk_Tables (<[conv_id c := c]> (conversations t)) (participants t) (messages t)
               (match message_order t !! conv_id c with
                | Some _ => message_order t
                | None => <[conv_id c := []]> (message_order t)
                end) (sessions t))
  end.

Definition get_conversation (t : Tables) (id : str) : result error (option Conversation) :=
  Ok (conversations t !! id).

(** [sort_by_key(Reverse(created_at))]: newest first, stably. *)
Definition list_conversations_by_org (t : Tables) (org : str) : result error (list Conversation) :=
  Ok (sort_by (λ a b, (conv_created_at b <=? conv_created_at a)%Z)
        (List.filter (λ c, str_eqb (conv_organization_id c) org) (values (conversations t)))).

Definition apply_conversation_update (u : ConversationUpdate) (now : Timestamp) (c : Conversation) :
    Conversation :=
  mk_Conversation (conv_id c) (platform c) (default (conv_name c) (up_name u))
    (conv_organization_id c) (idempotency_key c)
    (opt_or (up_metadata_json u) (conv_metadata_json c))
    (opt_or (up_analytics_json u) (conv_analytics_json c)) (conv_created_at c) now.

Definition update_conversation (id : str) (u : ConversationUpdate) (now : Timestamp) (t : Tables) :
    result error Conversation * Tables :=
  match conversations t !! id with
  | None => (Err (not_found (lit "conversation") id), t)
  | Some c =>
      let c := apply_conversation_update u now c in
      (Ok c, mk_Tables (<[id := c]> (conversations t)) (participants t) (messages t)
               (message_order t) (sessions t))
  end.

Definition add_participant (p : Participant) (t : Tables) : result error Participant * Tables :=
  (Ok p, mk_Tables (conversations t) (<[part_id p := p]> (participants t)) (messages t)
           (message_order t) (sessions t)).

Definition get_participant (t : Tables) (id : str) : result error (option Participant) :=
  Ok (participants t !! id).

Definition list_participants_by_conversation (t : Tables) (cid : str) : result error (list Participant) :=
  Ok (sort_by (λ a b, (part_created_at a <=? part_created_at b)%Z)
        (List.filter (λ p, str_eqb (part_conversation_id p) cid) (values (participants t)))).

Definition resolve_participant_by_external_id (t : Tables) (cid ext : str) :
    result error (option Participant) :=
  Ok (find_first (λ p, str_eqb (part_conversation_id p) cid &&
                       is_some_and (λ e, str_eqb e ext) (part_external_id p))
        (values (participants t))).

Definition append_message (m : Message) (t : Tables) : result error Message * Tables :=
  let order := match msg_conversation_id m with
               | Some cid => <[cid := default [] (message_order t !! cid) ++ [msg_id m]]> (message_order t)
               | None => message_order t
               end in
  (Ok m, mk_Tables (conversations t) (participants t) (<[msg_id m := m]> (messages t)) order (sessions t)).

Definition get_message (t : Tables) (id : str) : result error (option Message) :=
  Ok (messages t !! id).

Definition list_messages_by_conversation (t : Tables) (q : MessageQuery) : result error MessagePage :=
  let order := default [] (message_order t !! q_conversation_id q) in
  let ids := if q_descending q then reverse order else order in
  let start := match q_cursor q with
               | Some cursor => match position (λ id, str_eqb id cursor) ids with
                                | Some i => i + 1
                                | None => 0
                                end
               | None => 0
               end in
  let slice := take (q_limit q) (drop start ids) in
  Ok (mk_MessagePage (omap (λ id, messages t !! id) slice)
        (if (start + length slice <? length ids)%nat then last slice else None)).

Definition create_session (s : Session) (t : Tables) : result error Session * Tables :=
  (Ok s, mk_Tables (conversations t) (participants t) (messages t) (message_order t)
           (<[session_id s := s]> (sessions t))).

Definition get_session (t : Tables) (id : str) : result error (option Session) :=
  Ok (sessions t !! id).

Definition apply_session_update (u : SessionUpdate) (now : Timestamp) (s : Session) : Session :=
  mk_Session (session_id s) (sess_conversation_id s) (sess_organization_id s) (sess_agent_id s)
    (agent_name s) (user_participant_id s) (agent_participant_id s) (thread_id s)
    (opt_or (up_status u) (status s)) (opt_or (up_token_count u) (token_count s))
    (opt_or (up_message_count u) (message_count s)) (opt_or (up_metadata u) (sess_metadata s))
    (sess_created_at s) (Some now) (opt_or (up_ended_at u) (ended_at s))
    (opt_or (up_last_activity_at u) (last_activity_at s)).

Definition update_session (id : str) (u : SessionUpdate) (now : Timestamp) (t : Tables) :
    result error Session * Tables :=
  match sessions t !! id with
  | None => (Err (not_found (lit "session") id), t)
  | Some s =>
      let s := apply_session_update u now s in
      (Ok s, mk_Tables (conversations t) (participants t) (messages t) (message_order t)
               (<[id := s]> (sessions t)))
  end.

Definition list_sessions_by_conversation (t : Tables) (cid : str) : result error (list Session) :=
  let le a b := match sess_created_at a, sess_created_at b with
                | None, _ => true
                | Some _, None => false
                | Some x, Some y => (x <=? y)%Z
                end in
  Ok (sort_by le (List.filter (λ s, str_eqb (sess_conversation_id s) cid) (values (sessions t)))).
End InMemory.

#[export] Instance in_memory_adapter : StorageAdapter Tables := {|
  create_conversation := InMemory.create_conversation;
  get_conversation := InMemory.get_conversation;
  list_conversations_by_org := InMemory.list_conversations_by_org;
  update_conversation := InMemory.update_conversation;
  add_participant := InMemory.add_participant;
  get_participant := InMemory.get_participant;
  list_participants_by_conversation := InMemory.list_participants_by_conversation;
  resolve_participant_by_external_id := InMemory.resolve_participant_by_external_id;
  append_message := InMemory.append_message;
  get_message := InMemory.get_message;
  list_messages_by_conversation := InMemory.list_messages_by_conversation;
  create_session := InMemory.create_session;
  get_session := InMemory.get_session;
  update_session := InMemory.update_session;
  list_sessions_by_conversation := InMemory.list_sessions_by_conversation;
|}.

(** ** What the server relies on

    The trait's documentation, as far as the server's scoping needs it, on the backends
    that are well formed: a listing by organization returns that organization's
    conversations, once each, and a participant listing the conversation's participants. *)
Class StorageLaws (S : Type) `{StorageAdapter S} := {
  store_wf : S → Prop;
  list_by_org_scoped (s : S) org cs :
    store_wf s → list_conversations_by_org s org = Ok cs →
    Forall (λ c, conv_organization_id c = org) cs ∧ NoDup (conv_id <$> cs);
  list_participants_scoped (s : S) cid ps :
    store_wf s → list_participants_by_conversation s cid = Ok ps →
    Forall (λ p, part_conversation_id p = cid) ps;
}.

Record tables_wf (t : Tables) : Prop := {
  conversations_keyed : map_Forall (λ k c, conv_id c = k) (conversations t);
  messages_keyed : map_Forall (λ k m, msg_id m = k) (messages t);
  order_known : map_Forall (λ _ ids, Forall (λ i, is_Some (messages t !! i)) ids) (message_order t);
  idempotency_unique : ∀ k1 k2 c1 c2,
    conversations t !! k1 = Some c1 → conversations t !! k2 = Some c2 →
    conv_organization_id c1 = conv_organization_id c2 →
    idempotency_key c1 = idempotency_key c2 → k1 = k2;
}.

Lemma values_elem {V} (m : gmap str V) v : v ∈ values m ↔ ∃ k, m !! k = Some v.
Proof.
  unfold values. rewrite list_elem_of_fmap. split.
  - intros ([k v'] & -> & Hkv%elem_of_map_to_list). by exists k.
  - intros (k & Hk). exists (k, v). split; [done|]. by apply elem_of_map_to_list.
Qed.

Lemma NoDup_filter_fmap {A B} (f : A → B) p l : NoDup (f <$> l) → NoDup (f <$> List.filter p l).
Proof.
  induction l as [|x l IH]; simpl; [done|]. intros [Hx Hl]%NoDup_cons.
  case_match; [|by apply IH]. simpl. apply NoDup_cons. split; [|by apply IH].
  intros (y & Hy & Hin)%list_elem_of_fmap. apply Hx. rewrite Hy. apply list_elem_of_fmap_2.
  apply list_elem_of_In, filter_In in Hin as [Hin _]. by apply list_elem_of_In.
Qed.

Lemma values_keyed_NoDup {V} (key : V → str) (m : gmap str V) :
  map_Forall (λ k v, key v = k) m → NoDup (key <$> values m).
Proof.
  intros Hm. unfold values. rewrite <- list_fmap_compose.
  replace (key ∘ snd <$> map_to_list m) with ((map_to_list m).*1);
    [apply NoDup_fst_map_to_list|].
  apply list_fmap_ext. intros i [k v] Hi. symmetry. apply Hm.
  by apply elem_of_map_to_list, list_elem_of_lookup_2 with i.
Qed.

Lemma filter_elem {A} (p : A → bool) l x : x ∈ List.filter p l ↔ x ∈ l ∧ p x = true.
Proof. rewrite !list_elem_of_In. apply filter_In. Qed.

Lemma sort_filter_Forall {A} (le : A → A → bool) p l (P : A → Prop) :
  (∀ x, p x = true → P x) → Forall P (sort_by le (List.filter p l)).
Proof.
  intros H. rewrite sort_by_perm. apply Forall_forall. intros x [_ Hx]%filter_elem. by apply H.
Qed.

#[export] Instance in_memory_storage_laws : StorageLaws Tables.
Proof.
  refine {| store_wf := tables_wf |}.
  - intros t org cs Hwf. simpl. unfold InMemory.list_conversations_by_org. intros [= <-]. split.
    + apply sort_filter_Forall. intros c. apply str_eqb_true.
    + rewrite sort_by_perm. apply NoDup_filter_fmap, values_keyed_NoDup, Hwf.
  - intros t cid ps Hwf. simpl. unfold InMemory.list_participants_by_conversation. intros [= <-].
    apply sort_filter_Forall. intros p. apply str_eqb_true.
Defined.

(** ** Well-formedness of the tables *)

Lemma tables_default_wf : tables_wf tables_default.
Proof. split; try apply map_Forall_empty. intros k1 k2 c1 c2 H.
  simpl in H. by apply lookup_empty_Some in H.
Qed.

(** The caller's ids are new: uuids. *)
Lemma create_conversation_wf c t :
  tables_wf t → conversations t !! conv_id c = None →
  tables_wf (InMemory.create_conversation c t).2.
Proof.
  intros [Hc Hm Ho Hu] Hnew. unfold InMemory.create_conversation. case_match eqn:E; [by split|].
  rewrite find_first_None in E. simpl. split; simpl; [| done | |].
  - by apply map_Forall_insert_2.
  - case_match; [done|]. apply map_Forall_insert_2; [constructor|done].
  - assert (Hfresh : ∀ k e, conversations t !! k = Some e →
      conv_organization_id e = conv_organization_id c → idempotency_key e = idempotency_key c → False).
    { intros k e Hk Heo Hek. specialize (E e (proj2 (values_elem _ _) (ex_intro _ k Hk))).
      rewrite Heo, Hek, !str_eqb_refl in E. done. }
    intros k1 k2 c1 c2 [[<- <-]|[? H1]]%lookup_insert_Some [[<- <-]|[? H2]]%lookup_insert_Some Hor Hk;
      [done|exfalso; by eapply Hfresh|exfalso; by eapply Hfresh|by eapply Hu].
Qed.

Lemma update_conversation_wf id u now t :
  tables_wf t → tables_wf (InMemory.update_conversation id u now t).2.
Proof.
  intros [Hc Hm Ho Hu]. unfold InMemory.update_conversation. case_match eqn:E; [|by split].
  simpl. split; simpl; [|done|done|].
  - apply map_Forall_insert_2; [|done]. exact (Hc id c E).
  - intros k1 k2 c1 c2 [[<- <-]|[? H1]]%lookup_insert_Some [[<- <-]|[? H2]]%lookup_insert_Some Hor Hk;
      simpl in *; [done|by apply (Hu id k2 c c2)|by apply (Hu k1 id c1 c)|by eapply Hu].
Qed.

Lemma add_participant_wf p t : tables_wf t → tables_wf (InMemory.add_participant p t).2.
Proof. by intros [? ? ? ?]. Qed.

Lemma append_message_wf m t : tables_wf t → tables_wf (InMemory.append_message m t).2.
Proof.
  intros [Hc Hm Ho Hu]. unfold InMemory.append_message. simpl. split; simpl; [done| | |done].
  - by apply map_Forall_insert_2.
  - assert (Hall : ∀ ids, Forall (λ i, is_Some (messages t !! i)) ids →
      Forall (λ i, is_Some (<[msg_id m := m]> (messages t) !! i)) ids).
    { intros ids Hids. eapply Forall_impl; [exact Hids|]. intros i Hi.
      by apply lookup_insert_is_Some'; right. }
    assert (Hall' : map_Forall (λ _ ids, Forall (λ i, is_Some (<[msg_id m:=m]> (messages t) !! i)) ids)
      (message_order t)) by (intros k ids Hk; by apply Hall, (Ho k)).
    destruct (msg_conversation_id m) as [cid|]; [|done].
    apply map_Forall_insert_2; [|done]. apply Forall_app. split.
    + destruct (message_order t !! cid) eqn:E; simpl; [by apply (Hall' cid)|constructor].
    + constructor; [|constructor]. rewrite lookup_insert_eq. by eexists.
Qed.

(** ** The sidebar order *)

Lemma sublist_fmap_mono {A B} (f : A → B) l1 l2 : l1 `sublist_of` l2 → f <$> l1 `sublist_of` f <$> l2.
Proof. induction 1; simpl; by constructor. Qed.

Lemma newest_first_total a b : newest_first a b = true ∨ newest_first b a = true.
Proof.
  unfold newest_first. destruct (Z.lt_trichotomy (conv_updated_at a) (conv_updated_at b)) as [H|[H|H]].
  - right. apply orb_true_intro. left. by apply Z.ltb_lt.
  - rewrite H, Z.eqb_refl, Z.ltb_irrefl. simpl.
    destruct (str_ltb (conv_id a) (conv_id b)) eqn:E; [|by left]. right.
    destruct (str_ltb (conv_id b) (conv_id a)) eqn:E2; [|done].
    pose proof (str_ltb_trans _ _ _ E E2) as H3. by rewrite str_ltb_irrefl in H3.
  - left. apply orb_true_intro. left. by apply Z.ltb_lt.
Qed.

Lemma newest_first_trans a b c :
  newest_first a b = true → newest_first b c = true → newest_first a c = true.
Proof.
  unfold newest_first. rewrite !orb_true_iff, !andb_true_iff, !negb_true_iff, !Z.ltb_lt, !Z.eqb_eq.
  intros [H1|[H1 H1']] [H2|[H2 H2']]; [left; lia..|].
  right. split; [congruence|]. destruct (str_ltb (conv_id a) (conv_id c)) eqn:E; [|done].
  destruct (str_ltb (conv_id b) (conv_id c)) eqn:E2; [done|].
  destruct (str_ltb (conv_id c) (conv_id b)) eqn:E3.
  - rewrite (str_ltb_trans _ _ _ E E3) in H1'. done.
  - pose proof (str_ltb_total _ _ E2 E3) as Heq. rewrite <- Heq in E. congruence.
Qed.

(** For distinct ids, coming after in the order is what [precedes] decides. *)
Lemma precedes_newest a b :
  conv_id a ≠ conv_id b → newest_first a b = true →
  precedes (key_of a) (conv_updated_at b) (conv_id b) = true ∧
  precedes (key_of b) (conv_updated_at a) (conv_id a) = false.
Proof.
  unfold newest_first, precedes, key_of; simpl. intros Hne.
  rewrite !orb_true_iff, !orb_false_iff, !andb_true_iff, !andb_false_iff, !negb_true_iff,
    !Z.ltb_lt, !Z.ltb_ge, !Z.eqb_eq, !Z.eqb_neq.
  intros [H|[H1 H2]].
  - split; [by left|]. split; [lia|]. left. lia.
  - split.
    + right. split; [done|]. destruct (str_ltb (conv_id b) (conv_id a)) eqn:E; [done|].
      by pose proof (str_ltb_total _ _ H2 E).
    + split; [lia|]. by right.
Qed.

Lemma precedes_irrefl a : precedes (key_of a) (conv_updated_at a) (conv_id a) = false.
Proof. unfold precedes, key_of; simpl. by rewrite Z.ltb_irrefl, str_ltb_irrefl, andb_false_r. Qed.

(** The rows after a position of a sorted list. *)
Lemma filter_after pre c post :
  sorted newest_first (pre ++ c :: post) → NoDup (conv_id <$> (pre ++ c :: post)) →
  List.filter (λ x, precedes (key_of c) (conv_updated_at x) (conv_id x)) (pre ++ c :: post) = post.
Proof.
  intros Hs Hnd. rewrite fmap_app, fmap_cons in Hnd.
  apply NoDup_app in Hnd as (_ & Hdis & [Hc Hpost]%NoDup_cons).
  rewrite List.filter_app. simpl. rewrite precedes_irrefl.
  assert (Hpre : List.filter (λ x, precedes (key_of c) (conv_updated_at x) (conv_id x)) pre = []).
  { assert (Hall : Forall (λ x, precedes (key_of c) (conv_updated_at x) (conv_id x) = false) pre).
    - clear Hpost. induction pre as [|x pre IH]; [constructor|]. simpl in *.
      inversion Hs as [|?? Hs' Hx]; subst. constructor.
      + apply precedes_newest.
        * intros Heq. apply (Hdis (conv_id x)); [left|]. rewrite Heq. left.
        * by apply Forall_app in Hx as [_ Hx%Forall_inv].
      + apply IH; [done|]. intros y Hy. apply Hdis. by right.
    - clear -Hall. induction Hall as [|x l Hx _ IH]; simpl; [done|]. by rewrite Hx. }
  rewrite Hpre. simpl.
  assert (Htail : sorted newest_first (c :: post)).
  { clear -Hs. induction pre as [|x pre IH]; [done|]. simpl in Hs. inversion Hs; subst. by apply IH. }
  inversion Htail as [|?? _ Hlt]; subst. clear -Hlt Hc.
  induction Hlt as [|x l Hx _ IH]; simpl; [done|].
  rewrite (proj1 (precedes_newest c x ltac:(set_solver) Hx)). f_equal. apply IH. set_solver.
Qed.

Section listing.
Context {S : Type} `{!StorageAdapter S, !Lowercase}.
Implicit Types (s : S) (q : ConversationSummaryQuery).

Lemma filter_owned_spec s email cs owned :
  filter_owned s email cs = Ok owned →
  ∀ c, c ∈ owned ↔ c ∈ cs ∧ ∃ ps, list_participants_by_conversation s (conv_id c) = Ok ps ∧
                                any (λ p, is_owner p email) ps = true.
Proof.
  revert owned. induction cs as [|c0 cs IH]; simpl; intros owned.
  - intros [= <-] c. set_solver.
  - destruct (list_participants_by_conversation s (conv_id c0)) as [ps|] eqn:Ep; [|done]. simpl.
    destruct (filter_owned s email cs) as [rest|] eqn:Er; [|done]. simpl.
    specialize (IH _ eq_refl). intros [= <-] c.
    destruct (any _ ps) eqn:Ea; rewrite ?elem_of_cons, IH; split.
    + intros [->|[Hc He]]; [split; [by left|by exists ps]|split; [by right|done]].
    + intros [[->|Hc] He]; [by left|by right].
    + intros [Hc He]; split; [by right|done].
    + intros [[->|Hc] (ps' & Hps' & Ha)]; [|by split; [|exists ps']].
      rewrite Ep in Hps'. simplify_eq. congruence.
Qed.

Lemma filter_owned_ids s email cs owned :
  filter_owned s email cs = Ok owned → owned `sublist_of` cs.
Proof.
  revert owned. induction cs as [|c cs IH]; simpl; intros owned.
  - intros [= <-]. constructor.
  - destruct (list_participants_by_conversation _ _); [|done]. simpl.
    destruct (filter_owned s email cs); [|done]. simpl. specialize (IH _ eq_refl).
    intros [= <-]. case_match; by constructor.
Qed.

(** The rows of a candidate list, once every read succeeds. *)
Definition rows_from s q cs : option (list ConversationSummary) :=
  foldr (λ c acc, rest ← acc;
           row ← result_ok (summary_row s q c);
           Some (match row with Some r => r :: rest | None => rest end)) (Some []) cs.

Lemma rows_from_app s q cs1 cs2 rows :
  rows_from s q (cs1 ++ cs2) = Some rows →
  ∃ r1 r2, rows_from s q cs1 = Some r1 ∧ rows_from s q cs2 = Some r2 ∧ rows = r1 ++ r2.
Proof.
  unfold rows_from. revert rows. induction cs1 as [|c cs1 IH]; intros rows; simpl.
  - intros ->. by exists [], rows.
  - destruct (foldr _ _ (cs1 ++ cs2)) as [rs|]; simpl; [|done].
    destruct (IH rs eq_refl) as (r1 & r2 & H1 & H2 & ->). rewrite H1. simpl.
    destruct (result_ok _) as [[r|]|]; simpl; intros [= <-]; by eexists _, r2.
Qed.

Lemma rows_from_search s l1 a1 l2 a2 se cs :
  rows_from s (mk_ConversationSummaryQuery l1 a1 se) cs =
  rows_from s (mk_ConversationSummaryQuery l2 a2 se) cs.
Proof. done. Qed.

(** The loop's result, given the rows of what it may reach. *)
Lemma summary_rows_spec s q rows cs all :
  rows_from s q (List.filter (admits_position q) cs) = Some all →
  length rows ≤ sq_limit q →
  summary_rows s q rows cs = Ok (rows ++ take (sq_limit q - length rows) all).
Proof.
  revert rows all. induction cs as [|c cs IH]; intros rows all Hall Hlen; simpl in *.
  - simplify_eq. by rewrite take_nil, app_nil_r.
  - destruct (sq_limit q <=? length rows) eqn:El.
    + apply Nat.leb_le in El. replace (sq_limit q - length rows) with 0 by lia. by rewrite app_nil_r.
    + apply Nat.leb_gt in El. destruct (admits_position q c) eqn:Ea; simpl; [|by apply IH].
      simpl in Hall. unfold rows_from in Hall. simpl in Hall.
      change (foldr _ _ ?x) with (rows_from s q x) in Hall.
      destruct (rows_from s q _) as [rest|] eqn:Er; simpl in Hall; [|done].
      destruct (summary_row s q c) as [row|]; simpl in *; [|done]. simplify_eq.
      rewrite (IH _ rest); [|done|].
      * destruct row; simpl; rewrite ?app_nil_r; [|done].
        rewrite length_app, <- (assoc_L (++)). simpl.
        replace (sq_limit q - length rows) with (Datatypes.S (sq_limit q - (length rows + 1))) by lia. done.
      * destruct row; rewrite length_app; simpl; lia.
Qed.

Lemma summary_rows_all s q rows cs out :
  (∀ c, admits_position q c = true) → length rows + length cs ≤ sq_limit q →
  summary_rows s q rows cs = Ok out →
  ∃ all, rows_from s q cs = Some all ∧ out = rows ++ all.
Proof.
  intros Hadm. revert rows out. induction cs as [|c cs IH]; intros rows out Hlen; simpl in *.
  - intros [= <-]. exists []. by rewrite app_nil_r.
  - destruct (sq_limit q <=? length rows) eqn:El; [apply Nat.leb_le in El; lia|]. rewrite Hadm. simpl.
    destruct (summary_row s q c) as [row|] eqn:Er; simpl; [|done]. intros Hout.
    destruct (IH (rows ++ match row with Some r => [r] | None => [] end) out) as (all & Hall & ->); [|done|].
    { destruct row; rewrite length_app; simpl; lia. }
    unfold rows_from in *. simpl. rewrite Hall. simpl.
    destruct row; eexists; (split; [done|]); by rewrite <- (assoc_L (++)).
Qed.

(** The row at a position comes from a candidate that splits the list there. *)
Lemma rows_from_lookup s q cs all n r :
  rows_from s q cs = Some all → all !! n = Some r →
  ∃ pre c post r2, cs = pre ++ c :: post ∧ sum_conversation r = c ∧
    rows_from s q post = Some r2 ∧ drop (Datatypes.S n) all = r2.
Proof.
  revert all n. induction cs as [|c cs IH]; intros all n Hall Hn.
  { unfold rows_from in Hall. simpl in Hall. by simplify_eq. }
  unfold rows_from in Hall. simpl in Hall. change (foldr _ _ ?x) with (rows_from s q x) in Hall.
  destruct (rows_from s q cs) as [rest|] eqn:Er; simpl in Hall; [|done].
  destruct (summary_row s q c) as [row|] eqn:Erow; simpl in Hall; [|done].
  destruct row as [r0|]; simplify_eq.
  - destruct n as [|n]; simpl in Hn; simplify_eq.
    + exists [], c, cs, rest. repeat split; [|done].
      unfold summary_row in Erow. destruct (list_messages_by_conversation _ _); simpl in Erow; [|done].
      injection Erow as Erow. by repeat case_match; simplify_eq/=.
    + destruct (IH _ _ eq_refl Hn) as (pre & c' & post & r2 & -> & ? & ? & ?).
      by exists (c :: pre), c', post, r2.
  - destruct (IH _ _ eq_refl Hn) as (pre & c' & post & r2 & -> & ? & ? & ?).
    by exists (c :: pre), c', post, r2.
Qed.
End listing.

(** ** Cursors *)

(** What the two crates promise: their text forms read back, are plain text, and neither
    contains what the cursor uses as delimiter or what trimming removes. *)
Class WireTextLaws `{WireText} : Prop := {
  rfc3339_roundtrip t : parse_rfc3339 (to_rfc3339_auto t) = Some t;
  rfc3339_plain t : is_str (to_rfc3339_auto t) ∧ 124%N ∉ to_rfc3339_auto t;
  b64_roundtrip bytes : b64_decode (b64_encode bytes) = Some bytes;
  b64_plain bytes : Forall (λ c, is_whitespace c = false) (b64_encode bytes);
}.

Lemma split_once_app c (a b : str) : c ∉ a → split_once c (a ++ c :: b) = Some (a, b).
Proof.
  induction a as [|d a IH]; intros Hc; simpl.
  - by rewrite N.eqb_refl.
  - apply not_elem_of_cons in Hc as [Hd Hc]. rewrite (proj2 (N.eqb_neq d c)) by done.
    by rewrite IH.
Qed.

Lemma trim_start_no_ws s : Forall (λ c, is_whitespace c = false) s →
  trim_start_matches is_whitespace s = s.
Proof. intros [|c s' Hc _]; [done|]. simpl. by rewrite Hc. Qed.

Lemma trim_no_ws s : Forall (λ c, is_whitespace c = false) s → trim s = s.
Proof.
  intros H. unfold trim, trim_matches, trim_end_matches.
  rewrite (trim_start_no_ws s H), trim_start_no_ws by by apply Forall_reverse.
  apply reverse_involutive.
Qed.

(** C38. A cursor the server minted reads back as the row it was minted for. *)
Theorem cursor_roundtrip `{WireTextLaws} key
    (Hid : key_id key ≠ []) (Hstr : is_str (key_id key)) :
  key_decode (key_encode key) = Some key.
Proof.
  unfold key_decode, key_encode. rewrite trim_no_ws by apply b64_plain.
  rewrite b64_roundtrip. simpl. rewrite from_utf8_utf8.
  - change (lit "|" ++ key_id key) with (124%N :: key_id key). simpl.
    rewrite split_once_app by apply rfc3339_plain. simpl.
    destruct (str_is_empty (key_id key)) eqn:E; [by apply str_is_empty_true in E|].
    rewrite rfc3339_roundtrip. simpl. by destruct key.
  - apply Forall_app. split; [apply rfc3339_plain|]. by constructor.
Qed.

(** ** Message pages *)

Lemma position_lookup (ids : list str) i x :
  NoDup ids → ids !! i = Some x → position (λ id, str_eqb id x) ids = Some i.
Proof.
  intros Hnd. revert i. induction Hnd as [|y ids Hy Hnd IH]; intros i Hi; [done|].
  destruct i as [|i]; simpl in *; simplify_eq.
  - by rewrite str_eqb_refl.
  - rewrite (proj2 (str_eqb_false y x)), (IH i Hi); [done|].
    intros ->. by apply Hy, list_elem_of_lookup_2 with i.
Qed.

(** Following the cursors, page after page: the pages, the first failure, or [None] when there
    are more than [fuel] of them. *)
Fixpoint read_pages {A : Type} `{!StorageAdapter A} (s : A) (cid : str) (limit : nat) (descending : bool) (fuel : nat)
    (cursor : option str) : option (result error (list (list Message))) :=
  match fuel with
  | O => None
  | S fuel =>
      match list_messages_by_conversation s (mk_MessageQuery cid limit cursor descending) with
      | Err e => Some (Err e)
      | Ok page =>
          match next_cursor page with
          | Some c =>
              match read_pages s cid limit descending fuel (Some c) with
              | Some (Ok pages) => Some (Ok (page_messages page :: pages))
              | other => other
              end
          | None => Some (Ok [page_messages page])
          end
      end
  end.

Definition history (t : Tables) (cid : str) (descending : bool) : list str :=
  let order := default [] (message_order t !! cid) in
  if descending then reverse order else order.

(** The cursor that stands for "the first [k] are read". *)
Definition cursor_at (ids : list str) (k : nat) : option str :=
  match k with O => None | S k => ids !! k end.

Lemma page_at t cid limit desc k :
  NoDup (history t cid desc) → 1 ≤ limit → k ≤ length (history t cid desc) →
  InMemory.list_messages_by_conversation t
    (mk_MessageQuery cid limit (cursor_at (history t cid desc) k) desc) =
  Ok (mk_MessagePage (omap (λ id, messages t !! id) (take limit (drop k (history t cid desc))))
        (if k + limit <? length (history t cid desc)
         then cursor_at (history t cid desc) (k + limit) else None)).
Proof.
  intros Hnd Hl Hk. unfold InMemory.list_messages_by_conversation. simpl.
  change (if desc then _ else _) with (history t cid desc).
  set (ids := history t cid desc) in *.
  assert (Hstart : match cursor_at ids k with
    | Some cursor => match position (λ id, str_eqb id cursor) ids with Some i => i + 1 | None => 0 end
    | None => 0 end = k).
  { destruct k as [|k]; simpl; [done|]. destruct (lookup_lt_is_Some_2 ids k ltac:(lia)) as [x Hx].
    rewrite Hx, (position_lookup ids k x Hnd Hx). lia. }
  rewrite Hstart. do 2 f_equal. rewrite length_take, length_drop.
  destruct (Nat.ltb_spec (k + limit) (length ids)).
  - rewrite (proj2 (Nat.ltb_lt _ _)) by lia. destruct limit as [|limit]; [lia|].
    rewrite Nat.add_succ_r. simpl.
    rewrite last_lookup, length_take, length_drop, lookup_take_lt by lia.
    rewrite lookup_drop. f_equal. lia.
  - rewrite (proj2 (Nat.ltb_ge _ _)) by lia. done.
Qed.

Lemma omap_shorter {A B} (f : A → option B) l : length (omap f l) ≤ length l.
Proof. induction l as [|x l IH]; csimpl; [done|]. destruct (f x); simpl; lia. Qed.

Lemma pages_from t cid limit desc fuel k :
  NoDup (history t cid desc) → 1 ≤ limit → k ≤ length (history t cid desc) →
  length (history t cid desc) - k < fuel →
  ∃ pages, read_pages t cid limit desc fuel (cursor_at (history t cid desc) k) = Some (Ok pages) ∧
    concat pages = omap (λ id, messages t !! id) (drop k (history t cid desc)) ∧
    length pages ≤ Nat.max 1 (length (history t cid desc) - k) ∧
    Forall (λ page, length page ≤ limit) pages.
Proof.
  intros Hnd Hl. revert k. induction fuel as [|fuel IH]; intros k Hk Hf; [lia|].
  cbn [read_pages list_messages_by_conversation in_memory_adapter]. rewrite page_at by done.
  cbn [page_messages next_cursor]. set (ids := history t cid desc) in *.
  assert (length (omap (λ id, messages t !! id) (take limit (drop k ids))) ≤ limit) as Hlen.
  { etransitivity; [apply omap_shorter|]. rewrite length_take. lia. }
  destruct (Nat.ltb_spec (k + limit) (length ids)) as [Hlt|Hge].
  - assert (Hc : is_Some (cursor_at ids (k + limit))).
    { destruct limit as [|limit]; [lia|]. rewrite Nat.add_succ_r. simpl.
      apply lookup_lt_is_Some_2. lia. }
    destruct (cursor_at ids (k + limit)) as [c|] eqn:Ec; [|by destruct Hc].
    destruct (IH (k + limit)) as (pages & E & Hall & Hn & Hsmall); [lia..|]. rewrite <- Ec, E.
    eexists. split; [reflexivity|]. split_and!.
    + simpl. rewrite Hall, <- omap_app. f_equal. rewrite <- drop_drop. apply take_drop.
    + simpl. lia.
    + by constructor.
  - eexists. split; [reflexivity|]. split_and!.
    + simpl. rewrite app_nil_r, take_ge; [done|]. rewrite length_drop. lia.
    + simpl. lia.
    + by repeat constructor.
Qed.

(** ** Properties *)

(** C11. Reading a conversation page by page loses and repeats nothing, and ends: following
    [next_cursor] from the first page, at any page size of one or more, in either direction,
    there is a last page, after at most as many pages as messages (or the one of an empty
    conversation), none longer than asked; together they are exactly the messages in append
    order (or its reverse). *)
Theorem message_paging_complete t cid limit desc fuel
    (Hnd : NoDup (default [] (message_order t !! cid))) (Hl : 1 ≤ limit)
    (Hfuel : length (default [] (message_order t !! cid)) < fuel) :
  ∃ pages, read_pages t cid limit desc fuel None = Some (Ok pages) ∧
    concat pages = omap (λ id, messages t !! id) (history t cid desc) ∧
    length pages ≤ Nat.max 1 (length (default [] (message_order t !! cid))) ∧
    Forall (λ page, length page ≤ limit) pages.
Proof.
  assert (NoDup (history t cid desc) ∧
    length (history t cid desc) = length (default [] (message_order t !! cid))) as [Hn Hlen].
  { unfold history. destruct desc; [|done]. by rewrite reverse_Permutation. }
  rewrite <- Hlen in *. rewrite <- (Nat.sub_0_r (length (history t cid desc))) in Hfuel |- *.
  apply (pages_from t cid limit desc _ 0); [done|done|lia|done].
Qed.

Section paging.
Context {S : Type} `{!StorageAdapter S, !StorageLaws S, !Lowercase}.

(** The per-user scope: the owned listing returns, for a well-formed backend, exactly
    those conversations of the organization that carry a user participant with the
    requester's e-mail; a blank e-mail owns nothing. *)
Theorem owned_listing_scoped (s : S) org email owned
    (Hwf : store_wf s) (Hlist : list_conversations_by_org_and_user s org email = Ok owned) :
  NoDup (conv_id <$> owned) ∧
  (∀ c, c ∈ owned → conv_organization_id c = org ∧
     ∃ p ps, list_participants_by_conversation s (conv_id c) = Ok ps ∧ p ∈ ps ∧
       part_conversation_id p = conv_id c ∧ participant_type p = User ∧
       is_some_and (λ e, eq_ignore_ascii_case (trim e) (trim email)) (part_email p) = true) ∧
  (trim email = [] → owned = []).
Proof.
  unfold list_conversations_by_org_and_user in Hlist.
  destruct (list_conversations_by_org s org) as [cs|] eqn:Ecs; simpl in Hlist; [|done].
  destruct (list_by_org_scoped s org cs Hwf Ecs) as [Horg Hnd].
  assert (Hown : ∀ p, is_owner p email = true → trim email ≠ [] ∧ participant_type p = User ∧
    is_some_and (λ e, eq_ignore_ascii_case (trim e) (trim email)) (part_email p) = true).
  { intros p. unfold is_owner. case_match eqn:E; [done|]. intros Hp. bool_props.
    split; [by apply str_is_empty_false|done]. }
  split; [|split].
  - eapply sublist_NoDup; [exact Hnd|]. by eapply sublist_fmap_mono, filter_owned_ids.
  - intros c Hc. apply (filter_owned_spec _ _ _ _ Hlist) in Hc as (Hin & ps & Hps & Ha).
    rewrite Forall_forall in Horg. split; [by apply Horg|].
    apply any_true in Ha as (p & Hp & Ho). destruct (Hown p Ho) as (_ & Ht & He).
    exists p, ps. repeat split; try done.
    pose proof (list_participants_scoped s (conv_id c) ps Hwf Hps) as Hf.
    rewrite Forall_forall in Hf. by apply Hf.
  - intros Hb. destruct owned as [|c owned]; [done|]. exfalso.
    destruct (proj1 (filter_owned_spec _ _ _ _ Hlist c)) as (_ & ps & _ & Ha); [left|].
    apply any_true in Ha as (p & _ & Ho). by destruct (Hown p Ho).
Qed.

(** Keyset paging of the sidebar: let [full] be the whole listing for a search (a page
    whose limit no owned set exceeds); then the page of any size that starts after the
    [n]-th row's cursor is the next rows of [full], and the page without cursor is its
    first rows: pages neither skip nor repeat a conversation. *)
Theorem keyset_paging (s : S) org email search big full limit
    (Hwf : store_wf s)
    (Hbig : ∀ owned, list_conversations_by_org_and_user s org email = Ok owned → length owned ≤ big)
    (Hfull : list_owned_conversation_summaries_page s org email
               (mk_ConversationSummaryQuery big None search) = Ok full) :
  list_owned_conversation_summaries_page s org email
    (mk_ConversationSummaryQuery limit None search) = Ok (take limit full) ∧
  ∀ n r, full !! n = Some r →
    list_owned_conversation_summaries_page s org email
      (mk_ConversationSummaryQuery limit (Some (key_of (sum_conversation r))) search)
      = Ok (take limit (drop (Datatypes.S n) full)).
Proof.
  unfold list_owned_conversation_summaries_page in *.
  destruct (list_conversations_by_org_and_user s org email) as [owned|] eqn:Eo; simpl in *; [|done].
  assert (Hids : NoDup (conv_id <$> sort_conversations_newest_first owned)).
  { unfold sort_conversations_newest_first. rewrite sort_by_perm.
    unfold list_conversations_by_org_and_user in Eo.
    destruct (list_conversations_by_org s org) as [cs|] eqn:Ecs; simpl in Eo; [|done].
    eapply sublist_NoDup; [by apply (list_by_org_scoped s org cs)|].
    by eapply sublist_fmap_mono, filter_owned_ids. }
  assert (Hsorted : sorted newest_first (sort_conversations_newest_first owned)).
  { apply sort_by_sorted; [apply newest_first_total|apply newest_first_trans]. }
  assert (Hlen : length (sort_conversations_newest_first owned) ≤ big).
  { unfold sort_conversations_newest_first. rewrite sort_by_perm. by apply Hbig. }
  set (cs := sort_conversations_newest_first owned) in *.
  apply summary_rows_all in Hfull as (all & Hall & ->); [|done|simpl; lia].
  simpl. split.
  - rewrite (summary_rows_spec s _ [] cs all); simpl; [by rewrite Nat.sub_0_r| |lia].
    replace (List.filter _ cs) with cs; [done|].
    clear. induction cs as [|c cs IH]; simpl; [done|]. f_equal. exact IH.
  - intros n r Hr. destruct (rows_from_lookup s _ cs all n r Hall Hr)
      as (pre & c & post & r2 & Hcs & Hrc & Hr2 & Hd).
    rewrite Hd, (summary_rows_spec s _ [] cs r2); simpl; [by rewrite Nat.sub_0_r| |lia].
    rewrite Hrc. change (admits_position _) with
      (λ x, precedes (key_of c) (conv_updated_at x) (conv_id x)).
    rewrite Hcs in Hids, Hsorted |- *. rewrite filter_after by done. exact Hr2.
Qed.
End paging.

(** Creating a conversation is idempotent per organization and key: creating one again
    under the same pair, whatever its id and content, returns the stored one and changes
    nothing, so that the pair names at most one conversation. *)
Theorem create_conversation_idempotent t c c'
    (Hwf : tables_wf t) (Hnew : conversations t !! conv_id c = None)
    (Horg : conv_organization_id c' = conv_organization_id c)
    (Hkey : idempotency_key c' = idempotency_key c) :
  let '(r, t') := InMemory.create_conversation c t in
  InMemory.create_conversation c' t' = (r, t') ∧ tables_wf t'.
Proof.
  pose proof (create_conversation_wf c t Hwf Hnew) as Hwf'.
  destruct (InMemory.create_conversation c t) as [r t'] eqn:E. split; [|done]. simpl in Hwf'.
  assert (Hst : ∃ e k, r = Ok e ∧ conversations t' !! k = Some e ∧
    conv_organization_id e = conv_organization_id c ∧ idempotency_key e = idempotency_key c).
  { unfold InMemory.create_conversation in E. case_match eqn:Ef; simplify_eq/=.
    - apply find_first_Some in Ef as [[k Hk]%values_elem Hp]. bool_props.
      eexists _, k. rewrite <- !str_eqb_true. done.
    - exists c, (conv_id c). by rewrite lookup_insert_eq. }
  destruct Hst as (e & k & -> & Hk & Ho & Hi). unfold InMemory.create_conversation.
  rewrite Horg, Hkey. case_match eqn:Ef.
  - apply find_first_Some in Ef as [[k' Hk']%values_elem Hp]. bool_props.
    rewrite !str_eqb_true in *.
    assert (k' = k) as -> by (eapply (idempotency_unique _ Hwf'); [done|done|congruence..]).
    congruence.
  - rewrite find_first_None in Ef. specialize (Ef e (proj2 (values_elem _ _) (ex_intro _ k Hk))).
    rewrite Ho, Hi, !str_eqb_refl in Ef. done.
Qed.

(** ** A concrete backend *)

Module Demo.
#[export] Instance demo_lowercase : Lowercase := {| to_lowercase := to_ascii_lowercase |}.

Definition conv (i k : string) (at_ : Z) : Conversation :=
  mk_Conversation (lit i) Web (lit "Session x") (lit "acme") (lit k) None None at_ at_.
Definition user (i c e : string) : Participant :=
  mk_Participant (lit i) (lit c) (lit "acme") User None None None None (lit "U") (Some (lit e))
    None None None 0%Z 0%Z.
Definition msg (i c txt : string) : Message :=
  mk_Message (lit i) None None (Some (lit c)) Inbound (from_text (lit txt)) None None None None 0%Z None.

Definition run {A} (ops : list (Tables → result error A * Tables)) (t : Tables) : Tables :=
  foldl (λ t op, (op t).2) t ops.
Definition t1 : Tables :=
  run (InMemory.create_conversation <$> [conv "c1" "k1" 1; conv "c2" "k2" 2; conv "c3" "k3" 3])
    tables_default.
Definition t2 : Tables :=
  run (InMemory.add_participant <$> [user "p1" "c1" "Ann@x.io"; user "p2" "c2" "ann@x.io";
                                     user "p3" "c3" "bob@x.io"]) t1.
Definition t0 : Tables :=
  run (InMemory.append_message <$> [msg "m1" "c1" "hello"; msg "m2" "c2" "there"; msg "m3" "c2" "x";
                                    msg "m4" "c3" "bob"]) t2.

Lemma run_wf {A B} (f : B → Tables → result error A * Tables) bs t :
  (∀ b t, tables_wf t → tables_wf (f b t).2) → tables_wf t → tables_wf (run (f <$> bs) t).
Proof. intros Hf. revert t. induction bs as [|b bs IH]; intros t Ht; [done|]. by apply IH, Hf. Qed.

Lemma t0_wf : tables_wf t0.
Proof.
  apply run_wf; [apply append_message_wf|]. apply run_wf; [apply add_participant_wf|].
  refine (create_conversation_wf (conv "c3" "k3" 3) _ (create_conversation_wf (conv "c2" "k2" 2) _
    (create_conversation_wf (conv "c1" "k1" 1) _ tables_default_wf _) _) _); by vm_compute.
Qed.
End Demo.
Import Demo.

(** A sign and as many digits as seconds; bytes shifted out of the whitespace range. *)
#[export] Instance demo_wire : WireText := {|
  to_rfc3339_auto t := (if t <? 0 then 45%N else 43%N)%Z :: repeat 49%N (Z.abs_nat t);
  to_rfc3339 t := repeat 49%N (Z.abs_nat t); serialize_time t := repeat 49%N (Z.abs_nat t);
  parse_rfc3339 s := match s with
                     | c :: r => Some (if (c =? 45)%N then - Z.of_nat (length r) else Z.of_nat (length r))%Z
                     | [] => None
                     end;
  b64_encode bytes := (λ b, b + 65536)%N <$> bytes;
  b64_decode s := Some ((λ c, c - 65536)%N <$> s) |}.

#[export] Instance demo_wire_laws : WireTextLaws.
Proof.
  split.
  - intros t. simpl. rewrite repeat_length. destruct (Z.ltb_spec t 0); simpl; f_equal; lia.
  - intros t. simpl. split.
    + constructor; [by case_match|]. induction (Z.abs_nat t); by constructor.
    + intros [H|H]%elem_of_cons; [by case_match|].
      induction (Z.abs_nat t); [by apply elem_of_nil in H|].
      apply elem_of_cons in H as [H|H]; [done|auto].
  - intros bytes. simpl. f_equal. rewrite <- list_fmap_compose. rewrite <- (list_fmap_id bytes) at 2.
    apply list_fmap_ext. intros i b _. simpl. lia.
  - intros bytes. simpl. apply Forall_fmap, Forall_true. intros b. simpl.
    unfold is_whitespace. repeat (apply orb_false_intro);
      first [apply N.eqb_neq; lia | apply andb_false_iff; right; apply N.leb_gt; lia].
Qed.

Lemma cursor_roundtrip_witness :
  key_decode (key_encode (mk_ConversationKey 5%Z (lit "c1"))) = Some (mk_ConversationKey 5%Z (lit "c1")).
Proof. apply cursor_roundtrip; [done|]. by repeat constructor. Defined.

Lemma message_paging_complete_witness :
  ∃ pages, read_pages t0 (lit "c2") 1 true 9 None = Some (Ok pages) ∧
    msg_id <$> concat pages = [lit "m3"; lit "m2"] ∧ length pages ≤ 2.
Proof.
  destruct (message_paging_complete t0 (lit "c2") 1 true 9) as (pages & E & Hall & Hn & _).
  - vm_compute. repeat (constructor; [set_solver|]). constructor.
  - lia.
  - apply Nat.ltb_lt. by vm_compute.
  - exists pages. split; [exact E|]. split; [|exact Hn]. rewrite Hall. by vm_compute.
Defined.

Lemma owned_listing_scoped_witness :
  let owned := [conv "c2" "k2" 2; conv "c1" "k1" 1] in
  list_conversations_by_org_and_user t0 (lit "acme") (lit "ANN@x.io") = Ok owned ∧
  NoDup (conv_id <$> owned).
Proof.
  intros owned.
  assert (E : list_conversations_by_org_and_user t0 (lit "acme") (lit "ANN@x.io") = Ok owned)
    by by vm_compute.
  split; [exact E|].
  exact (proj1 (owned_listing_scoped t0 (lit "acme") (lit "ANN@x.io") owned t0_wf E)).
Defined.

Lemma keyset_paging_witness :
  list_owned_conversation_summaries_page t0 (lit "acme") (lit "ann@x.io")
    (mk_ConversationSummaryQuery 5 (Some (key_of (conv "c2" "k2" 2))) None)
  = Ok [mk_ConversationSummary (conv "c1" "k1" 1) (Some (lit "hello")) 1].
Proof.
  refine (proj2 (keyset_paging t0 (lit "acme") (lit "ann@x.io") None 5
    [mk_ConversationSummary (conv "c2" "k2" 2) (Some (lit "there")) 2;
     mk_ConversationSummary (conv "c1" "k1" 1) (Some (lit "hello")) 1] 5 t0_wf _ _)
    0 (mk_ConversationSummary (conv "c2" "k2" 2) (Some (lit "there")) 2) eq_refl).
  - intros owned Ho. vm_compute in Ho. simplify_eq. simpl. lia.
  - by vm_compute.
Defined.

Lemma create_conversation_idempotent_witness :
  let '(r, t') := InMemory.create_conversation (conv "c9" "k9" 9) t0 in
  InMemory.create_conversation (conv "c10" "k9" 10) t' = (r, t') ∧ tables_wf t'.
Proof.
  apply (create_conversation_idempotent t0 (conv "c9" "k9" 9) (conv "c10" "k9" 10) t0_wf).
  - by vm_compute.
  - done.
  - done.
Defined.
