(* ===== verification/DynamoKeys.v ===== *)
(** * DynamoKeys: the keys of the single DynamoDB table ([adapters/dynamodb/src/keys.rs])

    Every entity lives under a partition and a sort key built from its ids.  The lemmas say
    what the queries rely on: numbers padded to a fixed width sort as numbers, a key names
    its entity, and the prefixes keep the entities of a partition apart. *)

From Stdlib Require Import Sorting.Sorted.
From stdpp Require Import prelude gmap strings list sorting.
From S2P Require Import Prelude Text.

Definition SEQ_WIDTH : nat := 20.

(** [attr]: the attributes of an item. *)
Definition PK : str := lit "pk".
Definition SK : str := lit "sk".
Definition GSI1PK : str := lit "gsi1pk".
Definition GSI1SK : str := lit "gsi1sk".
Definition BODY : str := lit "body".
Definition ENTITY : str := lit "entity".
Definition SEQ : str := lit "seq".

(** [{n:0w$}] for a number of at most [w] digits. *)
Fixpoint zero_padded (w : nat) (n : N) : str :=
  match w with
  | O => []
  | S w => zero_padded w (n / 10) ++ [48 + n mod 10]%N
  end.

Definition pad (n : N) : str := zero_padded SEQ_WIDTH n.

Definition conv_pk (org : str) : str := lit "ORG#" ++ org.
Definition conv_sk (conv_id : str) : str := lit "CONV#" ++ conv_id.
Definition conv_idem_sk (idempotency_key : str) : str := lit "IDEM#" ++ idempotency_key.
Definition conv_id_gsi1pk (conv_id : str) : str := lit "CONV#" ++ conv_id.

Definition part_pk (conv_id : str) : str := lit "CONV#" ++ conv_id.
Definition part_sk (part_id : str) : str := lit "PART#" ++ part_id.
Definition PART_SK_PREFIX : str := lit "PART#".
Definition part_external_gsi1pk (conv_id external_id : str) : str :=
  lit "EXTERNAL#" ++ conv_id ++ lit "#" ++ external_id.

Definition msg_pk (conv_id : str) : str := lit "CONV#" ++ conv_id.
Definition msg_sk (seq : N) (msg_id : str) : str := lit "MSG#" ++ pad seq ++ lit "#" ++ msg_id.
Definition MSG_SK_PREFIX : str := lit "MSG#".
Definition msg_id_gsi1pk (msg_id : str) : str := lit "MSG#" ++ msg_id.

Definition sess_pk (conv_id : str) : str := lit "CONV#" ++ conv_id.
Definition sess_sk (session_id : str) : str := lit "SESS#" ++ session_id.
Definition SESS_SK_PREFIX : str := lit "SESS#".
Definition sess_gsi1pk (session_id : str) : str := lit "SESSION#" ++ session_id.

Definition seq_counter_pk (conv_id : str) : str := lit "CONV#" ++ conv_id.
Definition SEQ_COUNTER_SK : str := lit "SEQ#".

Definition ckpt_pk (agent_id : str) : str := lit "CKPT#" ++ agent_id.
Definition ckpt_sk (iteration : N) (checkpoint_id : str) : str := pad iteration ++ lit "#" ++ checkpoint_id.
Definition ckpt_id_gsi1pk (checkpoint_id : str) : str := lit "CKPTID#" ++ checkpoint_id.

Definition connector_pk (org : str) : str := lit "ORG#" ++ org.
Definition connector_sk (id : str) : str := lit "CONNECTOR#" ++ id.
Definition CONNECTOR_SK_PREFIX : str := lit "CONNECTOR#".

Definition settings_pk (org : str) : str := lit "ORG#" ++ org.
Definition SETTINGS_SK : str := lit "SETTINGS#".

Definition i64_min : Z := (- 2 ^ 63)%Z.
Definition indexing_pk (connector_name : str) : str := lit "IXCONN#" ++ connector_name.
(** [(started_at_millis as i128 - i64::MIN as i128) as u128]. *)
Definition indexing_sk (started_at_millis : Z) (run_id : str) : str :=
  zero_padded SEQ_WIDTH (Z.to_N (started_at_millis - i64_min)) ++ lit "#" ++ run_id.

Definition knowledge_pk (org : str) : str := lit "KNOW#" ++ org.
Definition knowledge_sk (doc_id : str) : str := lit "DOC#" ++ doc_id.
Definition KNOWLEDGE_SK_PREFIX : str := lit "DOC#".

(** ** Lemmas: the lexicographic order *)

Definition str_lt (a b : str) : Prop := str_ltb a b = true.
#[export] Instance str_lt_trans : Transitive str_lt := str_ltb_trans.

Lemma str_compare_app a b x y :
  length a = length b →
  str_compare (a ++ x) (b ++ y) = match str_compare a b with Eq => str_compare x y | c => c end.
Proof.
  revert b. induction a as [|c a IH]; intros [|d b]; intros Hl; simplify_eq/=; [done|].
  destruct (c ?= d)%N; [by apply IH|done|done].
Qed.

Lemma str_lt_app a b x y : length a = length b → str_lt a b → str_lt (a ++ x) (b ++ y).
Proof. unfold str_lt, str_ltb. intros Hl. rewrite str_compare_app by done. by destruct (str_compare a b). Qed.

Lemma str_compare_prefix p x y : str_compare (p ++ x) (p ++ y) = str_compare x y.
Proof. rewrite str_compare_app by done. by rewrite (proj2 (str_compare_eq p p)). Qed.

Lemma str_lt_prefix p x y : str_lt (p ++ x) (p ++ y) ↔ str_lt x y.
Proof. unfold str_lt, str_ltb. by rewrite str_compare_prefix. Qed.

(** The successor of a string: nothing lies between [s] and [s\0]. *)
Lemma str_succ s x : str_ltb x (s ++ [0%N]) = false ↔ str_lt s x.
Proof.
  unfold str_lt, str_ltb. revert x. induction s as [|c s IH]; intros [|d x]; simpl; try done.
  - destruct (N.compare_spec d 0); [|lia|done]. by destruct x.
  - rewrite (N.compare_antisym d c). destruct (N.compare_spec d c); simpl; [apply IH|done|done].
Qed.

(** ** Lemmas: padded numbers *)

Lemma zero_padded_length w n : length (zero_padded w n) = w.
Proof. revert n. induction w as [|w IH]; intros n; simpl; [done|]. rewrite length_app, IH. simpl. lia. Qed.

Lemma pad_length n : length (pad n) = SEQ_WIDTH.
Proof. apply zero_padded_length. Qed.

(** Padded numbers sort as numbers. *)
Lemma zero_padded_compare w a b :
  (a < 10 ^ N.of_nat w)%N → (b < 10 ^ N.of_nat w)%N →
  str_compare (zero_padded w a) (zero_padded w b) = (a ?= b)%N.
Proof.
  revert a b. induction w as [|w IH]; intros a b Ha Hb; simpl.
  { change (10 ^ N.of_nat 0)%N with 1%N in *. by assert (a = 0 ∧ b = 0)%N as [-> ->] by lia. }
  rewrite str_compare_app by by rewrite !zero_padded_length.
  rewrite Nat2N.inj_succ, N.pow_succ_r' in Ha, Hb. rewrite IH by (apply N.Div0.div_lt_upper_bound; lia).
  rewrite (N.Div0.div_mod a 10), (N.Div0.div_mod b 10) at 3.
  pose proof (N.mod_lt a 10 ltac:(done)) as Hra. pose proof (N.mod_lt b 10 ltac:(done)) as Hrb. cbn [str_compare].
  revert Hra Hrb. generalize (a / 10)%N, (a mod 10)%N, (b / 10)%N, (b mod 10)%N. intros qa ra qb rb Hra Hrb.
  destruct (N.compare_spec qa qb), (N.compare_spec (48 + ra) (48 + rb)), (N.compare_spec (10 * qa + ra) (10 * qb + rb));
    first [done|lia].
Qed.

Definition u64_fits (n : N) : Prop := (n < 2 ^ 64)%N.

Lemma u64_padded n : u64_fits n → (n < 10 ^ N.of_nat SEQ_WIDTH)%N.
Proof. unfold u64_fits. intros Hn. transitivity (2 ^ 64)%N; [done|by vm_compute]. Qed.

Lemma pad_lt a b x y : u64_fits a → u64_fits b → (a < b)%N → str_lt (pad a ++ x) (pad b ++ y).
Proof.
  intros Ha Hb Hab. apply str_lt_app; [by rewrite !pad_length|]. unfold str_lt, str_ltb, pad.
  rewrite zero_padded_compare by by apply u64_padded. by rewrite (proj2 (N.compare_lt_iff a b)).
Qed.

Lemma pad_inj a b : u64_fits a → u64_fits b → pad a = pad b → a = b.
Proof.
  intros Ha Hb Hp. apply N.compare_eq_iff. rewrite <- (zero_padded_compare SEQ_WIDTH a b) by by apply u64_padded.
  by apply str_compare_eq.
Qed.

(** ** Lemmas: message keys *)

Lemma msg_sk_lt a b i j : u64_fits a → u64_fits b → (a < b)%N → str_lt (msg_sk a i) (msg_sk b j).
Proof. intros Ha Hb Hab. unfold msg_sk. apply str_lt_prefix. by apply pad_lt. Qed.

Lemma msg_sk_inj a b i j : u64_fits a → u64_fits b → msg_sk a i = msg_sk b j → a = b ∧ i = j.
Proof.
  intros Ha Hb Hs. unfold msg_sk in Hs. apply app_inv_head in Hs.
  apply app_inj_1 in Hs as [Hp Hr]; [|by rewrite !pad_length]. split; [by apply pad_inj|]. by injection Hr.
Qed.

(** What sorts from [p c] to [p (c+1)] begins with [p c], the upper bound itself apart. *)
Lemma prefix_band p c s :
  str_ltb s (p ++ [c]) = false → str_ltb (p ++ [c + 1]%N) s = false → s ≠ p ++ [c + 1]%N →
  starts_with (p ++ [c]) s = true.
Proof.
  unfold str_ltb. revert s. induction p as [|d p IH]; intros [|e s]; simpl; try done.
  - destruct (N.compare_spec e c) as [->| |]; [rewrite N.eqb_refl; by destruct s|done|].
    intros _. destruct (N.compare_spec (c + 1) e) as [<-| |]; [|done|lia]. by destruct s.
  - rewrite (N.compare_antisym e d). destruct (N.compare_spec e d) as [->| |]; simpl; [|done..].
    rewrite N.eqb_refl. intros H1 H2 H3. apply IH; [done..|]. by intros ->.
Qed.

Lemma band_prefix p c s :
  starts_with (p ++ [c]) s = true → str_ltb s (p ++ [c]) = false ∧ str_ltb (p ++ [c + 1]%N) s = false.
Proof.
  intros [k ->]%starts_with_spec. unfold str_ltb. rewrite <- app_assoc, !str_compare_prefix. simpl.
  rewrite N.compare_refl. split; [by destruct k|]. destruct (N.compare_spec (c + 1) c); [lia..|done].
Qed.

(** Checkpoints sort by iteration, indexing runs by start. *)
Lemma ckpt_sk_lt a b i j : u64_fits a → u64_fits b → (a < b)%N → str_lt (ckpt_sk a i) (ckpt_sk b j).
Proof. intros. by apply pad_lt. Qed.

Lemma indexing_sk_lt a b i j :
  (i64_min <= a)%Z → (a < b)%Z → (b < 2 ^ 63)%Z → str_lt (indexing_sk a i) (indexing_sk b j).
Proof.
  intros Ha Hab Hb. unfold indexing_sk. change (zero_padded SEQ_WIDTH) with pad.
  unfold i64_min in *. apply pad_lt; unfold u64_fits; lia.
Qed.

(** ** A key names its entity *)

#[export] Instance conv_pk_inj : Inj (=) (=) conv_pk.
Proof. intros x y. apply app_inv_head. Qed.
#[export] Instance conv_sk_inj : Inj (=) (=) conv_sk.
Proof. intros x y. apply app_inv_head. Qed.
#[export] Instance conv_id_gsi1pk_inj : Inj (=) (=) conv_id_gsi1pk.
Proof. intros x y. apply app_inv_head. Qed.
#[export] Instance conv_idem_sk_inj : Inj (=) (=) conv_idem_sk.
Proof. intros x y. apply app_inv_head. Qed.
#[export] Instance part_pk_inj : Inj (=) (=) part_pk.
Proof. intros x y. apply app_inv_head. Qed.
#[export] Instance part_sk_inj : Inj (=) (=) part_sk.
Proof. intros x y. apply app_inv_head. Qed.
#[export] Instance msg_pk_inj : Inj (=) (=) msg_pk.
Proof. intros x y. apply app_inv_head. Qed.
#[export] Instance msg_id_gsi1pk_inj : Inj (=) (=) msg_id_gsi1pk.
Proof. intros x y. apply app_inv_head. Qed.
#[export] Instance sess_pk_inj : Inj (=) (=) sess_pk.
Proof. intros x y. apply app_inv_head. Qed.
#[export] Instance sess_gsi1pk_inj : Inj (=) (=) sess_gsi1pk.
Proof. intros x y. apply app_inv_head. Qed.

(** The external-id key names its pair only if the conversation ids hold no [#]. *)
Lemma external_key_inj c1 e1 c2 e2 :
  (35%N ∉ c1) → (35%N ∉ c2) →
  part_external_gsi1pk c1 e1 = part_external_gsi1pk c2 e2 → c1 = c2 ∧ e1 = e2.
Proof.
  unfold part_external_gsi1pk. intros H1 H2 Hk%app_inv_head. change (lit "#") with [35%N] in Hk. revert c2 H2 Hk.
  induction c1 as [|a c1 IH]; intros [|b c2] H2 Hk; simpl in Hk.
  - by injection Hk.
  - injection Hk as <- _. exfalso. apply H2. left.
  - injection Hk as -> _. exfalso. apply H1. left.
  - injection Hk as <- Hk. rewrite not_elem_of_cons in H1, H2.
    destruct (IH (proj2 H1) c2 (proj2 H2) Hk) as [-> ->]. done.
Qed.
