(* ===== verification/Dynamo.v ===== *)
(** * Dynamo: the DynamoDB storage adapter ([adapters/dynamodb/src/lib.rs])

    A second implementation of [StorageAdapter], over one DynamoDB table.  The service is an
    argument: [DynamoDb] are the requests the adapter sends, [DynamoLaws] what the service
    documents of them: a write stores its item whole or fails, a query answers in key order
    up to its limit, a read may lag behind the writes, and a response may stop early (at
    1 MB) unless the state is [settled].  [serde] is an argument too: text that reads back
    under the same keys. *)

From Stdlib Require Import Sorting.Sorted.
From stdpp Require Import prelude gmap strings list sorting.
From S2P Require Import Prelude Text Json Storage DynamoKeys.

(** ** The service *)

(** [AttributeValue::S] and [::N]; a number is sent and returned as its numeral. *)
Inductive AttributeValue := AttrS (s : str) | AttrN (n : Z).
Definition Item : Type := list (str * AttributeValue).

Definition as_s (v : AttributeValue) : option str := match v with AttrS s => Some s | AttrN _ => None end.
Definition as_n (v : AttributeValue) : option Z := match v with AttrN n => Some n | AttrS _ => None end.
Definition item_s (i : Item) (name : str) : option str := assoc name i ≫= as_s.

Inductive SortKey := AnySort | BeginsWith (prefix : str) | Between (lo hi : str).
Record Query := mk_Query {
  index_name : bool;          (** [true] for [gsi1] *)
  partition : str;
  sort_key : SortKey;
  scan_index_forward : bool;
  q_max : option N;
}.

Inductive PutError := ConditionalCheckFailed | Other (e : str).

Class DynamoDb (T : Type) := {
  put_item : Item → T → result str unit * T;
  put_item_if_absent : Item → T → result PutError unit * T;  (** [attribute_not_exists(sk)] *)
  get_item : T → str → str → result str (option Item);
  query : T → Query → result str (list Item);
  scan_sk : T → str → result str (list Item);                (** filter [sk = :sk] *)
  add_one : str → str → T → result str Item * T;             (** [ADD seq :1], [UPDATED_NEW] *)
}.

(** [serde_json] on a record of the domain. *)
Class Serde (A : Type) := { to_string : A → str; from_str : str → result error A }.

(** ** The adapter *)

Module Dynamo.
Section adapter.
Context {T : Type} `{!DynamoDb T, !Serde Conversation, !Serde Participant, !Serde Message, !Serde Session}.
Implicit Types t : T.

Definition sent {A} (what : string) (r : result str A) : result error A :=
  map_err (λ e, [lit what ++ lit ": " ++ e]) r.

Definition body_to {A} `{!Serde A} (i : Item) : result error A :=
  body ← ok_or (item_s i BODY) [lit "item missing '" ++ BODY ++ lit "' attribute"];
  map_err (λ e, lit "decoding stored body" :: e) (from_str body).

(** The first item of a response, read. *)
Definition first_body {A} `{!Serde A} (items : list Item) : result error (option A) :=
  match items with i :: _ => Some <$> body_to i | [] => Ok None end.

Definition claim_item (c : Conversation) : Item :=
  [(PK, AttrS (conv_pk (conv_organization_id c))); (SK, AttrS (conv_idem_sk (idempotency_key c)));
   (ENTITY, AttrS (lit "conversation-idem")); (lit "idempotencyKey", AttrS (idempotency_key c));
   (BODY, AttrS (to_string c))].

Definition conversation_item (c : Conversation) : Item :=
  [(PK, AttrS (conv_pk (conv_organization_id c))); (SK, AttrS (conv_sk (conv_id c)));
   (GSI1PK, AttrS (conv_id_gsi1pk (conv_id c))); (GSI1SK, AttrS (conv_sk (conv_id c)));
   (ENTITY, AttrS (lit "conversation")); (lit "idempotencyKey", AttrS (idempotency_key c));
   (BODY, AttrS (to_string c))].

Definition resolve_conversation_by_idempotency t (org key : str) : result error (option Conversation) :=
  o ← sent "dynamodb resolve_conversation_by_idempotency" (get_item t (conv_pk org) (conv_idem_sk key));
  match o with Some i => Some <$> body_to i | None => Ok None end.

Definition create_conversation (c : Conversation) t : result error Conversation * T :=
  match put_item_if_absent (claim_item c) t with
  | (Err ConditionalCheckFailed, t) =>
      (o ← resolve_conversation_by_idempotency t (conv_organization_id c) (idempotency_key c);
       ok_or o [lit "idempotency conflict but no existing conversation found"], t)
  | (Err (Other e), t) => (Err [lit "dynamodb put idempotency claim: " ++ e], t)
  | (Ok _, t) =>
      let '(r, t) := put_item (conversation_item c) t in
      ((λ _, c) <$> sent "dynamodb put conversation" r, t)
  end.

(** A lookup by the partition of [gsi1], one item. *)
Definition by_gsi1 (gsi1pk : str) : Query := mk_Query true gsi1pk AnySort true (Some 1%N).
(** A listing of a partition under a prefix. *)
Definition by_prefix (pk prefix : str) : Query := mk_Query false pk (BeginsWith prefix) true None.

Definition get_conversation t (id : str) : result error (option Conversation) :=
  items ← sent "dynamodb get_conversation" (query t (by_gsi1 (conv_id_gsi1pk id)));
  first_body items.

Definition list_conversations_by_org t (org : str) : result error (list Conversation) :=
  items ← sent "dynamodb list_conversations_by_org" (query t (by_prefix (conv_pk org) (lit "CONV#")));
  cs ← mapM body_to items;
  mret (sort_by (λ a b, (conv_created_at b <=? conv_created_at a)%Z) cs).

Definition update_conversation (id : str) (u : ConversationUpdate) (now : Timestamp) t :
    result error Conversation * T :=
  match o ← get_conversation t id; ok_or o (not_found (lit "conversation") id) with
  | Err e => (Err e, t)
  | Ok c =>
      let c := InMemory.apply_conversation_update u now c in
      let '(r, t) := put_item (conversation_item c) t in
      match sent "dynamodb update_conversation" r with
      | Err e => (Err e, t)
      | Ok _ =>
          let '(r, t) := put_item (claim_item c) t in
          ((λ _, c) <$> sent "dynamodb update_conversation idem sync" r, t)
      end
  end.

Definition participant_item (p : Participant) : Item :=
  [(PK, AttrS (part_pk (part_conversation_id p))); (SK, AttrS (part_sk (part_id p)));
   (ENTITY, AttrS (lit "participant")); (BODY, AttrS (to_string p))] ++
  match part_external_id p with
  | Some ext => [(GSI1PK, AttrS (part_external_gsi1pk (part_conversation_id p) ext));
                 (GSI1SK, AttrS (part_sk (part_id p)))]
  | None => []
  end.

Definition add_participant (p : Participant) t : result error Participant * T :=
  let '(r, t) := put_item (participant_item p) t in ((λ _, p) <$> sent "dynamodb add_participant" r, t).

Definition get_participant t (id : str) : result error (option Participant) :=
  items ← sent "dynamodb get_participant" (scan_sk t (part_sk id)); first_body items.

Definition list_participants_by_conversation t (cid : str) : result error (list Participant) :=
  items ← sent "dynamodb list_participants" (query t (by_prefix (part_pk cid) PART_SK_PREFIX));
  ps ← mapM body_to items;
  mret (sort_by (λ a b, (part_created_at a <=? part_created_at b)%Z) ps).

Definition resolve_participant_by_external_id t (cid ext : str) : result error (option Participant) :=
  items ← sent "dynamodb resolve_participant" (query t (by_gsi1 (part_external_gsi1pk cid ext)));
  first_body items.

(** The counter's new value, a [u64]. *)
Definition next_message_seq (cid : str) t : result error N * T :=
  let '(r, t) := add_one (seq_counter_pk cid) SEQ_COUNTER_SK t in
  (attributes ← sent "dynamodb next_message_seq" r;
   n ← ok_or (assoc SEQ attributes ≫= as_n) [lit "seq counter returned no value"];
   if ((0 <=? n) && (n <? 2 ^ 64))%Z then Ok (Z.to_N n) else Err [lit "seq counter returned no value"], t).

Definition message_item (seq : N) (cid : str) (m : Message) : Item :=
  [(PK, AttrS (msg_pk cid)); (SK, AttrS (msg_sk seq (msg_id m)));
   (GSI1PK, AttrS (msg_id_gsi1pk (msg_id m))); (GSI1SK, AttrS (msg_sk seq (msg_id m)));
   (ENTITY, AttrS (lit "message")); (SEQ, AttrN (Z.of_N seq)); (BODY, AttrS (to_string m))].

Definition append_message (m : Message) t : result error Message * T :=
  match msg_conversation_id m with
  | None => (Err [lit "message has no conversation_id"], t)
  | Some cid =>
      match next_message_seq cid t with
      | (Err e, t) => (Err e, t)
      | (Ok seq, t) =>
          let '(r, t) := put_item (message_item seq cid m) t in
          ((λ _, m) <$> sent "dynamodb append_message" r, t)
      end
  end.

Definition get_message t (id : str) : result error (option Message) :=
  items ← sent "dynamodb get_message" (query t (by_gsi1 (msg_id_gsi1pk id))); first_body items.

Definition message_sk_for_id t (id : str) : result error (option str) :=
  items ← sent "dynamodb message_sk_for_id" (query t (by_gsi1 (msg_id_gsi1pk id)));
  mret (i ← head items; item_s i SK).

(** [i32::try_from(limit.saturating_add(1)).unwrap_or(i32::MAX)]. *)
Definition i32_max : N := (2 ^ 31 - 1)%N.
Definition probe (limit : nat) : N := N.min (saturating_add (N.of_nat limit) 1) i32_max.

Definition MSG_HI : str := lit "MSG$".

Definition message_band (cursor_sk : option str) (descending : bool) : SortKey :=
  match cursor_sk, descending with
  | Some sk, false => Between (sk ++ [0%N]) MSG_HI
  | Some sk, true => Between MSG_SK_PREFIX sk
  | None, _ => BeginsWith MSG_SK_PREFIX
  end.

(** A page of the items left, one more than the limit at most. *)
Definition page_of (limit : nat) (items : list Item) : result error MessagePage :=
  let has_more := limit <? length items in
  let page_items := if has_more then take limit items else items in
  messages ← mapM body_to page_items;
  mret (mk_MessagePage messages (if has_more then msg_id <$> last messages else None)).

Definition list_messages_by_conversation t (q : MessageQuery) : result error MessagePage :=
  cursor_sk ←
    match q_cursor q with
    | Some cursor =>
        o ← message_sk_for_id t cursor;
        Some <$> ok_or o [lit "cursor message '" ++ cursor ++ lit "' not found"]
    | None => Ok None
    end;
  let exclude_sk := if q_descending q then cursor_sk else None in
  out ← sent "dynamodb list_messages"
    (query t (mk_Query false (msg_pk (q_conversation_id q)) (message_band cursor_sk (q_descending q))
                (negb (q_descending q)) (Some (probe (q_limit q)))));
  let items := List.filter (λ i, is_none_or (λ ex, negb (bool_decide (item_s i SK = Some ex))) exclude_sk) out in
  page_of (q_limit q) items.

Definition session_item (s : Session) : Item :=
  [(PK, AttrS (sess_pk (sess_conversation_id s))); (SK, AttrS (sess_sk (session_id s)));
   (GSI1PK, AttrS (sess_gsi1pk (session_id s))); (GSI1SK, AttrS (sess_sk (session_id s)));
   (ENTITY, AttrS (lit "session")); (BODY, AttrS (to_string s))].

Definition create_session (s : Session) t : result error Session * T :=
  let '(r, t) := put_item (session_item s) t in ((λ _, s) <$> sent "dynamodb create_session" r, t).

Definition get_session t (id : str) : result error (option Session) :=
  items ← sent "dynamodb get_session" (query t (by_gsi1 (sess_gsi1pk id))); first_body items.

Definition update_session (id : str) (u : SessionUpdate) (now : Timestamp) t : result error Session * T :=
  match o ← get_session t id; ok_or o (not_found (lit "session") id) with
  | Err e => (Err e, t)
  | Ok s => create_session (InMemory.apply_session_update u now s) t
  end.

Definition list_sessions_by_conversation t (cid : str) : result error (list Session) :=
  items ← sent "dynamodb list_sessions" (query t (by_prefix (sess_pk cid) SESS_SK_PREFIX));
  ss ← mapM body_to items;
  let le a b := match sess_created_at a, sess_created_at b with
                | None, _ => true
                | Some _, None => false
                | Some x, Some y => (x <=? y)%Z
                end in
  mret (sort_by le ss).
End adapter.
End Dynamo.
Import Dynamo.

#[export] Instance dynamo_adapter {T} `{!DynamoDb T, !Serde Conversation, !Serde Participant, !Serde Message,
    !Serde Session} : StorageAdapter T := {|
  Storage.create_conversation := Dynamo.create_conversation;
  Storage.get_conversation := Dynamo.get_conversation;
  Storage.list_conversations_by_org := Dynamo.list_conversations_by_org;
  Storage.update_conversation := Dynamo.update_conversation;
  Storage.add_participant := Dynamo.add_participant;
  Storage.get_participant := Dynamo.get_participant;
  Storage.list_participants_by_conversation := Dynamo.list_participants_by_conversation;
  Storage.resolve_participant_by_external_id := Dynamo.resolve_participant_by_external_id;
  Storage.append_message := Dynamo.append_message;
  Storage.get_message := Dynamo.get_message;
  Storage.list_messages_by_conversation := Dynamo.list_messages_by_conversation;
  Storage.create_session := Dynamo.create_session;
  Storage.get_session := Dynamo.get_session;
  Storage.update_session := Dynamo.update_session;
  Storage.list_sessions_by_conversation := Dynamo.list_sessions_by_conversation;
|}.

(** ** What the service documents *)

Definition item_key (i : Item) : option (str * str) :=
  pk ← item_s i PK; sk ← item_s i SK; Some (pk, sk).

Definition in_range (r : SortKey) (sk : str) : bool :=
  match r with
  | AnySort => true
  | BeginsWith p => starts_with p sk
  | Between lo hi => negb (str_ltb sk lo) && negb (str_ltb hi sk)
  end.

(** The keys of an item in the table or in [gsi1]; an item without them is not indexed. *)
Definition keys_in (gsi1 : bool) (i : Item) : option (str * str) :=
  if gsi1 then pk ← item_s i GSI1PK; sk ← item_s i GSI1SK; Some (pk, sk) else item_key i.

Definition answers_query (q : Query) (i : Item) : bool :=
  match keys_in (index_name q) i with
  | Some (pk, sk) => str_eqb pk (partition q) && in_range (sort_key q) sk
  | None => false
  end.

Definition sort_of (q : Query) (i : Item) : str := default [] (snd <$> keys_in (index_name q) i).

Definition items_of (m : gmap (str * str) Item) : list Item := (map_to_list m).*2.

(** The whole answer to a query on a table: the matching items, in key order. *)
Definition key_order (q : Query) (i j : Item) : Prop := str_ltb (sort_of q j) (sort_of q i) = false.
Definition answer (m : gmap (str * str) Item) (q : Query) (full : list Item) : Prop :=
  full ≡ₚ List.filter (answers_query q) (items_of m) ∧
  StronglySorted (key_order q) (if scan_index_forward q then full else reverse full).
Definition at_most (o : option N) (l : list Item) : list Item :=
  match o with Some n => take (N.to_nat n) l | None => l end.

Definition key_leb (f : Item → str) (i j : Item) : bool := negb (str_ltb (f j) (f i)).

Lemma key_leb_total f i j : key_leb f i j = true ∨ key_leb f j i = true.
Proof.
  unfold key_leb. rewrite !negb_true_iff. destruct (str_ltb (f j) (f i)) eqn:E; [|by left]. right.
  destruct (str_ltb (f i) (f j)) eqn:E2; [|done].
  pose proof (str_ltb_trans _ _ _ E E2) as H. by rewrite str_ltb_irrefl in H.
Qed.

Lemma key_leb_trans f i j k : key_leb f i j = true → key_leb f j k = true → key_leb f i k = true.
Proof.
  unfold key_leb. rewrite !negb_true_iff. intros H1 H2. destruct (str_ltb (f k) (f i)) eqn:E; [|done].
  destruct (str_ltb (f i) (f j)) eqn:E2.
  - by rewrite (str_ltb_trans _ _ _ E E2) in H2.
  - rewrite (str_ltb_total _ _ E2 H1) in E. congruence.
Qed.

(** A write's effect on what is stored, and on what reads may still return. *)
Record evolves (see : gmap (str * str) Item) (tab' see' : gmap (str * str) Item) : Prop := {
  sees_old_or_new k i : see' !! k = Some i → see !! k = Some i ∨ tab' !! k = Some i;
}.

Definition seq_of (m : gmap (str * str) Item) (k : str * str) : Z :=
  default 0%Z (i ← m !! k; assoc SEQ i ≫= as_n).

Class DynamoLaws (T : Type) `{!DynamoDb T} := {
  table : T → gmap (str * str) Item;
  seen : T → gmap (str * str) Item;
  settled : T → Prop;
  settled_seen t : settled t → seen t = table t;
  put_item_stores i t r t' :
    put_item i t = (r, t') →
    evolves (seen t) (table t') (seen t') ∧
    ((∃ k, item_key i = Some k ∧ table t' = <[k := i]> (table t)) ∨ is_ok r = false ∧ table t' = table t);
  put_item_if_absent_stores i t r t' :
    put_item_if_absent i t = (r, t') →
    evolves (seen t) (table t') (seen t') ∧
    ((r ≠ Err ConditionalCheckFailed ∧
      ∃ k, item_key i = Some k ∧ table t !! k = None ∧ table t' = <[k := i]> (table t)) ∨
     is_ok r = false ∧ table t' = table t ∧
     (r = Err ConditionalCheckFailed → ∃ k, item_key i = Some k ∧ is_Some (table t !! k)));
  get_item_reads t pk sk o : get_item t pk sk = Ok o → o = seen t !! (pk, sk);
  query_answers t q l :
    query t q = Ok l →
    ∃ full n, answer (seen t) q full ∧ l = take n (at_most (q_max q) full) ∧
      (settled t → l = at_most (q_max q) full);
  scan_answers t sk l :
    scan_sk t sk = Ok l → ∀ i, i ∈ l → i ∈ items_of (seen t) ∧ item_s i SK = Some sk;
  scan_finds t sk l i :
    scan_sk t sk = Ok l → settled t → i ∈ items_of (table t) → item_s i SK = Some sk → i ∈ l;
  add_one_counts pk sk t r t' :
    add_one pk sk t = (r, t') →
    evolves (seen t) (table t') (seen t') ∧
    ((∃ i, item_key i = Some (pk, sk) ∧ item_s i GSI1PK = None ∧
       assoc SEQ i = Some (AttrN (seq_of (table t) (pk, sk) + 1)) ∧
       table t' = <[(pk, sk) := i]> (table t) ∧
       ∀ attributes, r = Ok attributes →
         assoc SEQ attributes = Some (AttrN (seq_of (table t) (pk, sk) + 1))) ∨
     is_ok r = false ∧ table t' = table t);
}.

(** Text that reads back as [reread a], under the keys of [a]. *)
Class SerdeLaws (A : Type) {K : Type} (key : A → K) `{!Serde A} := {
  reread : A → A;
  from_to_string a : from_str (to_string a) = Ok (reread a);
  reread_key a : key (reread a) = key a;
}.

Definition conversation_key (c : Conversation) : str * str * str :=
  (conv_id c, conv_organization_id c, idempotency_key c).
Definition participant_key (p : Participant) : str * str * option str :=
  (part_id p, part_conversation_id p, part_external_id p).
Definition message_key (m : Message) : str * option str := (msg_id m, msg_conversation_id m).
Definition session_key (s : Session) : str * str := (session_id s, sess_conversation_id s).
