(* ===== verification/DynamoFacts.v ===== *)
(** * DynamoFacts: what the DynamoDB adapter keeps

    The invariant of the single table (every item is one the adapter, or another store,
    writes) and its preservation by every call; the laws the server relies on
    ([StorageLaws]) for this backend; the order of a conversation's messages; and paging, as
    the service answers it. *)

From Stdlib Require Import Sorting.Sorted.
From stdpp Require Import prelude gmap strings list sorting.
From S2P Require Import Prelude Text Json Storage DynamoKeys Dynamo.
Import Dynamo.Dynamo.

(** ** The invariant: every item is one the adapter writes

    [other] are the items of the stores that share the table (settings, connectors, runs,
    checkpoints, knowledge) and the counters. *)
Section invariant.
Context {T : Type} `{!DynamoDb T, !DynamoLaws T}.
Context `{!Serde Conversation, !Serde Participant, !Serde Message, !Serde Session}.
Context `{!SerdeLaws Conversation conversation_key, !SerdeLaws Participant participant_key}.
Context `{!SerdeLaws Message message_key, !SerdeLaws Session session_key}.
Implicit Types t : T.

Definition entity_prefix (s : str) : bool :=
  starts_with (lit "CONV#") s || starts_with (lit "IDEM#") s || starts_with (lit "PART#") s ||
  starts_with (lit "MSG") s || starts_with (lit "SESS#") s.
Definition entity_index (s : str) : bool :=
  starts_with (lit "CONV#") s || starts_with (lit "EXTERNAL#") s || starts_with (lit "MSG#") s ||
  starts_with (lit "SESSION#") s.

Inductive item_ok : Item → Prop :=
| ok_claim c : item_ok (claim_item c)
| ok_conversation c : item_ok (conversation_item c)
| ok_participant p : item_ok (participant_item p)
| ok_message seq cid m : msg_conversation_id m = Some cid → item_ok (message_item seq cid m)
| ok_session s : item_ok (session_item s)
| ok_other i :
    is_some_and entity_prefix (item_s i SK) = false →
    is_some_and entity_index (item_s i GSI1PK) = false → item_ok i.

Definition keyed (m : gmap (str * str) Item) : Prop :=
  map_Forall (λ k i, item_key i = Some k ∧ item_ok i) m.

Definition dynamo_wf t : Prop := keyed (table t) ∧ keyed (seen t).

Lemma keyed_insert m k i : keyed m → item_key i = Some k → item_ok i → keyed (<[k := i]> m).
Proof. intros Hm Hk Hi. by apply map_Forall_insert_2. Qed.

Lemma evolves_keyed see tab' see' : evolves see tab' see' → keyed see → keyed tab' → keyed see'.
Proof. intros [He] Hs Ht k i Hi. destruct (He k i Hi) as [?|?]; [by apply Hs|by apply Ht]. Qed.

(** Every write keeps it. *)
Lemma put_item_wf i t : item_ok i → dynamo_wf t → dynamo_wf (put_item i t).2.
Proof.
  intros Hi [Ht Hs]. destruct (put_item i t) as [r t'] eqn:E. apply put_item_stores in E as [He H]. simpl.
  assert (keyed (table t')) as Ht'.
  { destruct H as [(k & Hk & ->)|[_ ->]]; [by apply keyed_insert|done]. }
  split; [done|by eapply evolves_keyed].
Qed.

Lemma put_new_wf i t : item_ok i → dynamo_wf t → dynamo_wf (put_item_if_absent i t).2.
Proof.
  intros Hi [Ht Hs]. destruct (put_item_if_absent i t) as [r t'] eqn:E.
  apply put_item_if_absent_stores in E as [He H]. simpl.
  assert (keyed (table t')) as Ht'.
  { destruct H as [(_ & k & Hk & _ & ->)|(_ & -> & _)]; [by apply keyed_insert|done]. }
  split; [done|by eapply evolves_keyed].
Qed.

Lemma counter_wf cid t : dynamo_wf t → dynamo_wf (add_one (seq_counter_pk cid) SEQ_COUNTER_SK t).2.
Proof.
  intros [Ht Hs]. destruct (add_one _ _ t) as [r t'] eqn:E. apply add_one_counts in E as [He H]. simpl.
  assert (keyed (table t')) as Ht'.
  { destruct H as [(i & Hk & Hg & _ & -> & _)|[_ ->]]; [|done]. apply keyed_insert; [done..|].
    unfold item_key in Hk. destruct (item_s i PK); [|done]. simpl in Hk. destruct (item_s i SK) eqn:Es; [|done].
    simplify_eq/=. apply ok_other; [by rewrite Es|by rewrite Hg]. }
  split; [done|by eapply evolves_keyed].
Qed.

(** *** What a response holds *)

Lemma answer_elem m q full i :
  answer m q full → i ∈ full → keyed m →
  ∃ k, m !! k = Some i ∧ item_key i = Some k ∧ item_ok i ∧ answers_query q i = true.
Proof.
  intros [Hp _] Hi Hm. rewrite Hp, filter_elem in Hi. destruct Hi as [Hi Ha].
  unfold items_of in Hi. apply list_elem_of_fmap in Hi as ([k i'] & -> & Hk%elem_of_map_to_list).
  destruct (Hm k i' Hk). by exists k.
Qed.

Lemma response_elem t q l i :
  dynamo_wf t → query t q = Ok l → i ∈ l →
  item_ok i ∧ ∃ k, item_key i = Some k ∧ seen t !! k = Some i ∧ answers_query q i = true.
Proof.
  intros [_ Hs] Hq Hi. apply query_answers in Hq as (full & n & Ha & -> & _).
  apply elem_of_take in Hi as (j & Hj & _).
  assert (i ∈ full) as Hin.
  { apply list_elem_of_lookup_2 in Hj. unfold at_most in Hj. destruct (q_max q); [|done].
    by apply elem_of_take in Hj as (? & ?%list_elem_of_lookup_2 & _). }
  destruct (answer_elem _ _ _ _ Ha Hin Hs) as (k & ? & ? & ? & ?). split; [done|]. by exists k.
Qed.

(** Each item of a table has its own key. *)
Lemma items_keys_NoDup m : keyed m → NoDup (item_key <$> items_of m).
Proof.
  intros Hm. unfold items_of. rewrite <- list_fmap_compose.
  rewrite (list_fmap_ext _ (Some ∘ fst)).
  - rewrite list_fmap_compose. apply NoDup_fmap_2; [apply _|]. apply NoDup_fst_map_to_list.
  - intros j [k i] Hj. simpl. apply list_elem_of_lookup_2, elem_of_map_to_list in Hj. apply (Hm _ _ Hj).
Qed.

Lemma response_keys_NoDup t q l : dynamo_wf t → query t q = Ok l → NoDup (item_key <$> l).
Proof.
  intros [_ Hs] Hq. apply query_answers in Hq as (full & n & [Hp _] & -> & _).
  assert (NoDup (item_key <$> full)) as Hf.
  { rewrite Hp. by apply NoDup_filter_fmap, items_keys_NoDup. }
  eapply sublist_NoDup; [exact Hf|]. apply sublist_fmap_mono.
  transitivity (at_most (q_max q) full); [apply sublist_take|].
  unfold at_most. destruct (q_max q); [apply sublist_take|done].
Qed.

(** *** Which entity a key names *)

(** The keys of the items, as the adapter writes them. *)
Lemma Some_pair {A B} (a c : A) (b d : B) : Some (a, b) = Some (c, d) → a = c ∧ b = d.
Proof. by intros [= -> ->]. Qed.

Lemma claim_keys c : item_key (claim_item c) = Some (conv_pk (conv_organization_id c), conv_idem_sk (idempotency_key c)).
Proof. reflexivity. Qed.
Lemma conversation_keys c : item_key (conversation_item c) = Some (conv_pk (conv_organization_id c), conv_sk (conv_id c)).
Proof. reflexivity. Qed.
Lemma participant_keys p : item_key (participant_item p) = Some (part_pk (part_conversation_id p), part_sk (part_id p)).
Proof. reflexivity. Qed.
Lemma message_keys seq cid m : item_key (message_item seq cid m) = Some (msg_pk cid, msg_sk seq (msg_id m)).
Proof. reflexivity. Qed.
Lemma session_keys s : item_key (session_item s) = Some (sess_pk (sess_conversation_id s), sess_sk (session_id s)).
Proof. reflexivity. Qed.

Lemma other_key i pk sk :
  is_some_and entity_prefix (item_s i SK) = false → item_key i = Some (pk, sk) → entity_prefix sk = false.
Proof.
  unfold item_key. intros Ho Hk. destruct (item_s i PK); [|done]. simpl in Hk. destruct (item_s i SK); [|done].
  by simplify_eq/=.
Qed.

(** A case of an item whose sort key is another family's. *)
Ltac wrong_family Hs Hk :=
  first [rewrite claim_keys in Hk | rewrite conversation_keys in Hk | rewrite participant_keys in Hk
        |rewrite message_keys in Hk | rewrite session_keys in Hk];
  apply Some_pair in Hk as [_ <-]; by vm_compute in Hs.
Ltac not_other Hs Ho Hk :=
  apply (other_key _ _ _ Ho) in Hk; unfold entity_prefix in Hk; rewrite Hs, ?orb_true_r in Hk; done.

Lemma conversation_named i org sk :
  item_ok i → item_key i = Some (conv_pk org, sk) → starts_with (lit "CONV#") sk = true →
  ∃ c, i = conversation_item c ∧ conv_organization_id c = org ∧ sk = conv_sk (conv_id c).
Proof.
  intros Hi Hk Hs. destruct Hi as [c|c|p|seq cid m Hm|s|i Ho _]; [wrong_family Hs Hk| |wrong_family Hs Hk|wrong_family Hs Hk|wrong_family Hs Hk|not_other Hs Ho Hk].
  rewrite conversation_keys in Hk. apply Some_pair in Hk as [?%(inj conv_pk) <-]. by exists c.
Qed.

Lemma participant_named i cid sk :
  item_ok i → item_key i = Some (part_pk cid, sk) → starts_with PART_SK_PREFIX sk = true →
  ∃ p, i = participant_item p ∧ part_conversation_id p = cid ∧ sk = part_sk (part_id p).
Proof.
  unfold PART_SK_PREFIX. intros Hi Hk Hs.
  destruct Hi as [c|c|p|seq mcid m Hm|s|i Ho _]; [wrong_family Hs Hk|wrong_family Hs Hk| |wrong_family Hs Hk|wrong_family Hs Hk|not_other Hs Ho Hk].
  rewrite participant_keys in Hk. apply Some_pair in Hk as [?%(inj part_pk) <-]. by exists p.
Qed.

Lemma session_named i cid sk :
  item_ok i → item_key i = Some (sess_pk cid, sk) → starts_with SESS_SK_PREFIX sk = true →
  ∃ s, i = session_item s ∧ sess_conversation_id s = cid ∧ sk = sess_sk (session_id s).
Proof.
  unfold SESS_SK_PREFIX. intros Hi Hk Hs.
  destruct Hi as [c|c|p|seq mcid m Hm|s|i Ho _];
    [wrong_family Hs Hk|wrong_family Hs Hk|wrong_family Hs Hk|wrong_family Hs Hk| |not_other Hs Ho Hk].
  rewrite session_keys in Hk. apply Some_pair in Hk as [?%(inj sess_pk) <-]. by exists s.
Qed.

(** The same in the index. *)
Lemma claim_index c : item_s (claim_item c) GSI1PK = None.
Proof. reflexivity. Qed.
Lemma conversation_index c : item_s (conversation_item c) GSI1PK = Some (conv_id_gsi1pk (conv_id c)).
Proof. reflexivity. Qed.
Lemma participant_index p :
  item_s (participant_item p) GSI1PK = part_external_gsi1pk (part_conversation_id p) <$> part_external_id p.
Proof. unfold participant_item. by destruct (part_external_id p). Qed.
Lemma message_index seq cid m : item_s (message_item seq cid m) GSI1PK = Some (msg_id_gsi1pk (msg_id m)).
Proof. reflexivity. Qed.
Lemma session_index s : item_s (session_item s) GSI1PK = Some (sess_gsi1pk (session_id s)).
Proof. reflexivity. Qed.

Inductive indexed (gpk : str) : Item → Prop :=
| indexed_conversation c : gpk = conv_id_gsi1pk (conv_id c) → indexed gpk (conversation_item c)
| indexed_participant p ext : part_external_id p = Some ext →
    gpk = part_external_gsi1pk (part_conversation_id p) ext → indexed gpk (participant_item p)
| indexed_message seq cid m : msg_conversation_id m = Some cid → gpk = msg_id_gsi1pk (msg_id m) →
    indexed gpk (message_item seq cid m)
| indexed_session s : gpk = sess_gsi1pk (session_id s) → indexed gpk (session_item s)
| indexed_other i : entity_index gpk = false → indexed gpk i.

Lemma item_indexed i gpk : item_ok i → item_s i GSI1PK = Some gpk → indexed gpk i.
Proof.
  intros Hi Hk. destruct Hi as [c|c|p|seq cid m Hm|s|i _ Ho].
  - by rewrite claim_index in Hk.
  - rewrite conversation_index in Hk. injection Hk as <-. by constructor.
  - rewrite participant_index in Hk. destruct (part_external_id p) as [ext|] eqn:E; [|done].
    injection Hk as <-. by econstructor.
  - rewrite message_index in Hk. injection Hk as <-. by constructor.
  - rewrite session_index in Hk. injection Hk as <-. by constructor.
  - rewrite Hk in Ho. by apply indexed_other.
Qed.

Lemma by_gsi1_elem t gpk l i :
  dynamo_wf t → query t (by_gsi1 gpk) = Ok l → i ∈ l → indexed gpk i.
Proof.
  intros Ht Hq Hi. destruct (response_elem _ _ _ _ Ht Hq Hi) as (Hok & k & _ & _ & Ha).
  apply item_indexed; [done|]. unfold answers_query, keys_in in Ha. simpl in Ha.
  destruct (item_s i GSI1PK); [|done]. simpl in Ha. destruct (item_s i GSI1SK); [|done]. simpl in Ha.
  rewrite andb_true_r in Ha. apply str_eqb_true in Ha. by subst.
Qed.

Lemma body_to_conversation c : body_to (conversation_item c) = Ok (reread c).
Proof. unfold body_to. simpl. by rewrite from_to_string. Qed.
Lemma body_to_claim c : body_to (claim_item c) = Ok (reread c).
Proof. unfold body_to. simpl. by rewrite from_to_string. Qed.
Lemma body_to_participant p : body_to (participant_item p) = Ok (reread p).
Proof. unfold body_to. simpl. by rewrite from_to_string. Qed.
Lemma body_to_message seq cid m : body_to (message_item seq cid m) = Ok (reread m).
Proof. unfold body_to. simpl. by rewrite from_to_string. Qed.
Lemma body_to_session s : body_to (session_item s) = Ok (reread s).
Proof. unfold body_to. simpl. by rewrite from_to_string. Qed.

(** *** Every operation keeps the invariant *)

Lemma dynamo_create_conversation_wf c t : dynamo_wf t → dynamo_wf (Dynamo.create_conversation c t).2.
Proof.
  intros Ht. unfold Dynamo.create_conversation. pose proof (put_new_wf _ t (ok_claim c) Ht) as H1.
  destruct (put_item_if_absent _ t) as [[u|[|e]] t1]; simpl in *; [|done..].
  pose proof (put_item_wf _ t1 (ok_conversation c) H1). by destruct (put_item _ t1).
Qed.

Lemma dynamo_update_conversation_wf id u now t : dynamo_wf t → dynamo_wf (Dynamo.update_conversation id u now t).2.
Proof.
  intros Ht. unfold Dynamo.update_conversation. destruct (_ ≫= _) as [c|]; [|done]. simpl.
  set (c' := InMemory.apply_conversation_update u now c).
  pose proof (put_item_wf _ t (ok_conversation c') Ht) as H1. destruct (put_item _ t) as [r t1]. simpl in H1.
  destruct (sent _ r); [|done].
  pose proof (put_item_wf _ t1 (ok_claim c') H1). by destruct (put_item _ t1).
Qed.

Lemma dynamo_add_participant_wf p t : dynamo_wf t → dynamo_wf (Dynamo.add_participant p t).2.
Proof.
  intros Ht. unfold Dynamo.add_participant. pose proof (put_item_wf _ t (ok_participant p) Ht). by destruct (put_item _ t).
Qed.

Lemma dynamo_append_message_wf m t : dynamo_wf t → dynamo_wf (Dynamo.append_message m t).2.
Proof.
  intros Ht. unfold Dynamo.append_message. destruct (msg_conversation_id m) as [cid|] eqn:Em; [|done].
  unfold next_message_seq. pose proof (counter_wf cid t Ht) as H1. destruct (add_one _ _ t) as [r t1]. simpl in H1.
  destruct (_ ≫= _) as [seq|]; [|done].
  pose proof (put_item_wf _ t1 (ok_message seq cid m Em) H1). by destruct (put_item _ t1).
Qed.

Lemma dynamo_create_session_wf s t : dynamo_wf t → dynamo_wf (Dynamo.create_session s t).2.
Proof.
  intros Ht. unfold Dynamo.create_session. pose proof (put_item_wf _ t (ok_session s) Ht). by destruct (put_item _ t).
Qed.

Lemma dynamo_update_session_wf id u now t : dynamo_wf t → dynamo_wf (Dynamo.update_session id u now t).2.
Proof.
  intros Ht. unfold Dynamo.update_session. destruct (_ ≫= _) as [s|]; [|done]. by apply dynamo_create_session_wf.
Qed.

(** *** The laws the server relies on *)

Lemma mapM_ok {A B E} (f : A → result E B) l k : mapM f l = Ok k → Forall2 (λ x y, f x = Ok y) l k.
Proof.
  revert k. induction l as [|x l IH]; intros k; simpl; [intros [= <-]; constructor|].
  destruct (f x) as [y|] eqn:E1; [|done]. simpl. destruct (mapM f l) as [ys|]; [|done]. simpl.
  intros [= <-]. constructor; [done|by apply IH].
Qed.

Lemma listed_conversations t org l i :
  dynamo_wf t → query t (by_prefix (conv_pk org) (lit "CONV#")) = Ok l → i ∈ l →
  ∃ c, i = conversation_item c ∧ conv_organization_id c = org.
Proof.
  intros Ht Hq Hi. destruct (response_elem _ _ _ _ Ht Hq Hi) as (Hok & [pk sk] & Hk & _ & Ha).
  unfold answers_query, keys_in in Ha. simpl in Ha. rewrite Hk in Ha. apply andb_true_iff in Ha as [->%str_eqb_true Hs].
  destruct (conversation_named _ _ _ Hok Hk Hs) as (c & -> & Hc & _). by exists c.
Qed.

Lemma listed_participants t cid l i :
  dynamo_wf t → query t (by_prefix (part_pk cid) PART_SK_PREFIX) = Ok l → i ∈ l →
  ∃ p, i = participant_item p ∧ part_conversation_id p = cid.
Proof.
  intros Ht Hq Hi. destruct (response_elem _ _ _ _ Ht Hq Hi) as (Hok & [pk sk] & Hk & _ & Ha).
  unfold answers_query, keys_in in Ha. simpl in Ha. rewrite Hk in Ha. apply andb_true_iff in Ha as [->%str_eqb_true Hs].
  destruct (participant_named _ _ _ Hok Hk Hs) as (p & -> & Hp & _). by exists p.
Qed.

#[export] Instance dynamo_storage_laws : StorageLaws T.
Proof.
  refine {| store_wf := dynamo_wf |}.
  - intros t org cs Ht. simpl. unfold Dynamo.list_conversations_by_org, sent.
    destruct (query t _) as [l|] eqn:Eq; [|done]. simpl. destruct (mapM body_to l) as [cs'|] eqn:Em; [|done].
    simpl. intros [= <-]. apply mapM_ok in Em. rewrite sort_by_perm.
    pose proof (response_keys_NoDup _ _ _ Ht Eq) as Hnd.
    assert (Hl : Forall (λ i, ∃ c, i = conversation_item c ∧ conv_organization_id c = org) l)
      by (apply Forall_forall; intros i; by eapply listed_conversations). clear Eq.
    induction Em as [|i c' l cs' Hic Hrest IH]; [split; constructor|].
    inversion Hl as [|?? (c & -> & Ho) Hl']; simplify_eq. csimpl in Hnd. apply NoDup_cons in Hnd as [Hi Hnd].
    destruct (IH Hnd Hl') as [IH1 IH2]. rewrite body_to_conversation in Hic. injection Hic as <-.
    pose proof (reread_key c) as [= Hid Horg Hidem]. split; [by constructor|].
    csimpl. constructor; [|done]. intros (d & Hd & Hin)%list_elem_of_fmap. apply Hi.
    apply list_elem_of_lookup in Hin as [j Hj]. destruct (Forall2_lookup_r _ _ _ _ _ Hrest Hj) as (i & Hi' & Hid').
    destruct (Forall_lookup_1 _ _ _ _ Hl' Hi') as (e & -> & He). rewrite body_to_conversation in Hid'. injection Hid' as <-.
    pose proof (reread_key e) as [= Hid2 _ _]. apply list_elem_of_fmap. exists (conversation_item e).
    split; [|by eapply list_elem_of_lookup_2]. rewrite !conversation_keys. congruence.
  - intros t cid ps Ht. simpl. unfold Dynamo.list_participants_by_conversation, sent.
    destruct (query t _) as [l|] eqn:Eq; [|done]. simpl. destruct (mapM body_to l) as [ps'|] eqn:Em; [|done].
    simpl. intros [= <-]. apply mapM_ok in Em. rewrite sort_by_perm. apply Forall_forall.
    intros p [j Hj]%list_elem_of_lookup. destruct (Forall2_lookup_r _ _ _ _ _ Em Hj) as (i & Hi & Hp).
    destruct (listed_participants _ _ _ i Ht Eq) as (p' & -> & Hc); [by eapply list_elem_of_lookup_2|].
    rewrite body_to_participant in Hp. injection Hp as <-. by pose proof (reread_key p') as [= _ -> _].
Defined.

(** ** The messages of a conversation, in key order *)

Definition sk_of (i : Item) : str := default [] (item_s i SK).
Definition sk_leb : Item → Item → bool := key_leb sk_of.
Definition band (cid : str) : Query := by_prefix (msg_pk cid) MSG_SK_PREFIX.
Definition history t (cid : str) : list Item :=
  sort_by sk_leb (List.filter (answers_query (band cid)) (items_of (table t))).

Lemma sk_leb_total i j : sk_leb i j = true ∨ sk_leb j i = true.
Proof. apply (key_leb_total sk_of). Qed.
Lemma sk_leb_trans i j k : sk_leb i j = true → sk_leb j k = true → sk_leb i k = true.
Proof. apply (key_leb_trans sk_of). Qed.

Lemma history_perm t cid : history t cid ≡ₚ List.filter (answers_query (band cid)) (items_of (table t)).
Proof. apply sort_by_perm. Qed.

Lemma history_elem t cid i :
  dynamo_wf t → i ∈ history t cid ↔
    ∃ sk, item_key i = Some (msg_pk cid, sk) ∧ table t !! (msg_pk cid, sk) = Some i ∧ starts_with MSG_SK_PREFIX sk = true.
Proof.
  intros [Ht _]. rewrite history_perm, filter_elem. unfold items_of. rewrite list_elem_of_fmap.
  unfold answers_query, keys_in. simpl. split.
  - intros [([k j] & -> & Hk%elem_of_map_to_list) Ha]. destruct (Ht _ _ Hk) as [Hkey _]. simpl in *. rewrite Hkey in Ha.
    destruct k as [pk sk]. apply andb_true_iff in Ha as [->%str_eqb_true Hs]. by exists sk.
  - intros (sk & Hkey & Hk & Hs). rewrite Hkey, str_eqb_refl. split; [|done].
    exists ((msg_pk cid, sk), i). by rewrite elem_of_map_to_list.
Qed.

(** Every item of the history is a message of the conversation. *)
Lemma message_named i cid sk :
  item_ok i → item_key i = Some (msg_pk cid, sk) → starts_with MSG_SK_PREFIX sk = true →
  ∃ seq m, i = message_item seq cid m ∧ msg_conversation_id m = Some cid ∧ sk = msg_sk seq (msg_id m).
Proof.
  unfold MSG_SK_PREFIX. intros Hi Hk Hs.
  destruct Hi as [c|c|p|seq mcid m Hm|s|i Ho _];
    [wrong_family Hs Hk|wrong_family Hs Hk|wrong_family Hs Hk| |wrong_family Hs Hk|].
  - rewrite message_keys in Hk. apply Some_pair in Hk as [->%(inj msg_pk) <-]. by exists seq, m.
  - apply (other_key _ _ _ Ho) in Hk. apply starts_with_spec in Hs as [k ->]. by vm_compute in Hk.
Qed.

Definition at_seq (cid : str) (x : N * Message) : Item := message_item x.1 cid x.2.

Lemma history_messages t cid : dynamo_wf t → ∃ l, history t cid = at_seq cid <$> l.
Proof.
  intros Ht. assert (Hall : Forall (λ i, ∃ x, i = at_seq cid x) (history t cid)).
  { apply Forall_forall. intros i (sk & Hk & Hi & Hs)%history_elem; [|done].
    destruct (message_named _ _ _ (proj2 (proj1 Ht _ _ Hi)) Hk Hs) as (seq & m & -> & _). by exists (seq, m). }
  induction Hall as [|i l [x ->] _ [k ->]]; [by exists []|]. by exists (x :: k).
Qed.

(** A listing in key order is the list: items are told apart by their keys. *)
Lemma base_key_inj t i j pk :
  dynamo_wf t → i ∈ items_of (table t) → j ∈ items_of (table t) →
  fst <$> item_key i = Some pk → fst <$> item_key j = Some pk → sk_of i = sk_of j → i = j.
Proof.
  intros [Ht _] Hi Hj Hpi Hpj Hsk. unfold items_of in *.
  apply list_elem_of_fmap in Hi as ([k i'] & -> & Hk%elem_of_map_to_list).
  apply list_elem_of_fmap in Hj as ([k' j'] & -> & Hk'%elem_of_map_to_list). simpl in *.
  destruct (Ht _ _ Hk) as [Hki _], (Ht _ _ Hk') as [Hkj _].
  assert (k = k') as <-; [|congruence]. destruct k as [p s], k' as [p' s']. rewrite Hki in Hpi. rewrite Hkj in Hpj.
  unfold sk_of, item_key in *. destruct (item_s i' PK), (item_s j' PK), (item_s i' SK), (item_s j' SK); simplify_eq/=. done.
Qed.

Lemma sort_of_base q i : index_name q = false → is_Some (item_key i) → sort_of q i = sk_of i.
Proof.
  intros Hq [k Hk]. unfold sort_of, keys_in, sk_of. rewrite Hq, Hk. unfold item_key in Hk.
  destruct (item_s i PK), (item_s i SK); simplify_eq/=. done.
Qed.

(** The answer to a query of the table is any sorted list of its matches. *)
Lemma answer_unique t q full l :
  dynamo_wf t → index_name q = false → answer (table t) q full →
  l ≡ₚ List.filter (answers_query q) (items_of (table t)) → sorted sk_leb l →
  full = if scan_index_forward q then l else reverse l.
Proof.
  intros Ht Hq [Hp Hs] Hl Hsl.
  set (full' := if scan_index_forward q then full else reverse full) in *.
  assert (full' = l) as <-.
  { assert (Hin : ∀ i, i ∈ l → i ∈ items_of (table t) ∧ fst <$> item_key i = Some (partition q)).
    { intros i. rewrite Hl, filter_elem. intros [Hi Ha]. split; [done|]. unfold answers_query, keys_in in Ha. rewrite Hq in Ha.
      destruct (item_key i) as [[pk sk]|]; [|done]. apply andb_true_iff in Ha as [->%str_eqb_true _]. done. }
    assert (Hpf : full' ≡ₚ l).
    { rewrite Hl, <- Hp. subst full'. destruct (scan_index_forward q); [done|apply reverse_Permutation]. }
    apply (StronglySorted_unique_strong (key_order q)).
    - intros i j Hi Hj. rewrite Hpf in Hi. destruct (Hin i Hi) as [Hi1 Hi2], (Hin j Hj) as [Hj1 Hj2].
      unfold key_order. rewrite !sort_of_base by (done || (by destruct (item_key i)) || (by destruct (item_key j))).
      intros H1 H2. eapply (base_key_inj t); [done..|]. by apply str_ltb_total.
    - exact Hs.
    - clear -Hsl Hin Hq. unfold sorted in Hsl. induction Hsl as [|i l Hsl IH Hi]; [constructor|].
      constructor; [apply IH; intros j Hj; apply Hin; by right|].
      rewrite Forall_forall in Hi |- *. intros j Hj. specialize (Hi j Hj).
      destruct (Hin i (list_elem_of_here _ _)) as [_ Hi2], (Hin j (list_elem_of_further _ _ _ Hj)) as [_ Hj2].
      unfold key_order. rewrite !sort_of_base by (done || (by destruct (item_key i)) || (by destruct (item_key j))).
      by apply negb_true_iff.
    - exact Hpf. }
  subst full'. by destruct (scan_index_forward q); [|rewrite reverse_involutive].
Qed.

Lemma history_sorted t cid : sorted sk_leb (history t cid).
Proof. apply sort_by_sorted; [apply sk_leb_total|apply sk_leb_trans]. Qed.

Lemma history_keys_NoDup t cid : dynamo_wf t → NoDup (sk_of <$> history t cid).
Proof.
  intros Ht. apply NoDup_fmap_2_strong.
  - intros i j (ski & Hi & Hti & _)%history_elem (skj & Hj & Htj & _)%history_elem; [|done..].
    unfold sk_of, item_key in *. destruct (item_s i PK), (item_s j PK), (item_s i SK), (item_s j SK); simplify_eq/=.
    intros ->. congruence.
  - apply (NoDup_fmap_1 item_key). rewrite history_perm. apply NoDup_filter_fmap, items_keys_NoDup, Ht.
Qed.

Lemma filter_true {A} (p : A → bool) l : (∀ x, p x = true) → List.filter p l = l.
Proof. intros Hp. induction l as [|x l IH]; simpl; [done|]. by rewrite Hp, IH. Qed.

Lemma filter_true_in {A} (p : A → bool) l : (∀ x, x ∈ l → p x = true) → List.filter p l = l.
Proof.
  induction l as [|x l IH]; simpl; intros Hp; [done|]. rewrite Hp by left. f_equal. apply IH. intros y Hy. apply Hp. by right.
Qed.

Lemma sorted_filter (p : Item → bool) l : sorted sk_leb l → sorted sk_leb (List.filter p l).
Proof.
  induction 1 as [|i l Hs IH Hi]; simpl; [constructor|]. destruct (p i); [|done]. constructor; [done|].
  rewrite Forall_forall in Hi |- *. intros j [Hj _]%filter_elem. by apply Hi.
Qed.

(** A sorted list split at one of its elements. *)
Lemma split_at (l : list Item) k x :
  sorted sk_leb l → NoDup (sk_of <$> l) → l !! k = Some x →
  List.filter (λ i, str_ltb (sk_of x) (sk_of i)) l = drop (S k) l ∧
  List.filter (λ i, negb (str_ltb (sk_of x) (sk_of i))) l = take (S k) l.
Proof.
  intros Hs. revert k. induction Hs as [|i l Hs IH Hi]; intros k Hnd Hk; [done|].
  csimpl in Hnd. apply NoDup_cons in Hnd as [Hni Hnd]. destruct k as [|k]; simpl in Hk.
  - injection Hk as ->. simpl. rewrite str_ltb_irrefl. simpl.
    assert (Hall : Forall (λ j, str_ltb (sk_of x) (sk_of j) = true) l).
    { rewrite Forall_forall in Hi |- *. intros j Hj. specialize (Hi j Hj). unfold sk_leb, key_leb in Hi. apply negb_true_iff in Hi.
      destruct (str_ltb (sk_of x) (sk_of j)) eqn:E; [done|]. exfalso. apply Hni.
      rewrite (str_ltb_total _ _ E Hi). by apply list_elem_of_fmap_2. }
    rewrite drop_0. split.
    + clear -Hall. induction Hall as [|j l Hj _ IH]; simpl; [done|]. by rewrite Hj, IH.
    + f_equal. clear -Hall. induction Hall as [|j l Hj _ IH]; simpl; [done|]. by rewrite Hj.
  - destruct (IH k Hnd Hk) as [IH1 IH2]. simpl.
    assert (str_ltb (sk_of x) (sk_of i) = false) as ->.
    { rewrite Forall_forall in Hi. specialize (Hi x (list_elem_of_lookup_2 _ _ _ Hk)). by apply negb_true_iff. }
    simpl. by rewrite IH1, IH2.
Qed.

(** Nothing in the table has the upper bound of the band for its key. *)
Lemma no_upper_bound t k i : dynamo_wf t → table t !! k = Some i → k.2 ≠ MSG_HI.
Proof.
  intros [Ht _] Hi Hk. destruct (Ht _ _ Hi) as [Hkey Hok]. destruct k as [pk sk]. simpl in Hk. subst sk.
  destruct Hok as [c|c|p|seq cid m Hm|s|i Ho _];
    [rewrite claim_keys in Hkey|rewrite conversation_keys in Hkey|rewrite participant_keys in Hkey
    |rewrite message_keys in Hkey|rewrite session_keys in Hkey|apply (other_key _ _ _ Ho) in Hkey; by vm_compute in Hkey];
    apply Some_pair in Hkey as [_ Hsk]; apply (f_equal (firstn 4)) in Hsk; by vm_compute in Hsk.
Qed.

Lemma in_band t k i :
  dynamo_wf t → table t !! k = Some i →
  starts_with MSG_SK_PREFIX k.2 = negb (str_ltb k.2 MSG_SK_PREFIX) && negb (str_ltb MSG_HI k.2).
Proof.
  intros Ht Hi. apply eq_true_iff_eq. rewrite andb_true_iff, !negb_true_iff.
  assert (MSG_SK_PREFIX = lit "MSG" ++ [35%N] ∧ MSG_HI = lit "MSG" ++ [35 + 1]%N) as [-> H2] by done. rewrite H2. split.
  - apply band_prefix.
  - intros [Hlo Hhi]. apply prefix_band; [done..|]. rewrite <- H2. by eapply no_upper_bound.
Qed.

Lemma sk_of_message cid x : sk_of (at_seq cid x) = msg_sk x.1 (msg_id x.2).
Proof. reflexivity. Qed.
Lemma sk_of_key i pk sk : item_key i = Some (pk, sk) → sk_of i = sk.
Proof. unfold sk_of, item_key. by destruct (item_s i PK), (item_s i SK); intros; simplify_eq/=. Qed.

(** The range of a page's query, within the band. *)
Lemma band_range sk s (desc : bool) :
  str_ltb sk MSG_SK_PREFIX = false ∧ str_ltb MSG_HI sk = false →
  in_range (message_band (Some sk) desc) s =
  (negb (str_ltb s MSG_SK_PREFIX) && negb (str_ltb MSG_HI s)) && (if desc then negb (str_ltb sk s) else str_ltb sk s).
Proof.
  intros [Hlo Hhi]. apply eq_true_iff_eq. unfold message_band. destruct desc; simpl; rewrite !andb_true_iff, !negb_true_iff.
  - split; [|naive_solver]. intros [H1 H2]. split_and!; [done| |done].
    destruct (str_ltb MSG_HI s) eqn:E; [|done]. destruct (str_ltb s sk) eqn:E2.
    + by rewrite (str_ltb_trans _ _ _ E E2) in Hhi.
    + rewrite (str_ltb_total _ _ E2 H2) in E. congruence.
  - rewrite str_succ. unfold str_lt. split; [|naive_solver]. intros [H1 H2]. split_and!; [|done..].
    destruct (str_ltb s MSG_SK_PREFIX) eqn:E; [|done]. by rewrite (str_ltb_trans _ _ _ H1 E) in Hlo.
Qed.

(** The matches of a page's query are a part of the history. *)
Lemma band_filter t cid sk (desc : bool) q :
  dynamo_wf t → starts_with MSG_SK_PREFIX sk = true →
  q = mk_Query false (msg_pk cid) (message_band (Some sk) desc) (negb desc) (q_max q) →
  List.filter (λ i, if desc then negb (str_ltb sk (sk_of i)) else str_ltb sk (sk_of i)) (history t cid) ≡ₚ
  List.filter (answers_query q) (items_of (table t)).
Proof.
  intros Ht Hsk Hq. rewrite history_perm.
  assert (Hsk' : str_ltb sk MSG_SK_PREFIX = false ∧ str_ltb MSG_HI sk = false) by exact (band_prefix (lit "MSG") 35 sk Hsk).
  assert (Heq : ∀ i, i ∈ items_of (table t) →
    answers_query q i = answers_query (band cid) i && (if desc then negb (str_ltb sk (sk_of i)) else str_ltb sk (sk_of i))).
  { intros i Hi. unfold items_of in Hi. apply list_elem_of_fmap in Hi as ([[pk s] i'] & -> & Hi%elem_of_map_to_list).
    cbn [snd]. destruct (proj1 Ht _ _ Hi) as [Hkey _]. pose proof (in_band t _ _ Ht Hi) as Hb. cbn [snd] in Hb.
    rewrite Hq. unfold answers_query, keys_in, band, by_prefix. cbn [index_name partition sort_key].
    rewrite Hkey, (sk_of_key _ _ _ Hkey). destruct (str_eqb pk (msg_pk cid)); [|done]. cbn [andb].
    change (in_range (BeginsWith MSG_SK_PREFIX) s) with (starts_with MSG_SK_PREFIX s). rewrite Hb. by apply band_range. }
  clear Hq. induction (items_of (table t)) as [|i l IH]; [done|]. simpl. rewrite Heq by left.
  specialize (IH ltac:(intros j Hj; apply Heq; by right)).
  destruct (answers_query (band cid) i); simpl; [|done]. by destruct (if desc then _ else _); [constructor|].
Qed.

(** ** Paging *)

Definition read_all (xs : list (N * Message)) : list Message := (λ x, reread x.2) <$> xs.
Definition id_of (x : N * Message) : str := msg_id x.2.

Lemma mapM_body_to cid xs : mapM body_to (at_seq cid <$> xs) = Ok (read_all xs).
Proof.
  assert (Hat : ∀ x, body_to (at_seq cid x) = Ok (reread x.2)) by exact (λ x, body_to_message x.1 cid x.2).
  induction xs as [|x xs IH]; [done|]. rewrite fmap_cons. cbn [mapM]. rewrite Hat. cbn [mbind result_bind]. by rewrite IH.
Qed.

Lemma read_id x : msg_id (reread x) = msg_id x.
Proof. by pose proof (reread_key x) as [= -> _]. Qed.

Lemma last_read xs : msg_id <$> last (read_all xs) = id_of <$> last xs.
Proof.
  unfold read_all. rewrite fmap_last. destruct (last xs) as [x|]; [|done]. simpl. f_equal. apply read_id.
Qed.

(** The page of what follows, when the response holds it or its first [limit + 1]. *)
Lemma page_of_rest cid limit n xs :
  limit < n →
  page_of limit (at_seq cid <$> take n xs) =
    Ok (mk_MessagePage (read_all (take limit xs))
          (if limit <? length xs then id_of <$> last (take limit xs) else None)).
Proof.
  intros Hn. unfold page_of. rewrite length_fmap, length_take.
  destruct (Nat.ltb_spec limit (length xs)).
  - rewrite (proj2 (Nat.ltb_lt _ _)) by lia. rewrite <- fmap_take, take_take, Nat.min_l by lia.
    rewrite mapM_body_to. simpl. by rewrite last_read.
  - rewrite (proj2 (Nat.ltb_ge _ _)) by lia. rewrite !take_ge by lia. by rewrite mapM_body_to.
Qed.

Lemma page_of_short cid limit xs :
  length xs ≤ limit → page_of limit (at_seq cid <$> xs) = Ok (mk_MessagePage (read_all xs) None).
Proof.
  intros Hl. unfold page_of. rewrite length_fmap, (proj2 (Nat.ltb_ge _ _)) by lia. by rewrite mapM_body_to.
Qed.

Definition limit_ok (limit : nat) : Prop := 1 ≤ limit ∧ (N.of_nat limit + 1 <= i32_max)%N.

Lemma probe_one_more limit : limit_ok limit → N.to_nat (probe limit) = S limit.
Proof.
  intros [_ Hl]. unfold probe, saturating_add. assert (N.of_nat limit + 1 <= usize_max)%N.
  { etransitivity; [exact Hl|]. by vm_compute. }
  rewrite (N.min_l _ usize_max), N.min_l by assumption. lia.
Qed.

(** No query fails. *)
Definition answering t : Prop := ∀ q, is_ok (query t q) = true.

(** Message ids are unique in the table. *)
Definition ids_unique t : Prop := ∀ i j id,
  i ∈ items_of (table t) → j ∈ items_of (table t) →
  item_s i GSI1PK = Some (msg_id_gsi1pk id) → item_s j GSI1PK = Some (msg_id_gsi1pk id) → i = j.

Lemma settled_answer t q :
  settled t → answering t → ∃ full, answer (table t) q full ∧ query t q = Ok (at_most (q_max q) full).
Proof.
  intros Hst Hup. specialize (Hup q). destruct (query t q) as [l|] eqn:Hq; [|done]. apply query_answers in Hq as (full & n & Ha & _ & Hl). exists full.
  rewrite <- (settled_seen _ Hst). split; [exact Ha|f_equal; by apply Hl].
Qed.

Lemma history_in_table t cid i : dynamo_wf t → i ∈ history t cid → i ∈ items_of (table t).
Proof. intros Ht. rewrite history_perm, filter_elem. by intros [? _]. Qed.

Lemma cursor_found t cid x :
  dynamo_wf t → settled t → answering t → ids_unique t → at_seq cid x ∈ history t cid →
  message_sk_for_id t (id_of x) = Ok (Some (sk_of (at_seq cid x))).
Proof.
  intros Ht Hst Hup Hu Hx. unfold message_sk_for_id, sent.
  destruct (settled_answer t (by_gsi1 (msg_id_gsi1pk (id_of x))) Hst Hup) as (full & [Hp _] & ->). cbn [map_err mbind result_bind].
  assert (Hin : at_seq cid x ∈ full).
  { rewrite Hp, filter_elem. split; [by eapply history_in_table|]. unfold answers_query. simpl. by rewrite str_eqb_refl. }
  assert (Hall : ∀ i, i ∈ full → i = at_seq cid x).
  { intros i Hi. rewrite Hp, filter_elem in Hi. destruct Hi as [Hi Ha].
    eapply (Hu _ _ (id_of x)); [done|by eapply history_in_table| |done].
    unfold answers_query, keys_in in Ha. simpl in Ha. destruct (item_s i GSI1PK); [|done]. simpl in Ha.
    destruct (item_s i GSI1SK); [|done]. simpl in Ha. rewrite andb_true_r in Ha. apply str_eqb_true in Ha. by subst. }
  destruct full as [|i full]; [by apply elem_of_nil in Hin|]. simpl.
  by rewrite (Hall i (list_elem_of_here _ _)).
Qed.

Definition oriented {A} (desc : bool) (l : list A) : list A := if desc then reverse l else l.

(** The first page, in either direction. *)
Lemma first_page t cid limit desc l :
  dynamo_wf t → settled t → answering t → limit_ok limit → history t cid = at_seq cid <$> l →
  Dynamo.list_messages_by_conversation t (mk_MessageQuery cid limit None desc) =
  Ok (mk_MessagePage (read_all (take limit (oriented desc l)))
    (if limit <? length l then id_of <$> last (take limit (oriented desc l)) else None)).
Proof.
  intros Ht Hst Hup Hl Hh. unfold Dynamo.list_messages_by_conversation. cbn [q_cursor q_descending q_conversation_id q_limit mbind result_bind].
  set (q := mk_Query _ _ _ _ _). unfold sent.
  destruct (settled_answer t q Hst Hup) as (full & Ha & ->). cbn [map_err].
  assert (full = oriented desc (history t cid)) as ->.
  { rewrite (answer_unique t q full (history t cid)); [by destruct desc|done|done|done| |apply history_sorted].
    rewrite history_perm. by destruct desc. }
  rewrite Hh. replace (oriented desc (at_seq cid <$> l)) with (at_seq cid <$> oriented desc l)
    by by destruct desc; simpl; [rewrite fmap_reverse|].
  replace (length l) with (length (oriented desc l)) by by destruct desc; simpl; [rewrite length_reverse|].
  cbn [mbind result_bind]. rewrite filter_true by by destruct desc. subst q. cbn [q_max at_most]. rewrite <- fmap_take.
  rewrite page_of_rest by (rewrite probe_one_more by done; lia). done.
Qed.

(** A later page, oldest first: what follows the cursor. *)
Lemma page_after t cid limit l k x :
  dynamo_wf t → settled t → answering t → ids_unique t → limit_ok limit → history t cid = at_seq cid <$> l → l !! k = Some x →
  Dynamo.list_messages_by_conversation t (mk_MessageQuery cid limit (Some (id_of x)) false) =
  Ok (mk_MessagePage (read_all (take limit (drop (S k) l)))
    (if limit <? length (drop (S k) l) then id_of <$> last (take limit (drop (S k) l)) else None)).
Proof.
  intros Ht Hst Hup Hu Hl Hh Hk. unfold Dynamo.list_messages_by_conversation. cbn [q_cursor q_descending q_conversation_id q_limit].
  assert (Hx : history t cid !! k = Some (at_seq cid x)) by by rewrite Hh, list_lookup_fmap, Hk.
  rewrite (cursor_found t cid) by (done || by eapply list_elem_of_lookup_2). cbn [mbind result_bind ok_or fmap result_fmap].
  set (q := mk_Query _ _ _ _ _). unfold sent.
  destruct (settled_answer t q Hst Hup) as (full & Ha & ->). cbn [map_err].
  destruct (split_at (history t cid) k (at_seq cid x)) as [Hd _]; [apply history_sorted|by apply history_keys_NoDup|done|].
  assert (full = drop (S k) (history t cid)) as ->.
  { rewrite (answer_unique t q full (drop (S k) (history t cid))); [done|done|done|done| |].
    - rewrite <- Hd. rewrite <- (band_filter t cid (sk_of (at_seq cid x)) false q); done.
    - rewrite <- Hd. apply sorted_filter, history_sorted. }
  rewrite Hh, <- fmap_drop. cbn [mbind result_bind]. rewrite filter_true by done. subst q. cbn [q_max at_most]. rewrite <- fmap_take.
  rewrite page_of_rest by (rewrite probe_one_more by done; lia). done.
Qed.

(** A later page, newest first: what comes before the cursor, and no cursor for more.  The
    query's limit counts the cursor's own item, which is dropped from the response, so a
    further page never shows. *)
Lemma page_before t cid limit l k x :
  dynamo_wf t → settled t → answering t → ids_unique t → limit_ok limit → history t cid = at_seq cid <$> l → l !! k = Some x →
  Dynamo.list_messages_by_conversation t (mk_MessageQuery cid limit (Some (id_of x)) true) =
  Ok (mk_MessagePage (read_all (take limit (reverse (take k l)))) None).
Proof.
  intros Ht Hst Hup Hu Hl Hh Hk. unfold Dynamo.list_messages_by_conversation. cbn [q_cursor q_descending q_conversation_id q_limit].
  assert (Hx : history t cid !! k = Some (at_seq cid x)) by by rewrite Hh, list_lookup_fmap, Hk.
  rewrite (cursor_found t cid) by (done || by eapply list_elem_of_lookup_2). cbn [mbind result_bind ok_or fmap result_fmap].
  set (q := mk_Query _ _ _ _ _). unfold sent.
  destruct (settled_answer t q Hst Hup) as (full & Ha & ->). cbn [map_err].
  destruct (split_at (history t cid) k (at_seq cid x)) as [_ Hd]; [apply history_sorted|by apply history_keys_NoDup|done|].
  assert (full = reverse (take (S k) (history t cid))) as ->.
  { rewrite (answer_unique t q full (take (S k) (history t cid))); [done|done|done|done| |].
    - rewrite <- Hd. rewrite <- (band_filter t cid (sk_of (at_seq cid x)) true q); done.
    - rewrite <- Hd. apply sorted_filter, history_sorted. }
  pose proof (history_keys_NoDup t cid Ht) as Hnd. rewrite Hh in Hnd |- *.
  rewrite (take_S_r _ _ (at_seq cid x)) by by rewrite list_lookup_fmap, Hk. rewrite reverse_snoc.
  subst q. cbn [mbind result_bind q_max at_most]. rewrite probe_one_more by done. cbn [take].
  rewrite <- fmap_take, <- fmap_reverse, <- fmap_take. cbn [List.filter is_none_or].
  rewrite bool_decide_true by done. cbn [negb]. rewrite filter_true_in.
  - rewrite page_of_short by (rewrite length_take; lia). done.
  - intros i Hi. apply list_elem_of_fmap in Hi as (y & -> & Hy). apply elem_of_take in Hy as (j & Hy%list_elem_of_lookup_2 & _).
    apply elem_of_reverse, elem_of_take in Hy as (j' & Hj' & Hlt). apply negb_true_iff, bool_decide_eq_false. intros Hs.
    assert (j' = k); [|lia]. rewrite <- list_fmap_compose in Hnd.
    apply (NoDup_lookup _ _ _ (sk_of (at_seq cid x)) Hnd); rewrite list_lookup_fmap, ?Hj', ?Hk; [|done].
    simpl. unfold sk_of at 1. by rewrite Hs.
Qed.

Lemma read_all_app xs ys : read_all (xs ++ ys) = read_all xs ++ read_all ys.
Proof. apply fmap_app. Qed.

Lemma last_take {A} (l : list A) n : n < length l → last (take (S n) l) = l !! n.
Proof. intros Hn. rewrite last_lookup, length_take, Nat.min_l by lia. simpl. by rewrite lookup_take_lt by lia. Qed.

(** The pages of [ms], read to the last one, at most [n] of them and none longer than asked. *)
Definition pages_of (limit n : nat) (ms : list Message) (o : option (result error (list (list Message)))) : Prop :=
  ∃ pages, o = Some (Ok pages) ∧ concat pages = ms ∧ length pages ≤ n ∧ Forall (λ page, length page ≤ limit) pages.

Lemma last_page limit n ms : length ms ≤ limit → 1 ≤ n → pages_of limit n ms (Some (Ok [ms])).
Proof. intros Hl Hn. exists [ms]. split_and!; [done|apply app_nil_r|done|by repeat constructor]. Qed.

Lemma next_page limit n page ms o :
  length page ≤ limit → pages_of limit n ms o →
  pages_of limit (S n) (page ++ ms)
    match o with Some (Ok pages) => Some (Ok (page :: pages)) | Some (Err e) => Some (Err e) | None => None end.
Proof.
  intros Hl (pages & -> & <- & Hn & Hall). exists (page :: pages). split_and!; [done|done|simpl; lia|by constructor].
Qed.

Lemma pages_of_le limit n n' ms o : n ≤ n' → pages_of limit n ms o → pages_of limit n' ms o.
Proof. intros Hle (pages & ? & ? & ? & ?). exists pages. split_and!; [done..|lia|done]. Qed.

Lemma length_read_all xs : length (read_all xs) = length xs.
Proof. apply length_fmap. Qed.

(** The rest of the pages, oldest first, after the message at [k]. *)
Lemma walk_after t cid limit l fuel k x :
  dynamo_wf t → settled t → answering t → ids_unique t → limit_ok limit → history t cid = at_seq cid <$> l →
  l !! k = Some x → length l - k ≤ fuel →
  pages_of limit (Nat.max 1 (length l - S k)) (read_all (drop (S k) l))
    (read_pages t cid limit false fuel (Some (id_of x))).
Proof.
  intros Ht Hst Hup Hu Hl Hh. revert k x. induction fuel as [|fuel IH]; intros k x Hk Hf.
  { pose proof (lookup_lt_Some _ _ _ Hk). lia. }
  cbn [read_pages Storage.list_messages_by_conversation dynamo_adapter].
  rewrite (page_after t cid limit l k x) by done. cbn [next_cursor page_messages].
  assert (length (read_all (take limit (drop (S k) l))) ≤ limit) as Hpage by (rewrite length_read_all, length_take; lia).
  rewrite length_drop. destruct (Nat.ltb_spec limit (length l - S k)) as [Hlt|Hge].
  - destruct Hl as [Hl Hl2]. destruct limit as [|limit]; [lia|].
    rewrite last_take by (rewrite length_drop; lia). rewrite lookup_drop.
    destruct (lookup_lt_is_Some_2 l (S k + limit) ltac:(lia)) as [y Hy]. rewrite Hy. cbn [fmap option_fmap option_map].
    rewrite <- (take_drop (S limit) (drop (S k) l)) at 1. rewrite read_all_app, drop_drop.
    replace (S k + S limit) with (S (S k + limit)) by lia.
    eapply pages_of_le; [|apply next_page; [exact Hpage|apply (IH (S k + limit) y); [done|lia]]]. lia.
  - rewrite take_ge in Hpage |- * by (rewrite length_drop; lia). apply last_page; [exact Hpage|lia].
Qed.

Lemma walk_forward t cid limit l fuel :
  dynamo_wf t → settled t → answering t → ids_unique t → limit_ok limit → history t cid = at_seq cid <$> l →
  length l < fuel →
  pages_of limit (Nat.max 1 (length l)) (read_all l) (read_pages t cid limit false fuel None).
Proof.
  intros Ht Hst Hup Hu Hl Hh Hf. destruct fuel as [|fuel]; [lia|].
  cbn [read_pages Storage.list_messages_by_conversation dynamo_adapter].
  rewrite (first_page t cid limit false l) by done. cbn [next_cursor page_messages oriented].
  assert (length (read_all (take limit l)) ≤ limit) as Hpage by (rewrite length_read_all, length_take; lia).
  destruct (Nat.ltb_spec limit (length l)) as [Hlt|Hge].
  - pose proof Hl as [Hl1 _]. destruct limit as [|limit]; [lia|]. rewrite last_take by lia.
    destruct (lookup_lt_is_Some_2 l limit ltac:(lia)) as [y Hy]. rewrite Hy. cbn [fmap option_fmap option_map].
    rewrite <- (take_drop (S limit) l) at 2. rewrite read_all_app.
    eapply pages_of_le; [|apply next_page; [exact Hpage|apply (walk_after t cid (S limit) l fuel limit y)]]; done || lia.
  - rewrite take_ge in Hpage |- * by lia. apply last_page; [exact Hpage|lia].
Qed.

Lemma reverse_take {A} (l : list A) k : reverse (take k l) = drop (length l - k) (reverse l).
Proof.
  rewrite <- (take_drop k l) at 3. rewrite reverse_app, drop_app_length'; [done|].
  by rewrite length_reverse, length_drop.
Qed.

Lemma walk_back t cid limit l fuel :
  dynamo_wf t → settled t → answering t → ids_unique t → limit_ok limit → history t cid = at_seq cid <$> l →
  2 ≤ fuel →
  pages_of limit 2 (read_all (take (limit + limit) (reverse l))) (read_pages t cid limit true fuel None).
Proof.
  intros Ht Hst Hup Hu Hl Hh Hf. destruct fuel as [|[|fuel]]; [lia..|].
  cbn [read_pages Storage.list_messages_by_conversation dynamo_adapter].
  rewrite (first_page t cid limit true l) by done. cbn [next_cursor page_messages oriented].
  assert (∀ xs, length (read_all (take limit xs)) ≤ limit) as Hpage by (intros xs; rewrite length_read_all, length_take; lia).
  destruct (Nat.ltb_spec limit (length l)) as [Hlt|Hge].
  - pose proof Hl as [Hl1 _].
    assert (Hlast : last (take limit (reverse l)) = l !! (length l - limit)).
    { destruct limit as [|limit]; [lia|]. rewrite last_take by (rewrite length_reverse; lia).
      rewrite reverse_lookup by lia. f_equal. }
    rewrite Hlast. destruct (lookup_lt_is_Some_2 l (length l - limit) ltac:(lia)) as [y Hy]. rewrite Hy.
    cbn [fmap option_fmap option_map].
    rewrite (page_before t cid limit l (length l - limit) y) by done.
    cbn [next_cursor page_messages].
    rewrite reverse_take. replace (length l - (length l - limit)) with limit by lia.
    rewrite <- take_take_drop, read_all_app. by apply (next_page limit 1 _ _ (Some (Ok [_]))), last_page.
  - specialize (Hpage (reverse l)). rewrite !take_ge in * by (rewrite length_reverse; lia).
    apply last_page; [exact Hpage|lia].
Qed.

(** ** Appending *)

Definition counter_key (cid : str) : str * str := (seq_counter_pk cid, SEQ_COUNTER_SK).

(** Every message of a conversation was counted. *)
Definition counted t : Prop := ∀ cid x,
  at_seq cid x ∈ history t cid → (Z.of_N x.1 <= seq_of (table t) (counter_key cid))%Z.

Definition in_band_key (cid : str) (k : str * str) : bool := str_eqb k.1 (msg_pk cid) && starts_with MSG_SK_PREFIX k.2.

Lemma answers_band cid i k : item_key i = Some k → answers_query (band cid) i = in_band_key cid k.
Proof. intros Hk. unfold answers_query, keys_in. simpl. rewrite Hk. by destruct k. Qed.

Lemma items_of_insert (m : gmap (str * str) Item) k i : items_of (<[k := i]> m) ≡ₚ i :: items_of (delete k m).
Proof.
  unfold items_of. rewrite <- insert_delete_eq. rewrite map_to_list_insert by apply lookup_delete_eq. done.
Qed.

(** What a write adds to the band of a conversation. *)
Lemma band_insert m cid k i :
  keyed m → item_key i = Some k → (in_band_key cid k = true → m !! k = None) →
  List.filter (answers_query (band cid)) (items_of (<[k := i]> m)) ≡ₚ
  (if in_band_key cid k then [i] else []) ++ List.filter (answers_query (band cid)) (items_of m).
Proof.
  intros Hm Hk Hnew. rewrite items_of_insert. simpl. rewrite (answers_band cid i k Hk).
  destruct (in_band_key cid k) eqn:Eb.
  - by rewrite delete_id by by apply Hnew.
  - simpl. destruct (m !! k) as [j|] eqn:Ej; [|by rewrite delete_id].
    rewrite <- (insert_id m k j Ej) at 2. rewrite items_of_insert. simpl.
    by rewrite (answers_band cid j k), Eb by apply (Hm _ _ Ej).
Qed.

Lemma history_is t cid l :
  dynamo_wf t → l ≡ₚ List.filter (answers_query (band cid)) (items_of (table t)) → sorted sk_leb l → history t cid = l.
Proof.
  intros Ht Hl Hs. symmetry. apply (answer_unique t (band cid) l (history t cid)); [done|done| | |apply history_sorted].
  - split; [done|]. simpl. assert (Hin : ∀ i, i ∈ l → is_Some (item_key i)).
    { intros i Hi. rewrite Hl, filter_elem in Hi. destruct Hi as [_ Ha]. unfold answers_query, keys_in in Ha. simpl in Ha.
      by destruct (item_key i). }
    clear Hl. induction Hs as [|i l Hs IH Hi]; [constructor|]. constructor; [apply IH; intros j Hj; apply Hin; by right|].
    rewrite Forall_forall in Hi |- *. intros j Hj. unfold key_order.
    rewrite !sort_of_base by (done || (apply Hin; by (left || right))). by apply negb_true_iff, Hi.
  - apply history_perm.
Qed.

Lemma history_insert_other t t' cid k i :
  dynamo_wf t → dynamo_wf t' → table t' = <[k := i]> (table t) → item_key i = Some k → in_band_key cid k = false →
  history t' cid = history t cid.
Proof.
  intros Ht Ht' Htab Hk Hb. apply history_is; [done| |apply history_sorted].
  rewrite Htab, band_insert; [|apply Ht|done|by rewrite Hb]. rewrite Hb. apply history_perm.
Qed.

Lemma sorted_snoc l x : sorted sk_leb l → (∀ y, y ∈ l → sk_leb y x = true) → sorted sk_leb (l ++ [x]).
Proof.
  induction 1 as [|y l Hs IH Hy]; intros Hx; simpl; [by repeat constructor|].
  constructor; [apply IH; intros z Hz; apply Hx; by right|]. apply Forall_app. split; [done|].
  constructor; [|constructor]. apply Hx. left.
Qed.

Lemma append_last t t' cid seq m :
  dynamo_wf t → dynamo_wf t' → u64_fits seq →
  table t' = <[(msg_pk cid, msg_sk seq (msg_id m)) := message_item seq cid m]> (table t) →
  (∀ x, at_seq cid x ∈ history t cid → (x.1 < seq)%N) →
  history t' cid = history t cid ++ [at_seq cid (seq, m)] ∧ (∀ cid', cid' ≠ cid → history t' cid' = history t cid').
Proof.
  intros Ht Ht' Hu Htab Hlt. destruct (history_messages t cid Ht) as [l Hl].
  assert (Hbefore : ∀ y, y ∈ history t cid → str_lt (sk_of y) (msg_sk seq (msg_id m))).
  { intros y Hy. rewrite Hl in Hy. apply list_elem_of_fmap in Hy as (x & -> & Hx).
    assert (x.1 < seq)%N by (apply Hlt; rewrite Hl; by apply list_elem_of_fmap_2).
    rewrite sk_of_message. apply msg_sk_lt; [unfold u64_fits in *; lia|done..]. }
  split.
  - apply history_is; [done| |].
    + rewrite Htab, band_insert; [|apply Ht|apply message_keys|].
      * assert (in_band_key cid (msg_pk cid, msg_sk seq (msg_id m)) = true) as ->
          by (unfold in_band_key; simpl; by rewrite str_eqb_refl).
        rewrite <- history_perm, Permutation_app_comm. done.
      * intros _. destruct (table t !! _) as [i|] eqn:Ei; [|done]. exfalso.
        assert (i ∈ history t cid) as Hin.
        { apply history_elem; [done|]. exists (msg_sk seq (msg_id m)). split_and!; [apply (proj1 Ht _ _ Ei)|done|done]. }
        specialize (Hbefore i Hin). rewrite (sk_of_key i _ _ (proj1 (proj1 Ht _ _ Ei))) in Hbefore.
        unfold str_lt in Hbefore. by rewrite str_ltb_irrefl in Hbefore.
    + apply sorted_snoc; [apply history_sorted|]. intros y Hy. unfold sk_leb, key_leb. apply negb_true_iff.
      rewrite sk_of_message. simpl. destruct (str_ltb _ (sk_of y)) eqn:E; [|done].
      pose proof (str_ltb_trans _ _ _ E (Hbefore y Hy)) as Hc. by rewrite str_ltb_irrefl in Hc.
  - intros cid' Hne. eapply history_insert_other; [done..|apply message_keys|]. unfold in_band_key. simpl.
    rewrite (proj2 (str_eqb_false _ _)); [done|]. by intros ?%(inj msg_pk).
Qed.

Definition dynamo_inv t : Prop := dynamo_wf t ∧ counted t.

(** A write that is no message and no counter leaves the histories and the counters. *)
Definition plain_key (k : str * str) : bool := negb (starts_with MSG_SK_PREFIX k.2) && negb (str_eqb k.2 SEQ_COUNTER_SK).

Lemma plain_not_in_band cid k : plain_key k = true → in_band_key cid k = false.
Proof. unfold plain_key, in_band_key. intros [Hk _]%andb_true_iff. apply negb_true_iff in Hk. by rewrite Hk, andb_false_r. Qed.

Lemma counted_plain t t' k i :
  dynamo_wf t → dynamo_wf t' → item_key i = Some k → plain_key k = true → table t' = <[k := i]> (table t) →
  counted t → counted t'.
Proof.
  intros Ht Ht' Hk Hp Htab Hc cid x.
  rewrite (history_insert_other t t' cid k i) by (done || by apply plain_not_in_band). intros Hx.
  unfold seq_of. rewrite Htab, lookup_insert_ne; [by apply Hc|]. intros ->. unfold plain_key in Hp. by vm_compute in Hp.
Qed.

Lemma counted_same t t' : table t' = table t → counted t → counted t'.
Proof. intros Htab Hc cid x. unfold history. rewrite Htab. apply Hc. Qed.

Lemma put_item_inv i t :
  item_ok i → is_some_and plain_key (item_key i) = true → dynamo_inv t → dynamo_inv (put_item i t).2.
Proof.
  intros Hi Hp [Ht Hc]. pose proof (put_item_wf i t Hi Ht) as Ht'. split; [done|].
  destruct (put_item i t) as [r t'] eqn:E. simpl in *. apply put_item_stores in E as [_ [(k & Hk & Htab)|[_ Htab]]].
  - rewrite Hk in Hp. by eapply (counted_plain t).
  - by eapply counted_same.
Qed.

Lemma put_new_inv i t :
  item_ok i → is_some_and plain_key (item_key i) = true → dynamo_inv t → dynamo_inv (put_item_if_absent i t).2.
Proof.
  intros Hi Hp [Ht Hc]. pose proof (put_new_wf i t Hi Ht) as Ht'. split; [done|].
  destruct (put_item_if_absent i t) as [r t'] eqn:E. simpl in *.
  apply put_item_if_absent_stores in E as [_ [(_ & k & Hk & _ & Htab)|(_ & Htab & _)]].
  - rewrite Hk in Hp. by eapply (counted_plain t).
  - by eapply counted_same.
Qed.

(** The counter moves on, and nothing else does. *)
Lemma counter_inv cid t r t' :
  add_one (seq_counter_pk cid) SEQ_COUNTER_SK t = (r, t') → dynamo_inv t →
  dynamo_inv t' ∧ (∀ cid', history t' cid' = history t cid') ∧
  ∀ attributes, r = Ok attributes →
    assoc SEQ attributes = Some (AttrN (seq_of (table t) (counter_key cid) + 1)) ∧
    seq_of (table t') (counter_key cid) = (seq_of (table t) (counter_key cid) + 1)%Z.
Proof.
  intros E [Ht Hc]. pose proof (counter_wf cid t Ht) as Ht'. rewrite E in Ht'. simpl in Ht'.
  apply add_one_counts in E as [_ [(i & Hk & _ & Hseq & Htab & Hr)|[Hr Htab]]].
  - assert (Hh : ∀ cid', history t' cid' = history t cid').
    { intros cid'. eapply history_insert_other; [done..|exact Hk|]. unfold in_band_key. simpl. by rewrite andb_false_r. }
    assert (Hs : seq_of (table t') (counter_key cid) = (seq_of (table t) (counter_key cid) + 1)%Z).
    { unfold seq_of at 1. rewrite Htab. unfold counter_key at 1. rewrite lookup_insert_eq. simpl. by rewrite Hseq. }
    split_and!; [|done|by intros attributes Ha; split; [apply Hr|]]. split; [done|].
    intros cid' x. rewrite Hh. intros Hx. specialize (Hc _ _ Hx).
    destruct (decide (cid' = cid)) as [->|Hne]; [lia|].
    unfold seq_of in *. rewrite Htab, lookup_insert_ne; [done|]. unfold counter_key. intros Heq. apply Hne.
    apply pair_eq in Heq as [Heq _]. symmetry. exact (inj msg_pk _ _ Heq).
  - split_and!; [split; [done|by eapply counted_same]| |by intros ? ->].
    intros cid'. unfold history. by rewrite Htab.
Qed.

Lemma append_message_spec m t r t' :
  Dynamo.append_message m t = (r, t') → dynamo_inv t →
  dynamo_inv t' ∧
  (∀ m', r = Ok m' → m' = m ∧ ∃ cid seq, msg_conversation_id m = Some cid ∧
     history t' cid = history t cid ++ [at_seq cid (seq, m)] ∧
     ∀ cid', cid' ≠ cid → history t' cid' = history t cid').
Proof.
  intros E Hinv. unfold Dynamo.append_message in E. destruct (msg_conversation_id m) as [cid|] eqn:Em; [|by simplify_eq].
  unfold next_message_seq in E. destruct (add_one _ _ t) as [ra t1] eqn:Ea.
  destruct (counter_inv _ _ _ _ Ea Hinv) as (Hinv1 & Hh1 & Hseq).
  destruct ra as [attributes|]; [|simpl in E; by simplify_eq]. destruct (Hseq _ eq_refl) as [Ha Hs1]. cbn [sent map_err mbind result_bind] in E.
  rewrite Ha in E. cbn [mbind option_bind as_n ok_or result_bind] in E. set (n := (seq_of (table t) (counter_key cid) + 1)%Z) in *.
  destruct ((0 <=? n)%Z && (n <? 2 ^ 64)%Z) eqn:En; [|by simplify_eq].
  apply andb_true_iff in En as [Hn0%Z.leb_le Hn64%Z.ltb_lt]. set (seq := Z.to_N n) in *.
  assert (Hu : u64_fits seq) by (unfold u64_fits, seq; lia).
  destruct (put_item _ t1) as [rp t2] eqn:Ep. injection E as <- <-.
  pose proof (put_item_wf _ t1 (ok_message seq cid m Em) (proj1 Hinv1)) as Ht2. rewrite Ep in Ht2. simpl in Ht2.
  assert (Hlt : ∀ x, at_seq cid x ∈ history t1 cid → (x.1 < seq)%N).
  { intros x Hx. rewrite Hh1 in Hx. pose proof (proj2 Hinv _ _ Hx). unfold seq. lia. }
  apply put_item_stores in Ep as [_ [(k & Hk & Htab)|[Hr Htab]]].
  - rewrite message_keys in Hk. injection Hk as <-.
    destruct (append_last t1 t2 cid seq m (proj1 Hinv1) Ht2 Hu Htab Hlt) as [H1 H2].
    rewrite Hh1 in H1. assert (H2' : ∀ cid', cid' ≠ cid → history t2 cid' = history t cid') by (intros; by rewrite H2, Hh1).
    assert (Hsq : ∀ cid', seq_of (table t2) (counter_key cid') = seq_of (table t1) (counter_key cid')).
    { intros cid'. unfold seq_of. rewrite Htab, lookup_insert_ne; [done|].
      unfold counter_key. intros [_ Hs]%pair_eq. apply (f_equal (firstn 1)) in Hs. by vm_compute in Hs. }
    split.
    + split; [done|]. intros cid' x Hx. rewrite Hsq. destruct (decide (cid' = cid)) as [->|Hne].
      * rewrite H1 in Hx. apply elem_of_app in Hx as [Hx|Hx].
        -- apply (proj2 Hinv1). by rewrite Hh1.
        -- apply list_elem_of_singleton in Hx. apply (f_equal (λ i, assoc SEQ i)) in Hx. simpl in Hx. injection Hx as Hx.
           rewrite Hs1. unfold seq in Hx. lia.
      * rewrite H2' in Hx by done. apply (proj2 Hinv1). by rewrite Hh1.
    + intros m'. destruct rp; [|done]. simpl. intros [= <-]. split; [done|]. by exists cid, seq.
  - split; [split; [done|by eapply counted_same, Hinv1]|]. by destruct rp.
Qed.

(** ** Reachable tables *)

(** One call of the adapter, or the service catching up on the reads. *)
Inductive dynamo_step t : T → Prop :=
| step_create_conversation c : dynamo_step t (Dynamo.create_conversation c t).2
| step_update_conversation id u now : dynamo_step t (Dynamo.update_conversation id u now t).2
| step_add_participant p : dynamo_step t (Dynamo.add_participant p t).2
| step_append_message m : dynamo_step t (Dynamo.append_message m t).2
| step_create_session s : dynamo_step t (Dynamo.create_session s t).2
| step_update_session id u now : dynamo_step t (Dynamo.update_session id u now t).2
| step_replicate t' : table t' = table t → evolves (seen t) (table t') (seen t') → dynamo_step t t'.

Lemma create_conversation_inv c t : dynamo_inv t → dynamo_inv (Dynamo.create_conversation c t).2.
Proof.
  intros Ht. unfold Dynamo.create_conversation. pose proof (put_new_inv _ t (ok_claim c) eq_refl Ht) as H1.
  destruct (put_item_if_absent _ t) as [[u|[|e]] t1]; simpl in *; [|done..].
  pose proof (put_item_inv _ t1 (ok_conversation c) eq_refl H1). by destruct (put_item _ t1).
Qed.

Lemma update_conversation_inv id u now t : dynamo_inv t → dynamo_inv (Dynamo.update_conversation id u now t).2.
Proof.
  intros Ht. unfold Dynamo.update_conversation. destruct (_ ≫= _) as [c|]; [|done]. simpl.
  set (c' := InMemory.apply_conversation_update u now c).
  pose proof (put_item_inv _ t (ok_conversation c') eq_refl Ht) as H1. destruct (put_item _ t) as [r t1]. simpl in H1.
  destruct (sent _ r); [|done].
  pose proof (put_item_inv _ t1 (ok_claim c') eq_refl H1). by destruct (put_item _ t1).
Qed.

Lemma create_session_inv s t : dynamo_inv t → dynamo_inv (Dynamo.create_session s t).2.
Proof.
  intros Ht. unfold Dynamo.create_session. pose proof (put_item_inv _ t (ok_session s) eq_refl Ht). by destruct (put_item _ t).
Qed.

Lemma dynamo_step_inv t t' : dynamo_step t t' → dynamo_inv t → dynamo_inv t'.
Proof.
  intros Hstep Ht. destruct Hstep as [c|id u now|p|m|s|id u now|t' Htab Hev].
  - by apply create_conversation_inv.
  - by apply update_conversation_inv.
  - unfold Dynamo.add_participant.
    assert (is_some_and plain_key (item_key (participant_item p)) = true) as Hp by by rewrite participant_keys.
    pose proof (put_item_inv _ t (ok_participant p) Hp Ht). by destruct (put_item _ t).
  - destruct (Dynamo.append_message m t) as [r t'] eqn:E. by apply (append_message_spec m t r).
  - by apply create_session_inv.
  - unfold Dynamo.update_session. destruct (_ ≫= _); [by apply create_session_inv|done].
  - destruct Ht as [[Ht Hs] Hc]. split; [split|by eapply counted_same].
    + by rewrite Htab.
    + eapply evolves_keyed; [exact Hev|done|by rewrite Htab].
Qed.

Lemma dynamo_reachable_inv t t' : rtc dynamo_step t t' → dynamo_inv t → dynamo_inv t'.
Proof. induction 1; eauto using dynamo_step_inv. Qed.

Lemma empty_inv t : table t = ∅ → seen t = ∅ → dynamo_inv t.
Proof.
  intros Ht Hs. split; [split; unfold keyed; rewrite ?Ht, ?Hs; apply map_Forall_empty|].
  intros cid x. unfold history, items_of. rewrite Ht, map_to_list_empty. simpl. by intros ?%elem_of_nil.
Qed.

(** A lookup through the index, with what the index can hold under its key. *)
Lemma lookup_first {A} `{!Serde A} t gpk what (x : A) :
  dynamo_wf t → (items ← sent what (query t (by_gsi1 gpk)); first_body items) = Ok (Some x) →
  ∃ i, indexed gpk i ∧ body_to i = Ok x.
Proof.
  intros Ht. unfold sent. destruct (query t _) as [[|i l]|] eqn:Hq; [done| |done]. simpl.
  destruct (body_to i) as [y|] eqn:Ey; [|done]. intros [= <-]. exists i. split; [|done].
  eapply by_gsi1_elem; [done|exact Hq|left].
Qed.

Ltac other_index H := apply (f_equal (firstn 1)) in H; by vm_compute in H.

Lemma conversation_looked_up id c : (∃ i, indexed (conv_id_gsi1pk id) i ∧ body_to i = Ok c) → conv_id c = id.
Proof.
  intros (i & Hi & Hb). inversion Hi as [d Hd|p ext _ Hd|seq cid m _ Hd|s Hd|j Hd]; subst; try other_index Hd.
  - rewrite body_to_conversation in Hb. injection Hb as <-. apply (inj conv_id_gsi1pk) in Hd.
    by pose proof (reread_key d) as [= -> _ _].
  - by vm_compute in Hd.
Qed.

Lemma message_looked_up id m : (∃ i, indexed (msg_id_gsi1pk id) i ∧ body_to i = Ok m) → msg_id m = id.
Proof.
  intros (i & Hi & Hb). inversion Hi as [d Hd|p ext _ Hd|seq cid m' _ Hd|s Hd|j Hd]; subst; try other_index Hd.
  - rewrite body_to_message in Hb. injection Hb as <-. apply (inj msg_id_gsi1pk) in Hd. by rewrite read_id.
  - by vm_compute in Hd.
Qed.

Lemma session_looked_up id s : (∃ i, indexed (sess_gsi1pk id) i ∧ body_to i = Ok s) → session_id s = id.
Proof.
  intros (i & Hi & Hb). inversion Hi as [d Hd|p ext _ Hd|seq cid m' _ Hd|s' Hd|j Hd]; subst; try other_index Hd.
  - rewrite body_to_session in Hb. injection Hb as <-. apply (inj sess_gsi1pk) in Hd.
    by pose proof (reread_key s') as [= -> _].
  - by vm_compute in Hd.
Qed.

Lemma external_looked_up cid ext p :
  (∃ i, indexed (part_external_gsi1pk cid ext) i ∧ body_to i = Ok p) →
  ∃ ext', part_external_id p = Some ext' ∧
    part_external_gsi1pk (part_conversation_id p) ext' = part_external_gsi1pk cid ext.
Proof.
  intros (i & Hi & Hb). inversion Hi as [d Hd|p' ext' He Hd|seq mcid m' _ Hd|s' Hd|j Hd]; subst; try other_index Hd.
  - rewrite body_to_participant in Hb. injection Hb as <-. pose proof (reread_key p') as [= _ -> ->]. by exists ext'.
  - by vm_compute in Hd.
Qed.

Lemma participant_sk p : item_s (participant_item p) SK = Some (part_sk (part_id p)).
Proof. reflexivity. Qed.

Lemma participant_scanned t id l p :
  dynamo_wf t → scan_sk t (part_sk id) = Ok l → first_body l = Ok (Some p) → part_id p = id.
Proof.
  intros [_ Hs] Hl Hp. destruct l as [|i l]; [done|]. cbn [first_body] in Hp.
  destruct (scan_answers _ _ _ Hl i (list_elem_of_here _ _)) as [Hi Hsk]. unfold items_of in Hi.
  apply list_elem_of_fmap in Hi as ([k j] & -> & Hk%elem_of_map_to_list). cbn [snd] in *.
  destruct (Hs _ _ Hk) as [_ Hok]. destruct Hok as [c|c|q|seq cid m Hm|s|j Ho _];
    try (apply (f_equal (default [])) in Hsk; apply (f_equal (firstn 3)) in Hsk; by vm_compute in Hsk).
  - rewrite body_to_participant in Hp. injection Hp as <-. rewrite participant_sk in Hsk. apply (inj Some), (inj part_sk) in Hsk. subst id.
    by pose proof (reread_key q) as [= -> _ _].
  - rewrite Hsk in Ho. by vm_compute in Ho.
Qed.

Lemma create_under_claim t c c' r t' :
  settled t → (∀ i r1 t1, put_item_if_absent i t = (r1, t1) → settled t1) →
  table t !! (conv_pk (conv_organization_id c), conv_idem_sk (idempotency_key c)) = Some (claim_item c) →
  conv_organization_id c' = conv_organization_id c → idempotency_key c' = idempotency_key c →
  Dynamo.create_conversation c' t = (Ok r, t') → r = reread c ∧ table t' = table t ∧ settled t'.
Proof.
  intros Hst Hsettles Hclaim Horg Hkey Hcreate. unfold Dynamo.create_conversation in Hcreate.
  destruct (put_item_if_absent (claim_item c') t) as [rp t1] eqn:Ep. pose proof (Hsettles _ _ _ Ep) as Hst1.
  apply put_item_if_absent_stores in Ep as [_ [(_ & k & Hk & Hnone & _)|(Hr & Htab & _)]].
  { rewrite claim_keys, Horg, Hkey in Hk. injection Hk as <-. congruence. }
  destruct rp as [|[|e]]; [done| |done].
  unfold resolve_conversation_by_idempotency, sent in Hcreate.
  destruct (get_item t1 _ _) as [o|] eqn:Eg; [|done]. apply get_item_reads in Eg.
  rewrite settled_seen, Htab, Horg, Hkey, Hclaim in Eg by done. subst o. cbn [map_err mbind result_bind] in Hcreate.
  rewrite body_to_claim in Hcreate. cbn in Hcreate. by injection Hcreate as <- <-.
Qed.

(** ** Theorems *)

(** C19. Whatever calls the adapter made on an empty table, and however far reads lag behind
    them: a listing by organization returns that organization's conversations, once each, a
    participant listing the conversation's participants, and a lookup by id a record of that
    id; a lookup by external id returns a participant of the conversation with that external
    id when the conversation ids hold no [#], the separator of the key. *)
Theorem dynamo_lookups_exact t0 t
    (Htable : table t0 = ∅) (Hseen : seen t0 = ∅) (Hrun : rtc dynamo_step t0 t) :
  (∀ org cs, Dynamo.list_conversations_by_org t org = Ok cs →
     Forall (λ c, conv_organization_id c = org) cs ∧ NoDup (conv_id <$> cs)) ∧
  (∀ cid ps, Dynamo.list_participants_by_conversation t cid = Ok ps → Forall (λ p, part_conversation_id p = cid) ps) ∧
  (∀ id c, Dynamo.get_conversation t id = Ok (Some c) → conv_id c = id) ∧
  (∀ id p, Dynamo.get_participant t id = Ok (Some p) → part_id p = id) ∧
  (∀ id m, Dynamo.get_message t id = Ok (Some m) → msg_id m = id) ∧
  (∀ id s, Dynamo.get_session t id = Ok (Some s) → session_id s = id) ∧
  (∀ cid ext p, Dynamo.resolve_participant_by_external_id t cid ext = Ok (Some p) →
     35%N ∉ cid → 35%N ∉ part_conversation_id p →
     part_conversation_id p = cid ∧ part_external_id p = Some ext).
Proof.
  pose proof (proj1 (dynamo_reachable_inv _ _ Hrun (empty_inv _ Htable Hseen))) as Ht. split_and!.
  - intros org cs. apply (@list_by_org_scoped T dynamo_adapter dynamo_storage_laws t org cs Ht).
  - intros cid ps. apply (@list_participants_scoped T dynamo_adapter dynamo_storage_laws t cid ps Ht).
  - intros id c Hc. eapply conversation_looked_up, lookup_first; [exact Ht|exact Hc].
  - intros id p. unfold Dynamo.get_participant, sent. destruct (scan_sk t _) as [l|] eqn:El; [|done].
    by eapply participant_scanned.
  - intros id m Hm. eapply message_looked_up, lookup_first; [exact Ht|exact Hm].
  - intros id s Hs. eapply session_looked_up, lookup_first; [exact Ht|exact Hs].
  - intros cid ext p Hp H1 H2. destruct (external_looked_up cid ext p) as (ext' & He & Hk).
    { eapply lookup_first; [exact Ht|exact Hp]. }
    destruct (external_key_inj _ _ _ _ H2 H1 Hk) as [-> ->]. done.
Qed.

(** C20. Appending a message that succeeds puts it last in its conversation, in the key order
    that every listing follows, and changes no other conversation: on any table the adapter
    made, the padded counter keeps key order the order of appending. *)
Theorem dynamo_append_order t0 t m r t'
    (Htable : table t0 = ∅) (Hseen : seen t0 = ∅) (Hrun : rtc dynamo_step t0 t)
    (Happ : Dynamo.append_message m t = (Ok r, t')) :
  r = m ∧ ∃ cid seq, msg_conversation_id m = Some cid ∧
    history t' cid = history t cid ++ [at_seq cid (seq, m)] ∧
    ∀ cid', cid' ≠ cid → history t' cid' = history t cid'.
Proof.
  pose proof (dynamo_reachable_inv _ _ Hrun (empty_inv _ Htable Hseen)) as Ht.
  by apply (append_message_spec _ _ _ _ Happ Ht).
Qed.

(** C21. Reading a conversation oldest first, page by page, ends, and returns its whole
    history in order: on a settled table with unique message ids, while the service answers,
    and at any page size from one to [i32::MAX - 1] (what the query's own limit can count),
    following [next_cursor] from the first page reaches a last page, after at most as many
    pages as messages (or the one of an empty conversation), none longer than asked; together
    they are every message, once, in the order of appending. *)
Theorem dynamo_forward_paging t cid limit
    (Hinv : dynamo_inv t) (Hst : settled t) (Hup : answering t) (Hids : ids_unique t) (Hl : limit_ok limit) :
  ∃ l, history t cid = at_seq cid <$> l ∧
    ∀ fuel, length l < fuel → ∃ pages, read_pages t cid limit false fuel None = Some (Ok pages) ∧
      concat pages = read_all l ∧ length pages ≤ Nat.max 1 (length l) ∧
      Forall (λ page, length page ≤ limit) pages.
Proof.
  destruct Hinv as [Ht _]. destruct (history_messages t cid Ht) as [l Hh]. exists l. split; [done|].
  intros fuel Hf. by apply walk_forward.
Qed.

(** C22. Reading it newest first ends after two pages, however long it is, at any page size
    from one to [i32::MAX - 1]: the query behind a later page counts the cursor's own item in
    its limit and then drops it, so no page after the first ever announces another, and what
    is read is the newest two pages' worth. *)
Theorem dynamo_history_cut t cid limit fuel
    (Hinv : dynamo_inv t) (Hst : settled t) (Hup : answering t) (Hids : ids_unique t) (Hl : limit_ok limit)
    (Hf : 2 ≤ fuel) :
  ∃ l, history t cid = at_seq cid <$> l ∧
    ∃ pages, read_pages t cid limit true fuel None = Some (Ok pages) ∧
      concat pages = read_all (take (limit + limit) (reverse l)) ∧ length pages ≤ 2 ∧
      Forall (λ page, length page ≤ limit) pages.
Proof.
  destruct Hinv as [Ht _]. destruct (history_messages t cid Ht) as [l Hh]. exists l. split; [done|].
  by apply walk_back.
Qed.

(** A create under a claimed organization and idempotency key writes nothing and returns
    what the claim holds, whatever else it carries. *)
Theorem dynamo_create_idempotent t c c' r t'
    (Hwf : dynamo_wf t) (Hst : settled t)
    (Hclaim : table t !! (conv_pk (conv_organization_id c), conv_idem_sk (idempotency_key c)) = Some (claim_item c))
    (Horg : conv_organization_id c' = conv_organization_id c) (Hkey : idempotency_key c' = idempotency_key c)
    (Hsettles : ∀ i r1 t1, put_item_if_absent i t = (r1, t1) → settled t1)
    (Hcreate : Dynamo.create_conversation c' t = (Ok r, t')) :
  r = reread c ∧ table t' = table t.
Proof. by destruct (create_under_claim t c c' r t') as (-> & -> & _). Qed.

(** A create that claims its key and then fails to store the conversation is never
    repaired: every retry under the key succeeds with the lost conversation and writes
    nothing, and the conversation it returns is not found. *)
Theorem dynamo_create_half_done t c c' r t'
    (Hinv : dynamo_inv t) (Hst : settled t)
    (Hclaim : table t !! (conv_pk (conv_organization_id c), conv_idem_sk (idempotency_key c)) = Some (claim_item c))
    (Hlost : ∀ i, i ∈ items_of (table t) → item_s i GSI1PK ≠ Some (conv_id_gsi1pk (conv_id c)))
    (Horg : conv_organization_id c' = conv_organization_id c) (Hkey : idempotency_key c' = idempotency_key c)
    (Hsettles : ∀ i r1 t1, put_item_if_absent i t = (r1, t1) → settled t1)
    (Hcreate : Dynamo.create_conversation c' t = (Ok r, t')) :
  conv_id r = conv_id c ∧ table t' = table t ∧
  ∀ o, Dynamo.get_conversation t' (conv_id r) = Ok o → o = None.
Proof.
  destruct (create_under_claim t c c' r t') as (-> & Htab & Hst'); [done..|].
  pose proof (reread_key c) as [= -> _ _]. split_and!; [done..|]. intros o. unfold Dynamo.get_conversation, sent.
  destruct (query t' _) as [l|] eqn:Hq; [|done]. destruct l as [|i l]; [by intros [= <-]|]. intros _. exfalso.
  apply query_answers in Hq as (full & n & [Hp _] & Hl & _).
  assert (i ∈ full) as Hi.
  { assert (i ∈ take n (at_most (Some 1%N) full)) as Hin by (simpl q_max in Hl; rewrite <- Hl; left).
    apply elem_of_take in Hin as (j & Hj & _). simpl in Hj. apply list_elem_of_lookup_2 in Hj.
    by apply elem_of_take in Hj as (? & ?%list_elem_of_lookup_2 & _). }
  rewrite Hp, filter_elem, settled_seen, Htab in Hi by done. destruct Hi as [Hi Ha]. apply (Hlost i Hi).
  unfold answers_query, keys_in in Ha. simpl in Ha. destruct (item_s i GSI1PK); [|done]. simpl in Ha.
  destruct (item_s i GSI1SK); [|done]. simpl in Ha. rewrite andb_true_r in Ha. apply str_eqb_true in Ha. by subst.
Qed.
End invariant.

(** ** A service in memory *)

Module Demo.
(** The items, and whether plain puts fail. *)
Record Mem := mk_Mem { items : gmap (str * str) Item; throttled : bool }.

Definition mem_put (i : Item) (t : Mem) : result str unit * Mem :=
  match item_key i with
  | Some k => if throttled t then (Err (lit "throttled"), t) else (Ok tt, mk_Mem (<[k := i]> (items t)) false)
  | None => (Err (lit "missing key"), t)
  end.
Definition mem_put_if_absent (i : Item) (t : Mem) : result PutError unit * Mem :=
  match item_key i with
  | Some k =>
      match items t !! k with
      | Some _ => (Err ConditionalCheckFailed, t)
      | None => (Ok tt, mk_Mem (<[k := i]> (items t)) (throttled t))
      end
  | None => (Err (Other (lit "missing key")), t)
  end.
Definition mem_query (t : Mem) (q : Query) : result str (list Item) :=
  Ok (at_most (q_max q) (oriented (negb (scan_index_forward q))
        (sort_by (key_leb (sort_of q)) (List.filter (answers_query q) (items_of (items t)))))).
Definition counter (pk sk : str) (n : Z) : Item := [(PK, AttrS pk); (SK, AttrS sk); (SEQ, AttrN n)].

#[export] Instance mem_dynamo : DynamoDb Mem := {|
  put_item := mem_put;
  put_item_if_absent := mem_put_if_absent;
  get_item t pk sk := Ok (items t !! (pk, sk));
  query := mem_query;
  scan_sk t sk := Ok (List.filter (λ i, bool_decide (item_s i SK = Some sk)) (items_of (items t)));
  add_one pk sk t :=
    let n := (seq_of (items t) (pk, sk) + 1)%Z in
    (Ok [(SEQ, AttrN n)], mk_Mem (<[(pk, sk) := counter pk sk n]> (items t)) (throttled t));
|}.

Lemma sorted_key_order q l : sorted (key_leb (sort_of q)) l → StronglySorted (key_order q) l.
Proof.
  induction 1 as [|i l _ IH Hi]; constructor; [done|]. eapply Forall_impl; [exact Hi|].
  intros j. apply negb_true_iff.
Qed.

#[export] Instance mem_laws : DynamoLaws Mem.
Proof.
  refine {| table := items; seen := items; settled := λ _, True |}.
  - done.
  - intros i t r t' E. split; [split; by right|]. simpl in E. unfold mem_put in E.
    destruct (item_key i) as [k|]; [destruct (throttled t)|]; simplify_eq; [by right|left; by exists k|by right].
  - intros i t r t' E. split; [split; by right|]. simpl in E. unfold mem_put_if_absent in E.
    destruct (item_key i) as [k|]; [|by simplify_eq; right].
    destruct (items t !! k) eqn:Ek; simplify_eq; [right; split_and!; [done..|intros _; exists k; by rewrite Ek]|].
    left. split; [done|]. by exists k.
  - intros t pk sk o. simpl. by intros [= <-].
  - intros t q l [= <-]. set (full := oriented _ _). exists full, (length (at_most (q_max q) full)).
    split; [|by rewrite take_ge]. unfold full, answer, oriented. split.
    + destruct (scan_index_forward q); simpl; [|rewrite reverse_Permutation]; apply sort_by_perm.
    + destruct (scan_index_forward q); simpl; [|rewrite reverse_involutive];
        apply sorted_key_order, sort_by_sorted; first [apply key_leb_total|apply key_leb_trans].
  - intros t sk l [= <-] i. rewrite filter_elem. by intros [? ?%bool_decide_eq_true].
  - intros t sk l i [= <-] _ Hi Hs. apply filter_elem. split; [done|]. by apply bool_decide_eq_true.
  - intros pk sk t r t' [= <- <-]. split; [split; by right|]. left.
    exists (counter pk sk (seq_of (items t) (pk, sk) + 1)). split_and!; try done. by intros ? [= <-].
Defined.

(** Records written as their keys, each string after its length. *)
Definition encode (l : list str) : str := concat ((λ s, N.of_nat (length s) :: s) <$> l).
Fixpoint decode (n : nat) (s : str) : list str :=
  match n, s with
  | S n, len :: rest => take (N.to_nat len) rest :: decode n (drop (N.to_nat len) rest)
  | _, _ => []
  end.

Lemma decode_encode l : decode (length l) (encode l) = l.
Proof.
  induction l as [|s l IH]; [done|]. unfold encode. csimpl. rewrite Nat2N.id, take_app_length, drop_app_length.
  f_equal. exact IH.
Qed.

Definition some_str (o : option str) : str := match o with Some s => 1%N :: s | None => [] end.
Definition str_some (s : str) : option str := match s with [] => None | _ :: s => Some s end.

Definition bare_conversation (i o k : str) : Conversation := mk_Conversation i Web [] o k None None 0%Z 0%Z.
Definition bare_participant (i c : str) (e : option str) : Participant :=
  mk_Participant i c [] User e None None None [] None None None None 0%Z 0%Z.
Definition bare_message (i : str) (c : option str) : Message :=
  mk_Message i None None c Inbound (from_text []) None None None None 0%Z None.
Definition bare_session (i c : str) : Session :=
  mk_Session i c [] None [] [] [] [] None None None None None None None None.

#[export] Instance conversation_serde : Serde Conversation := {|
  to_string c := encode [conv_id c; conv_organization_id c; idempotency_key c];
  from_str s := match decode 3 s with [i; o; k] => Ok (bare_conversation i o k) | _ => Err [] end |}.
#[export] Instance participant_serde : Serde Participant := {|
  to_string p := encode [part_id p; part_conversation_id p; some_str (part_external_id p)];
  from_str s := match decode 3 s with [i; c; e] => Ok (bare_participant i c (str_some e)) | _ => Err [] end |}.
#[export] Instance message_serde : Serde Message := {|
  to_string m := encode [msg_id m; some_str (msg_conversation_id m)];
  from_str s := match decode 2 s with [i; c] => Ok (bare_message i (str_some c)) | _ => Err [] end |}.
#[export] Instance session_serde : Serde Session := {|
  to_string s := encode [session_id s; sess_conversation_id s];
  from_str s := match decode 2 s with [i; c] => Ok (bare_session i c) | _ => Err [] end |}.

Lemma str_some_str o : str_some (some_str o) = o.
Proof. by destruct o. Qed.

#[export] Instance conversation_laws : SerdeLaws Conversation conversation_key.
Proof.
  refine {| reread c := bare_conversation (conv_id c) (conv_organization_id c) (idempotency_key c) |}; [|done].
  intros c. unfold from_str, to_string, conversation_serde. change 3 with (length [conv_id c; conv_organization_id c; idempotency_key c]).
  by rewrite decode_encode.
Defined.
#[export] Instance participant_laws : SerdeLaws Participant participant_key.
Proof.
  refine {| reread p := bare_participant (part_id p) (part_conversation_id p) (part_external_id p) |}; [|done].
  intros p. unfold from_str, to_string, participant_serde.
  change 3 with (length [part_id p; part_conversation_id p; some_str (part_external_id p)]).
  by rewrite decode_encode, str_some_str.
Defined.
#[export] Instance message_laws : SerdeLaws Message message_key.
Proof.
  refine {| reread m := bare_message (msg_id m) (msg_conversation_id m) |}; [|done].
  intros m. unfold from_str, to_string, message_serde. change 2 with (length [msg_id m; some_str (msg_conversation_id m)]).
  by rewrite decode_encode, str_some_str.
Defined.
#[export] Instance session_laws : SerdeLaws Session session_key.
Proof.
  refine {| reread s := bare_session (session_id s) (sess_conversation_id s) |}; [|done].
  intros s. unfold from_str, to_string, session_serde. change 2 with (length [session_id s; sess_conversation_id s]).
  by rewrite decode_encode.
Defined.

Definition empty : Mem := mk_Mem ∅ false.
Definition m (i : string) : Message := bare_message (lit i) (Some (lit "c1")).
Definition c1 : Conversation := bare_conversation (lit "c1") (lit "acme") (lit "k1").
Definition opened : Mem := (Dynamo.create_conversation c1 empty).2.
Definition one : Mem := (Dynamo.append_message (m "m1") opened).2.
Definition two : Mem := (Dynamo.append_message (m "m2") one).2.
Definition three : Mem := (Dynamo.append_message (m "m3") two).2.

Lemma three_reachable : rtc dynamo_step empty three.
Proof.
  eapply rtc_l; [exact (step_create_conversation empty c1)|]. eapply rtc_l; [exact (step_append_message opened (m "m1"))|].
  eapply rtc_l; [exact (step_append_message one (m "m2"))|]. by eapply rtc_l; [exact (step_append_message two (m "m3"))|].
Qed.

Lemma three_inv : dynamo_inv three.
Proof. exact (dynamo_reachable_inv _ _ three_reachable (empty_inv empty eq_refl eq_refl)). Qed.

Lemma mem_answering (t : Mem) : answering t.
Proof. by intros q. Qed.

Lemma NoDup_omap_unique {A B} (f : A → option B) l x y b :
  NoDup (omap f l) → x ∈ l → y ∈ l → f x = Some b → f y = Some b → x = y.
Proof.
  induction l as [|a l IH]; [by intros _ ?%elem_of_nil|]. csimpl. intros Hnd Hx Hy Hfx Hfy.
  apply elem_of_cons in Hx as [->|Hx], Hy as [->|Hy]; [done| | |].
  - rewrite Hfx in Hnd. apply NoDup_cons in Hnd as [Hn _]. exfalso. apply Hn. apply list_elem_of_omap. by exists y.
  - rewrite Hfy in Hnd. apply NoDup_cons in Hnd as [Hn _]. exfalso. apply Hn. apply list_elem_of_omap. by exists x.
  - apply IH; [|done..]. destruct (f a); [by apply NoDup_cons in Hnd as [_ ?]|done].
Qed.

Lemma three_ids_unique : ids_unique three.
Proof.
  intros i j id. apply (NoDup_omap_unique (λ i, item_s i GSI1PK)).
  apply (bool_decide_unpack _). vm_compute. exact I.
Qed.
End Demo.
Import Demo.

Lemma dynamo_lookups_exact_witness :
  (∀ org cs, Dynamo.list_conversations_by_org three org = Ok cs →
     Forall (λ c, conv_organization_id c = org) cs ∧ NoDup (conv_id <$> cs)) ∧
  is_ok (Dynamo.list_conversations_by_org three (lit "acme")) = true.
Proof.
  split; [|vm_compute; reflexivity]. by apply (dynamo_lookups_exact empty three); [| |exact three_reachable].
Defined.

Lemma dynamo_append_order_witness :
  ∃ cid seq, msg_conversation_id (m "m4") = Some cid ∧
    history (Dynamo.append_message (m "m4") three).2 cid = history three cid ++ [at_seq cid (seq, m "m4")].
Proof.
  destruct (Dynamo.append_message (m "m4") three) as [[r|e] t'] eqn:E.
  - assert (Ht : table empty = ∅) by reflexivity. assert (Hs : seen empty = ∅) by reflexivity.
    pose proof (dynamo_append_order empty three (m "m4") r t' Ht Hs three_reachable E) as (_ & cid & seq & Hc & Hh & _).
    exists cid, seq. exact (conj Hc Hh).
  - apply (f_equal (λ p, is_ok p.1)) in E. vm_compute in E. discriminate.
Defined.

Lemma dynamo_forward_paging_witness :
  ∃ l, history three (lit "c1") = at_seq (lit "c1") <$> l ∧
    ∀ fuel, length l < fuel → ∃ pages, read_pages three (lit "c1") 1 false fuel None = Some (Ok pages) ∧
      concat pages = read_all l ∧ length pages ≤ Nat.max 1 (length l) ∧ Forall (λ page, length page ≤ 1) pages.
Proof.
  apply (dynamo_forward_paging three (lit "c1") 1 three_inv I (mem_answering _) three_ids_unique).
  split; [lia|by vm_compute].
Defined.

(** Three messages, read back one at a time: two are seen. *)
Lemma dynamo_history_cut_witness :
  (∃ l, history three (lit "c1") = at_seq (lit "c1") <$> l ∧
    ∃ pages, read_pages three (lit "c1") 1 true 5 None = Some (Ok pages) ∧
      concat pages = read_all (take (1 + 1) (reverse l)) ∧ length pages ≤ 2 ∧
      Forall (λ page, length page ≤ 1) pages) ∧
  length (history three (lit "c1")) = 3.
Proof.
  split; [|vm_compute; reflexivity].
  apply (dynamo_history_cut three (lit "c1") 1 5 three_inv I (mem_answering _) three_ids_unique); [|lia].
  split; [lia|by vm_compute].
Defined.

Lemma dynamo_create_idempotent_witness :
  ∀ r t', Dynamo.create_conversation (bare_conversation (lit "c2") (lit "acme") (lit "k1")) opened = (Ok r, t') →
  r = reread c1 ∧ table t' = table opened.
Proof.
  intros r t'. apply (dynamo_create_idempotent opened c1); [|done|by vm_compute|done..].
  apply (dynamo_reachable_inv empty opened); [by eapply rtc_l; [exact (step_create_conversation empty c1)|]|by apply empty_inv].
Defined.

(** The put after the claim is throttled: the claim stays, the conversation does not. *)
Lemma dynamo_create_half_done_witness :
  let '(r, t) := Dynamo.create_conversation c1 (mk_Mem ∅ true) in
  is_ok r = false ∧ ∀ o, Dynamo.get_conversation (Dynamo.create_conversation c1 t).2 (lit "c1") = Ok o → o = None.
Proof.
  destruct (Dynamo.create_conversation c1 (mk_Mem ∅ true)) as [r t] eqn:E.
  assert (Hr : (r, t) = (Err [lit "dynamodb put conversation" ++ lit ": " ++ lit "throttled"],
    mk_Mem (<[(conv_pk (lit "acme"), conv_idem_sk (lit "k1")) := claim_item c1]> ∅) true)) by (rewrite <- E; reflexivity).
  injection Hr as -> ->. split; [done|]. set (t := mk_Mem _ true).
  destruct (Dynamo.create_conversation c1 t) as [[r|e] t'] eqn:E2.
  - assert (Hinv : dynamo_inv t).
    { apply (dynamo_reachable_inv (mk_Mem ∅ true)); [|by apply empty_inv].
      eapply rtc_l; [exact (step_create_conversation (mk_Mem ∅ true) c1)|]. by rewrite E. }
    destruct (dynamo_create_half_done t c1 c1 r t' Hinv I) as (Hid & _ & Hnone); [by vm_compute| |done..|].
    + intros i Hi. unfold items_of in Hi. change (table t) with (items t) in Hi. unfold t in Hi. cbn [items] in Hi.
      rewrite insert_empty, map_to_list_singleton in Hi.
      apply list_elem_of_singleton in Hi. by subst i.
    + cbn [snd]. rewrite Hid in Hnone. exact Hnone.
  - apply (f_equal (λ p, is_ok p.1)) in E2. vm_compute in E2. discriminate.
Defined.
