(* ===== verification/Suggestions.v ===== *)
(** * Suggestions: quick replies and the repetition guard ([server/src/suggestions.rs])

    The trailer a model ends its reply with, held back from the live stream by
    [MarkerSuppressor] and parsed out of the final reply by [extract_suggested_replies];
    and [collapse_repetition], which cuts a runaway reply short.  The markers are ASCII, so
    a byte offset of the source is a position in the list of characters here. *)

From stdpp Require Import prelude gmap strings list sorting.
From Stdlib Require Import SpecFloat.
From S2P Require Import Prelude Text Json Storage.

Definition MARKER_OPEN : str := lit "<suggested_replies>".
Definition MARKER_CLOSE : str := lit "</suggested_replies>".
Definition MAX_SUGGESTIONS : nat := 4.
Definition MAX_RESPONSE_PARTS : nat := 6.

(** ** Searching *)

(** [str::find] and [str::rfind] of a string. *)
Fixpoint find_str (pat s : str) : option nat :=
  if starts_with pat s then Some 0
  else match s with [] => None | _ :: s' => S <$> find_str pat s' end.

Fixpoint rfind_str (pat s : str) : option nat :=
  match (match s with [] => None | _ :: s' => S <$> rfind_str pat s' end) with
  | Some i => Some i
  | None => if starts_with pat s then Some 0 else None
  end.

(** [str::find] of a character predicate. *)
Fixpoint find_char (p : char → bool) (s : str) : option nat :=
  match s with [] => None | c :: s' => if p c then Some 0 else S <$> find_char p s' end.

Definition rfind_ci (haystack needle_lower : str) : option nat :=
  if str_is_empty needle_lower then None
  else rfind_str (to_ascii_lowercase needle_lower) (to_ascii_lowercase haystack).

(** ** The trailer *)

(** The strings among a trailer's items. *)
Definition suggestion_of (v : Value) : option str :=
  match v with
  | String s => let t := trim s in if str_is_empty t then None else Some t
  | _ => None
  end.

Definition bullet (c : char) : bool := ((c =? 45) || (c =? 42) || (c =? 8226))%N.
Definition is_digit (c : char) : bool := ((48 <=? c) && (c <=? 57))%N.
Definition is_quote (c : char) : bool := ((c =? 34) || (c =? 39) || (c =? 96))%N.

(** One non-empty line of a markdown list: its item, or [None] when it is prose. *)
Definition list_item (t : str) : option str :=
  let bulleted := trim_start_matches bullet t in
  item ← (if length bulleted <? length t then Some (trim_start_matches is_whitespace bulleted)
          else i ← opt_filter (λ i, (0 <? i) && all is_digit (take i t))
                     (find_char (λ c, (c =? 46) || (c =? 41))%N t);
               Some (trim_start_matches is_whitespace (drop (S i) t)));
  let item := trim (trim_matches is_quote (trim item)) in
  if str_is_empty item then None else Some item.

(** The loop over the lines: [None] as soon as one is prose. *)
Fixpoint list_items (lines : list str) : option (list str) :=
  match lines with
  | [] => Some []
  | line :: rest =>
      let t := trim line in
      if str_is_empty t then list_items rest
      else item ← list_item t; items ← list_items rest; Some (item :: items)
  end.

Definition last_header (reply : str) : option nat :=
  match rfind_ci reply (lit "suggested replies:"), rfind_ci reply (lit "suggested_replies:") with
  | Some p, Some q => Some (Nat.max p q)
  | Some p, None => Some p
  | None, o => o
  end.

Definition extract_markdown_suggested_replies (reply : str) : option (str * list str) :=
  start ← last_header reply;
  let after := drop (start + 18) reply in
  nl ← find_char (λ c, c =? 10)%N after;
  items ← list_items (split_on (λ c, c =? 10)%N (drop (S nl) after));
  match items with
  | [] => None
  | _ => Some (trim_end (take start reply), take MAX_SUGGESTIONS items)
  end.

Section extract.
Context `{!JsonParse}.

Definition parse_suggestions (body : str) : list str :=
  match from_str (trim body) with
  | Ok (Array items) => take MAX_SUGGESTIONS (omap suggestion_of items)
  | Ok _ | Err _ => []
  end.

Definition extract_suggested_replies (reply : str) : str * list str :=
  match rfind_str MARKER_OPEN reply with
  | None => default (reply, []) (extract_markdown_suggested_replies reply)
  | Some start =>
      let rest := drop (start + length MARKER_OPEN) reply in
      let '(body, tail) :=
        match find_str MARKER_CLOSE rest with
        | Some rel => (take rel rest, drop (rel + length MARKER_CLOSE) rest)
        | None => (rest, [])
        end in
      (trim_end (take start reply ++ tail), parse_suggestions body)
  end.
End extract.

(** ** The live stream *)

Record MarkerSuppressor := mk_MarkerSuppressor { held : str; suppressing : bool }.
Definition suppressor_new : MarkerSuppressor := mk_MarkerSuppressor [] false.

(** Where the longest suffix of [s] that is a prefix of the marker begins, trying the
    [n] longest candidates. *)
Fixpoint longest_from (n : nat) (s : str) : nat :=
  match n with
  | O => length s
  | S n' => if starts_with (drop (length s - n) s) MARKER_OPEN then length s - n else longest_from n' s
  end.
Definition longest_marker_prefix_suffix (s : str) : nat :=
  longest_from (Nat.min (length MARKER_OPEN) (length s)) s.

(** What is safe to emit, and the state after it. *)
Definition push (delta : str) (m : MarkerSuppressor) : str * MarkerSuppressor :=
  if suppressing m then ([], m)
  else
    let h := held m ++ delta in
    match find_str MARKER_OPEN h with
    | Some pos => (take pos h, mk_MarkerSuppressor [] true)
    | None =>
        let from := longest_marker_prefix_suffix h in
        (take from h, mk_MarkerSuppressor (drop from h) false)
    end.

Definition finish (m : MarkerSuppressor) : str := if suppressing m then [] else held m.

(** A whole stream: the text put on the wire for it. *)
Fixpoint pushes (deltas : list str) (m : MarkerSuppressor) : str * MarkerSuppressor :=
  match deltas with
  | [] => ([], m)
  | d :: ds =>
      let '(out, m) := push d m in
      let '(rest, m) := pushes ds m in
      (out ++ rest, m)
  end.
Definition stream (deltas : list str) : str :=
  let '(out, m) := pushes deltas suppressor_new in out ++ finish m.

(** ** Repetition *)

(** [char::is_alphanumeric], the standard library's table. *)
Class Alphanumeric := { is_alphanumeric : char → bool }.

Definition push_trimmed (out : list str) (cur : str) : list str :=
  let t := trim cur in if str_is_empty t then out else out ++ [t].

Fixpoint split_sentences_go (out : list str) (cur s : str) : list str :=
  match s with
  | [] => push_trimmed out cur
  | c :: s' =>
      if (c =? 10)%N then split_sentences_go (push_trimmed out cur) [] s'
      else
        let cur := cur ++ [c] in
        if ((c =? 46) || (c =? 33) || (c =? 63))%N
        then split_sentences_go (push_trimmed out cur) [] s'
        else split_sentences_go out cur s'
  end.
Definition split_sentences (reply : str) : list str := split_sentences_go [] [] reply.

(** [n as f64], and [0.9_f64]. *)
Definition f64_of_nat (n : nat) : spec_float := binary_normalize 53 1024 (Z.of_nat n) 0 false.
Definition f64_0_9 : spec_float := S754_finite false 8106479329266893 (-53).

Definition near_identical (a b : list str) : bool :=
  let sa : gset str := list_to_set a in
  let sb : gset str := list_to_set b in
  let inter := size (sa ∩ sb) in
  let union := size (sa ∪ sb) in
  (0 <? union) && SFleb f64_0_9 (SFdiv 53 1024 (f64_of_nat inter) (f64_of_nat union)).

Section repetition.
Context `{!Lowercase, !Alphanumeric}.

Definition normalized_words (s : str) : list str :=
  to_lowercase <$> List.filter (λ w, negb (str_is_empty w)) (split_on (λ c, negb (is_alphanumeric c)) s).

Fixpoint dedupe_go (kept : list str) (kept_words : list (list str)) (parts : list str) : list str :=
  match parts with
  | [] => kept
  | part :: rest =>
      let part := trim part in
      if str_is_empty part then dedupe_go kept kept_words rest
      else
        match normalized_words part with
        | [] => dedupe_go kept kept_words rest
        | words =>
            if any (λ prev, near_identical prev words) kept_words
            then dedupe_go kept kept_words rest
            else dedupe_go (kept ++ [part]) (kept_words ++ [words]) rest
        end
  end.
Definition dedupe_near_identical (parts : list str) : list str := dedupe_go [] [] parts.

Definition dedupe_response_parts (parts : list str) : list str :=
  take MAX_RESPONSE_PARTS (dedupe_near_identical parts).

Definition collapse_repetition (reply : str) : str :=
  let sentences := split_sentences reply in
  let distinct := dedupe_near_identical sentences in
  if length sentences - length distinct <=? MAX_RESPONSE_PARTS then reply
  else join (lit " ") (take MAX_RESPONSE_PARTS distinct).
End repetition.

(** ** Lemmas: prefixes and searching *)

Lemma starts_with_length pat s : starts_with pat s = true → length pat ≤ length s.
Proof. intros [k ->]%starts_with_spec. rewrite length_app. lia. Qed.

Lemma starts_with_app_l pat s t : starts_with pat s = true → starts_with pat (s ++ t) = true.
Proof. intros [k ->]%starts_with_spec. apply starts_with_spec. exists (k ++ t). by rewrite (assoc_L (++)). Qed.

(** A prefix of a concatenation lies in its head, or covers it. *)
Lemma starts_with_app_inv pat s t :
  starts_with pat (s ++ t) = true → starts_with pat s = true ∨ starts_with s pat = true.
Proof.
  revert s. induction pat as [|a pat IH]; intros [|b s]; simpl; try by auto.
  intros [Hab H]%andb_true_iff. apply N.eqb_eq in Hab as ->. rewrite N.eqb_refl. simpl. by apply IH in H.
Qed.

Lemma starts_with_app_prefix s t pat : starts_with (s ++ t) pat = true → starts_with s pat = true.
Proof. intros [k ->]%starts_with_spec. apply starts_with_spec. exists (t ++ k). by rewrite (assoc_L (++)). Qed.

Section find.
Context (pat : str).
Implicit Types (s : str) (i j : nat).

Lemma find_str_Some s i :
  find_str pat s = Some i → starts_with pat (drop i s) = true ∧ i ≤ length s ∧
    ∀ j, j < i → starts_with pat (drop j s) = false.
Proof.
  revert i. induction s as [|c s IH]; intros i; simpl.
  - destruct (starts_with pat []) eqn:E; [|done]. intros [= <-]. split_and!; [done|lia|lia].
  - destruct (starts_with pat (c :: s)) eqn:E; [intros [= <-]; split_and!; [done|lia|lia]|].
    destruct (find_str pat s) as [k|]; [|done]. intros [= <-]. destruct (IH k eq_refl) as (Hk & Hl & Hm).
    split_and!; [done|simpl; lia|]. intros [|j] Hj; [done|]. apply Hm. lia.
Qed.

Lemma find_str_None s i : find_str pat s = None → starts_with pat (drop i s) = false.
Proof.
  revert i. induction s as [|c s IH]; intros i; simpl.
  - destruct (starts_with pat []) eqn:E; [done|]. by rewrite drop_nil.
  - destruct (starts_with pat (c :: s)) eqn:E; [done|]. destruct (find_str pat s); [done|]. intros _.
    destruct i; [done|]. by apply IH.
Qed.

Lemma rfind_str_Some s i :
  rfind_str pat s = Some i → starts_with pat (drop i s) = true ∧ i ≤ length s.
Proof.
  revert i. induction s as [|c s IH]; intros i; simpl.
  - destruct (starts_with pat []) eqn:E; [|done]. intros [= <-]. done.
  - destruct (rfind_str pat s) as [k|]; simpl.
    + intros [= <-]. destruct (IH k eq_refl). simpl. split; [done|lia].
    + destruct (starts_with pat (c :: s)) eqn:E; [|done]. intros [= <-]. split; [done|lia].
Qed.

Lemma rfind_find_None s : rfind_str pat s = None ↔ find_str pat s = None.
Proof.
  induction s as [|c s [IH1 IH2]]; simpl; [by destruct (starts_with pat [])|].
  destruct (rfind_str pat s), (find_str pat s), (starts_with pat (c :: s)); simpl; try done.
  - by specialize (IH2 eq_refl).
  - by specialize (IH1 eq_refl).
Qed.

Lemma find_str_app_Some s t i : find_str pat s = Some i → find_str pat (s ++ t) = Some i.
Proof.
  revert i. induction s as [|c s IH]; intros i; simpl.
  - destruct (starts_with pat []) eqn:E; [|done]. intros [= <-]. destruct t; simpl; [by rewrite E|]. by rewrite (starts_with_app_l _ [] _ E : starts_with pat (n :: t) = true).
  - destruct (starts_with pat (c :: s)) eqn:E.
    + intros [= <-]. change (c :: s ++ t) with ((c :: s) ++ t). by rewrite (starts_with_app_l _ _ t E).
    + destruct (find_str pat s) as [k|] eqn:Ek; [|done]. intros [= <-]. destruct (starts_with pat (c :: s ++ t)) eqn:E2.
      * change (c :: s ++ t) with ((c :: s) ++ t) in E2.
        apply starts_with_app_inv in E2 as [E2|E2]; [congruence|].
        apply starts_with_length in E2. apply find_str_Some in Ek as (Hk & _ & _).
        apply starts_with_length in Hk. rewrite length_drop in Hk. simpl in E2. lia.
      * by rewrite (IH k eq_refl).
Qed.

Lemma starts_with_app_long s t : starts_with pat (s ++ t) = true → length pat ≤ length s → starts_with pat s = true.
Proof.
  intros [H|H]%starts_with_app_inv Hl; [done|]. apply starts_with_spec in H as [k Hk].
  rewrite Hk in Hl |- *. rewrite length_app in Hl. destruct k; [|simpl in Hl; lia].
  rewrite app_nil_r. apply starts_with_spec. exists []. by rewrite app_nil_r.
Qed.

Lemma find_str_prefix s t i : find_str pat (s ++ t) = Some i → i + length pat ≤ length s → find_str pat s = Some i.
Proof.
  intros Hf Hl. destruct (find_str pat s) as [k|] eqn:E.
  - apply (find_str_app_Some _ t) in E. congruence.
  - apply find_str_Some in Hf as (Hf & _). rewrite drop_app_le in Hf by lia.
    apply starts_with_app_long in Hf; [|rewrite length_drop; lia].
    by rewrite (find_str_None _ i E) in Hf.
Qed.

(** What precedes the first possible occurrence can be skipped. *)
Lemma find_str_skip o s :
  (∀ j, j < length o → starts_with pat (drop j (o ++ s)) = false) →
  find_str pat (o ++ s) = Nat.add (length o) <$> find_str pat s.
Proof.
  induction o as [|c o IH]; intros Ho; simpl.
  - by destruct (find_str pat s).
  - pose proof (Ho 0 ltac:(simpl; lia)) as H0. simpl in H0. rewrite H0, IH.
    + by destruct (find_str pat s).
    + intros j Hj. apply (Ho (S j)). simpl. lia.
Qed.
End find.

(** ** The live stream: lemmas *)

(** The reply up to its first marker. *)
Definition strip_marker (s : str) : str :=
  match find_str MARKER_OPEN s with Some i => take i s | None => s end.

Lemma longest_from_spec n s :
  n ≤ length s →
  length s - n ≤ longest_from n s ≤ length s ∧ starts_with (drop (longest_from n s) s) MARKER_OPEN = true ∧
  ∀ k, length s - n ≤ k → k < longest_from n s → starts_with (drop k s) MARKER_OPEN = false.
Proof.
  induction n as [|n IH]; intros Hn; cbn [longest_from].
  - split; [lia|]. split; [|lia]. rewrite drop_ge by lia. done.
  - destruct (starts_with (drop (length s - S n) s) MARKER_OPEN) eqn:E.
    + split; [lia|]. split; [done|lia].
    + destruct IH as (Hb & Hs & Hk); [lia|]. split; [lia|]. split; [done|]. intros k Hk1 Hk2.
      destruct (decide (k = length s - S n)) as [->|?]; [done|]. apply Hk; lia.
Qed.

Lemma longest_suffix_spec s :
  let from := longest_marker_prefix_suffix s in
  from ≤ length s ∧ starts_with (drop from s) MARKER_OPEN = true ∧
  ∀ k, k < from → starts_with (drop k s) MARKER_OPEN = false.
Proof.
  unfold longest_marker_prefix_suffix. destruct (longest_from_spec (Nat.min (length MARKER_OPEN) (length s)) s)
    as (Hb & Hs & Hk); [lia|]. split; [lia|]. split; [done|]. intros k Hlt.
  destruct (decide (length s - Nat.min (length MARKER_OPEN) (length s) ≤ k)) as [|Hfar]; [by apply Hk|].
  apply not_true_is_false. intros H%starts_with_length. rewrite length_drop in H. lia.
Qed.

(** The suppressor after [s] was fed to it and [out] came out. *)
Definition suppressor_inv (s out : str) (m : MarkerSuppressor) : Prop :=
  if suppressing m
  then ∃ i, find_str MARKER_OPEN s = Some i ∧ out = take i s
  else s = out ++ held m ∧ find_str MARKER_OPEN s = None ∧ starts_with (held m) MARKER_OPEN = true ∧
       ∀ i, i < length out → starts_with (drop i s) MARKER_OPEN = false.

Lemma push_inv s out m d :
  suppressor_inv s out m → let '(e, m') := push d m in suppressor_inv (s ++ d) (out ++ e) m'.
Proof.
  unfold suppressor_inv, push. destruct m as [h b]; simpl. destruct b; simpl.
  { intros (i & Hi & ->). exists i. split; [by apply find_str_app_Some|].
    apply find_str_Some in Hi as (_ & Hle & _). by rewrite app_nil_r, take_app_le. }
  intros (-> & Hnone & Hheld & Hout). rewrite <- (assoc_L (++)) in *.
  assert (Hskip : ∀ j, j < length out → starts_with MARKER_OPEN (drop j (out ++ h ++ d)) = false).
  { intros j Hj. apply not_true_is_false. rewrite (assoc_L (++)), drop_app_le by (rewrite length_app; lia).
    intros [H|H]%starts_with_app_inv.
    - by rewrite (find_str_None _ _ j Hnone) in H.
    - by rewrite Hout in H. }
  pose proof (find_str_skip MARKER_OPEN out (h ++ d) Hskip) as Hf.
  destruct (find_str MARKER_OPEN (h ++ d)) as [pos|] eqn:Ep; simpl in *.
  - exists (length out + pos). split; [done|]. by rewrite take_app_add.
  - destruct (longest_suffix_spec (h ++ d)) as (Hle & Hpre & Hk).
    set (from := longest_marker_prefix_suffix (h ++ d)) in *. split_and!; [|done|done|].
    + by rewrite <- (assoc_L (++)), take_drop.
    + intros i Hi. rewrite length_app, length_take in Hi.
      destruct (decide (i < length out)) as [Hlt|Hge].
      * apply not_true_is_false. rewrite (assoc_L (++)), drop_app_le by (rewrite length_app; lia).
        intros H%starts_with_app_prefix. by rewrite Hout in H.
      * replace i with (length out + (i - length out)) by lia. rewrite drop_app_add. apply Hk. lia.
Qed.

Lemma pushes_inv ds s out m :
  suppressor_inv s out m → let '(e, m') := pushes ds m in suppressor_inv (s ++ concat ds) (out ++ e) m'.
Proof.
  revert s out m. induction ds as [|d ds IH]; intros s out m Hinv; simpl; [by rewrite !app_nil_r|].
  apply (push_inv _ _ _ d) in Hinv. destruct (push d m) as [e m1]. apply IH in Hinv.
  destruct (pushes ds m1) as [e' m2]. by rewrite !(assoc_L (++)).
Qed.

Lemma suppressor_new_inv : suppressor_inv [] [] suppressor_new.
Proof. unfold suppressor_inv. simpl. split_and!; try done. intros i Hi. simpl in Hi. lia. Qed.

(** ** Lemmas: trimming and the repetition guard *)

Lemma trim_start_app_all p s t :
  Forall (λ c, p c = true) s → trim_start_matches p (s ++ t) = trim_start_matches p t.
Proof. induction 1 as [|c s Hc _ IH]; simpl; [done|]. by rewrite Hc. Qed.

Lemma trim_end_app_space s t : Forall (λ c, is_whitespace c = true) t → trim_end (s ++ t) = trim_end s.
Proof.
  intros Ht. unfold trim_end, trim_end_matches. rewrite reverse_app, trim_start_app_all; [done|].
  by apply Forall_reverse.
Qed.

(** Text after a character that is not white space does not affect what precedes it. *)
Lemma trim_end_app_keep s c t :
  is_whitespace c = false → trim_end ((s ++ [c]) ++ t) = (s ++ [c]) ++ trim_end t.
Proof.
  intros Hc. unfold trim_end, trim_end_matches. rewrite reverse_app, reverse_snoc.
  assert (Hgo : ∀ r, trim_start_matches is_whitespace (r ++ c :: reverse s) =
    trim_start_matches is_whitespace r ++ c :: reverse s).
  { induction r as [|d r IH]; simpl; [by rewrite Hc|]. by destruct (is_whitespace d). }
  by rewrite Hgo, reverse_app, reverse_cons, reverse_involutive.
Qed.

Lemma trim_end_idemp s : trim_end (trim_end s) = trim_end s.
Proof.
  destruct (trim_end_prefix is_whitespace s) as (k & Hs & Hk). fold (trim_end s) in Hs.
  rewrite Hs at 2. symmetry. by apply trim_end_app_space.
Qed.

Lemma omap_suggestion_ok items :
  Forall (λ s, s ≠ [] ∧ trim s = s) (omap suggestion_of items).
Proof.
  induction items as [|v items IH]; [constructor|]. simpl. destruct (suggestion_of v) as [s|] eqn:E; [|done].
  constructor; [|done]. unfold suggestion_of in E. destruct v; try done.
  destruct (str_is_empty (trim s0)) eqn:Ee; [done|]. injection E as <-. apply str_is_empty_false in Ee.
  split; [done|apply trim_idemp].
Qed.

Lemma list_items_ok lines items :
  list_items lines = Some items → Forall (λ s, s ≠ [] ∧ trim s = s) items.
Proof.
  revert items. induction lines as [|line rest IH]; intros items; simpl; [intros [= <-]; constructor|].
  destruct (str_is_empty (trim line)); [by apply IH|].
  destruct (list_item (trim line)) as [item|] eqn:Ei; [|done]. simpl.
  destruct (list_items rest) as [rest'|]; [|done]. intros [= <-]. constructor; [|by apply IH].
  unfold list_item in Ei. apply bind_Some in Ei as (x & _ & Ei).
  destruct (str_is_empty _) eqn:Ee; [done|]. injection Ei as <-. apply str_is_empty_false in Ee.
  split; [done|apply trim_idemp].
Qed.

Lemma take_ok {A} (P : A → Prop) n l : Forall P l → length (take n l) ≤ n ∧ Forall P (take n l).
Proof. intros H. split; [rewrite length_take; lia|by apply Forall_take]. Qed.

Section guard.
Context `{!Lowercase, !Alphanumeric}.

(** Two segments the guard tells apart. *)
Definition apart (a b : str) : Prop := near_identical (normalized_words a) (normalized_words b) = false.

Lemma dedupe_go_spec kept parts :
  StronglySorted apart kept →
  ∃ new, dedupe_go kept (normalized_words <$> kept) parts = kept ++ new ∧ new `sublist_of` (trim <$> parts) ∧
    StronglySorted apart (kept ++ new).
Proof.
  revert kept. induction parts as [|part parts IH]; intros kept Hk; simpl.
  { exists []. rewrite app_nil_r. by split_and!; [|constructor|]. }
  assert (Hskip : ∃ new, dedupe_go kept (normalized_words <$> kept) parts = kept ++ new ∧
    new `sublist_of` trim part :: (trim <$> parts) ∧ StronglySorted apart (kept ++ new)).
  { destruct (IH kept Hk) as (new & He & Hs & Hp). exists new. split_and!; [done|by constructor|done]. }
  destruct (str_is_empty (trim part)); [done|].
  destruct (normalized_words (trim part)) as [|w ws] eqn:Ew; [done|]. rewrite <- Ew.
  destruct (any _ _) eqn:Ea; [done|].
  assert (Hk' : StronglySorted apart (kept ++ [trim part])).
  { apply StronglySorted_app. split_and!; [|done|by repeat constructor].
    intros a b Ha ->%list_elem_of_singleton. rewrite any_false in Ea. apply (Ea (normalized_words a)).
    by apply list_elem_of_fmap_2. }
  destruct (IH _ Hk') as (new & He & Hs & Hp). rewrite fmap_app in He. simpl in He.
  exists (trim part :: new). rewrite He, <- (assoc_L (++)). split_and!; [done|by constructor|].
  by rewrite <- (assoc_L (++)) in Hp.
Qed.

Lemma dedupe_go_distinct kept parts :
  StronglySorted apart (kept ++ parts) → Forall (λ s, trim s = s ∧ normalized_words s ≠ []) parts →
  dedupe_go kept (normalized_words <$> kept) parts = kept ++ parts.
Proof.
  revert kept. induction parts as [|part parts IH]; intros kept Hs Hp; simpl; [by rewrite app_nil_r|].
  inversion Hp as [|? ? [Ht Hw] Hp']; subst. rewrite Ht.
  destruct (str_is_empty part) eqn:Ee; [destruct part; [done|done]|].
  destruct (normalized_words part) as [|w ws] eqn:Ew; [done|]. rewrite <- Ew.
  replace (any _ _) with false.
  - specialize (IH (kept ++ [part])). rewrite fmap_app in IH. simpl in IH. rewrite IH; rewrite <- ?(assoc_L (++)); done.
  - symmetry. apply any_false. intros ws' (a & -> & Ha)%list_elem_of_fmap.
    apply StronglySorted_app in Hs as (Hc & _ & _). apply Hc; [done|by left].
Qed.

Lemma push_trimmed_ok out cur :
  Forall (λ s, trim s = s ∧ s ≠ []) out → Forall (λ s, trim s = s ∧ s ≠ []) (push_trimmed out cur).
Proof.
  intros Ho. unfold push_trimmed. destruct (str_is_empty (trim cur)) eqn:E; [done|].
  apply Forall_app. split; [done|]. repeat constructor; [apply trim_idemp|by apply str_is_empty_false].
Qed.

Lemma split_sentences_trimmed reply : Forall (λ s, trim s = s ∧ s ≠ []) (split_sentences reply).
Proof.
  assert (Hgo : ∀ cur out, Forall (λ s, trim s = s ∧ s ≠ []) out →
    Forall (λ s, trim s = s ∧ s ≠ []) (split_sentences_go out cur reply)); [|by apply Hgo].
  induction reply as [|c s IH]; intros cur out Ho; simpl; [by apply push_trimmed_ok|].
  destruct (c =? 10)%N; [by apply IH, push_trimmed_ok|].
  destruct (_ || _); [by apply IH, push_trimmed_ok|by apply IH].
Qed.
End guard.

(** What a prefix of the tokens has put on the wire, and what is still held. *)
Lemma pushes_spec ds :
  let '(out, m) := pushes ds suppressor_new in
  out ++ finish m = strip_marker (concat ds) ∧ length (finish m) < length MARKER_OPEN.
Proof.
  pose proof (pushes_inv ds [] [] suppressor_new suppressor_new_inv) as Hi. simpl in Hi.
  destruct (pushes ds suppressor_new) as [out m]. unfold suppressor_inv, strip_marker, finish in *.
  destruct (suppressing m).
  - destruct Hi as (i & -> & ->). rewrite app_nil_r. split; [done|]. simpl. lia.
  - destruct Hi as (-> & Hnone & Hheld & _). rewrite Hnone. split; [done|].
    pose proof (starts_with_length _ _ Hheld) as Hle.
    destruct (decide (length (held m) = length MARKER_OPEN)) as [Heq|]; [|lia]. exfalso.
    apply starts_with_spec in Hheld as [k Hk].
    assert (k = []) as ->. { apply (f_equal length) in Hk. rewrite length_app in Hk. destruct k; [done|simpl in *; lia]. }
    rewrite app_nil_r in Hk. pose proof (find_str_None _ _ (length out) Hnone) as Hf.
    rewrite drop_app_length, <- Hk in Hf. done.
Qed.

Lemma stream_spec deltas : stream deltas = strip_marker (concat deltas).
Proof. unfold stream. pose proof (pushes_spec deltas) as H. destruct (pushes deltas suppressor_new). apply H. Qed.

(** No marker survives the cut. *)
Lemma strip_marker_clean s : find_str MARKER_OPEN (strip_marker s) = None.
Proof.
  unfold strip_marker. destruct (find_str MARKER_OPEN s) as [i|] eqn:E; [|done].
  destruct (find_str MARKER_OPEN (take i s)) as [j|] eqn:E2; [|done]. exfalso.
  pose proof (find_str_app_Some _ _ (drop i s) _ E2) as E3. rewrite take_drop in E3.
  assert (j = i) as -> by congruence. apply find_str_Some in E2 as (H2 & Hl & _).
  apply starts_with_length in H2. rewrite length_drop, length_take in H2. simpl in H2. lia.
Qed.

(** ** Properties *)

(** C23. Streaming does not depend on how the model's text was cut into tokens: for every
    chunking of a reply, what goes on the wire is the reply up to its first marker, all of
    it when there is none; nothing of a marker is ever shown, and at every moment the text
    held back is shorter than the marker. *)
Theorem stream_is_chunk_invariant deltas :
  stream deltas = strip_marker (concat deltas) ∧
  find_str MARKER_OPEN (stream deltas) = None ∧
  ∀ ds,
    let '(out, m) := pushes ds suppressor_new in
    out `prefix_of` strip_marker (concat ds) ∧
    length (strip_marker (concat ds)) < length out + length MARKER_OPEN.
Proof.
  rewrite stream_spec. split; [done|]. split; [apply strip_marker_clean|]. intros ds.
  pose proof (pushes_spec ds) as Hp. destruct (pushes ds suppressor_new) as [out m]. destruct Hp as [He Hl].
  rewrite <- He. split; [by exists (finish m)|]. rewrite length_app. lia.
Qed.

(** The trailer the prompt asks for: one marker, and after its closing tag nothing. *)
Definition well_placed (reply : str) : Prop :=
  match find_str MARKER_OPEN reply with
  | None => extract_markdown_suggested_replies reply = None
  | Some i =>
      rfind_str MARKER_OPEN reply = Some i ∧
      match find_str MARKER_CLOSE (drop (i + length MARKER_OPEN) reply) with
      | Some rel => Forall (λ c, is_whitespace c = true)
                      (drop (rel + length MARKER_CLOSE) (drop (i + length MARKER_OPEN) reply))
      | None => True
      end
  end.

Lemma stream_reply `{!JsonParse} deltas reply :
  concat deltas = reply → well_placed reply →
  trim_end (stream deltas) = trim_end (extract_suggested_replies reply).1.
Proof.
  intros Hreply Hplaced.
  rewrite stream_spec, Hreply. unfold strip_marker, extract_suggested_replies, well_placed in *.
  destruct (find_str MARKER_OPEN reply) as [i|] eqn:Ef.
  - destruct Hplaced as [-> Hclose]. destruct (find_str MARKER_CLOSE _) as [rel|]; simpl.
    + rewrite (trim_end_app_space _ _ Hclose). symmetry. apply trim_end_idemp.
    + rewrite app_nil_r. symmetry. apply trim_end_idemp.
  - apply rfind_find_None in Ef as ->. by rewrite Hplaced.
Qed.

(** The answer a client kept from the stream is the answer it is sent in the end: when the
    model placed its trailer as it was told to (or wrote none), the streamed text and the
    final reply are the same up to trailing white space, however it was cut into tokens;
    and whatever the reply, at most four chips come out of it, none empty or untrimmed. *)
Theorem live_matches_final `{!JsonParse} deltas reply
    (Hreply : concat deltas = reply) (Hplaced : well_placed reply) :
  trim_end (stream deltas) = trim_end (extract_suggested_replies reply).1 ∧
  ∀ r, length (extract_suggested_replies r).2 ≤ MAX_SUGGESTIONS ∧
       Forall (λ s, s ≠ [] ∧ trim s = s) (extract_suggested_replies r).2.
Proof.
  split.
  - by apply stream_reply.
  - intros r. unfold extract_suggested_replies. destruct (rfind_str MARKER_OPEN r) as [i|].
    + destruct (match find_str _ _ with Some _ => _ | None => _ end) as [body tail]. simpl.
      unfold parse_suggestions. destruct (from_str (trim body)) as [v|e]; [|by split; [simpl; lia|]].
      destruct v; try (by split; [simpl; lia|]). apply take_ok, omap_suggestion_ok.
    + unfold extract_markdown_suggested_replies. destruct (last_header r) as [p|]; [|by split; [simpl; lia|]]. simpl.
      destruct (find_char _ _) as [nl|]; [|by split; [simpl; lia|]]. simpl.
      destruct (list_items _) as [items|] eqn:E; [|by split; [simpl; lia|]]. simpl.
      destruct items as [|x items]; [by split; [simpl; lia|]|]. by eapply take_ok, list_items_ok.
Qed.

(** The repetition guard leaves a healthy reply alone and bounds a runaway one: the reply is
    unchanged unless more than six of its sentences were near-duplicates, in particular
    when no two sentences with words in them are; and a reply it cuts becomes at most six of
    its own sentences, in their order, no two near-identical. *)
Theorem repetition_guard `{!Lowercase, !Alphanumeric} reply :
  (StronglySorted apart (split_sentences reply) →
   Forall (λ s, normalized_words s ≠ []) (split_sentences reply) → collapse_repetition reply = reply) ∧
  (collapse_repetition reply = reply ∨
   ∃ kept, collapse_repetition reply = join (lit " ") kept ∧ kept `sublist_of` split_sentences reply ∧
     length kept ≤ MAX_RESPONSE_PARTS ∧ StronglySorted apart kept ∧
     MAX_RESPONSE_PARTS < length (split_sentences reply)).
Proof.
  pose proof (split_sentences_trimmed reply) as Htrim. unfold collapse_repetition, dedupe_near_identical. split.
  - intros Hs Hw. pose proof (dedupe_go_distinct [] _ Hs) as Hd. simpl in Hd. rewrite Hd.
    + by rewrite Nat.sub_diag.
    + eapply Forall_impl; [apply Forall_and; split; [exact Htrim|exact Hw]|]. by intros s [[? _] ?].
  - destruct (_ <=? _) eqn:E; [by left|]. right. apply Nat.leb_gt in E.
    destruct (dedupe_go_spec [] (split_sentences reply)) as (new & He & Hsub & Hsort); [constructor|].
    simpl in He, Hsort. rewrite He in *. eexists. split; [done|]. split_and!.
    + assert (Hid : trim <$> split_sentences reply = split_sentences reply).
      { clear -Htrim. induction Htrim as [|s l [Hs _] _ IH]; [done|]. rewrite fmap_cons, Hs. by f_equal. }
      rewrite Hid in Hsub. etrans; [apply sublist_take|done].
    + rewrite length_take. lia.
    + rewrite <- (take_drop MAX_RESPONSE_PARTS new) in Hsort. by apply StronglySorted_app in Hsort as (_ & ? & _).
    + lia.
Qed.

(** Of two trailers only the last is stripped: the raw markup of the first is in the reply
    the client is sent and that is stored, though the live stream stopped before it. *)
Theorem earlier_trailer_kept `{!JsonParse} reply i j
    (Hfirst : find_str MARKER_OPEN reply = Some i) (Hlast : rfind_str MARKER_OPEN reply = Some j)
    (Htwo : i + length MARKER_OPEN ≤ j) :
  find_str MARKER_OPEN (extract_suggested_replies reply).1 = Some i ∧
  ∀ deltas, concat deltas = reply → stream deltas = take i reply.
Proof.
  split.
  2: { intros deltas Hd. rewrite stream_spec, Hd. unfold strip_marker. by rewrite Hfirst. }
  pose proof (proj2 (rfind_str_Some _ _ _ Hlast)) as Hj.
  unfold extract_suggested_replies. rewrite Hlast.
  destruct (match find_str _ _ with Some _ => _ | None => _ end) as [body tail]. simpl.
  assert (Hpre : find_str MARKER_OPEN (take (i + length MARKER_OPEN) reply) = Some i).
  { eapply (find_str_prefix _ _ (drop (i + length MARKER_OPEN) reply)); [by rewrite take_drop|].
    rewrite length_take. lia. }
  set (x := take (i + length MARKER_OPEN) reply) in *.
  assert (Hx : ∃ y, x = y ++ [62%N]).
  { apply find_str_Some in Hpre as (Ho & _). apply starts_with_spec in Ho as [k Hk].
    assert (k = []) as ->.
    { apply (f_equal length) in Hk. subst x. rewrite length_drop, length_app, length_take in Hk.
      destruct k; [done|simpl in *; lia]. }
    exists (take i x ++ lit "<suggested_replies"). rewrite <- (take_drop i x) at 1. by rewrite Hk, <- (assoc_L (++)). }
  destruct Hx as [y Hy].
  replace (take j reply) with (x ++ drop (i + length MARKER_OPEN) (take j reply)).
  2: { subst x. rewrite <- (take_drop (i + length MARKER_OPEN) (take j reply)) at 2. f_equal. rewrite take_take. f_equal. lia. }
  rewrite <- (assoc_L (++)), Hy, trim_end_app_keep, <- Hy by done. by apply find_str_app_Some.
Qed.

(** ** Concrete replies *)

Module Demo.
#[export] Instance demo_parse : JsonParse := {|
  from_str s := if str_eqb s (lit "chips") then Ok (Array [jstr " Yes "; jstr ""; jstr "No"]) else Err (lit "expected value") |}.
Definition reply : str := lit "Shall I? <suggested_replies>chips</suggested_replies> ".
Definition deltas : list str :=
  [lit "Shall I? <sugg"; lit "ested_rep"; lit "lies>chips</suggested_"; lit "replies> "].
Definition twice : str := lit "A<suggested_replies>chips</suggested_replies>B<suggested_replies>chips</suggested_replies>".
End Demo.
Import Demo.

Lemma live_matches_final_witness :
  trim_end (stream Demo.deltas) = trim_end (extract_suggested_replies Demo.reply).1 ∧
  (extract_suggested_replies Demo.reply).2 = [lit "Yes"; lit "No"].
Proof.
  split; [|by vm_compute]. apply (live_matches_final Demo.deltas Demo.reply); [by vm_compute|].
  assert (Hf : find_str MARKER_OPEN Demo.reply = Some 9) by by vm_compute.
  unfold well_placed. rewrite Hf. split; [by vm_compute|].
  assert (Hc : find_str MARKER_CLOSE (drop (9 + length MARKER_OPEN) Demo.reply) = Some 5) by by vm_compute.
  rewrite Hc. repeat constructor.
Defined.

Lemma earlier_trailer_kept_witness :
  find_str MARKER_OPEN (extract_suggested_replies Demo.twice).1 = Some 1 ∧ stream [Demo.twice] = lit "A".
Proof.
  destruct (earlier_trailer_kept Demo.twice 1 46 ltac:(by vm_compute) ltac:(by vm_compute) ltac:(simpl; lia)) as [H1 H2].
  split; [exact H1|]. rewrite H2; by vm_compute.
Defined.
