(* ===== verification/Replay.v ===== *)
(** * Replay: what a turn reads and writes of its conversation
    ([server/src/runner.rs], [smooth-operator/src/runtime.rs], [domain.rs])

    The history handed to the engine, the messages a turn appends, and the citations of its
    answer.  The engine's own types ([KnowledgeResult], its messages) are records of the
    fields this code reads and writes. *)

From stdpp Require Import prelude gmap strings list sorting.
From Stdlib Require Import SpecFloat.
From S2P Require Import Prelude Text Json Storage.

Definition MAX_PRIOR_MESSAGES : nat := 50.
Definition MAX_REPLAYED_IMAGE_MESSAGES : nat := 3.
Definition TURN_ERROR_METADATA_KEY : str := lit "turnError".

(** ** History replay *)

Inductive ReplayRole := RoleUser | RoleAssistant.
#[export] Instance ReplayRole_eq_dec : EqDecision ReplayRole.
Proof. solve_decision. Defined.

(** The engine's message, with the fields that are not constants here. *)
Record EngineMessage := mk_EngineMessage {
  em_id : str;
  em_role : ReplayRole;
  em_content : str;
  em_images : list str;
  em_timestamp : Timestamp;
}.

Definition is_turn_error (m : Message) : bool :=
  is_some (msg_metadata_json m ≫= λ meta, get meta TURN_ERROR_METADATA_KEY).

Definition image_urls (m : Message) : list str :=
  match direction m with
  | Outbound => []
  | Inbound =>
      List.filter (λ url, negb (str_is_empty url))
        (omap item_url (List.filter (λ it, str_eqb (item_type it) (lit "image")) (content_items (content m))))
  end.

Definition role_of (d : Direction) : ReplayRole :=
  match d with Inbound => RoleUser | Outbound => RoleAssistant end.

Definition replay_text (m : Message) : str :=
  default [] (opt_or (content_flat (content m)) (find_map item_text (content_items (content m)))).

(** The positions of the image-bearing messages, newest first, capped. *)
Definition keep_images_from (messages : list Message) : list nat :=
  take MAX_REPLAYED_IMAGE_MESSAGES
    (reverse (fst <$> filter (λ im, image_urls im.2 ≠ []) (imap pair messages))).

Definition omitted_note (urls : list str) : str :=
  if length urls =? 1 then lit "[image omitted]"
  else lit "[" ++ show_nat (length urls) ++ lit " images omitted]".

(** One message of the loop. *)
Definition replay_message (keep : list nat) (i : nat) (m : Message) : option EngineMessage :=
  if is_turn_error m then None
  else
    let text := replay_text m in
    let urls := image_urls m in
    let '(text, images) :=
      match urls with
      | [] => (text, [])
      | _ =>
          if bool_decide (i ∈ keep) then (text, urls)
          else
            let note := omitted_note urls in
            (if str_is_empty (trim text) then note else text ++ [10%N] ++ note, [])
      end in
    if str_is_empty text && bool_decide (images = []) then None
    else Some (mk_EngineMessage (msg_id m) (role_of (direction m)) text images (msg_created_at m)).

Definition prior_messages_for_replay (messages : list Message) : list EngineMessage :=
  omap id (imap (replay_message (keep_images_from messages)) messages).

Definition load_prior_messages {S} `{!StorageAdapter S} (s : S) (conversation_id : str) :
    result error (list EngineMessage) :=
  page ← list_messages_by_conversation s (message_query_new conversation_id MAX_PRIOR_MESSAGES);
  mret (prior_messages_for_replay (page_messages page)).

(** [KnowledgeChatRuntime::load_prior_messages], the replay of the library's own runtime. *)
Definition runtime_replay_message (m : Message) : option EngineMessage :=
  let text := replay_text m in
  if str_is_empty text then None
  else Some (mk_EngineMessage (msg_id m) (role_of (direction m)) text [] (msg_created_at m)).

Definition runtime_load_prior_messages {S} `{!StorageAdapter S} (s : S) (conversation_id : str) :
    result error (list EngineMessage) :=
  page ← list_messages_by_conversation s (message_query_new conversation_id MAX_PRIOR_MESSAGES);
  mret (omap runtime_replay_message (page_messages page)).

(** ** What a turn appends *)

(** [id] is the fresh UUID, [now] the clock. *)
Definition new_message (id conversation_id : str) (d : Direction) (c : MessageContent) (now : Timestamp) : Message :=
  mk_Message id None None (Some conversation_id) d c None None None None now None.

Section append.
Context {S : Type} `{!StorageAdapter S}.

Definition persist_message (id : str) (now : Timestamp) (conversation_id : str) (d : Direction) (text : str)
    (urls : list str) (s : S) : result error Message * S :=
  let c := match urls with [] => from_text text | _ => from_text_and_images text urls end in
  append_message (new_message id conversation_id d c now) s.

Definition turn_error_text (detail : str) : str :=
  lit "This reply failed before it finished (" ++ detail ++ lit ").".

Definition persist_turn_error (id : str) (now : Timestamp) (conversation_id request_id code detail : str) (s : S) :
    result error Message * S :=
  let m := new_message id conversation_id Outbound (from_text (turn_error_text detail)) now in
  append_message
    (mk_Message (msg_id m) None None (msg_conversation_id m) Outbound (content m) None None
       (Some (Object [(TURN_ERROR_METADATA_KEY,
                       Object [field "code" (String code); field "requestId" (String request_id)])]))
       None now None) s.
End append.

(** ** Citations *)

Record KnowledgeHit := mk_KnowledgeHit {
  kh_document_id : str;
  kh_source : str;
  kh_chunk : str;
  kh_score : spec_float;
}.

Record Citation := mk_Citation {
  cite_id : str;
  cite_title : str;
  cite_url : option str;
  cite_snippet : str;
  cite_score : spec_float;
}.

Definition MAX_CITATIONS : nat := 8.
Definition CITATION_SNIPPET_MAX_CHARS : nat := 280.

Definition web_url (source : str) : option str :=
  if starts_with (lit "http://") source || starts_with (lit "https://") source then Some source else None.

Definition truncate_snippet (text : str) (max : nat) : str :=
  if length text <=? max then text else take max text ++ [8230%N].

Definition from_knowledge_result (r : KnowledgeHit) : Citation :=
  mk_Citation (kh_document_id r) (kh_source r) (web_url (kh_source r))
    (truncate_snippet (kh_chunk r) CITATION_SNIPPET_MAX_CHARS) (kh_score r).

(** [filter(|r| seen.insert(..))]. *)
Fixpoint first_occurrences (seen : gset str) (l : list KnowledgeHit) : list KnowledgeHit :=
  match l with
  | [] => []
  | r :: rest =>
      if bool_decide (kh_document_id r ∈ seen) then first_occurrences seen rest
      else r :: first_occurrences ({[kh_document_id r]} ∪ seen) rest
  end.

Definition collect_citations (auto tool : list KnowledgeHit) : list Citation :=
  from_knowledge_result <$> take MAX_CITATIONS (first_occurrences ∅ (auto ++ tool)).

(** [#[derive(Serialize)]] of a citation, camelCase; an absent URL is left out. *)
Definition citation_json (c : Citation) : Value :=
  Object (field "id" (String (cite_id c)) :: field "title" (String (cite_title c)) ::
    (match cite_url c with Some u => [field "url" (String u)] | None => [] end) ++
    [field "snippet" (String (cite_snippet c)); field "score" (Float (cite_score c))]).

(** ** Lemmas: which images are replayed *)

(** The positions of the image-bearing messages of [l], counted from [k]. *)
Definition image_positions (k : nat) (l : list Message) : list nat :=
  fst <$> filter (λ im, image_urls im.2 ≠ []) (imap (λ n m, (k + n, m)) l).

Definition image_bearing (l : list Message) : nat := length (filter (λ m, image_urls m ≠ []) l).

Lemma image_positions_cons k m l :
  image_positions k (m :: l) =
    (if decide (image_urls m ≠ []) then [k] else []) ++ image_positions (S k) l.
Proof.
  unfold image_positions. simpl. rewrite Nat.add_0_r.
  rewrite (imap_ext _ (λ n m, (S k + n, m)) l) by (intros; simpl; f_equal; lia).
  rewrite filter_cons. simpl. by destruct (decide (image_urls m ≠ [])).
Qed.

Lemma image_positions_app k l1 l2 :
  image_positions k (l1 ++ l2) = image_positions k l1 ++ image_positions (k + length l1) l2.
Proof.
  revert k. induction l1 as [|m l1 IH]; intros k; simpl.
  - by rewrite Nat.add_0_r.
  - rewrite !image_positions_cons, IH, (assoc_L (++)). do 2 f_equal. lia.
Qed.

Lemma image_positions_length k l : length (image_positions k l) = image_bearing l.
Proof.
  unfold image_bearing. revert k. induction l as [|m l IH]; intros k; [done|].
  rewrite image_positions_cons, filter_cons, length_app, IH. by destruct (decide (image_urls m ≠ [])).
Qed.

Lemma image_positions_range k l i : i ∈ image_positions k l → k ≤ i < k + length l.
Proof.
  revert k. induction l as [|m l IH]; intros k; [by intros ?%elem_of_nil|].
  rewrite image_positions_cons. simpl. intros [Hi|Hi]%elem_of_app.
  - destruct (decide (image_urls m ≠ [])); [apply list_elem_of_singleton in Hi; lia|by apply elem_of_nil in Hi].
  - apply IH in Hi. lia.
Qed.

Lemma elem_of_take_app {A} (x : A) n l1 l2 :
  x ∉ l1 → x ∉ l2 → x ∈ take n (l1 ++ x :: l2) ↔ length l1 < n.
Proof.
  intros H1 H2. destruct (decide (length l1 < n)) as [Hlt|Hge].
  - split; [done|]. intros _. rewrite take_app, take_ge by lia.
    destruct (n - length l1) as [|k] eqn:E; [lia|]. simpl. set_solver.
  - split; [|lia]. rewrite take_app_le by lia. intros Hx. destruct H1.
    apply list_elem_of_lookup in Hx as [j Hj]. apply lookup_take_Some in Hj as [Hj _].
    by eapply list_elem_of_lookup_2.
Qed.

(** A message keeps its images exactly when fewer than three newer ones bear any. *)
Lemma keep_images_spec messages i m :
  messages !! i = Some m → image_urls m ≠ [] →
  i ∈ keep_images_from messages ↔ image_bearing (drop (S i) messages) < MAX_REPLAYED_IMAGE_MESSAGES.
Proof.
  intros Hi Hm.
  assert (Hk : keep_images_from messages = take MAX_REPLAYED_IMAGE_MESSAGES (reverse (image_positions 0 messages))) by done.
  rewrite Hk. rewrite <- (take_drop_middle _ _ _ Hi) at 1.
  rewrite image_positions_app, image_positions_cons, decide_True by done. simpl.
  assert (Hlen : length (take i messages) = i).
  { rewrite length_take. apply lookup_lt_Some in Hi. lia. }
  rewrite Hlen, reverse_app, reverse_cons, <- (assoc_L (++)). simpl.
  rewrite elem_of_take_app, length_reverse, image_positions_length; [done|..];
    rewrite elem_of_reverse; intros H%image_positions_range; rewrite ?Hlen in H; lia.
Qed.

Lemma omitted_note_nonempty urls : omitted_note urls ≠ [].
Proof. unfold omitted_note. by destruct (_ =? _). Qed.

(** What the replay keeps of a message. *)
Definition replayable (m : Message) : Prop :=
  is_turn_error m = false ∧ (replay_text m ≠ [] ∨ image_urls m ≠ []).
#[export] Instance replayable_dec m : Decision (replayable m).
Proof. apply _. Defined.

Lemma replay_message_spec keep i m :
  if decide (replayable m)
  then ∃ e, replay_message keep i m = Some e ∧ em_id e = msg_id m ∧ em_role e = role_of (direction m) ∧
       em_images e = (if bool_decide (i ∈ keep) then image_urls m else [])
  else replay_message keep i m = None.
Proof.
  unfold replay_message. destruct (decide (replayable m)) as [[He Hr]|Hn].
  - rewrite He. destruct (image_urls m) as [|u us] eqn:Eu.
    + destruct Hr as [Hr|]; [|done]. apply str_is_empty_false in Hr as ->. simpl. eexists. split; [done|].
      split_and!; [done..|]. simpl. by destruct (bool_decide _).
    + destruct (bool_decide (i ∈ keep)).
      * rewrite (bool_decide_eq_false_2 (u :: us = [])), andb_false_r by done. by eexists.
      * destruct (str_is_empty (trim (replay_text m))).
        -- rewrite (proj2 (str_is_empty_false _) (omitted_note_nonempty _)). simpl. by eexists.
        -- rewrite (proj2 (str_is_empty_false _)) by (by destruct (replay_text m)). simpl. by eexists.
  - destruct (is_turn_error m) eqn:He; [done|].
    destruct (decide (replay_text m = [])) as [Et|?]; [|by destruct Hn; split; [|left]].
    destruct (image_urls m) as [|u us] eqn:Eu; [|by destruct Hn; split; [|right; by rewrite Eu]].
    by rewrite Et.
Qed.

Lemma replay_imap keep k l :
  (λ e, (em_id e, em_role e)) <$> omap id (imap (λ n, replay_message keep (k + n)) l) =
  (λ m, (msg_id m, role_of (direction m))) <$> filter replayable l.
Proof.
  revert k. induction l as [|m l IH]; intros k; [done|]. simpl. rewrite Nat.add_0_r, filter_cons.
  rewrite (imap_ext _ (λ n, replay_message keep (S k + n)) l) by (intros; simpl; f_equal; lia).
  pose proof (replay_message_spec keep k m) as Hs. destruct (decide (replayable m)).
  - destruct Hs as (e & -> & He & Hr & _). specialize (IH (S k)). csimpl in *. by rewrite IH, He, Hr.
  - rewrite Hs. apply IH.
Qed.

(** ** Lemmas: citations *)

Lemma first_occurrences_spec seen l :
  let out := first_occurrences seen l in
  out `sublist_of` l ∧ NoDup (kh_document_id <$> out) ∧
  (∀ r, r ∈ out → kh_document_id r ∉ seen) ∧
  (∀ r, r ∈ l → kh_document_id r ∉ seen → ∃ r', r' ∈ out ∧ kh_document_id r' = kh_document_id r).
Proof.
  revert seen. induction l as [|r l IH]; intros seen; simpl.
  { split_and!; [constructor|constructor|by intros ? ?%elem_of_nil|by intros ? ?%elem_of_nil]. }
  destruct (bool_decide_reflect (kh_document_id r ∈ seen)) as [Hin|Hout].
  - destruct (IH seen) as (Hs & Hn & Hf & Ha). split_and!; [by constructor|done|done|].
    intros r' [->|Hr]%elem_of_cons Hns; [done|by apply Ha].
  - destruct (IH ({[kh_document_id r]} ∪ seen)) as (Hs & Hn & Hf & Ha). split_and!.
    + by constructor.
    + simpl. constructor; [|done]. intros (r' & Hid & Hr')%list_elem_of_fmap. apply Hf in Hr'. set_solver.
    + intros r' [->|Hr]%elem_of_cons; [done|]. apply Hf in Hr. set_solver.
    + intros r' [->|Hr]%elem_of_cons Hns; [exists r; split; [by left|done]|].
      destruct (decide (kh_document_id r' = kh_document_id r)) as [He|Hne]; [exists r; by split; [left|]|].
      destruct (Ha r' Hr) as (r2 & H2 & He); [set_solver|]. exists r2. by split; [right|].
Qed.

Lemma truncate_snippet_length text max : length (truncate_snippet text max) ≤ S max.
Proof.
  unfold truncate_snippet. destruct (Nat.leb_spec (length text) max); [lia|].
  rewrite length_app, length_take. simpl. lia.
Qed.

(** The replay on the in-memory tables: the first page of the append order. *)
Lemma load_prior_in_memory (t : Tables) cid :
  load_prior_messages t cid =
    Ok (prior_messages_for_replay
          (omap (λ id, messages t !! id) (take MAX_PRIOR_MESSAGES (default [] (message_order t !! cid))))).
Proof. reflexivity. Qed.

Lemma append_order (t : Tables) m cid :
  msg_conversation_id m = Some cid →
  message_order (append_message m t).2 !! cid = Some (default [] (message_order t !! cid) ++ [msg_id m]).
Proof. intros Hc. simpl. rewrite Hc. apply lookup_insert_eq. Qed.

(** The images of a message just made are the ones it was made with. *)
Lemma persisted_images id cid d text urls now :
  urls = [] ∨ d = Inbound → [] ∉ urls →
  image_urls (new_message id cid d
    (match urls with [] => from_text text | _ => from_text_and_images text urls end) now) = urls.
Proof.
  intros Hd Hne. destruct urls as [|u us]; [by destruct d|]. destruct Hd as [| ->]; [done|].
  unfold image_urls. simpl direction. cbv iota. simpl content_items.
  change (content_image u :: _) with (content_image <$> (u :: us)).
  revert Hne. generalize (u :: us) as l. clear. intros l Hne. simpl.
  induction l as [|x l IH]; [done|]. apply not_elem_of_cons in Hne as [Hx Hl]. simpl.
  rewrite (proj2 (str_is_empty_false x)) by done. simpl. f_equal. by apply IH.
Qed.

(** A fresh message changes no page it is not on. *)
Lemma append_page (t : Tables) m (ids : list str) :
  msg_id m ∉ ids →
  omap (λ id, messages (append_message m t).2 !! id) ids = omap (λ id, messages t !! id) ids.
Proof.
  intros Hf. apply list_omap_ext, Forall_Forall2_diag, Forall_forall. intros id Hid. simpl.
  rewrite lookup_insert_ne; [done|]. by intros <-.
Qed.

Lemma elem_of_take_l {A} (x : A) n l : x ∈ take n l → x ∈ l.
Proof. intros Hx. rewrite <- (take_drop n l). apply elem_of_app. by left. Qed.

(** ** Properties *)

(** The model is handed the conversation: every message that says something, in order and
    in its speaker's role, and nothing else (a record of a failed turn is nobody's words);
    a user's message keeps its images exactly while fewer than three newer messages bear
    any, and an older one is replaced by a note, never dropped. *)
Theorem replay_faithful messages :
  ((λ e, (em_id e, em_role e)) <$> prior_messages_for_replay messages) =
    ((λ m, (msg_id m, role_of (direction m))) <$> filter replayable messages) ∧
  ∀ i m, messages !! i = Some m → is_turn_error m = false → image_urls m ≠ [] →
    ∃ e, replay_message (keep_images_from messages) i m = Some e ∧ em_id e = msg_id m ∧
      em_images e =
        (if image_bearing (drop (S i) messages) <? MAX_REPLAYED_IMAGE_MESSAGES then image_urls m else []).
Proof.
  split; [exact (replay_imap (keep_images_from messages) 0 messages)|].
  intros i m Hi He Hu. pose proof (replay_message_spec (keep_images_from messages) i m) as Hs.
  rewrite decide_True in Hs by (split; [done|by right]). destruct Hs as (e & Hr & Hid & _ & Him).
  exists e. split_and!; [done..|]. rewrite Him.
  pose proof (keep_images_spec messages i m Hi Hu) as Hk.
  destruct (Nat.ltb_spec (image_bearing (drop (S i) messages)) MAX_REPLAYED_IMAGE_MESSAGES).
  - rewrite bool_decide_true; [done|]. by apply Hk.
  - rewrite bool_decide_false; [done|]. rewrite Hk. lia.
Qed.

(** Past fifty messages a conversation's memory stands still: the history is the first page,
    oldest first, so whatever is said from then on never reaches the model again. *)
Theorem long_history_forgotten (t : Tables) cid m
    (Hlong : MAX_PRIOR_MESSAGES ≤ length (default [] (message_order t !! cid)))
    (Hfresh : msg_id m ∉ default [] (message_order t !! cid)) (Hconv : msg_conversation_id m = Some cid) :
  load_prior_messages (append_message m t).2 cid = load_prior_messages t cid.
Proof.
  rewrite !load_prior_in_memory, (append_order t m cid Hconv). simpl default. rewrite take_app_le by done.
  do 2 f_equal. apply append_page. intros Hin%elem_of_take_l. by apply Hfresh.
Qed.

(** C32. What a turn writes is what the next one reads: a message persisted in a conversation that
    is not full is the last of the replayed history, with its role, its text and its images
    as they were given, as long as it says something. *)
Theorem persisted_is_replayed (t : Tables) id now cid d text urls
    (Hroom : length (default [] (message_order t !! cid)) < MAX_PRIOR_MESSAGES)
    (Hurls : urls = [] ∨ d = Inbound) (Hnonempty : [] ∉ urls) (Hsays : text ≠ [] ∨ urls ≠ []) :
  ∃ earlier, load_prior_messages (persist_message id now cid d text urls t).2 cid =
    Ok (earlier ++ [mk_EngineMessage id (role_of d) text urls now]).
Proof.
  set (c := match urls with [] => from_text text | _ => from_text_and_images text urls end).
  set (m := new_message id cid d c now).
  assert (Hm : (persist_message id now cid d text urls t).2 = (append_message m t).2) by done.
  assert (Htext : replay_text m = text) by (unfold replay_text, m, c; simpl; by destruct urls).
  assert (Himg : image_urls m = urls) by (by apply persisted_images).
  rewrite Hm, load_prior_in_memory, (append_order t m cid eq_refl). simpl default.
  rewrite take_ge by (rewrite length_app; simpl; lia). rewrite omap_app.
  assert (Hlast : omap (λ i, messages (append_message m t).2 !! i) [id] = [m]).
  { simpl. by rewrite lookup_insert_eq. }
  change (msg_id m) with id. rewrite Hlast. set (before := omap _ _). unfold prior_messages_for_replay. rewrite imap_app, omap_app. simpl.
  rewrite Nat.add_0_r. eexists. do 2 f_equal.
  assert (Hkeep : urls ≠ [] → length before ∈ keep_images_from (before ++ [m])).
  { intros Hne. apply (keep_images_spec _ _ m).
    - rewrite lookup_app_r by reflexivity. by rewrite Nat.sub_diag.
    - by rewrite Himg.
    - rewrite drop_ge by (rewrite length_app; simpl; lia).
      unfold image_bearing, MAX_REPLAYED_IMAGE_MESSAGES. simpl. lia. }
  unfold replay_message. rewrite Htext, Himg. simpl.
  destruct urls as [|u us] eqn:Eu.
  - destruct Hsays as [Hs|]; [|done]. by rewrite (proj2 (str_is_empty_false _) Hs).
  - rewrite bool_decide_true by by apply Hkeep. rewrite (bool_decide_eq_false_2 (u :: us = [])), andb_false_r by done. done.
Qed.

(** An answer's citations name each source once, at most eight of them, the auto-injected ones
    first; every one is a document the turn retrieved, linked only to a web address and with
    a bounded snippet; and no retrieved document is left out while there is room. *)
Theorem citations_spec auto tool :
  let cs := collect_citations auto tool in
  NoDup (cite_id <$> cs) ∧ length cs ≤ MAX_CITATIONS ∧
  cs `sublist_of` (from_knowledge_result <$> auto ++ tool) ∧
  (length cs < MAX_CITATIONS → ∀ r, r ∈ auto ++ tool → kh_document_id r ∈ cite_id <$> cs) ∧
  ∀ c, c ∈ cs → length (cite_snippet c) ≤ S CITATION_SNIPPET_MAX_CHARS ∧
    ∀ u, cite_url c = Some u → starts_with (lit "http://") u = true ∨ starts_with (lit "https://") u = true.
Proof.
  unfold collect_citations. destruct (first_occurrences_spec ∅ (auto ++ tool)) as (Hs & Hn & _ & Ha).
  set (docs := first_occurrences ∅ (auto ++ tool)) in *.
  assert (Hids : ∀ l : list KnowledgeHit, cite_id <$> (from_knowledge_result <$> l) = kh_document_id <$> l).
  { intros l. by rewrite <- list_fmap_compose. }
  split_and!.
  - rewrite Hids, fmap_take. eapply sublist_NoDup; [exact Hn|]. apply sublist_take.
  - rewrite length_fmap, length_take. lia.
  - apply fmap_sublist. etrans; [apply sublist_take|done].
  - rewrite length_fmap, length_take. intros Hlt r Hr. rewrite Hids, take_ge by lia.
    destruct (Ha r Hr) as (r' & Hr' & <-); [set_solver|]. by apply list_elem_of_fmap_2.
  - intros c (r & -> & _)%list_elem_of_fmap. split; [apply truncate_snippet_length|].
    intros u. simpl. unfold web_url. destruct (_ || _) eqn:E; [|done]. intros [= <-].
    by apply orb_true_iff in E.
Qed.

(** ** Concrete inputs *)

Section Demo.
Definition said (n : nat) (t : Tables) : Tables :=
  (persist_message (lit "m" ++ show_nat n) 7%Z (lit "c") (if Nat.even n then Inbound else Outbound)
     (lit "line " ++ show_nat n) [] t).2.

Definition after_lines (n : nat) : Tables :=
  foldl (λ t i, said i t) tables_default (seq 0 n).

Definition late : Message := new_message (lit "m50") (lit "c") Inbound (from_text (lit "and now?")) 9%Z.

(** The fifty-first message changes nothing of what the model is shown. *)
Lemma long_history_forgotten_witness :
  load_prior_messages (append_message late (after_lines 50)).2 (lit "c") =
    load_prior_messages (after_lines 50) (lit "c").
Proof.
  apply (long_history_forgotten (after_lines 50) (lit "c") late).
  - vm_compute. lia.
  - vm_compute. intros Hin. repeat (apply elem_of_cons in Hin as [Hin|Hin]; [discriminate Hin|]).
    by apply elem_of_nil in Hin.
  - done.
Defined.

Lemma persisted_is_replayed_witness :
  ∃ earlier, load_prior_messages
      (persist_message (lit "new") 9%Z (lit "c") Inbound (lit "look") [lit "data:x"] (after_lines 3)).2 (lit "c") =
    Ok (earlier ++ [mk_EngineMessage (lit "new") RoleUser (lit "look") [lit "data:x"] 9%Z]).
Proof.
  apply (persisted_is_replayed (after_lines 3)).
  - vm_compute. lia.
  - by right.
  - intros Hin%list_elem_of_singleton. done.
  - by right.
Defined.
End Demo.
