(* ===== verification/Widget.v ===== *)
(** * Widget: who may embed an agent ([smooth-operator/src/widget_auth.rs])

    The origin allowlist, the signed [authContext] with its replay window, and the
    providers that say which policy an agent has: the permissive one, a static map, and a
    policy service read over HTTP behind a cache. *)

From Stdlib Require Import DecimalString.
From stdpp Require Import prelude gmap strings list.
From S2P Require Import Prelude Text.

Record AgentWidgetAuth := mk_AgentWidgetAuth {
  allowed_origins : list str;
  public_key : option str;
  organization_id : option str;
}.

(** ** Origins *)

(** [str::split_once] on a string. *)
Fixpoint split_once_str (pat s : str) : option (str * str) :=
  if starts_with pat s then Some ([], drop (length pat) s)
  else match s with
       | [] => None
       | c :: s' => (λ '(a, b), (c :: a, b)) <$> split_once_str pat s'
       end.

Definition origin_matches (pattern origin : str) : bool :=
  if str_eqb pattern (lit "*") then true
  else if str_eqb pattern origin then true
  else
    match split_once_str (lit "://") pattern, split_once_str (lit "://") origin with
    | Some (p_scheme, p_host), Some (o_scheme, o_host) =>
        if negb (str_eqb p_scheme o_scheme) then false
        else
          match strip_prefix (lit "*.") p_host with
          | Some suffix => str_eqb o_host suffix || ends_with (lit "." ++ suffix) o_host
          | None => false
          end
    | _, _ => false
    end.

Definition origin_allowed (allowed : list str) (origin : str) : bool :=
  any (λ pattern, origin_matches pattern origin) allowed.

(** ** Signed contexts *)

(** 64-bit integers: [i64::MIN], the wrap-around of a build without overflow checks, and
    the panic ([None]) of one with them. *)
Definition i64_min : Z := (- 2 ^ 63)%Z.
Definition i64_max : Z := (2 ^ 63 - 1)%Z.
Definition is_i64 (z : Z) : bool := (i64_min <=? z)%Z && (z <=? i64_max)%Z.
Definition wrap_i64 (z : Z) : Z := ((z + 2 ^ 63) mod 2 ^ 64 - 2 ^ 63)%Z.
Definition i64_op (overflow_checks : bool) (z : Z) : option Z :=
  if is_i64 z then Some z else if overflow_checks then None else Some (wrap_i64 z).

(** [{}] of an [i64]. *)
Definition show_Z (z : Z) : str :=
  lit (NilEmpty.string_of_int (Z.to_int z)).

(** HMAC-SHA256 and hexadecimal decoding are other crates' code. *)
Class Signing := {
  hex_decode : str → option (list N);
  hmac_new_from_slice : list N → bool;
  hmac_verify_slice : list N → list N → list N → bool;
}.

Section verify.
Context `{Signing} (overflow_checks : bool).

Definition signature_valid (public_key user_id signature_hex : str) (timestamp : Z) : bool :=
  match hex_decode signature_hex with
  | None => false
  | Some sig =>
      hmac_new_from_slice (utf8 public_key) &&
      hmac_verify_slice (utf8 public_key) (utf8 (user_id ++ lit ":" ++ show_Z timestamp)) sig
  end.

(** [None] is a panic. *)
Definition verify_auth_context (public_key user_id signature_hex : str)
    (timestamp now_unix max_age_secs : Z) : option bool :=
  d ← i64_op overflow_checks (now_unix - timestamp);
  age ← i64_op overflow_checks (Z.abs d);
  Some (if (max_age_secs <? age)%Z then false
        else signature_valid public_key user_id signature_hex timestamp).
End verify.

(** ** Providers *)

Definition PermissiveWidgetAuth_agent_widget_auth (_ : str) : option AgentWidgetAuth := None.

Record StaticWidgetAuth := mk_StaticWidgetAuth { rows : gmap str AgentWidgetAuth }.
Definition StaticWidgetAuth_agent_widget_auth (self : StaticWidgetAuth) (agent_id : str) :
    option AgentWidgetAuth := rows self !! agent_id.

(** Clock readings are in seconds; [elapsed] never goes below zero. *)
Record CacheEntry := mk_CacheEntry { value : option AgentWidgetAuth; fetched : N }.

Record HttpWidgetAuth := mk_HttpWidgetAuth {
  base_url : str;
  bearer : option str;
  ttl : N;
  cache : gmap str CacheEntry;
}.

Definition is_slash (c : char) : bool := (c =? 47)%N.

Definition with_client (base_url : str) : HttpWidgetAuth :=
  mk_HttpWidgetAuth (trim_end_matches is_slash base_url) None 60 ∅.
Definition with_bearer (token : str) (self : HttpWidgetAuth) : HttpWidgetAuth :=
  mk_HttpWidgetAuth (base_url self) (Some token) (ttl self) (cache self).
Definition with_ttl (t : N) (self : HttpWidgetAuth) : HttpWidgetAuth :=
  mk_HttpWidgetAuth (base_url self) (bearer self) t (cache self).

Definition cached (self : HttpWidgetAuth) (agent_id : str) (now : N) : option (option AgentWidgetAuth) :=
  match cache self !! agent_id with
  | Some entry => if (now - fetched entry <? ttl self)%N then Some (value entry) else None
  | None => None
  end.

Definition store (self : HttpWidgetAuth) (agent_id : str) (v : option AgentWidgetAuth) (now : N) :
    HttpWidgetAuth :=
  mk_HttpWidgetAuth (base_url self) (bearer self) (ttl self)
    (<[agent_id := mk_CacheEntry v now]> (cache self)).

(** What asking the policy service comes to: the URL could not be built, the request did
    not get through, or a status with, for a success, the body when it parses. *)
Inductive Reply :=
| BadUrl
| SendFailed
| Success (body : option AgentWidgetAuth)
| NotFound
| OtherStatus.

(** One consultation: the clock when the cache is read and when an answer is stored, and
    what the service would reply. *)
Record Consultation := mk_Consultation { at_read : N; at_store : N; reply : Reply }.

Definition HttpWidgetAuth_agent_widget_auth (self : HttpWidgetAuth) (agent_id : str) (c : Consultation) :
    option AgentWidgetAuth * HttpWidgetAuth :=
  match cached self agent_id (at_read c) with
  | Some v => (v, self)
  | None =>
      match reply c with
      | BadUrl | SendFailed => (None, self)
      | Success (Some policy) => (Some policy, store self agent_id (Some policy) (at_store c))
      | Success None => (None, self)
      | NotFound => (None, store self agent_id None (at_store c))
      | OtherStatus => (None, self)
      end
  end.

(** ** Lemmas *)

Lemma ends_with_spec pat s : ends_with pat s = true ↔ ∃ k, s = k ++ pat.
Proof.
  unfold ends_with. rewrite starts_with_spec. split; intros [k Hk].
  - exists (reverse k). apply (f_equal reverse) in Hk.
    by rewrite reverse_involutive, reverse_app, reverse_involutive in Hk.
  - exists (reverse k). by rewrite Hk, reverse_app.
Qed.

(** [a] is the part of [s] before the first [pat]. *)
Lemma split_once_str_app pat s a b : split_once_str pat s = Some (a, b) → s = a ++ pat ++ b.
Proof.
  revert a b. induction s as [|c s IH]; intros a b; simpl.
  - destruct (starts_with pat []) eqn:E; [|done]. intros [= <- <-].
    apply starts_with_spec in E as [k Hk]. rewrite Hk at 1.
    symmetry in Hk. apply app_eq_nil in Hk as [-> ->]. done.
  - destruct (starts_with pat (c :: s)) eqn:E.
    + intros [= <- <-]. apply starts_with_spec in E as [k Hk]. rewrite Hk, drop_app_length. done.
    + destruct (split_once_str pat s) as [[a' b']|]; simpl; [|done]. intros [= <- <-].
      simpl. f_equal. by apply IH.
Qed.

Lemma wrap_i64_range z : (i64_min ≤ wrap_i64 z ≤ i64_max)%Z.
Proof.
  unfold wrap_i64, i64_min, i64_max. pose proof (Z.mod_pos_bound (z + 2 ^ 63) (2 ^ 64) ltac:(lia)). lia.
Qed.

Lemma wrap_i64_above z : (2 ^ 63 ≤ z < 2 ^ 64)%Z → wrap_i64 z = (z - 2 ^ 64)%Z.
Proof.
  intros Hz. unfold wrap_i64.
  assert ((z + 2 ^ 63) mod 2 ^ 64 = z - 2 ^ 63)%Z as ->; [|lia].
  symmetry. apply Z.mod_unique with 1%Z; lia.
Qed.

Lemma is_i64_true z : is_i64 z = true ↔ (i64_min ≤ z ≤ i64_max)%Z.
Proof. unfold is_i64. rewrite andb_true_iff, !Z.leb_le. done. Qed.

Lemma is_i64_false z : is_i64 z = false ↔ (z < i64_min ∨ i64_max < z)%Z.
Proof. unfold is_i64. rewrite andb_false_iff, !Z.leb_gt. done. Qed.

(** A definitive reply, the only kind that is kept. *)
Definition definitive (r : Reply) : option (option AgentWidgetAuth) :=
  match r with
  | Success (Some p) => Some (Some p)
  | NotFound => Some None
  | BadUrl | SendFailed | Success None | OtherStatus => None
  end.

Definition serve (reqs : list (str * Consultation)) (self : HttpWidgetAuth) : HttpWidgetAuth :=
  foldl (λ h q, (HttpWidgetAuth_agent_widget_auth h q.1 q.2).2) self reqs.

Lemma agent_widget_auth_state h id c :
  (HttpWidgetAuth_agent_widget_auth h id c).2 = h ∨
  ∃ v, definitive (reply c) = Some v ∧ (HttpWidgetAuth_agent_widget_auth h id c).2 = store h id v (at_store c).
Proof.
  unfold HttpWidgetAuth_agent_widget_auth. destruct (cached h id (at_read c)); [by left|].
  destruct (reply c) as [| |[p|]| |]; simpl; (by left) || (right; by eexists).
Qed.

Lemma serve_inv base t reqs :
  let h := serve reqs (with_ttl t (with_client base)) in
  ttl h = t ∧
  ∀ id e, cache h !! id = Some e →
    ∃ c, (id, c) ∈ reqs ∧ definitive (reply c) = Some (value e) ∧ fetched e = at_store c.
Proof.
  simpl. induction reqs as [|[i c] reqs [IHt IH]] using rev_ind; simpl.
  - split; [done|]. intros id e H. by apply lookup_empty_Some in H.
  - unfold serve. rewrite foldl_snoc. fold (serve reqs (with_ttl t (with_client base))).
    set (h := serve reqs _) in *. simpl.
    destruct (agent_widget_auth_state h i c) as [->|(v & Hv & ->)].
    + split; [done|]. intros id e (c' & Hc' & ?)%IH. exists c'. set_solver.
    + split; [done|]. intros id e. simpl. destruct (decide (i = id)) as [->|Hne].
      * rewrite lookup_insert_eq. intros [= <-]. exists c. set_solver.
      * rewrite lookup_insert_ne by done. intros (c' & Hc' & ?)%IH. exists c'. set_solver.
Qed.

(** ** Properties *)

(** The origin allowlist decides exactly what it documents: an empty list admits
    nothing, and otherwise an origin is admitted when some entry is [*], is the origin, or
    is [scheme://*.suffix] where the origin has that scheme and its host is the suffix or
    ends, at a label boundary, with it.  In particular a host that merely ends with the
    same letters ([https://evilsmoo.ai] under [https://*.smoo.ai]) is not admitted. *)
Theorem origin_allowed_exact allowed origin :
  origin_allowed allowed origin = true ↔
    ∃ pattern, pattern ∈ allowed ∧
      (pattern = lit "*" ∨ pattern = origin ∨
       ∃ scheme suffix host,
         split_once_str (lit "://") pattern = Some (scheme, lit "*." ++ suffix) ∧
         split_once_str (lit "://") origin = Some (scheme, host) ∧
         (host = suffix ∨ ∃ sub, host = sub ++ lit "." ++ suffix)).
Proof.
  unfold origin_allowed. rewrite any_true. f_equiv. intros pattern. f_equiv.
  unfold origin_matches. destruct (str_eqb pattern (lit "*")) eqn:E1.
  { apply str_eqb_true in E1. split; [by left|done]. }
  destruct (str_eqb pattern origin) eqn:E2.
  { apply str_eqb_true in E2. split; [by right; left|done]. }
  apply str_eqb_false in E1, E2.
  destruct (split_once_str (lit "://") pattern) as [[ps ph]|];
    [|split; [done|by intros [?|[?|(?&?&?&?&?)]]]].
  destruct (split_once_str (lit "://") origin) as [[os oh]|];
    [|split; [done|by intros [?|[?|(?&?&?&?&?&?)]]]].
  destruct (str_eqb ps os) eqn:E3; cbn [negb].
  - apply str_eqb_true in E3 as ->. destruct (strip_prefix (lit "*.") ph) as [suffix|] eqn:E4.
    + apply strip_prefix_Some in E4 as ->. rewrite orb_true_iff, str_eqb_true, ends_with_spec. split.
      * intros Hh. right; right. by exists os, suffix, oh.
      * intros [He|[He|(sc & su & ho & Hp & Ho & Hh)]]; [done..|].
        injection Hp as <- Hs. injection Ho as <-. by subst su.
    + split; [done|]. intros [He|[He|(sc & su & ho & Hp & _)]]; [done..|].
      assert (ph = lit "*." ++ su) as -> by congruence. rewrite (proj2 (strip_prefix_Some (lit "*.") _ su) eq_refl) in E4. done.
  - split; [done|]. intros [?|[?|(sc & su & ho & [= <- _] & [= <- _] & _)]]; [done..|].
    by rewrite str_eqb_refl in E3.
Qed.

(** The replay window at the width of the machine: a context is accepted exactly when it
    is signed and its age is within the window, except at the far end of the 64-bit
    range.  There the subtraction overflows: a build with overflow checks panics on a
    timestamp more than [2^63] seconds old, and one without accepts, if signed, the single
    timestamp whose age wraps to [i64::MIN]. *)
Theorem auth_context_window `{Signing} overflow_checks pk uid sig ts now max_age
    (Hts : is_i64 ts = true) (Hnow : (0 ≤ now)%Z) (Hmax : (0 ≤ max_age)%Z)
    (Hbig : (now + max_age < 2 ^ 63)%Z) :
  verify_auth_context overflow_checks pk uid sig ts now max_age =
    if (now - ts <? 2 ^ 63)%Z
    then Some (bool_decide (Z.abs (now - ts) ≤ max_age)%Z && signature_valid pk uid sig ts)
    else if overflow_checks then None
    else Some (bool_decide (ts = now - 2 ^ 63)%Z && signature_valid pk uid sig ts).
Proof.
  apply is_i64_true in Hts. unfold i64_min, i64_max in Hts.
  unfold verify_auth_context. destruct (now - ts <? 2 ^ 63)%Z eqn:E.
  - apply Z.ltb_lt in E.
    assert (is_i64 (now - ts) = true) as H1 by (apply is_i64_true; unfold i64_min, i64_max; lia).
    assert (is_i64 (Z.abs (now - ts)) = true) as H2 by (apply is_i64_true; unfold i64_min, i64_max; lia).
    unfold i64_op. rewrite H1. simpl. rewrite H2. simpl. f_equal.
    destruct (max_age <? Z.abs (now - ts))%Z eqn:E2.
    + apply Z.ltb_lt in E2. by rewrite bool_decide_eq_false_2 by lia.
    + apply Z.ltb_ge in E2. by rewrite bool_decide_eq_true_2 by lia.
  - apply Z.ltb_ge in E.
    assert (is_i64 (now - ts) = false) as H1 by (apply is_i64_false; unfold i64_min, i64_max; lia).
    unfold i64_op. rewrite H1. destruct overflow_checks; [done|]. cbn [mbind option_bind].
    rewrite wrap_i64_above by lia.
    destruct (decide (ts = now - 2 ^ 63)%Z) as [Heq|Hne].
    + rewrite bool_decide_eq_true_2 by done.
      assert (now - ts - 2 ^ 64 = i64_min)%Z as -> by (unfold i64_min; lia).
      change (is_i64 (Z.abs i64_min)) with false.
      change (wrap_i64 (Z.abs i64_min)) with i64_min. simpl.
      destruct (max_age <? i64_min)%Z eqn:E2; [|done]. apply Z.ltb_lt in E2. unfold i64_min in E2. lia.
    + rewrite bool_decide_eq_false_2 by done.
      assert (is_i64 (Z.abs (now - ts - 2 ^ 64)) = true) as ->
        by (apply is_i64_true; unfold i64_min, i64_max; lia).
      simpl. destruct (max_age <? _)%Z eqn:E2; [done|]. apply Z.ltb_ge in E2. lia.
Qed.

(** The policy cache never invents an answer and never keeps a failure: after any history
    of consultations, a policy is answered only if the service gave that very policy for
    that agent, either now or in an earlier consultation stored less than the lifetime
    ago; and a consultation the service fails leaves the cache as it was, so the next one
    asks again. *)
Theorem policy_provenance base lifetime reqs id c :
  let h := serve reqs (with_ttl lifetime (with_client base)) in
  (∀ p, (HttpWidgetAuth_agent_widget_auth h id c).1 = Some p →
     definitive (reply c) = Some (Some p) ∨
     ∃ c', (id, c') ∈ reqs ∧ definitive (reply c') = Some (Some p) ∧
           (at_read c - at_store c' < lifetime)%N) ∧
  (definitive (reply c) = None → (HttpWidgetAuth_agent_widget_auth h id c).2 = h).
Proof.
  intros h. destruct (serve_inv base lifetime reqs) as [Ht Hinv]. fold h in Ht, Hinv.
  split.
  - intros p. unfold HttpWidgetAuth_agent_widget_auth, cached.
    destruct (cache h !! id) as [e|] eqn:Ee.
    + destruct (_ <? _)%N eqn:El.
      * simpl. intros Hp. apply N.ltb_lt in El. right.
        destruct (Hinv id e Ee) as (c' & Hc' & Hd & Hf). exists c'. rewrite <- Hf, <- Ht, <- Hp. done.
      * destruct (reply c) as [| |[p'|]| |]; simpl; try done. intros [= ->]. by left.
    + destruct (reply c) as [| |[p'|]| |]; simpl; try done. intros [= ->]. by left.
  - intros Hd. destruct (agent_widget_auth_state h id c) as [?|(v & Hv & _)]; [done|congruence].
Qed.

(** ** Concrete instances *)

Module Demo.
#[export] Instance demo_signing : Signing := {|
  hex_decode s := Some (utf8 s);
  hmac_new_from_slice _ := true;
  hmac_verify_slice k m t := bool_decide (t = k ++ m);
|}.
End Demo.
Import Demo.

Lemma auth_context_window_witness :
  verify_auth_context false (lit "k") (lit "u") (lit "ku:1000") 1000 1030 60 = Some true ∧
  verify_auth_context false (lit "k") (lit "u") (lit "ku:1000") 1000 1061 60 = Some false ∧
  verify_auth_context true (lit "k") (lit "u") (lit "x") i64_min 1000 60 = None.
Proof.
  split; [|split].
  - rewrite (auth_context_window false (lit "k") (lit "u") (lit "ku:1000") 1000 1030 60 eq_refl
      ltac:(lia) ltac:(lia) ltac:(lia)). by vm_compute.
  - rewrite (auth_context_window false (lit "k") (lit "u") (lit "ku:1000") 1000 1061 60 eq_refl
      ltac:(lia) ltac:(lia) ltac:(lia)). by vm_compute.
  - rewrite (auth_context_window true (lit "k") (lit "u") (lit "x") i64_min 1000 60 eq_refl
      ltac:(lia) ltac:(lia) ltac:(lia)). by vm_compute.
Defined.

(** A concrete look-alike host, and what a wildcard admits. *)
Lemma wildcard_boundary :
  origin_allowed [lit "https://*.smoo.ai"] (lit "https://evilsmoo.ai") = false ∧
  origin_allowed [lit "https://*.smoo.ai"] (lit "https://app.smoo.ai") = true ∧
  origin_allowed [lit "https://*.smoo.ai"] (lit "https://smoo.ai") = true ∧
  origin_allowed [lit "https://*.smoo.ai"] (lit "http://app.smoo.ai") = false.
Proof. by vm_compute. Qed.
