(* ===== verification/Agents.v ===== *)
(** * Agents: per-agent behaviour ([smooth-operator/src/agent_config.rs])

    The configuration of an agent and how it is read from a row, the gate on tools that
    need an authenticated caller, and the stepped conversation workflow: which step is
    current, what the judge's verdict does to it, and the cap on attempts. *)

From stdpp Require Import prelude gmap strings list.
From S2P Require Import Prelude Text Json Storage.

(** ** Configuration *)

Record ConversationWorkflowStep := mk_Step {
  step_id : str;
  intent : str;
  criteria : str;
  next : option str;
  suggested_replies : option (list str);
}.

Record ConversationWorkflow := mk_Workflow { goal : str; steps : list ConversationWorkflowStep }.

Record EnabledTool := mk_EnabledTool {
  tool_id : str; tool_enabled : bool; auth_level : str; tool_config : Value }.
Record EnabledExtension := mk_EnabledExtension {
  extension_id : str; extension_enabled : bool; extension_config : option Value }.

Inductive AuthLevel := LevelNone | EndUser | Admin.
#[export] Instance AuthLevel_eq_dec : EqDecision AuthLevel.
Proof. solve_decision. Defined.

Definition auth_level_parse (s : str) : AuthLevel :=
  if str_eqb s (lit "end_user") then EndUser
  else if str_eqb s (lit "admin") then Admin else LevelNone.

Inductive Visibility := Public | Internal.
#[export] Instance Visibility_eq_dec : EqDecision Visibility.
Proof. solve_decision. Defined.

Definition visibility_parse (s : str) : Visibility :=
  if str_eqb s (lit "internal") then Internal else Public.

Record AgentBehaviorConfig := mk_AgentBehaviorConfig {
  visibility : Visibility;
  instructions : option str;
  persona : option str;
  greeting : option str;
  conversation_workflow : option ConversationWorkflow;
  enabled_tools : list EnabledTool;
  enabled_extensions : list EnabledExtension;
  cfg_model : option str;
  cfg_max_iterations : option N;
  llm_metadata : option (list (str * Value));
}.

Definition is_empty (c : AgentBehaviorConfig) : bool :=
  is_none (instructions c) && is_none (persona c) && is_none (greeting c) &&
  is_none (conversation_workflow c) && bool_decide (length (enabled_tools c) = 0) &&
  bool_decide (length (enabled_extensions c) = 0) && is_none (cfg_model c) &&
  is_none (cfg_max_iterations c) && is_none (llm_metadata c).

(** [.map(str::trim).filter(|s| !s.is_empty())]. *)
Definition trimmed (o : option str) : option str :=
  opt_filter (λ s, negb (str_is_empty s)) (trim <$> o).

Definition lf : str := [10%N].

Definition system_prompt (c : AgentBehaviorConfig) : option str :=
  match trimmed (instructions c) with
  | None => None
  | Some i =>
      Some (i ++ match trimmed (persona c) with
                 | Some p => lf ++ lf ++ lit "<Personality>" ++ lf ++ p ++ lf ++ lit "</Personality>"
                 | None => []
                 end)
  end.

Definition em_dash : str := [8212%N].

Definition greeting_section (c : AgentBehaviorConfig) : option str :=
  (λ g, lit "<GreetingAwareness>" ++ lf ++
        lit "This is your first reply in this conversation. Open with a natural, brief variant of: " ++
        [34%N] ++ g ++ [34%N] ++ lit " " ++ em_dash ++
        lit " then address the user's message in the same reply. Do NOT repeat the greeting verbatim, and do not reintroduce yourself later." ++
        lf ++ lit "</GreetingAwareness>") <$> trimmed (greeting c).

Definition enabled_tool_ids (c : AgentBehaviorConfig) : option (list str) :=
  match enabled_tools c with
  | [] => None
  | l => Some (tool_id <$> List.filter tool_enabled l)
  end.

Definition enabled_extension_ids (c : AgentBehaviorConfig) : list str :=
  extension_id <$> List.filter extension_enabled (enabled_extensions c).

Definition auth_level_for (c : AgentBehaviorConfig) (id : str) : AuthLevel :=
  from_option (λ t, auth_level_parse (auth_level t)) LevelNone
    (find_first (λ t, str_eqb (tool_id t) id) (enabled_tools c)).

(** Collecting pairs into a [HashMap]: the last one of a key stays. *)
Definition collect_map {V} (kvs : list (str * V)) : gmap str V :=
  foldl (λ m kv, <[kv.1 := kv.2]> m) ∅ kvs.

Definition tool_configs (c : AgentBehaviorConfig) : gmap str Value :=
  collect_map ((λ t, (tool_id t, tool_config t)) <$>
                 List.filter (λ t, negb (is_null (tool_config t))) (enabled_tools c)).

(** *** Reading a row *)

Definition MAX_ITERATIONS_LOW : Z := 1.
Definition MAX_ITERATIONS_HIGH : Z := 64.

(** [raw.clamp(1, 64) as u32]. *)
Definition clamp_max_iterations (raw : Z) : N :=
  Z.to_N (Z.max MAX_ITERATIONS_LOW (Z.min raw MAX_ITERATIONS_HIGH)).

(** [.filter(|s| !s.trim().is_empty())]. *)
Definition not_blank (o : option str) : option str :=
  opt_filter (λ s, negb (str_is_empty (trim s))) o.

Definition parse_enabled_tool (v : Value) : option EnabledTool :=
  id ← not_blank (get_str v "toolId");
  Some (mk_EnabledTool id (default true (get_bool v "enabled"))
          (default (lit "none") (get_str v "authLevel")) (default Null (get v (lit "config")))).

Definition parse_enabled_extension (v : Value) : option EnabledExtension :=
  id ← not_blank (get_str v "extensionId");
  Some (mk_EnabledExtension id (default true (get_bool v "enabled")) (get v (lit "config"))).

(** [parse_workflow] is serde's derived reader of [ConversationWorkflow]. *)
Definition from_row_values (parse_workflow : Value → option ConversationWorkflow)
    (instructions personality : option Value) (greeting : option str)
    (conversation_workflow tool_config extension_config : option Value)
    (visibility model : option str) (max_iterations : option Z) : AgentBehaviorConfig :=
  let entries {A} (col : option Value) (key : string) (parse : Value → option A) : list A :=
    match (col ≫= λ v, get v (lit key)) ≫= as_array with
    | Some arr => omap parse arr
    | None => []
    end in
  mk_AgentBehaviorConfig
    (from_option visibility_parse Public visibility)
    (not_blank (instructions ≫= λ v, get_str v "prompt"))
    (not_blank (personality ≫= λ v, get_str v "persona"))
    (not_blank greeting)
    (opt_filter (λ w, negb (bool_decide (length (steps w) = 0))) (conversation_workflow ≫= parse_workflow))
    (entries tool_config "enabledTools" parse_enabled_tool)
    (entries extension_config "enabledExtensions" parse_enabled_extension)
    (trimmed model)
    (clamp_max_iterations <$> max_iterations)
    None.

(** ** The gate on authenticated tools *)

Definition tool_auth_refusal (tool_name : str) (level : AuthLevel) (visibility : Visibility)
    (session_authenticated : bool) : option str :=
  if bool_decide (visibility = Internal) then None
  else
    match level with
    | LevelNone => None
    | Admin => Some (lit "Tool '" ++ tool_name ++
                     lit "' requires admin authentication and is not available on public-facing agents.")
    | EndUser =>
        if session_authenticated then None
        else Some (lit "I need to verify your identity before I can use " ++ tool_name ++
                   lit ". Please verify with a one-time code.")
    end.

Record AuthGateHook := mk_AuthGateHook {
  auth_levels : gmap str AuthLevel;
  gate_visibility : Visibility;
  gate_session_authenticated : bool;
  auth_supporting_tools : gset str;
  otp_refused_tool : option str;
}.

Definition gate_new (levels : gmap str AuthLevel) (v : Visibility) (authed : bool) (supporting : gset str) :
    AuthGateHook := mk_AuthGateHook levels v authed supporting None.

Definition level_of (h : AuthGateHook) (name : str) : AuthLevel :=
  default LevelNone (auth_levels h !! name).

Definition is_active (h : AuthGateHook) : bool :=
  any (λ name, negb (bool_decide (level_of h name = LevelNone))) (elements (auth_supporting_tools h)).

(** A refused call is an error carrying the refusal, and may be recorded. *)
Definition pre_call (name : str) (h : AuthGateHook) : result str unit * AuthGateHook :=
  if negb (bool_decide (name ∈ auth_supporting_tools h)) then (Ok (), h)
  else
    let level := level_of h name in
    match tool_auth_refusal name level (gate_visibility h) (gate_session_authenticated h) with
    | Some message =>
        (Err message,
         if bool_decide (level = EndUser) && bool_decide (gate_visibility h = Public) &&
            negb (gate_session_authenticated h)
         then mk_AuthGateHook (auth_levels h) (gate_visibility h) (gate_session_authenticated h)
                (auth_supporting_tools h) (Some name)
         else h)
    | None => (Ok (), h)
    end.

(** [build_auth_gate] of [handler.rs]; [auth_tools] is [SMOOTH_AGENT_AUTH_TOOLS]. *)
Definition supporting_tools (auth_tools : option str) : gset str :=
  list_to_set (from_option (λ s, List.filter (λ t, negb (str_is_empty t)) (trim <$> split_str (lit ",") s))
                 [] auth_tools).

Definition build_auth_gate (auth_tools : option str) (cfg : AgentBehaviorConfig)
    (session_authenticated : bool) : option AuthGateHook :=
  let supporting := supporting_tools auth_tools in
  if bool_decide (supporting = ∅) then None
  else
    let levels := collect_map ((λ t, (tool_id t, auth_level_parse (auth_level t))) <$> enabled_tools cfg) in
    let hook := gate_new levels (visibility cfg) session_authenticated supporting in
    if is_active hook then Some hook else None.

(** ** The conversation workflow *)

Definition step_named (id : str) (s : ConversationWorkflowStep) : bool := str_eqb (step_id s) id.

Definition resolve_current_step (workflow : ConversationWorkflow) (current_step_id : option str) :
    option ConversationWorkflowStep :=
  match steps workflow with
  | [] => None
  | first :: _ =>
      match current_step_id ≫= λ id, find_first (step_named id) (steps workflow) with
      | Some found => Some found
      | None => Some first
      end
  end.

(** [Iterator::position]. *)
Fixpoint step_position (id : str) (l : list ConversationWorkflowStep) : option nat :=
  match l with
  | [] => None
  | s :: l' => if step_named id s then Some 0 else S <$> step_position id l'
  end.

Definition next_step (workflow : ConversationWorkflow) (current : ConversationWorkflowStep) :
    option ConversationWorkflowStep :=
  match opt_filter (λ s, negb (str_is_empty s)) (next current) ≫=
        λ id, find_first (step_named id) (steps workflow) with
  | Some explicit => Some explicit
  | None => idx ← step_position (step_id current) (steps workflow); steps workflow !! (idx + 1)
  end.

Inductive WorkflowJudgeVerdict := Yes | No | Maybe | Skipped.
#[export] Instance Verdict_eq_dec : EqDecision WorkflowJudgeVerdict.
Proof. solve_decision. Defined.

Definition verdict_parse `{Lowercase} (reply : str) : WorkflowJudgeVerdict :=
  let lower := to_lowercase (trim reply) in
  if contains (lit "maybe") lower then Maybe
  else if contains (lit "yes") lower then Yes
  else if contains (lit "no") lower then No
  else Maybe.

Definition advance_after_verdict (workflow : ConversationWorkflow) (current_step_id : option str)
    (verdict : WorkflowJudgeVerdict) : option str :=
  current ← resolve_current_step workflow current_step_id;
  match (if bool_decide (verdict = Yes) then next_step workflow current else None) with
  | Some next => Some (step_id next)
  | None => Some (step_id current)
  end.

Definition WORKFLOW_STEP_ATTEMPT_CAP : N := 3.

(** [attempts + 1] on [u32], in a build without overflow checks. *)
Definition apply_step_cap (workflow : ConversationWorkflow) (step_before : option str)
    (judged_next : str) (attempts max_attempts : N) : str * N :=
  match step_id <$> resolve_current_step workflow step_before with
  | Some current =>
      if negb (str_eqb current judged_next) then (judged_next, 0%N)
      else
        let next_attempts := ((attempts + 1) mod 2 ^ 32)%N in
        match (if (max_attempts <=? next_attempts)%N
               then resolve_current_step workflow (Some judged_next) ≫= next_step workflow
               else None) with
        | Some next => (step_id next, 0%N)
        | None => (judged_next, next_attempts)
        end
  | None => (judged_next, 0%N)
  end.

(** [judge_next_step] of [runner.rs]: [judge] is the judge's answer to this turn, [None]
    when there is no judge. *)
Definition judge_next_step `{Lowercase} (judge : option (result error str))
    (workflow : ConversationWorkflow) (current_step_id : option str) (reply : str) : str :=
  match resolve_current_step workflow current_step_id with
  | None => default [] current_step_id
  | Some current =>
      if str_is_empty (trim reply) then step_id current
      else
        match judge with
        | None => step_id current
        | Some answer =>
            let verdict := match answer with Ok content => verdict_parse content | Err _ => Maybe end in
            default (step_id current) (advance_after_verdict workflow (Some (step_id current)) verdict)
        end
  end.

(** What a turn leaves for the next one: the pointer and its attempt count. *)
Definition turn_pointer `{Lowercase} (workflow : ConversationWorkflow) (judge : option (result error str))
    (reply : str) (p : option str * N) : option str * N :=
  let judged := judge_next_step judge workflow p.1 reply in
  let '(s, n) := apply_step_cap workflow p.1 judged p.2 WORKFLOW_STEP_ATTEMPT_CAP in
  (Some s, n).

(** ** Lemmas *)

Lemma collect_map_lookup {V} (kvs : list (str * V)) k :
  collect_map kvs !! k = snd <$> find_first (λ kv, str_eqb kv.1 k) (reverse kvs).
Proof.
  unfold collect_map. induction kvs as [|[k' v] kvs IH] using rev_ind; simpl; [by rewrite lookup_empty|].
  rewrite foldl_snoc, reverse_app. simpl. destruct (str_eqb k' k) eqn:E.
  - apply str_eqb_true in E as ->. by rewrite lookup_insert_eq.
  - apply str_eqb_false in E. by rewrite lookup_insert_ne.
Qed.

Lemma find_first_fmap {A B} (f : A → B) p (l : list A) :
  find_first p (f <$> l) = f <$> find_first (λ x, p (f x)) l.
Proof. induction l as [|x l IH]; simpl; [done|]. by destruct (p (f x)). Qed.

(** The level the gate uses for a tool: that of its last entry. *)
Definition gated_level (cfg : AgentBehaviorConfig) (name : str) : AuthLevel :=
  from_option (λ t, auth_level_parse (auth_level t)) LevelNone
    (find_first (λ t, str_eqb (tool_id t) name) (reverse (enabled_tools cfg))).

Lemma level_of_built cfg authed supporting name :
  level_of (gate_new (collect_map ((λ t, (tool_id t, auth_level_parse (auth_level t))) <$> enabled_tools cfg))
              (visibility cfg) authed supporting) name = gated_level cfg name.
Proof.
  unfold level_of, gated_level. simpl. rewrite collect_map_lookup, <- fmap_reverse, find_first_fmap.
  simpl. by destruct (find_first _ (reverse _)).
Qed.

Section workflow.
Implicit Types (wf : ConversationWorkflow) (s n : ConversationWorkflowStep).

Lemma find_first_stable id (l : list ConversationWorkflowStep) s :
  find_first (step_named id) l = Some s → find_first (step_named (step_id s)) l = Some s.
Proof.
  intros Hf. destruct (find_first_Some _ _ _ Hf) as [_ Hs]. unfold step_named in Hs at 1.
  apply str_eqb_true in Hs. by rewrite Hs.
Qed.

Lemma resolve_idem wf p s :
  resolve_current_step wf p = Some s → resolve_current_step wf (Some (step_id s)) = Some s.
Proof.
  unfold resolve_current_step. destruct (steps wf) as [|first rest] eqn:E; [done|].
  destruct p as [id|]; simpl.
  - destruct (step_named id first) eqn:En; [|destruct (find_first (step_named id) rest) eqn:Ef].
    + intros [= <-]. unfold step_named. by rewrite str_eqb_refl.
    + intros [= <-]. assert (Hff : find_first (step_named id) (first :: rest) = Some c)
        by (simpl; by rewrite En).
      apply find_first_stable in Hff. simpl in Hff. by rewrite Hff.
    + intros [= <-]. unfold step_named. by rewrite str_eqb_refl.
  - intros [= <-]. unfold step_named. by rewrite str_eqb_refl.
Qed.

Context `{Lowercase}.

Lemma judge_resolved judge wf p s reply :
  resolve_current_step wf p = Some s →
  judge_next_step judge wf p reply = judge_next_step judge wf (Some (step_id s)) reply.
Proof. intros Hs. unfold judge_next_step. by rewrite Hs, (resolve_idem wf p s Hs). Qed.

(** One turn in which the pointer did not move. *)
Lemma turn_held wf p s (n : N) judge reply :
  resolve_current_step wf p = Some s → (n + 1 < 2 ^ 32)%N →
  judge_next_step judge wf (Some (step_id s)) reply = step_id s →
  turn_pointer wf judge reply (p, n) =
    if (WORKFLOW_STEP_ATTEMPT_CAP <=? n + 1)%N
    then match next_step wf s with
         | Some t => (Some (step_id t), 0%N)
         | None => (Some (step_id s), (n + 1)%N)
         end
    else (Some (step_id s), (n + 1)%N).
Proof.
  intros Hs Hn Hj. unfold turn_pointer. cbn [fst snd]. rewrite (judge_resolved _ _ _ _ _ Hs), Hj.
  unfold apply_step_cap. rewrite Hs. simpl. rewrite str_eqb_refl. simpl.
  rewrite N.mod_small by done. rewrite (resolve_idem wf p s Hs). simpl.
  destruct (WORKFLOW_STEP_ATTEMPT_CAP <=? n + 1)%N; [|done]. by destruct (next_step wf s).
Qed.
End workflow.

(** The turns of a conversation, each with the judge's answer and the reply it judged. *)
Definition Turn : Type := option (result error str) * str.
Definition run_turns `{Lowercase} (wf : ConversationWorkflow) (turns : list Turn) (p : option str * N) :
    option str * N :=
  foldl (λ p t, turn_pointer wf t.1 t.2 p) p turns.

(** In a turn on [s] the judge accepted nothing (or there was nothing to move to). *)
Definition held_at `{Lowercase} (wf : ConversationWorkflow) (s : ConversationWorkflowStep) (t : Turn) : Prop :=
  judge_next_step t.1 wf (Some (step_id s)) t.2 = step_id s.

Lemma run_turns_held `{Lowercase} wf s turns p :
  resolve_current_step wf p = Some s → Forall (held_at wf s) turns → turns ≠ [] →
  length turns < 3 ∨ next_step wf s = None → (N.of_nat (length turns) < 2 ^ 32)%N →
  run_turns wf turns (p, 0%N) = (Some (step_id s), N.of_nat (length turns)).
Proof.
  intros Hs Hheld Hne Hlen Hbig. induction turns as [|t turns IH] using rev_ind; [done|]. clear Hne.
  apply Forall_app in Hheld as [Hheld Ht]. rewrite Forall_singleton in Ht.
  rewrite length_app in *. simpl in *. unfold run_turns. rewrite foldl_snoc.
  fold (run_turns wf turns (p, 0%N)).
  assert (Hstep : ∀ q, resolve_current_step wf q = Some s →
    turn_pointer wf t.1 t.2 (q, N.of_nat (length turns)) =
      (Some (step_id s), N.of_nat (length turns + 1))).
  { intros q Hq. rewrite (turn_held wf q s) by (done || lia).
    replace (N.of_nat (length turns) + 1)%N with (N.of_nat (length turns + 1)) by lia.
    destruct (WORKFLOW_STEP_ATTEMPT_CAP <=? _)%N eqn:E; [|done].
    apply N.leb_le in E. unfold WORKFLOW_STEP_ATTEMPT_CAP in E.
    destruct Hlen as [Hl|Hnone]; [lia|by rewrite Hnone]. }
  destruct turns as [|t' turns'].
  - by apply Hstep.
  - rewrite IH by (done || lia || (destruct Hlen; [left; lia|by right])).
    apply Hstep. by eapply resolve_idem.
Qed.

(** ** Properties *)

(** C13. The gate on authenticated tools: whatever the host declares and the agent's row says,
    and although an inert gate is never installed, a call is refused exactly when the tool
    is declared to support authentication, the agent is public, and its (last) entry asks
    for an administrator, or for a verified user in a session that is not; and it is the
    latter refusal, never the former, that asks for a one-time code. *)
Theorem auth_gate_enforced auth_tools cfg authed name :
  let gate := build_auth_gate auth_tools cfg authed in
  let refused := match gate with Some g => negb (is_ok (pre_call name g).1) | None => false end in
  let asked := match gate with Some g => is_some (otp_refused_tool (pre_call name g).2) | None => false end in
  (refused = true ↔
     name ∈ supporting_tools auth_tools ∧ visibility cfg = Public ∧
     (gated_level cfg name = Admin ∨ gated_level cfg name = EndUser ∧ authed = false)) ∧
  (asked = true ↔
     name ∈ supporting_tools auth_tools ∧ visibility cfg = Public ∧
     gated_level cfg name = EndUser ∧ authed = false).
Proof.
  unfold build_auth_gate. set (sup := supporting_tools auth_tools).
  case_bool_decide as Hsup; [simpl; rewrite Hsup; set_solver|].
  set (h := gate_new _ _ _ _).
  assert (Hl : level_of h name = gated_level cfg name) by apply level_of_built.
  destruct (is_active h) eqn:Ea.
  - unfold pre_call. simpl. case_bool_decide as Hn; simpl; [|naive_solver]. rewrite Hl.
    unfold tool_auth_refusal. destruct (visibility cfg) eqn:Ev, (gated_level cfg name) eqn:Eg, authed; simpl;
      intuition congruence.
  - simpl. unfold is_active in Ea. rewrite any_false in Ea.
    assert (Hnone : name ∈ sup → gated_level cfg name = LevelNone).
    { intros Hn. rewrite <- Hl. specialize (Ea name). simpl in Ea. rewrite elem_of_elements in Ea.
      specialize (Ea Hn). apply negb_false_iff, bool_decide_eq_true in Ea. done. }
    split; (split; [done|]); intros (Hn & _ & Hg); rewrite (Hnone Hn) in Hg; naive_solver.
Qed.

(** A workflow cannot be stuck on a step that has a successor: if the judge accepts none of
    the next turns' replies, the pointer stays on the step, counting, for two turns and is
    moved to the step's successor, with the count reset, by the third, however the pointer
    named the step (a fresh or unknown pointer names the first one); on a step without a
    successor it stays and only the count grows. *)
Theorem attempt_cap_frees `{Lowercase} wf p s turns
    (Hs : resolve_current_step wf p = Some s) (Hheld : Forall (held_at wf s) turns)
    (Hne : turns ≠ []) (Hbig : (N.of_nat (length turns) < 2 ^ 32)%N) :
  (length turns < 3 ∨ next_step wf s = None →
     run_turns wf turns (p, 0%N) = (Some (step_id s), N.of_nat (length turns))) ∧
  ∀ n, length turns = 3 → next_step wf s = Some n →
    run_turns wf turns (p, 0%N) = (Some (step_id n), 0%N).
Proof.
  split; [intros Hlen; by apply run_turns_held|].
  intros n Hlen Hn. destruct turns as [|t1 [|t2 [|t3 [|]]]]; try done.
  change [t1; t2; t3] with ([t1; t2] ++ [t3]) in *. unfold run_turns. rewrite foldl_app.
  fold (run_turns wf [t1; t2] (p, 0%N)). apply Forall_app in Hheld as [H12 H3].
  rewrite Forall_singleton in H3.
  rewrite (run_turns_held wf s) by (done || (simpl; lia) || (left; simpl; lia)). simpl.
  rewrite (turn_held wf _ s) by (done || by eapply resolve_idem). simpl. by rewrite Hn.
Qed.

Section order.
Context `{Lowercase} (wf : ConversationWorkflow).

Lemma step_position_lookup l i s :
  NoDup (step_id <$> l) → l !! i = Some s → step_position (step_id s) l = Some i.
Proof.
  revert i. induction l as [|t l IH]; intros i Hnd Hi; [done|]. simpl in *.
  apply NoDup_cons in Hnd as [Hni Hnd]. unfold step_named. destruct i as [|i]; simpl in *.
  - injection Hi as ->. by rewrite str_eqb_refl.
  - destruct (str_eqb (step_id t) (step_id s)) eqn:E.
    + apply str_eqb_true in E. destruct Hni. rewrite E. apply list_elem_of_fmap_2.
      by eapply list_elem_of_lookup_2.
    + by rewrite (IH i).
Qed.

Lemma find_named_lookup l i s :
  NoDup (step_id <$> l) → l !! i = Some s → find_first (step_named (step_id s)) l = Some s.
Proof.
  revert i. induction l as [|t l IH]; intros i Hnd Hi; [done|]. simpl in *.
  apply NoDup_cons in Hnd as [Hni Hnd]. unfold step_named at 1. destruct i as [|i]; simpl in *.
  - injection Hi as ->. by rewrite str_eqb_refl.
  - destruct (str_eqb (step_id t) (step_id s)) eqn:E; [|by eapply IH].
    apply str_eqb_true in E. destruct Hni. rewrite E. apply list_elem_of_fmap_2.
    by eapply list_elem_of_lookup_2.
Qed.
End order.

(** Without explicit jumps a workflow is walked in the order it is written: with distinct
    step ids, after [k] turns the judge accepts, the conversation is on the [k]-th step
    (counting from zero), whatever the replies were. *)
Theorem accepted_turns_walk_in_order `{Lowercase} wf turns
    (Hnd : NoDup (step_id <$> steps wf)) (Hlin : Forall (λ s, next s = None) (steps wf))
    (Hyes : Forall (λ t, ∃ content, t.1 = Some (Ok content) ∧ verdict_parse content = Yes ∧ trim t.2 ≠ [])
              turns)
    (Hlen : length turns < length (steps wf)) :
  resolve_current_step wf (run_turns wf turns (None, 0%N)).1 = steps wf !! length turns ∧
  (run_turns wf turns (None, 0%N)).2 = 0%N.
Proof.
  induction turns as [|t turns IH] using rev_ind.
  - unfold resolve_current_step. simpl. by destruct (steps wf).
  - rewrite length_app in *. simpl in *. apply Forall_app in Hyes as [Hyes Ht].
    rewrite Forall_singleton in Ht. destruct Ht as (content & Ht & Hv & Hr).
    destruct IH as [IH1 IH2]; [done|lia|]. unfold run_turns in *. rewrite foldl_snoc.
    set (q := foldl _ (None, 0%N) turns) in *.
    destruct (steps wf !! length turns) as [s|] eqn:Es;
      [|apply lookup_ge_None_1 in Es; lia].
    destruct (lookup_lt_is_Some_2 (steps wf) (length turns + 1) ltac:(lia)) as [n Hn].
    assert (Hnext : next_step wf s = Some n).
    { unfold next_step. rewrite Forall_forall in Hlin.
      rewrite (Hlin s) by (by eapply list_elem_of_lookup_2). simpl.
      by rewrite (step_position_lookup _ _ _ Hnd Es). }
    assert (Hj : judge_next_step t.1 wf q.1 t.2 = step_id n).
    { rewrite (judge_resolved _ _ _ _ _ IH1). unfold judge_next_step.
      rewrite (resolve_idem wf q.1 s IH1), Ht. apply str_is_empty_false in Hr. rewrite Hr, Hv.
      unfold advance_after_verdict. rewrite (resolve_idem wf q.1 s IH1). simpl. by rewrite Hnext. }
    unfold turn_pointer. rewrite Hj. unfold apply_step_cap. rewrite IH1. simpl.
    assert (Hne : step_id s ≠ step_id n).
    { intros Heq. pose proof (step_position_lookup _ _ _ Hnd Es) as H1.
      pose proof (step_position_lookup _ _ _ Hnd Hn) as H2. rewrite Heq, H2 in H1.
      injection H1. lia. }
    rewrite (proj2 (str_eqb_false _ _) Hne). simpl. split; [|done].
    unfold resolve_current_step. destruct (steps wf) as [|f r] eqn:Ew; [done|].
    simpl. change (match (if step_named (step_id n) f then Some f else find_first (step_named (step_id n)) r) with
                   | Some found => Some found | None => Some f end) with
                  (match find_first (step_named (step_id n)) (f :: r) with
                   | Some found => Some found | None => Some f end).
    by rewrite (find_named_lookup _ _ _ Hnd Hn).
Qed.

(** A row never yields a nonsensical agent, whatever its columns hold: prompts are absent or
    not blank, the model is absent or trimmed and not empty, the loop cap lies between 1
    and 64, a workflow has a first step, and every listed tool has a name. *)
Theorem row_values_sane parse i p g w tc ec v m mi :
  let c := from_row_values parse i p g w tc ec v m mi in
  (∀ s, instructions c = Some s ∨ persona c = Some s ∨ greeting c = Some s → trim s ≠ []) ∧
  (∀ s, cfg_model c = Some s → s ≠ [] ∧ trim s = s) ∧
  (∀ n, cfg_max_iterations c = Some n → (1 ≤ n ≤ 64)%N) ∧
  (∀ wf, conversation_workflow c = Some wf → is_Some (resolve_current_step wf None)) ∧
  (∀ t, t ∈ enabled_tools c → trim (tool_id t) ≠ []) ∧
  (is_some (instructions c) = is_some (system_prompt c)).
Proof.
  assert (Hnb : ∀ o s, not_blank o = Some s → trim s ≠ []).
  { intros [x|] s; unfold not_blank; simpl; [|done]. destruct (str_is_empty (trim x)) eqn:E; simpl; [done|].
    intros [= <-]. by apply str_is_empty_false. }
  simpl. split; [|split; [|split; [|split; [|split]]]].
  - intros s [Hs|[Hs|Hs]]; by eapply Hnb.
  - intros s. unfold trimmed. destruct m as [x|]; simpl; [|done].
    destruct (str_is_empty (trim x)) eqn:E; simpl; [done|]. intros [= <-].
    split; [by apply str_is_empty_false|apply trim_idemp].
  - intros n. destruct mi as [z|]; simpl; [|done]. intros [= <-].
    unfold clamp_max_iterations, MAX_ITERATIONS_LOW, MAX_ITERATIONS_HIGH. lia.
  - intros wf. destruct (w ≫= parse) as [wf'|]; simpl; [|done].
    case_bool_decide as Hl; simpl; [done|]. intros [= <-]. unfold resolve_current_step.
    destruct (steps wf'); simpl in *; [done|by eexists].
  - intros t Ht. destruct (_ ≫= as_array) as [arr|]; [|by apply elem_of_nil in Ht].
    apply list_elem_of_omap in Ht as (x & _ & Hx). unfold parse_enabled_tool in Hx.
    destruct (not_blank (get_str x "toolId")) as [id|] eqn:E; simplify_eq/=. by eapply Hnb.
  - unfold system_prompt. simpl. destruct (not_blank _) as [s|] eqn:E; simpl; [|done].
    apply Hnb, str_is_empty_false in E. unfold trimmed. simpl. by rewrite E.
Qed.

(** The judge's verdict is not read word by word: a reply that says no is taken for a yes when
    the letters occur in it. *)
Lemma verdict_parse_over_advances :
  @verdict_parse Storage.Demo.demo_lowercase (lit "No, they answered yesterday's question") = Yes.
Proof. by vm_compute. Qed.

(** ** A concrete workflow *)

Import Storage.Demo.

Module Demo.
Definition step (i : string) : ConversationWorkflowStep := mk_Step (lit i) (lit "ask") (lit "told") None None.
Definition wf : ConversationWorkflow := mk_Workflow (lit "survey") [step "name"; step "role"; step "done"].
Definition said (verdict : string) : Turn := (Some (Ok (lit verdict)), lit "What is it?").
Definition judge_down : Turn := (Some (Err [lit "timeout"]), lit "What is it?").
End Demo.
Import Demo.

Lemma attempt_cap_frees_witness :
  run_turns wf [said "no"; judge_down] (None, 0%N) = (Some (lit "name"), 2%N) ∧
  run_turns wf [said "no"; judge_down; said "Maybe"] (None, 0%N) = (Some (lit "role"), 0%N).
Proof.
  split.
  - refine (proj1 (attempt_cap_frees wf None (step "name") [said "no"; judge_down] eq_refl _ _ _) _);
      [by repeat constructor|done|simpl; lia|left; simpl; lia].
  - refine (proj2 (attempt_cap_frees wf None (step "name") [said "no"; judge_down; said "Maybe"] eq_refl _ _ _)
      (step "role") eq_refl eq_refl); [by repeat constructor|done|simpl; lia].
Defined.

Lemma accepted_turns_walk_in_order_witness :
  resolve_current_step wf (run_turns wf [said "Yes."; said "yes"] (None, 0%N)).1 = Some (step "done").
Proof.
  refine (proj1 (accepted_turns_walk_in_order wf [said "Yes."; said "yes"] _ _ _ _)).
  - apply (bool_decide_unpack _). by vm_compute.
  - by repeat constructor.
  - repeat constructor; eexists; (split; [reflexivity|split; [by vm_compute|done]]).
  - simpl. lia.
Defined.
