(* ===== verification/AppState.v ===== *)
(** * AppState: the server's shared state ([server/src/state.rs])

    The registries every connection of a pod shares, and the operations that keep them in
    step with durable storage.  The registries' locks are never poisoned in the model
    (no operation below panics while holding one). *)

From stdpp Require Import prelude gmap strings list.
From S2P Require Import Prelude Text RunningTurns Backplane Json Storage.

(** ** State *)

(** A held-back create-session: what has not been written yet. *)
Record PendingSession := mk_PendingSession {
  ps_session_id : str;
  ps_conn_id : str;
  ps_conversation : option Conversation;
  ps_user_participant : option Participant;
  ps_agent_participant : option Participant;
  ps_session : option Session;
}.

(** A channel into a parked turn is named by a number. *)
Definition Responder : Type := nat.

Record PendingInteraction := mk_PendingInteraction {
  interaction_id : str;
  kind : str;
  spec : Value;
  responder : Responder;
}.

(** The end user's contact points ([OtpContact]) and intake values. *)
Record OtpContact := mk_OtpContact { contact_email : option str; contact_phone : option str }.
Definition otp_contact_default : OtpContact := mk_OtpContact None None.
Record IntakeValues := mk_IntakeValues {
  iv_name : option str; iv_email : option str; iv_phone : option str }.

(** The mutable part of [AppState]; [detached] are the storage writes spawned as tasks
    and not yet run. *)
Record AppState (S : Type) := mk_AppState {
  storage : S;
  sessions : gmap str Session;
  pending_sessions : gmap str PendingSession;
  doc_sets : gmap str (gmap str nat);
  connectors_ : gmap str (list str);
  pending_confirmations : gmap str Responder;
  pre_approved_confirmations : gmap str str;
  pending_interactions : gmap str PendingInteraction;
  detached : list (str * SessionUpdate);
  running_turns : RunningTurns.RunningTurns;
  backplane : Backplane.Registry;
}.
Arguments mk_AppState {S} _ _ _ _ _ _ _ _ _ _ _.
Arguments storage {S} _.
Arguments sessions {S} _.
Arguments pending_sessions {S} _.
Arguments doc_sets {S} _.
Arguments connectors_ {S} _.
Arguments pending_confirmations {S} _.
Arguments pre_approved_confirmations {S} _.
Arguments pending_interactions {S} _.
Arguments detached {S} _.
Arguments running_turns {S} _.
Arguments backplane {S} _.

Section setters.
Context {S : Type}.
Implicit Types (a : AppState S).

Definition new (storage : S) : AppState S := 
  mk_AppState storage ∅ ∅ ∅ ∅ ∅ ∅ ∅ [] RunningTurns.registry_new Backplane.registry_default.

Definition with_storage (s : S) a : AppState S :=
  mk_AppState s (sessions a) (pending_sessions a) (doc_sets a) (connectors_ a)
    (pending_confirmations a) (pre_approved_confirmations a) (pending_interactions a) (detached a)
    (running_turns a) (backplane a).
Definition with_sessions m a : AppState S :=
  mk_AppState (storage a) m (pending_sessions a) (doc_sets a) (connectors_ a)
    (pending_confirmations a) (pre_approved_confirmations a) (pending_interactions a) (detached a)
    (running_turns a) (backplane a).
Definition with_pending_sessions m a : AppState S :=
  mk_AppState (storage a) (sessions a) m (doc_sets a) (connectors_ a)
    (pending_confirmations a) (pre_approved_confirmations a) (pending_interactions a) (detached a)
    (running_turns a) (backplane a).
Definition with_doc_sets m a : AppState S :=
  mk_AppState (storage a) (sessions a) (pending_sessions a) m (connectors_ a)
    (pending_confirmations a) (pre_approved_confirmations a) (pending_interactions a) (detached a)
    (running_turns a) (backplane a).
Definition with_connectors m a : AppState S :=
  mk_AppState (storage a) (sessions a) (pending_sessions a) (doc_sets a) m
    (pending_confirmations a) (pre_approved_confirmations a) (pending_interactions a) (detached a)
    (running_turns a) (backplane a).
Definition with_pending_confirmations m a : AppState S :=
  mk_AppState (storage a) (sessions a) (pending_sessions a) (doc_sets a) (connectors_ a)
    m (pre_approved_confirmations a) (pending_interactions a) (detached a)
    (running_turns a) (backplane a).
Definition with_pre_approved m a : AppState S :=
  mk_AppState (storage a) (sessions a) (pending_sessions a) (doc_sets a) (connectors_ a)
    (pending_confirmations a) m (pending_interactions a) (detached a)
    (running_turns a) (backplane a).
Definition with_pending_interactions m a : AppState S :=
  mk_AppState (storage a) (sessions a) (pending_sessions a) (doc_sets a) (connectors_ a)
    (pending_confirmations a) (pre_approved_confirmations a) m (detached a)
    (running_turns a) (backplane a).
Definition with_detached l a : AppState S :=
  mk_AppState (storage a) (sessions a) (pending_sessions a) (doc_sets a) (connectors_ a)
    (pending_confirmations a) (pre_approved_confirmations a) (pending_interactions a) l
    (running_turns a) (backplane a).
Definition with_running_turns r a : AppState S :=
  mk_AppState (storage a) (sessions a) (pending_sessions a) (doc_sets a) (connectors_ a)
    (pending_confirmations a) (pre_approved_confirmations a) (pending_interactions a) (detached a)
    r (backplane a).
Definition with_backplane b a : AppState S :=
  mk_AppState (storage a) (sessions a) (pending_sessions a) (doc_sets a) (connectors_ a)
    (pending_confirmations a) (pre_approved_confirmations a) (pending_interactions a) (detached a)
    (running_turns a) b.
End setters.

Definition scoped_connector_key (org_id connector_name : str) : str :=
  lit "IXCONN#" ++ org_id ++ [1%N] ++ connector_name.

Definition no_update : SessionUpdate := mk_SessionUpdate None None None None None None.
Definition metadata_update (m : gmap str Value) : SessionUpdate :=
  mk_SessionUpdate None None None None None (Some m).

Section operations.
Context {S : Type} `{!StorageAdapter S}.
Implicit Types (a : AppState S).

(** ** Sessions *)

Definition insert_session (s : Session) a : AppState S :=
  with_sessions (<[session_id s := s]> (sessions a)) a.

Definition get_session (session_id : str) a : option Session := sessions a !! session_id.

(** Local registry, then storage; a storage hit primes the registry. *)
Definition load_session (session_id : str) a : result error (option Session) * AppState S :=
  match get_session session_id a with
  | Some s => (Ok (Some s), a)
  | None =>
      match Storage.get_session (storage a) session_id with
      | Ok (Some s) => (Ok (Some s), insert_session s a)
      | Ok None => (Ok None, a)
      | Err e => (Err e, a)
      end
  end.

(** ** Held-back creates *)

Definition defer_session (p : PendingSession) a : AppState S :=
  with_pending_sessions (<[ps_session_id p := p]> (pending_sessions a)) a.

Definition is_session_deferred (session_id : str) a : bool :=
  is_some (pending_sessions a !! session_id).

(** The four writes, in order; each clears itself from the record once it landed. *)
Definition flush_pending (p : PendingSession) (s : S) : result error unit * (PendingSession * S) :=
  let mk c u g d := mk_PendingSession (ps_session_id p) (ps_conn_id p) c u g d in
  match (match ps_conversation p with
         | Some c => let '(r, s) := create_conversation c s in ((λ _, ()) <$> r, s)
         | None => (Ok (), s)
         end) with
  | (Err e, s) => (Err e, (p, s))
  | (Ok _, s) =>
  match (match ps_user_participant p with
         | Some u => let '(r, s) := add_participant u s in ((λ _, ()) <$> r, s)
         | None => (Ok (), s)
         end) with
  | (Err e, s) => (Err e, (mk None (ps_user_participant p) (ps_agent_participant p) (ps_session p), s))
  | (Ok _, s) =>
  match (match ps_agent_participant p with
         | Some g => let '(r, s) := add_participant g s in ((λ _, ()) <$> r, s)
         | None => (Ok (), s)
         end) with
  | (Err e, s) => (Err e, (mk None None (ps_agent_participant p) (ps_session p), s))
  | (Ok _, s) =>
  match (match ps_session p with
         | Some d => let '(r, s) := create_session d s in ((λ _, ()) <$> r, s)
         | None => (Ok (), s)
         end) with
  | (Err e, s) => (Err e, (mk None None None (ps_session p), s))
  | (Ok _, s) => (Ok (), (mk None None None None, s))
  end end end end.

Definition materialize_session (session_id : str) a : result error unit * AppState S :=
  match pending_sessions a !! session_id with
  | None => (Ok (), a)
  | Some p =>
      let a := with_pending_sessions (delete session_id (pending_sessions a)) a in
      let '(r, (p, s)) := flush_pending p (storage a) in
      let a := with_storage s a in
      match r with
      | Ok _ => (Ok (), a)
      | Err e => (Err e, defer_session p a)
      end
  end.

Definition materialize_conversation (conversation_id : str) a : result error unit * AppState S :=
  match find_first (λ p, is_some_and (λ s, str_eqb (sess_conversation_id s) conversation_id)
                           (ps_session p)) (values (pending_sessions a)) with
  | None => (Ok (), a)
  | Some p => materialize_session (ps_session_id p) a
  end.

Definition discard_pending_sessions_for_conn (conn_id : str) a : AppState S :=
  with_pending_sessions (filter (λ kv, ps_conn_id kv.2 ≠ conn_id) (pending_sessions a)) a.

(** ** Session metadata *)

Definition session_meta (session_id k : str) a : option Value :=
  s ← sessions a !! session_id; m ← sess_metadata s; m !! k.

Definition set_metadata (m : option (gmap str Value)) (s : Session) : Session :=
  mk_Session (session_id s) (sess_conversation_id s) (sess_organization_id s) (sess_agent_id s)
    (agent_name s) (user_participant_id s) (agent_participant_id s) (thread_id s) (status s)
    (token_count s) (message_count s) m (sess_created_at s) (sess_updated_at s) (ended_at s)
    (last_activity_at s).

(** Editing the local copy's metadata; the new blob, [None] for an unknown session. *)
Definition edit_metadata (session_id : str) (f : gmap str Value → gmap str Value) a :
    option (gmap str Value) * AppState S :=
  match sessions a !! session_id with
  | None => (None, a)
  | Some s =>
      let meta := f (default ∅ (sess_metadata s)) in
      (Some meta, with_sessions (<[session_id := set_metadata (Some meta) s]> (sessions a)) a)
  end.

Definition session_current_step (session_id : str) a : option str :=
  session_meta session_id (lit "currentStepId") a ≫= as_str.

Definition set_session_current_step (session_id : str) (step_id : option str) a : AppState S :=
  (edit_metadata session_id (λ m, match step_id with
                                  | Some i => <[lit "currentStepId" := String i]> m
                                  | None => delete (lit "currentStepId") m
                                  end) a).2.

Definition session_authenticated (session_id : str) a : bool :=
  default false (session_meta session_id (lit "otpVerified") a ≫= as_bool).

(** The metadata blob written through; [now] is the backend's clock. *)
Definition write_through (session_id : str) (meta : gmap str Value) (now : Timestamp) a :
    result error unit * AppState S :=
  let '(r, s) := update_session session_id (metadata_update meta) now (storage a) in
  ((λ _, ()) <$> r, with_storage s a).

(** A storage failure is logged, not raised. *)
Definition set_session_authenticated (session_id : str) (verified : bool) (now : Timestamp) a :
    AppState S :=
  match edit_metadata session_id (insert (lit "otpVerified") (Bool verified)) a with
  | (None, a) => a
  | (Some meta, a) => (write_through session_id meta now a).2
  end.

Definition set_session_meta_key (session_id key : str) (value : option Value) (now : Timestamp) a :
    result error unit * AppState S :=
  match edit_metadata session_id (λ m, match value with
                                       | Some v => <[key := v]> m
                                       | None => delete key m
                                       end) a with
  | (None, a) => (Ok (), a)
  | (Some meta, a) => write_through session_id meta now a
  end.

Definition set_pending_confirmation (session_id : str) (record : option Value) (now : Timestamp) a :=
  set_session_meta_key session_id (lit "pendingConfirmation") record now a.
Definition set_pending_interaction (session_id : str) (record : option Value) (now : Timestamp) a :=
  set_session_meta_key session_id (lit "pendingInteraction") record now a.

Definition session_contact (session_id : str) a : OtpContact :=
  mk_OtpContact (session_meta session_id (lit "contactEmail") a ≫= as_str)
    (session_meta session_id (lit "contactPhone") a ≫= as_str).

Definition session_capabilities (session_id : str) a : list str :=
  match session_meta session_id (lit "supports") a ≫= as_array with
  | Some l => omap as_str l
  | None => []
  end.

(** The write-through is a detached task. *)
Definition attach_session_identity (session_id : str) (v : IntakeValues) a : AppState S :=
  let put k (o : option str) (m : gmap str Value) :=
    match o with Some x => <[lit k := String x]> m | None => m end in
  match edit_metadata session_id
          (λ m, put "contactPhone" (iv_phone v) (put "contactEmail" (iv_email v)
                  (put "userName" (iv_name v) m))) a with
  | (None, a) => a
  | (Some meta, a) => with_detached (detached a ++ [(session_id, metadata_update meta)]) a
  end.

(** Some detached write runs. *)
Definition run_detached (i : nat) (now : Timestamp) a : AppState S :=
  match detached a !! i with
  | Some (sid, u) =>
      with_detached (delete i (detached a))
        (with_storage (update_session sid u now (storage a)).2 a)
  | None => a
  end.

(** ** Organization-scoped registries *)

Definition record_document_set (org_id set : str) a : AppState S :=
  let m := default ∅ (doc_sets a !! org_id) in
  with_doc_sets (<[org_id := <[set := Datatypes.S (default 0 (m !! set))]> m]> (doc_sets a)) a.

Definition str_leb (x y : str) : bool := negb (str_ltb y x).

Definition document_sets (org_id : str) a : list (str * nat) :=
  match doc_sets a !! org_id with
  | None => []
  | Some m => sort_by (λ x y, str_leb x.1 y.1) (map_to_list m)
  end.

Definition record_connector (org_id name : str) a : AppState S :=
  let v := default [] (connectors_ a !! org_id) in
  with_connectors (<[org_id := if any (λ c, str_eqb c name) v then v else v ++ [name]]> (connectors_ a)) a.

Definition connectors (org_id : str) a : list str :=
  sort_by str_leb (default [] (connectors_ a !! org_id)).

(** ** Parked turns *)

Definition register_confirmation (session_id : str) (r : Responder) a : AppState S :=
  with_pending_confirmations (<[session_id := r]> (pending_confirmations a)) a.
Definition take_confirmation (session_id : str) a : option Responder * AppState S :=
  (pending_confirmations a !! session_id,
   with_pending_confirmations (delete session_id (pending_confirmations a)) a).
Definition clear_confirmation (session_id : str) a : AppState S :=
  with_pending_confirmations (delete session_id (pending_confirmations a)) a.

Definition grant_pre_approval (session_id tool : str) a : AppState S :=
  with_pre_approved (<[session_id := tool]> (pre_approved_confirmations a)) a.
Definition take_pre_approval (session_id : str) a : option str * AppState S :=
  (pre_approved_confirmations a !! session_id,
   with_pre_approved (delete session_id (pre_approved_confirmations a)) a).

Definition register_interaction (session_id : str) (p : PendingInteraction) a : AppState S :=
  with_pending_interactions (<[session_id := p]> (pending_interactions a)) a.
Definition pending_interaction (session_id : str) a : option PendingInteraction :=
  pending_interactions a !! session_id.
Definition take_interaction (session_id : str) a : option PendingInteraction * AppState S :=
  (pending_interactions a !! session_id,
   with_pending_interactions (delete session_id (pending_interactions a)) a).
Definition clear_interaction (session_id : str) a : AppState S :=
  with_pending_interactions (delete session_id (pending_interactions a)) a.
End operations.

(** ** The abstract view of a held-back create

    What is parked is a sequence of writes; landing it runs them in order and keeps what
    is left when one fails. *)

Inductive write := WConversation (c : Conversation) | WParticipant (p : Participant) | WSession (s : Session).

Definition opt_list {A} (o : option A) : list A := match o with Some a => [a] | None => [] end.

Definition writes (p : PendingSession) : list write :=
  (WConversation <$> opt_list (ps_conversation p)) ++
  (WParticipant <$> opt_list (ps_user_participant p)) ++
  (WParticipant <$> opt_list (ps_agent_participant p)) ++
  (WSession <$> opt_list (ps_session p)).

Section flush.
Context {S : Type} `{!StorageAdapter S}.

Definition run_write (w : write) (s : S) : result error unit * S :=
  match w with
  | WConversation c => let '(r, s) := create_conversation c s in ((λ _, ()) <$> r, s)
  | WParticipant p => let '(r, s) := add_participant p s in ((λ _, ()) <$> r, s)
  | WSession d => let '(r, s) := create_session d s in ((λ _, ()) <$> r, s)
  end.

(** The outcome, the writes that did not land, and the backend. *)
Fixpoint run_writes (ws : list write) (s : S) : result error unit * list write * S :=
  match ws with
  | [] => (Ok (), [], s)
  | w :: rest =>
      match run_write w s with
      | (Ok _, s) => run_writes rest s
      | (Err e, s) => (Err e, ws, s)
      end
  end.

Lemma flush_pending_refines p s :
  let '(r, (p', s')) := flush_pending p s in
  run_writes (writes p) s = (r, writes p', s') ∧
  ps_session_id p' = ps_session_id p ∧ ps_conn_id p' = ps_conn_id p ∧
  (is_ok r = true → writes p' = []).
Proof.
  destruct p as [i n [c|] [u|] [g|] [d|]]; unfold flush_pending, writes; simpl;
  repeat match goal with
  | |- context [create_conversation ?c ?s] => destruct (create_conversation c s) as [[?|?] ?]; simpl
  | |- context [add_participant ?c ?s] => destruct (add_participant c s) as [[?|?] ?]; simpl
  | |- context [create_session ?c ?s] => destruct (create_session c s) as [[?|?] ?]; simpl
  end; repeat split; done.
Qed.

(** What landed is a prefix. *)
Lemma run_writes_prefix ws s r rest s' :
  run_writes ws s = (r, rest, s') → ∃ landed, ws = landed ++ rest ∧ (is_ok r = true → rest = []).
Proof.
  revert s. induction ws as [|w ws IH]; intros s; simpl.
  - intros [= <- <- <-]. by exists [].
  - destruct (run_write w s) as [[?|e] s1].
    + intros (l & -> & H)%IH. by exists (w :: l).
    + intros [= <- <- <-]. by exists [].
Qed.
End flush.

(** ** Metadata lemmas *)

Section metadata_lemmas.
Context {S : Type}.
Implicit Types (a : AppState S).

Lemma edit_metadata_known sid f a s :
  sessions a !! sid = Some s →
  edit_metadata sid f a =
    (Some (f (default ∅ (sess_metadata s))),
     with_sessions (<[sid := set_metadata (Some (f (default ∅ (sess_metadata s)))) s]> (sessions a)) a).
Proof. intros H. unfold edit_metadata. by rewrite H. Qed.

Lemma session_meta_edit sid f a s k :
  sessions a !! sid = Some s →
  session_meta sid k (edit_metadata sid f a).2 = f (default ∅ (sess_metadata s)) !! k.
Proof.
  intros H. rewrite (edit_metadata_known sid f a s H). unfold session_meta. simpl.
  by rewrite lookup_insert_eq.
Qed.
End metadata_lemmas.

(** ** Properties *)

(** C10. Landing a held-back create refines running its writes in order: conversation, user
    participant, agent participant, session. On success nothing stays parked; on a failure
    exactly the writes that did not land stay parked, under the same session and
    connection, so that a retry resumes there and never repeats one; other parked
    creates are untouched. *)
Theorem materialize_refines {S : Type} `{!StorageAdapter S} (a : AppState S) sid p
    (Hp : pending_sessions a !! sid = Some p) (Hid : ps_session_id p = sid) :
  let '(r, a') := materialize_session sid a in
  let '(r0, rest, s') := run_writes (writes p) (storage a) in
  r = r0 ∧ storage a' = s' ∧ (∃ landed, writes p = landed ++ rest) ∧
  match r with
  | Ok _ => pending_sessions a' !! sid = None ∧ rest = []
  | Err _ => ∃ p', pending_sessions a' !! sid = Some p' ∧ writes p' = rest ∧
                   ps_conn_id p' = ps_conn_id p
  end ∧
  ∀ sid', sid' ≠ sid → pending_sessions a' !! sid' = pending_sessions a !! sid'.
Proof.
  unfold materialize_session. rewrite Hp. simpl.
  pose proof (flush_pending_refines p (storage a)) as Hf.
  destruct (flush_pending p (storage a)) as [r [p' s']].
  destruct Hf as (Hr & Hi & Hc & Hok). rewrite Hr.
  apply run_writes_prefix in Hr as (landed & Hw & _).
  destruct r as [u|e]; simpl.
  - destruct u. repeat split; [by exists landed|by rewrite lookup_delete_eq|by apply Hok|].
    intros. by rewrite lookup_delete_ne.
  - rewrite Hi, Hid. repeat split; [by exists landed| |].
    + exists p'. by rewrite lookup_insert_eq.
    + intros. by rewrite lookup_insert_ne, lookup_delete_ne.
Qed.

(** Loading a session answers from the pod's registry, then from storage: [None] means
    storage says there is none, an error is storage's own and claims nothing, and a hit
    leaves the pod answering locally from then on, with the same session. *)
Theorem load_session_spec {S : Type} `{!StorageAdapter S} (a : AppState S) sid :
  let '(r, a') := load_session sid a in
  storage a' = storage a ∧
  (∀ s, sessions a !! sid = Some s → r = Ok (Some s) ∧ a' = a) ∧
  (sessions a !! sid = None → r = Storage.get_session (storage a) sid) ∧
  (∀ s, r = Ok (Some s) → session_id s = sid → load_session sid a' = (Ok (Some s), a')) ∧
  (∀ sid', sid' ≠ sid → (∀ s, r = Ok (Some s) → session_id s = sid) →
     sessions a' !! sid' = sessions a !! sid').
Proof.
  unfold load_session, get_session. destruct (sessions a !! sid) as [s|] eqn:E.
  - split; [done|]. split; [intros; by simplify_eq|]. split; [done|]. split; [|done].
    intros s' [= <-] _. by rewrite E.
  - destruct (Storage.get_session (storage a) sid) as [[s|]|e] eqn:Eg; simpl.
    + split; [done|]. split; [done|]. split; [done|]. split.
      * intros s' [= <-] Hid. simpl. by rewrite Hid, lookup_insert_eq.
      * intros sid' Hne Hid. rewrite (Hid s eq_refl). by rewrite lookup_insert_ne.
    + split; [done|]. by split; [|split; [|split]].
    + split; [done|]. by split; [|split; [|split]].
Qed.

(** The document-set registry after a sequence of records. *)
Definition record_all {S : Type} (ops : list (str * str)) (a : AppState S) : AppState S :=
  foldl (λ a op, record_document_set op.1 op.2 a) a ops.

Definition occurrences (op : str * str) (ops : list (str * str)) : nat :=
  length (filter (λ o, o = op) ops).

Lemma record_all_count {S : Type} (ops : list (str * str)) (a : AppState S) org set_ :
  doc_sets a = ∅ →
  default 0 (default ∅ (doc_sets (record_all ops a) !! org) !! set_) = occurrences (org, set_) ops ∧
  (is_some (default ∅ (doc_sets (record_all ops a) !! org) !! set_) =
     negb (occurrences (org, set_) ops =? 0)%nat).
Proof.
  intros Ha. unfold record_all, occurrences. induction ops as [|[o s] ops IH] using rev_ind; simpl.
  - by rewrite Ha, lookup_empty.
  - rewrite foldl_snoc, filter_app, length_app. set (b := foldl _ a ops) in *. simpl.
    destruct (decide (o = org)) as [->|Hne].
    + rewrite lookup_insert_eq. simpl. destruct (decide (s = set_)) as [->|Hs].
      * rewrite lookup_insert_eq. simpl. rewrite filter_cons_True by done. simpl.
        destruct IH as [IH _]. rewrite IH. split; [lia|].
        symmetry. apply negb_true_iff, Nat.eqb_neq. lia.
      * rewrite lookup_insert_ne by done. rewrite filter_cons_False by congruence. simpl.
        by rewrite Nat.add_0_r.
    + rewrite lookup_insert_ne by done. rewrite filter_cons_False by congruence. simpl.
      by rewrite Nat.add_0_r.
Qed.

(** Document sets are counted exactly and per organization: after any sequence of
    records, an organization's listing pairs each of its sets with the number of times
    it was recorded for that organization, lists no other set, and is sorted by name. *)
Theorem document_sets_exact {S : Type} (s : S) ops org :
  sorted (λ x y, str_leb x.1 y.1) (document_sets org (record_all ops (new s))) ∧
  ∀ name n, (name, n) ∈ document_sets org (record_all ops (new s)) ↔
    n = occurrences (org, name) ops ∧ 0 < n.
Proof.
  assert (Htot : ∀ x y, str_leb x y = true ∨ str_leb y x = true).
  { intros x y. unfold str_leb. rewrite !negb_true_iff. destruct (str_ltb y x) eqn:E; [|by left].
    right. destruct (str_ltb x y) eqn:E2; [|done].
    pose proof (str_ltb_trans _ _ _ E E2) as H. by rewrite str_ltb_irrefl in H. }
  assert (Htr : ∀ x y z, str_leb x y = true → str_leb y z = true → str_leb x z = true).
  { intros x y z. unfold str_leb. rewrite !negb_true_iff. intros H1 H2.
    destruct (str_ltb z x) eqn:E; [|done]. destruct (str_ltb x y) eqn:E2.
    - by rewrite (str_ltb_trans _ _ _ E E2) in H2.
    - rewrite (str_ltb_total _ _ E2 H1) in E. congruence. }
  unfold document_sets. split.
  - destruct (doc_sets _ !! org); [|constructor]. apply sort_by_sorted; [by intros [] []|].
    intros [] [] []. apply Htr.
  - intros name n. destruct (record_all_count ops (new s) org name eq_refl) as [Hc Hs].
    destruct (doc_sets (record_all ops (new s)) !! org) as [m|]; simpl in *.
    + rewrite sort_by_perm, elem_of_map_to_list.
      destruct (m !! name) as [k|]; simpl in *; split.
      * intros [= ->]. rewrite Hc in *. destruct (occurrences _ _); [done|]. split; [done|lia].
      * intros [-> _]. by rewrite Hc.
      * done.
      * intros [-> H]. destruct (occurrences _ _); [lia|done].
    + rewrite lookup_empty in *. simpl in *. split; [by intros ?%elem_of_nil|].
      intros [-> H]. destruct (occurrences _ _); [lia|done].
Qed.

(** Two organizations never share an indexing key, whatever connector names their users
    pick: the key determines both parts as long as organization ids do not contain the
    separator. *)
Theorem scoped_connector_key_inj org1 name1 org2 name2
    (H1 : 1%N ∉ org1) (H2 : 1%N ∉ org2)
    (Hkey : scoped_connector_key org1 name1 = scoped_connector_key org2 name2) :
  org1 = org2 ∧ name1 = name2.
Proof.
  unfold scoped_connector_key in Hkey. apply app_inv_head in Hkey.
  revert org2 H2 Hkey. induction org1 as [|c org1 IH]; intros [|d org2] H2 Hkey; simpl in Hkey.
  - by injection Hkey.
  - injection Hkey as <- _. set_solver.
  - injection Hkey as -> _. set_solver.
  - injection Hkey as -> Hkey.
    destruct (IH ltac:(set_solver) org2 ltac:(set_solver) Hkey) as [-> ->]. done.
Qed.

(** What a pod that has never seen the session makes of storage. *)
Definition verified_on_fresh_pod (sid : str) (t : Tables) : bool :=
  session_authenticated sid (load_session sid (new t)).2.

Lemma fresh_pod_reads sid t d :
  Storage.sessions t !! sid = Some d → session_id d = sid →
  verified_on_fresh_pod sid t = default false (default ∅ (sess_metadata d) !! lit "otpVerified" ≫= as_bool).
Proof.
  intros Hd Hid. unfold verified_on_fresh_pod, load_session, get_session. simpl.
  rewrite lookup_empty. unfold InMemory.get_session. rewrite Hd. simpl.
  unfold session_authenticated, session_meta. simpl. rewrite Hid, lookup_insert_eq. simpl.
  destruct (sess_metadata d); simpl; [done|]. by rewrite lookup_empty.
Qed.

Lemma write_through_durable sid meta now (a : AppState Tables) d :
  Storage.sessions (storage a) !! sid = Some d →
  Storage.sessions (storage (write_through sid meta now a).2) !! sid =
    Some (InMemory.apply_session_update (metadata_update meta) now d).
Proof.
  intros Hd. unfold write_through. simpl. unfold InMemory.update_session. rewrite Hd. simpl.
  by rewrite lookup_insert_eq.
Qed.

(** A verification is durable, until a pod with an older copy writes: verifying a session
    on one pod makes every pod that then loads it from storage see it verified, but a pod
    that cached the session before writes its whole metadata blob back on its next parked
    confirmation, and every fresh pod sees the session unverified again. *)
Theorem stale_pod_erases_verification (a b : AppState Tables) sid sa sb d record now now'
    (Ha : sessions a !! sid = Some sa) (Hstale : default ∅ (sess_metadata sa) !! lit "otpVerified" = None)
    (Hb : sessions b !! sid = Some sb)
    (Hd : Storage.sessions (storage b) !! sid = Some d) (Hid : session_id d = sid) :
  let b' := set_session_authenticated sid true now b in
  let a' := (set_pending_confirmation sid record now' (with_storage (storage b') a)).2 in
  verified_on_fresh_pod sid (storage b') = true ∧ verified_on_fresh_pod sid (storage a') = false.
Proof.
  simpl. unfold set_session_authenticated. rewrite (edit_metadata_known _ _ b sb Hb).
  set (b1 := with_sessions _ b).
  pose proof (write_through_durable sid (<[lit "otpVerified":=Bool true]> (default ∅ (sess_metadata sb)))
    now b1 d Hd) as Hb'.
  split.
  - erewrite fresh_pod_reads; [|exact Hb'|done]. simpl. by rewrite lookup_insert_eq.
  - unfold set_pending_confirmation, set_session_meta_key.
    rewrite (edit_metadata_known _ _ _ sa) by done.
    erewrite fresh_pod_reads; [|by apply write_through_durable|done]. simpl.
    destruct record; simpl; [rewrite lookup_insert_ne by done|rewrite lookup_delete_ne by done];
      by rewrite Hstale.
Qed.

(** ** Concrete pods *)

Module Demo.
Definition sess (i : string) (m : option (gmap str Value)) : Session :=
  mk_Session (lit i) (lit "c1") (lit "acme") None (lit "agent") (lit "u") (lit "g") (lit "t")
    (Some Active) None None m None None None None.
Definition t : Tables := mk_Tables ∅ ∅ ∅ ∅ {[lit "s1" := sess "s1" None]}.
Definition pod : AppState Tables := with_sessions {[lit "s1" := sess "s1" None]} (new t).
Definition parked : PendingSession :=
  mk_PendingSession (lit "s2") (lit "conn") (Some (Storage.Demo.conv "c9" "k9" 9))
    (Some (Storage.Demo.user "p9" "c9" "a@b.c")) None (Some (sess "s2" None)).
End Demo.

Lemma materialize_refines_witness :
  let a := defer_session Demo.parked Demo.pod in
  pending_sessions a !! lit "s2" = Some Demo.parked ∧
  pending_sessions (materialize_session (lit "s2") a).2 !! lit "s2" = None.
Proof.
  intros a. split; [by vm_compute|].
  pose proof (materialize_refines a (lit "s2") Demo.parked eq_refl eq_refl) as H.
  assert (E : is_ok (materialize_session (lit "s2") a).1 = true) by by vm_compute.
  destruct (materialize_session (lit "s2") a) as [[u|e] a'];
    destruct (run_writes _ _) as [[r0 rest] s']; [|discriminate].
  simpl. apply H.
Defined.

Lemma scoped_connector_key_inj_witness :
  lit "acme" = lit "acme" ∧ lit "docs" = lit "docs".
Proof.
  apply (scoped_connector_key_inj (lit "acme") (lit "docs") (lit "acme") (lit "docs"));
    [apply (bool_decide_unpack _); by vm_compute..|done].
Defined.

Lemma stale_pod_erases_verification_witness :
  let b' := set_session_authenticated (lit "s1") true 1%Z Demo.pod in
  let a' := (set_pending_confirmation (lit "s1") (Some Null) 2%Z (with_storage (storage b') Demo.pod)).2 in
  verified_on_fresh_pod (lit "s1") (storage b') = true ∧
  verified_on_fresh_pod (lit "s1") (storage a') = false.
Proof.
  exact (stale_pod_erases_verification Demo.pod Demo.pod (lit "s1") (Demo.sess "s1" None)
    (Demo.sess "s1" None) (Demo.sess "s1" None) (Some Null) 1%Z 2%Z eq_refl eq_refl eq_refl eq_refl eq_refl).
Defined.
