(* ===== verification/Protocol.v ===== *)
(** * Protocol: the server-to-client events ([server/src/protocol.rs])

    Every constructor of an event envelope, with [ts] the clock reading of [now_ms], and
    the envelope invariants clients rely on: the discriminator, the correlation id echoed
    where the client looks for it, and no answer payload on a terminal event. *)

From stdpp Require Import prelude gmap strings list.
From Stdlib Require Import SpecFloat.
From S2P Require Import Prelude Text Json.

(** [ev["requestId"] = json!(rid)] when there is one. *)
Definition set_request_id (ev : Value) (request_id : option str) : Value :=
  match request_id with
  | Some rid => set ev (lit "requestId") (String rid)
  | None => ev
  end.

Section events.
Context (ts : Z).

Definition pong (request_id : option str) : Value :=
  set_request_id
    (Object [field "type" (jstr "pong"); field "timestamp" (Int ts);
             field "data" (Object [field "timestamp" (Int ts)])])
    request_id.

Definition immediate_response (request_id : option str) (status : Z) (message : str) (data : Value) : Value :=
  set_request_id
    (Object [field "type" (jstr "immediate_response"); field "status" (Int status);
             field "message" (String message); field "data" data; field "timestamp" (Int ts)])
    request_id.

Definition token_event (type : string) (request_id token : str) : Value :=
  Object [field "type" (jstr type); field "requestId" (String request_id);
          field "token" (String token);
          field "data" (Object [field "requestId" (String request_id); field "token" (String token)]);
          field "timestamp" (Int ts)].

Definition stream_token : str → str → Value := token_event "stream_token".
Definition stream_reasoning : str → str → Value := token_event "stream_reasoning".
Definition stream_preamble : str → str → Value := token_event "stream_preamble".

Definition stream_chunk (request_id node : str) (state : Value) : Value :=
  Object [field "type" (jstr "stream_chunk"); field "requestId" (String request_id);
          field "node" (String node);
          field "data" (Object [field "requestId" (String request_id); field "node" (String node);
                                field "state" state]);
          field "timestamp" (Int ts)].

Record TurnUsage := mk_TurnUsage {
  cost_usd : spec_float;
  prompt_tokens : N;
  completion_tokens : N;
  usage_estimated : bool;
  cost_estimated : bool;
  response_id : option str;
}.

(** [citations] are already serialised; an empty list is not emitted. *)
Definition eventual_response (request_id : str) (status : Z) (message_id : str) (response : Value)
    (needs_escalation : bool) (citations : list Value) (usage : option TurnUsage)
    (directive : option Value) : Value :=
  let inner := Object [field "messageId" (String message_id); field "response" response;
                       field "needsEscalation" (Bool needs_escalation)] in
  let inner := match citations with [] => inner | _ => set inner (lit "citations") (Array citations) end in
  let inner := match usage with
               | Some u => set inner (lit "usage")
                   (Object [field "costUsd" (Float (cost_usd u));
                            field "promptTokens" (Int (Z.of_N (prompt_tokens u)));
                            field "completionTokens" (Int (Z.of_N (completion_tokens u)))])
               | None => inner
               end in
  let inner := match directive with Some d => set inner (lit "directive") d | None => inner end in
  Object [field "type" (jstr "eventual_response"); field "requestId" (String request_id);
          field "status" (Int status);
          field "data" (Object [field "requestId" (String request_id); field "status" (Int status);
                                field "data" inner]);
          field "timestamp" (Int ts)].

(** The doubly nested payload of the turn-scoped events. *)
Definition turn_event (type : string) (request_id : str) (inner : Value) : Value :=
  Object [field "type" (jstr type); field "requestId" (String request_id);
          field "data" (Object [field "requestId" (String request_id); field "data" inner]);
          field "timestamp" (Int ts)].

Definition write_confirmation_required (request_id tool_id action_description : str) : Value :=
  turn_event "write_confirmation_required" request_id
    (Object [field "toolId" (String tool_id); field "actionDescription" (String action_description)]).

Definition otp_verification_required (request_id tool_id action_description : str)
    (available_channels : list str) (auth_level : str) : Value :=
  turn_event "otp_verification_required" request_id
    (Object [field "toolId" (String tool_id); field "actionDescription" (String action_description);
             field "availableChannels" (Array (String <$> available_channels));
             field "authLevel" (String auth_level)]).

Definition interaction_required (request_id interaction_id kind : str) (spec : Value) (reason : str) : Value :=
  turn_event "interaction_required" request_id
    (Object [field "interactionId" (String interaction_id); field "kind" (String kind);
             field "spec" spec; field "reason" (String reason)]).

Definition interaction_invalid (request_id interaction_id kind : str) (errors : list Value)
    (message : str) : Value :=
  turn_event "interaction_invalid" request_id
    (Object [field "interactionId" (String interaction_id); field "kind" (String kind);
             field "errors" (Array errors); field "message" (String message)]).

Definition otp_sent (request_id channel masked_destination : str) : Value :=
  turn_event "otp_sent" request_id
    (Object [field "channel" (String channel); field "maskedDestination" (String masked_destination)]).

Definition otp_verified (request_id message : str) : Value :=
  turn_event "otp_verified" request_id (Object [field "message" (String message)]).

Definition otp_invalid (request_id : str) (error : option str) (attempts_remaining : N) (message : str) : Value :=
  let inner := Object [field "attemptsRemaining" (Int (Z.of_N attempts_remaining));
                       field "message" (String message)] in
  let inner := match error with Some e => set inner (lit "error") (String e) | None => inner end in
  turn_event "otp_invalid" request_id inner.

Definition error (request_id : option str) (code : string) (message : str) : Value :=
  let err := Object [field "code" (jstr code); field "message" (String message)] in
  let data := set_request_id (Object [field "error" err]) request_id in
  set_request_id
    (Object [field "type" (jstr "error"); field "error" err; field "data" data;
             field "timestamp" (Int ts)])
    request_id.

Definition cancelled (request_id : option str) : Value :=
  let data := set_request_id (Object [field "status" (Int 499)]) request_id in
  set_request_id
    (Object [field "type" (jstr "cancelled"); field "status" (Int 499); field "data" data;
             field "timestamp" (Int ts)])
    request_id.
End events.

(** ** Reading an event back *)

Definition event_type (ev : Value) : option str := get_str ev "type".
Definition event_request_id (ev : Value) : option str := get_str ev "requestId".
Definition error_code (ev : Value) : option str := get ev (lit "error") ≫= λ e, get_str e "code".
Definition error_message (ev : Value) : option str := get ev (lit "error") ≫= λ e, get_str e "message".

Definition is_error (code : string) (ev : Value) : bool :=
  bool_decide (event_type ev = Some (lit "error")) && bool_decide (error_code ev = Some (lit code)).

Lemma lit_ne a b : a ≠ b → lit a ≠ lit b.
Proof. intros H Heq. by apply lit_inj in Heq. Qed.

Lemma get_set_request_id_ne ev rid k :
  k ≠ lit "requestId" → get (set_request_id ev rid) k = get ev k.
Proof. intros. destruct rid; [|done]. by apply get_set_ne. Qed.

Lemma event_request_id_set kvs rid :
  assoc (lit "requestId") kvs = None → event_request_id (set_request_id (Object kvs) rid) = rid.
Proof.
  intros H. unfold event_request_id, get_str. destruct rid as [r|]; simpl.
  - by rewrite assoc_insert_eq.
  - by rewrite H.
Qed.

Lemma is_error_error ts rid code message : is_error code (error ts rid code message) = true.
Proof.
  unfold is_error, event_type, error_code, get_str, error.
  rewrite !get_set_request_id_ne by (apply lit_ne; done).
  by rewrite !bool_decide_eq_true_2.
Qed.

(** Every error and cancellation a client sees carries its discriminator, echoes the
    request's correlation id exactly (and no id when the frame had none) at the top level
    and again inside [data], and an error keeps its code and text in both places. *)
Theorem terminal_events_well_formed ts rid code message :
  event_type (error ts rid code message) = Some (lit "error") ∧
  event_request_id (error ts rid code message) = rid ∧
  (get (error ts rid code message) (lit "data") ≫= event_request_id) = rid ∧
  error_code (error ts rid code message) = Some (lit code) ∧
  error_message (error ts rid code message) = Some message ∧
  (get (error ts rid code message) (lit "data") ≫= λ d, error_code d) = Some (lit code) ∧
  event_type (cancelled ts rid) = Some (lit "cancelled") ∧
  event_request_id (cancelled ts rid) = rid ∧
  (get (cancelled ts rid) (lit "data") ≫= event_request_id) = rid.
Proof. destruct rid; by repeat split. Qed.

(** A turn's answer keeps its mandatory members whatever the optional ones are, and the
    optional ones are present exactly when the turn produced them. *)
Theorem eventual_response_members ts rid status mid response esc citations usage directive :
  let ev := eventual_response ts rid status mid response esc citations usage directive in
  event_type ev = Some (lit "eventual_response") ∧ event_request_id ev = Some rid ∧
  ∃ inner, (get ev (lit "data") ≫= λ d, get d (lit "data")) = Some inner ∧
    get_str inner "messageId" = Some mid ∧ get inner (lit "response") = Some response ∧
    get_bool inner "needsEscalation" = Some esc ∧
    (get inner (lit "citations") = match citations with [] => None | _ => Some (Array citations) end) ∧
    (is_some (get inner (lit "usage")) = is_some usage) ∧
    get inner (lit "directive") = directive.
Proof.
  simpl. split; [done|]. split; [done|]. eexists. split; [done|].
  destruct citations, usage, directive; by repeat split.
Qed.
