(* ===== verification/Scope.v ===== *)
(** * Scope: who may reach which conversation ([server/src/handler.rs])

    The tenant and ownership boundaries every frame passes: [may_read_conversation], and
    [scoped_session], the only way a client-supplied session id becomes a session. *)

From stdpp Require Import prelude gmap strings list.
From S2P Require Import Prelude Text Json Storage AppState.

Inductive UserScope := Unscoped | UserOf (email : str) | Denied.

Definition principal_email (s : UserScope) : option str :=
  match s with UserOf e => Some e | Unscoped | Denied => None end.

Definition is_unscoped (s : UserScope) : bool :=
  match s with Unscoped => true | _ => false end.

Definition same_org (auth_org : option str) (row_org : str) : bool :=
  is_none_or (λ o, str_eqb o row_org) auth_org.

Inductive Reach := ById | Listing.
#[export] Instance Reach_eq_dec : EqDecision Reach.
Proof. solve_decision. Defined.

(** A user participant with a non-blank e-mail. *)
Definition has_owner (participants : list Participant) : bool :=
  any (λ p, bool_decide (participant_type p = User) &&
            is_some_and (λ e, negb (str_is_empty (trim e))) (part_email p)) participants.

Section scope.
Context {S : Type} `{!StorageAdapter S}.
(** [AppState::require_owned_conversations]. *)
Context (require_owned_conversations : bool).
Implicit Types (a : AppState S).

Definition may_read_conversation a (conversation_id : str) (auth_org : option str)
    (scope : UserScope) (reach : Reach) : bool :=
  if is_none auth_org && is_unscoped scope then true
  else
    match list_participants_by_conversation (storage a) conversation_id with
    | Ok participants =>
        if match head participants with
           | Some p => negb (same_org auth_org (part_organization_id p))
           | None => false
           end then false
        else if is_unscoped scope then true
        else
          let owned := has_owner participants in
          if require_owned_conversations && negb owned then false
          else
            match scope with
            | UserOf email => negb owned || any (λ p, is_owner p email) participants
            | Denied => negb owned || (is_none auth_org && bool_decide (reach = ById))
            | Unscoped => true
            end
    | Err _ => false
    end.

Definition scoped_session (session_id : str) (auth_org : option str) (scope : UserScope) a :
    result error (option Session) * AppState S :=
  let '(r, a) := load_session session_id a in
  (session ← r;
   mret (match session with
         | None => None
         | Some s =>
             if negb (same_org auth_org (sess_organization_id s)) then None
             else if may_read_conversation a (sess_conversation_id s) auth_org scope ById
                  then Some s else None
         end), a).
End scope.

(** ** Lemmas *)

Lemma has_owner_true ps :
  has_owner ps = true ↔
    ∃ p e, p ∈ ps ∧ participant_type p = User ∧ part_email p = Some e ∧ trim e ≠ [].
Proof.
  unfold has_owner. rewrite any_true. split.
  - intros (p & Hp & H). bool_props. destruct (part_email p) as [e|] eqn:E; [|done]. simpl in *.
    exists p, e. split; [done|]. split; [done|]. split; [done|]. bool_props. by apply str_is_empty_false.
  - intros (p & e & Hp & Ht & He & Hne). exists p. split; [done|]. rewrite He. simpl.
    rewrite bool_decide_eq_true_2 by done. simpl. by apply negb_true_iff, str_is_empty_false.
Qed.

Lemma trim_nil_lower e : trim e = [] ↔ to_ascii_lowercase (trim e) = [].
Proof. unfold to_ascii_lowercase. by destruct (trim e). Qed.

(** An owner has a non-blank e-mail, so an owned conversation has an owner. *)
Lemma is_owner_has_owner ps email : any (λ p, is_owner p email) ps = true → has_owner ps = true.
Proof.
  rewrite any_true, has_owner_true. intros (p & Hp & Ho). unfold is_owner in Ho.
  case_match eqn:E; [done|]. apply str_is_empty_false in E. bool_props.
  destruct (part_email p) as [e|] eqn:Ee; [|done]. exists p, e. repeat split; try done.
  simpl in *. unfold eq_ignore_ascii_case in H0. apply str_eqb_true in H0.
  rewrite trim_nil_lower, H0, <- trim_nil_lower. done.
Qed.

Lemma same_org_spec auth_org org : same_org auth_org org = true ↔ ∀ o, auth_org = Some o → o = org.
Proof.
  unfold same_org. destruct auth_org as [o|]; simpl.
  - rewrite str_eqb_true. split; [by intros -> ? [=]|auto].
  - done.
Qed.

(** ** Properties *)

Section properties.
Context {S : Type} `{!StorageAdapter S}.
Implicit Types (a : AppState S).

(** Tenant isolation: a connection with a verified organization never reads a
    conversation whose participants belong to another one, whatever its user scope, the
    single-user one included, and whether or not ownership is required. *)
Theorem no_cross_tenant_read require_owned a cid org scope reach p ps
    (Hps : list_participants_by_conversation (storage a) cid = Ok (p :: ps))
    (Horg : part_organization_id p ≠ org) :
  may_read_conversation require_owned a cid (Some org) scope reach = false.
Proof.
  unfold may_read_conversation. simpl. rewrite Hps. simpl.
  unfold same_org. simpl. by rewrite (proj2 (str_eqb_false _ _)).
Qed.

(** C3. Ownership: on a multi-user connection, a conversation with an owner is read only by
    a user whose e-mail owns it, with one exception, an anonymous connection (no verified
    organization, no identity) that already holds the id; listing has no exception. A
    conversation nobody owns is readable by id and listed unless the host requires owned
    conversations; and a failing participant read is always a refusal. *)
Theorem may_read_decides require_owned a cid auth_org scope reach
    (Hscope : scope ≠ Unscoped) :
  may_read_conversation require_owned a cid auth_org scope reach = true ↔
    ∃ ps, list_participants_by_conversation (storage a) cid = Ok ps ∧
      (∀ p, head ps = Some p → ∀ o, auth_org = Some o → o = part_organization_id p) ∧
      ((has_owner ps = false ∧ require_owned = false) ∨
       (∃ email, scope = UserOf email ∧ any (λ p, is_owner p email) ps = true) ∨
       (has_owner ps = true ∧ scope = Denied ∧ auth_org = None ∧ reach = ById)).
Proof.
  unfold may_read_conversation.
  assert (is_unscoped scope = false) as Hu by by destruct scope.
  rewrite Hu, andb_false_r.
  destruct (list_participants_by_conversation (storage a) cid) as [ps|];
    [|split; [done|by intros (? & ? & _)]].
  assert (Hhead : (match head ps with
    | Some p => negb (same_org auth_org (part_organization_id p)) | None => false end = false) ↔
    (∀ p, head ps = Some p → ∀ o, auth_org = Some o → o = part_organization_id p)).
  { destruct (head ps) as [p|]; [|by split].
    rewrite negb_false_iff, same_org_spec. split; [by intros H p' [= <-]|auto]. }
  destruct (match head ps with Some p => _ | None => _ end).
  { split; [done|]. intros (ps' & Hps' & H & _). injection Hps' as <-.
    apply Hhead in H. discriminate. }
  pose proof (proj1 Hhead eq_refl) as Ht. clear Hhead.
  pose proof (is_owner_has_owner ps) as Hoo.
  destruct (has_owner ps) eqn:Eo; simpl.
  - rewrite andb_false_r. destruct scope as [|email|]; [done|simpl|simpl].
    + split; [|intros (ps' & Hps' & _ & H); injection Hps' as <-;
               destruct H as [[? _]|[(e & He & Ha)|(_ & ? & _)]]; [congruence| |done];
               by injection He as <-].
      intros Ha. exists ps. split; [done|]. split; [done|]. right; left. by exists email.
    + rewrite andb_true_iff, bool_decide_eq_true. split.
      * intros [Hn Hr]. exists ps. split; [done|]. split; [done|]. right; right. by destruct auth_org.
      * intros (ps' & Hps' & _ & H); injection Hps' as <-.
        destruct H as [[? _]|[(? & ? & _)|(_ & _ & -> & ->)]]; [congruence|done|done].
  - rewrite andb_true_r. destruct require_owned; simpl.
    + split; [done|]. intros (ps' & Hps' & _ & H). injection Hps' as <-.
      destruct H as [[_ ?]|[(e & _ & Ha)|(? & _)]]; [done|by apply Hoo in Ha|congruence].
    + destruct scope as [|email|]; [done|simpl|simpl]; (split; [|done]); intros _; exists ps;
        (split; [done|]); (split; [done|]); by left.
Qed.

(** The chokepoint hides what it must: a session id yields a session only when the
    loaded session is of the connection's organization and its conversation may be read;
    a foreign session gives the very answer of an unknown id, and only a failing storage
    is reported as an error. *)
Theorem scoped_session_hides require_owned sid auth_org scope a :
  let '(r, a') := scoped_session require_owned sid auth_org scope a in
  match (load_session sid a).1 with
  | Err e => r = Err e
  | Ok None => r = Ok None
  | Ok (Some s) =>
      r = Ok (if same_org auth_org (sess_organization_id s) &&
                 may_read_conversation require_owned a' (sess_conversation_id s) auth_org scope ById
              then Some s else None)
  end ∧ storage a' = storage a.
Proof.
  unfold scoped_session.
  assert (Hs : storage (load_session sid a).2 = storage a).
  { unfold load_session. by repeat case_match. }
  destruct (load_session sid a) as [r a']. simpl in *. split; [|done].
  destruct r as [[s|]|]; simpl; [|done|done].
  by destruct (same_org auth_org _), (may_read_conversation _ _ _ _ _ _).
Qed.

(** Listing never shows what reading refuses: whatever a connection may list it may also
    read by id, and the only conversations it reads by id and cannot list are owned ones
    reached by an anonymous connection. *)
Theorem listing_within_reading require_owned a cid auth_org scope :
  (may_read_conversation require_owned a cid auth_org scope Listing = true →
   may_read_conversation require_owned a cid auth_org scope ById = true) ∧
  (may_read_conversation require_owned a cid auth_org scope ById = true →
   may_read_conversation require_owned a cid auth_org scope Listing = false →
   auth_org = None ∧ scope = Denied).
Proof.
  unfold may_read_conversation.
  rewrite (bool_decide_eq_false_2 (Listing = ById)), (bool_decide_eq_true_2 (ById = ById)) by done.
  destruct (is_none auth_org && is_unscoped scope); [done|].
  destruct (list_participants_by_conversation _ _) as [ps|]; [|done].
  destruct (match head ps with Some p => _ | None => _ end); [done|].
  destruct (is_unscoped scope); [done|]. destruct (require_owned && _); [done|].
  destruct scope; [done| |].
  - split; [done|]. by intros ->.
  - rewrite andb_false_r, andb_true_r, orb_false_r. destruct (has_owner ps); simpl; [|done].
    split; [done|]. by destruct auth_org.
Qed.
End properties.

(** ** A concrete backend *)

Module Demo.
Definition a0 : AppState Tables := new Storage.Demo.t0.
End Demo.

Lemma no_cross_tenant_read_witness :
  may_read_conversation false Demo.a0 (lit "c1") (Some (lit "globex")) Unscoped ById = false ∧
  may_read_conversation false Demo.a0 (lit "c1") (Some (lit "acme")) Unscoped ById = true.
Proof.
  split; [|by vm_compute].
  apply (no_cross_tenant_read false Demo.a0 (lit "c1") (lit "globex") Unscoped ById
    (Storage.Demo.user "p1" "c1" "Ann@x.io") []); [by vm_compute|by vm_compute].
Defined.

Lemma may_read_decides_witness :
  may_read_conversation false Demo.a0 (lit "c1") (Some (lit "acme")) (UserOf (lit "ann@X.io")) Listing = true.
Proof.
  apply may_read_decides; [done|].
  exists [Storage.Demo.user "p1" "c1" "Ann@x.io"]. split; [by vm_compute|]. split.
  - intros p [= <-] o [= <-]. done.
  - right; left. exists (lit "ann@X.io"). split; [done|by vm_compute].
Defined.
