(* ===== verification/Conversations.v ===== *)
(** * Conversations: reading, listing and renaming ([server/src/handler.rs])

    The frames that read a conversation ([get_session], [get_conversation_messages],
    [list_conversations], [rename_conversation]), with the events they send.  A handler
    maps the world before a frame to the world after it; [ts] is the clock reading stamped
    on the events. *)

From stdpp Require Import prelude gmap strings list.
From S2P Require Import Prelude Text Json Storage AppState Protocol Scope.

(** ** The world of a frame *)

Record World (S : Type) := mk_World { app : AppState S; events : list Value }.
Arguments mk_World {S} _ _.
Arguments app {S} _.
Arguments events {S} _.

(** The connection a frame arrives on. *)
Record Conn := mk_Conn {
  conn_id : str;
  origin : option str;
  auth_org : option str;
  scope : UserScope;
}.

(** Sending on the sink (a closed one ignores it). *)
Definition send {S} (ev : Value) (w : World S) : World S := mk_World (app w) (events w ++ [ev]).
Definition set_app {S} (a : AppState S) (w : World S) : World S := mk_World a (events w).
Definition set_storage {S} (s : S) (w : World S) : World S := set_app (with_storage s (app w)) w.

(** [{e}] of an [anyhow] error: its outermost message. *)
Definition show_err (e : Prelude.error) : str := default [] (head e).

Definition SEED_ORG_ID : str := lit "reference-org".
Definition TITLE_MAX : nat := 60.

(** ** Serialised records *)

Section json.
Context `{WireText}.

Definition opt_field {A} (k : string) (f : A → Value) (o : option A) : list (str * Value) :=
  match o with Some x => [field k (f x)] | None => [] end.

Definition content_item_json (i : ContentItem) : Value :=
  Object (field "type" (String (item_type i)) ::
          opt_field "text" String (item_text i) ++ opt_field "url" String (item_url i)).
Definition content_json (c : MessageContent) : Value :=
  Object (field "items" (Array (content_item_json <$> content_items c)) ::
          opt_field "text" String (content_flat c) ++
          opt_field "structuredResponse" id (structured_response c)).
Definition ref_json (r : ParticipantRef) : Value :=
  Object ([field "id" (String (ref_id r)); field "type" (String (ref_type r))] ++
          opt_field "name" String (ref_name r)).
Definition direction_json (d : Direction) : Value :=
  jstr (match d with Inbound => "inbound" | Outbound => "outbound" end).
Definition message_json (m : Message) : Value :=
  Object ([field "id" (String (msg_id m))] ++
          opt_field "externalId" String (msg_external_id m) ++
          opt_field "organizationId" String (msg_organization_id m) ++
          opt_field "conversationId" String (msg_conversation_id m) ++
          [field "direction" (direction_json (direction m)); field "content" (content_json (content m))] ++
          opt_field "from" ref_json (msg_from m) ++ opt_field "to" ref_json (msg_to m) ++
          opt_field "metadataJson" id (msg_metadata_json m) ++
          opt_field "analyticsJson" id (msg_analytics_json m) ++
          [field "createdAt" (String (serialize_time (msg_created_at m)))] ++
          opt_field "updatedAt" (λ t, String (serialize_time t)) (msg_updated_at m)).
End json.

(** ** Titles *)

Definition message_text (m : Message) : option str := flat_text (content m).

Definition first_inbound (messages : list Message) : option str :=
  find_first (λ m, bool_decide (direction m = Inbound)) messages ≫= message_text.

Definition ellipsis : str := [8230%N].

Definition truncate_preview (s : str) (max : nat) : str :=
  let s := trim s in
  if length s <=? max then s else trim_end (take max s) ++ ellipsis.

Definition summary_title (first_inbound_text : option str) (name : str) : str :=
  if negb (starts_with DEFAULT_CONVERSATION_NAME_PREFIX name) && negb (str_is_empty (trim name))
  then truncate_preview name TITLE_MAX
  else match first_inbound_text with
       | Some t => truncate_preview t TITLE_MAX
       | None => name
       end.

(** Quotes, emphasis and the space. *)
Definition is_wrapper (c : char) : bool :=
  ((c =? 34) || (c =? 39) || (c =? 42) || (c =? 96) || (c =? 35) || (c =? 32))%N.

Definition sanitize_title (raw : str) : str :=
  let collapsed := join (lit " ") (split_whitespace raw) in
  trim (take TITLE_MAX (trim_matches is_wrapper collapsed)).

(** ** Handlers *)

Section handlers.
Context {S : Type} `{!StorageAdapter S, !Lowercase, !WireText}.
Context (require_owned_conversations : bool).
Implicit Types (w : World S).

Definition session_storage_error (ts : Z) (request_id : option str) : Value :=
  Protocol.error ts request_id "STORAGE_ERROR"
    (lit "session lookup is temporarily unavailable, please try again").

Definition session_not_found (ts : Z) (request_id : option str) (session_id : str) : Value :=
  Protocol.error ts request_id "SESSION_NOT_FOUND" (lit "session '" ++ session_id ++ lit "' not found").

Definition missing (ts : Z) (request_id : option str) (what : string) : Value :=
  Protocol.error ts request_id "VALIDATION_ERROR" (lit what).

(** The scoped lookup every session frame starts with: the session, or the event that
    answers the frame. *)
Definition lookup_session (cx : Conn) (session_id : str) (request_id : option str) (ts : Z) w :
    option Session * World S :=
  let '(r, a) := scoped_session require_owned_conversations session_id (auth_org cx) (scope cx) (app w) in
  let w := set_app a w in
  match r with
  | Ok (Some s) => (Some s, w)
  | Ok None => (None, send (session_not_found ts request_id session_id) w)
  | Err _ => (None, send (session_storage_error ts request_id) w)
  end.

Definition status_str (s : option SessionStatus) : string :=
  match s with
  | None | Some Active => "active"
  | Some Idle => "idle"
  | Some Ended => "ended"
  end.

Definition session_json (s : Session) : Value :=
  Object [field "sessionId" (String (session_id s));
          field "conversationId" (String (sess_conversation_id s));
          field "agentId" (opt_json String (sess_agent_id s));
          field "agentName" (String (agent_name s));
          field "userParticipantId" (String (user_participant_id s));
          field "agentParticipantId" (String (agent_participant_id s));
          field "threadId" (String (thread_id s));
          field "status" (jstr (status_str (status s)))].

Definition handle_get_session (cx : Conn) (parsed : Value) (request_id : option str) (ts : Z) w : World S :=
  match get_str parsed "sessionId" with
  | None => send (missing ts request_id "missing 'sessionId'") w
  | Some session_id =>
      match lookup_session cx session_id request_id ts w with
      | (None, w) => w
      | (Some s, w) => send (immediate_response ts request_id 200 (lit "Session") (session_json s)) w
      end
  end.

Definition messages_json (conversation_id : str) (page : MessagePage) : Value :=
  Object [field "conversationId" (String conversation_id);
          field "messages" (Array (message_json <$> page_messages page));
          field "nextCursor" (opt_json String (next_cursor page));
          field "hasMore" (Bool (is_some (next_cursor page)))].

(** [.filter(|n| *n > 0)]. *)
Definition positive (o : option N) : option N := opt_filter (λ n, 0 <? n)%N o.

Definition handle_get_conversation_messages (cx : Conn) (parsed : Value) (request_id : option str)
    (ts : Z) w : World S :=
  match get_str parsed "sessionId" with
  | None => send (missing ts request_id "missing 'sessionId'") w
  | Some session_id =>
      match lookup_session cx session_id request_id ts w with
      | (None, w) => w
      | (Some s, w) =>
          let limit := from_option N.to_nat 50 (positive (get_u64 parsed "limit")) in
          let query := mk_MessageQuery (sess_conversation_id s) limit (get_str parsed "cursor") true in
          match list_messages_by_conversation (storage (app w)) query with
          | Ok page =>
              send (immediate_response ts request_id 200 (lit "ConversationMessages")
                      (messages_json (sess_conversation_id s) page)) w
          | Err e =>
              send (Protocol.error ts request_id "STORAGE_ERROR"
                      (lit "failed to list messages: " ++ show_err e)) w
          end
      end
  end.

(** *** list_conversations *)

Definition Row : Type := ConversationKey * Value.

Definition row_of (c : Conversation) (first : option str) (count : nat) : Row :=
  (key_of c,
   Object [field "conversationId" (String (conv_id c));
           field "title" (String (summary_title first (conv_name c)));
           field "updatedAt" (String (to_rfc3339 (conv_updated_at c)));
           field "messageCount" (Int (Z.of_nat count))]).

(** One conversation of the scan: its row, when it may be listed, has messages and matches. *)
Definition scan_row (cx : Conn) (a : AppState S) (query : ConversationSummaryQuery) (c : Conversation) :
    option Row :=
  if negb (may_read_conversation require_owned_conversations a (conv_id c) (auth_org cx) (scope cx) Listing)
  then None
  else
    match list_messages_by_conversation (storage a) (mk_MessageQuery (conv_id c) 200 None false) with
    | Err _ => None
    | Ok page =>
        match page_messages page with
        | [] => None
        | ms =>
            let first := first_inbound ms in
            if negb (matches_search query (conv_name c) first) then None
            else Some (row_of c first (length ms))
        end
    end.

Fixpoint scan_rows (cx : Conn) (a : AppState S) (query : ConversationSummaryQuery) (rows : list Row)
    (cs : list Conversation) : list Row :=
  match cs with
  | [] => rows
  | c :: rest =>
      if (sq_limit query <=? length rows)%nat then rows
      else if negb (admits_position query c) then scan_rows cx a query rows rest
      else scan_rows cx a query (rows ++ opt_list (scan_row cx a query c)) rest
  end.

Definition send_conversation_page (rows : list Row) (limit : nat) (request_id : option str) (ts : Z) w :
    World S :=
  let has_more := (limit <? length rows)%nat in
  let page := take limit rows in
  let next := if has_more then key_encode ∘ fst <$> last page else None in
  send (immediate_response ts request_id 200 (lit "Conversations")
          (Object [field "conversations" (Array page.*2);
                   field "nextCursor" (opt_json String next);
                   field "hasMore" (Bool has_more)])) w.

Definition list_failed (ts : Z) (request_id : option str) (e : Prelude.error) : Value :=
  Protocol.error ts request_id "STORAGE_ERROR" (lit "failed to list conversations: " ++ show_err e).

Definition summary_to_row (r : ConversationSummary) : Row :=
  row_of (sum_conversation r) (first_inbound_text r) (sum_message_count r).

Definition owned_rows (scope : UserScope) (s : S) (org_id : str) (query : ConversationSummaryQuery) :
    result Prelude.error (list Row) :=
  match scope with
  | UserOf email =>
      match list_owned_conversation_summaries_page s org_id email query with
      | Ok rows => Ok (summary_to_row <$> rows)
      | Err e => Err e
      end
  | Denied | Unscoped => Ok []
  end.

(** [after] from the frame: [None] when the cursor is not one of ours. *)
Definition parse_cursor (parsed : Value) : option (option ConversationKey) :=
  match get_str parsed "cursor" with
  | None | Some [] => Some None
  | Some cursor => Some <$> key_decode cursor
  end.

Definition listing_limit (parsed : Value) : nat :=
  from_option (λ n, N.to_nat (N.min n 200)) 50 (positive (get_u64 parsed "limit")).

(** The rows a listing answers with, by the path the host's flag selects. *)
Definition listing_rows (cx : Conn) (a : AppState S) (org_id : str) (query : ConversationSummaryQuery) :
    result Prelude.error (list Row) :=
  if require_owned_conversations && negb (is_unscoped (scope cx))
  then owned_rows (scope cx) (storage a) org_id query
  else
    cs ← list_conversations_by_org (storage a) org_id;
    mret (scan_rows cx a query [] (sort_conversations_newest_first cs)).

Definition handle_list_conversations (cx : Conn) (parsed : Value) (request_id : option str) (ts : Z) w :
    World S :=
  let limit := listing_limit parsed in
  match parse_cursor parsed with
  | None => send (missing ts request_id
                    "list_conversations 'cursor' is not a cursor this server issued") w
  | Some after =>
      let query := with_search (get_str parsed "query")
                     (summary_query_after after (summary_query_new (limit + 1))) in
      let org_id := default SEED_ORG_ID (auth_org cx) in
      match listing_rows cx (app w) org_id query with
      | Err e => send (list_failed ts request_id e) w
      | Ok rows => send_conversation_page rows limit request_id ts w
      end
  end.

(** *** rename_conversation *)

Definition handle_rename_conversation (cx : Conn) (parsed : Value) (request_id : option str)
    (now : Timestamp) (ts : Z) w : World S :=
  match get_str parsed "conversationId" with
  | None => send (missing ts request_id "rename_conversation requires a 'conversationId'") w
  | Some conversation_id =>
      let title := sanitize_title (default [] (get_str parsed "title")) in
      if str_is_empty title
      then send (missing ts request_id "rename_conversation requires a non-empty 'title'") w
      else
        match get_conversation (storage (app w)) conversation_id with
        | Err e => send (Protocol.error ts request_id "STORAGE_ERROR"
                           (lit "failed to load conversation: " ++ show_err e)) w
        | Ok c =>
            if is_some c && may_read_conversation require_owned_conversations (app w) conversation_id
                              (auth_org cx) (scope cx) ById
            then
              let '(r, s) := update_conversation conversation_id
                               (mk_ConversationUpdate (Some title) None None) now (storage (app w)) in
              let w := set_storage s w in
              match r with
              | Ok _ => send (immediate_response ts request_id 200 (lit "Conversation renamed")
                                (Object [field "conversationId" (String conversation_id);
                                         field "title" (String title)])) w
              | Err e => send (Protocol.error ts request_id "STORAGE_ERROR"
                                 (lit "failed to rename conversation: " ++ show_err e)) w
              end
            else send (Protocol.error ts request_id "CONVERSATION_NOT_FOUND"
                         (lit "conversation '" ++ conversation_id ++ lit "' not found")) w
        end
  end.
End handlers.

(** ** Titles: lemmas *)

Lemma trim_length_le s : length (trim s) ≤ length s.
Proof. apply trim_length. Qed.

Lemma trim_end_length s : length (trim_end s) ≤ length s.
Proof.
  destruct (trim_end_prefix is_whitespace s) as (k & Hs & _).
  apply (f_equal length) in Hs. rewrite length_app in Hs. unfold trim_end. lia.
Qed.

Lemma truncate_preview_length s max : length (truncate_preview s max) ≤ max + 1.
Proof.
  unfold truncate_preview. case_match eqn:E; [apply Nat.leb_le in E; lia|].
  rewrite length_app. pose proof (trim_end_length (take max (trim s))) as H.
  rewrite length_take in H. change (length ellipsis) with 1. lia.
Qed.

Lemma sanitize_title_length raw : length (sanitize_title raw) ≤ TITLE_MAX.
Proof.
  unfold sanitize_title. etransitivity; [apply trim_length_le|]. rewrite length_take. lia.
Qed.

(** Every whitespace character of a joined word list is the joining space. *)
Lemma split_whitespace_words s : Forall (λ w, Forall (λ c, is_whitespace c = false) w) (split_whitespace s).
Proof.
  unfold split_whitespace. apply Forall_forall. intros w Hw. apply filter_elem in Hw as [Hw _].
  revert w Hw. induction s as [|c s IH]; simpl; intros w Hw.
  - apply list_elem_of_singleton in Hw as ->. constructor.
  - destruct (is_whitespace c) eqn:E.
    + apply elem_of_cons in Hw as [->|Hw]; [constructor|by apply IH].
    + destruct (split_on is_whitespace s) as [|w0 ws].
      * apply list_elem_of_singleton in Hw as ->. by repeat constructor.
      * apply elem_of_cons in Hw as [->|Hw]; [constructor; [done|apply IH; left]|apply IH; by right].
Qed.

Definition only_spaces (s : str) : Prop := Forall (λ c, is_whitespace c = true → c = 32%N) s.

Lemma only_spaces_join ws :
  Forall (λ w, Forall (λ c, is_whitespace c = false) w) ws → only_spaces (join (lit " ") ws).
Proof.
  assert (Hw : ∀ w, Forall (λ c, is_whitespace c = false) w → only_spaces w).
  { intros w H. eapply Forall_impl; [exact H|]. intros c Hc Hc'. congruence. }
  induction 1 as [|w [|w' ws'] Hw0 _ IH]; [constructor|by apply Hw|].
  change (only_spaces (w ++ lit " " ++ join (lit " ") (w' :: ws'))).
  apply Forall_app. split; [by apply Hw|]. by constructor.
Qed.

Lemma only_spaces_sublist s t : s `sublist_of` t → only_spaces t → only_spaces s.
Proof.
  unfold only_spaces. rewrite !Forall_forall. intros Hs Ht c Hc. apply Ht.
  by eapply elem_of_submseteq; [|apply sublist_submseteq].
Qed.

Lemma trim_matches_sublist p s : trim_matches p s `sublist_of` s.
Proof.
  destruct (trim_decompose p s) as (l & r & Hs & _). rewrite Hs at 2.
  apply sublist_inserts_l, sublist_inserts_r. done.
Qed.

Lemma sanitize_title_spaces raw : only_spaces (sanitize_title raw).
Proof.
  unfold sanitize_title. eapply only_spaces_sublist; [apply trim_matches_sublist|].
  eapply only_spaces_sublist; [apply sublist_take|].
  eapply only_spaces_sublist; [apply trim_matches_sublist|].
  apply only_spaces_join, split_whitespace_words.
Qed.

(** ** The two listing paths *)

Section listing.
Context {S : Type} `{!StorageAdapter S, !Lowercase, !WireText}.
Implicit Types (a : AppState S) (q : ConversationSummaryQuery).

Lemma scan_rows_spec require cx a q rows cs :
  length rows ≤ sq_limit q →
  scan_rows require cx a q rows cs =
    rows ++ take (sq_limit q - length rows)
              (omap (scan_row require cx a q) (List.filter (admits_position q) cs)).
Proof.
  revert rows. induction cs as [|c cs IH]; intros rows Hlen; simpl.
  - by rewrite take_nil, app_nil_r.
  - destruct (sq_limit q <=? length rows) eqn:El.
    + apply Nat.leb_le in El. replace (sq_limit q - length rows) with 0 by lia. by rewrite app_nil_r.
    + apply Nat.leb_gt in El. destruct (admits_position q c); simpl; [|by apply IH].
      destruct (scan_row require cx a q c) as [r|]; simpl.
      * rewrite IH by (rewrite length_app; simpl; lia).
        rewrite length_app, <- (assoc_L (++)). simpl.
        replace (sq_limit q - length rows) with (Datatypes.S (sq_limit q - (length rows + 1))) by lia. done.
      * rewrite app_nil_r. by apply IH.
Qed.

(** The participants of the organization's conversations can be read and carry its id. *)
Definition org_readable (s : S) (org : str) (cs : list Conversation) : Prop :=
  Forall (λ c, (∃ ps, list_participants_by_conversation s (conv_id c) = Ok ps ∧
                      Forall (λ p, part_organization_id p = org) ps) ∧
               (∃ page, list_messages_by_conversation s (message_query_new (conv_id c) SUMMARY_MESSAGE_CAP)
                        = Ok page)) cs.

Definition owned_by (s : S) (email : str) (c : Conversation) : bool :=
  match list_participants_by_conversation s (conv_id c) with
  | Ok ps => any (λ p, is_owner p email) ps
  | Err _ => false
  end.

Lemma filter_owned_filter s org email cs :
  org_readable s org cs → filter_owned s email cs = Ok (List.filter (owned_by s email) cs).
Proof.
  induction 1 as [|c cs [(ps & Hps & _) _] _ IH]; simpl; [done|].
  unfold owned_by at 1. rewrite Hps, IH. simpl. by destruct (any _ ps).
Qed.

(** Under the flag, a user's listing admits exactly what the user owns. *)
Lemma may_list_owned a org cid ps email :
  list_participants_by_conversation (storage a) cid = Ok ps →
  Forall (λ p, part_organization_id p = org) ps →
  may_read_conversation true a cid (Some org) (UserOf email) Listing =
    any (λ p, is_owner p email) ps.
Proof.
  intros Hps Horg. pose proof (is_owner_has_owner ps email) as Ho.
  unfold may_read_conversation. simpl. rewrite Hps.
  match goal with |- (if ?b then _ else _) = _ => assert (b = false) as -> end.
  { destruct Horg as [|p ps Hp _]; [done|]. simpl. unfold same_org. simpl. by rewrite Hp, str_eqb_refl. }
  destruct (has_owner ps); simpl; [done|].
  destruct (any _ ps); [by discriminate Ho|done].
Qed.

Definition summary_option (s : S) q (c : Conversation) : option ConversationSummary :=
  match summary_row s q c with Ok row => row | Err _ => None end.

Lemma rows_from_omap s q org cs :
  org_readable s org cs → rows_from s q cs = Some (omap (summary_option s q) cs).
Proof.
  induction 1 as [|c cs [_ (page & Hpage)] _ IH]; [done|].
  unfold rows_from in *. simpl. rewrite IH. simpl.
  destruct (summary_row s q c) as [row|] eqn:E.
  - assert (summary_option s q c = row) as -> by (unfold summary_option; by rewrite E). by destruct row.
  - unfold summary_row in E. by rewrite Hpage in E.
Qed.

Lemma scan_row_owned cx a q org email c :
  auth_org cx = Some org → scope cx = UserOf email →
  org_readable (storage a) org [c] →
  scan_row true cx a q c =
    if owned_by (storage a) email c then summary_to_row <$> summary_option (storage a) q c else None.
Proof.
  intros Ho Hs Hr. inversion Hr as [|?? [(ps & Hps & Horg) (page & Hpage)] _]; subst.
  unfold scan_row, owned_by, summary_option, summary_row.
  rewrite Ho, Hs, (may_list_owned a org _ ps email Hps Horg), Hps.
  change (mk_MessageQuery _ 200 _ _) with (message_query_new (conv_id c) SUMMARY_MESSAGE_CAP).
  rewrite Hpage. simpl. destruct (any _ ps); simpl; [|done].
  destruct (page_messages page) as [|m ms]; [done|]. unfold first_inbound, message_text.
  by destruct (negb (matches_search _ _ _)).
Qed.

Lemma omap_filter {A B} (f : A → option B) (p : A → bool) (l : list A) :
  omap f (List.filter p l) = omap (λ x, if p x then f x else None) l.
Proof.
  induction l as [|x l IH]; simpl; [done|].
  destruct (p x); simpl; [|exact IH]. destruct (f x); [f_equal|]; exact IH.
Qed.

Lemma omap_fmap_out {A B C} (f : A → option B) (g : B → C) (l : list A) :
  g <$> omap f l = omap (λ x, g <$> f x) l.
Proof. induction l as [|x l IH]; simpl; [done|]. destruct (f x); simpl; [f_equal|]; exact IH. Qed.

Lemma omap_ext_Forall {A B} (f g : A → option B) (l : list A) :
  Forall (λ x, f x = g x) l → omap f l = omap g l.
Proof.
  induction 1 as [|x l Hx _ IH]; simpl; [done|]. rewrite Hx. destruct (g x); [f_equal|]; exact IH.
Qed.

Lemma Forall_filter_bool {A} (P : A → Prop) p l : Forall P l → Forall P (List.filter p l).
Proof. induction 1; simpl; [constructor|]. case_match; [by constructor|done]. Qed.

Lemma filter_comm {A} (p q : A → bool) l : List.filter p (List.filter q l) = List.filter q (List.filter p l).
Proof.
  induction l as [|x l IH]; simpl; [done|].
  destruct (q x) eqn:Eq, (p x) eqn:Ep; simpl; rewrite ?Eq, ?Ep, IH; done.
Qed.

(** C12. The fast path is the slow path: for a host that requires owned conversations, the
    listing answered by one storage query has exactly the rows, in order and paged alike,
    that the generic scan of the whole organization would send the same user, whenever the
    reads succeed and participants carry their conversation's organization. *)
Theorem listing_paths_agree (cx : Conn) a org email q cs
    (Ho : auth_org cx = Some org) (Hs : scope cx = UserOf email)
    (Hlist : list_conversations_by_org (storage a) org = Ok cs)
    (Hread : org_readable (storage a) org cs) :
  listing_rows true cx a org q =
    Ok (scan_rows true cx a q [] (sort_conversations_newest_first cs)).
Proof.
  assert (Hsorted : org_readable (storage a) org (sort_conversations_newest_first cs)).
  { unfold org_readable, sort_conversations_newest_first. by rewrite sort_by_perm. }
  unfold listing_rows. rewrite Hs. simpl. unfold list_owned_conversation_summaries_page,
    list_conversations_by_org_and_user. rewrite Hlist. simpl.
  rewrite (filter_owned_filter _ org) by done. simpl.
  unfold sort_conversations_newest_first in *.
  rewrite <- sort_by_filter by (apply newest_first_total || apply newest_first_trans).
  set (l := sort_by newest_first cs) in *.
  rewrite (summary_rows_spec (storage a) q [] _
    (omap (summary_option (storage a) q) (List.filter (admits_position q) (List.filter (owned_by (storage a) email) l))));
    [|by apply rows_from_omap with org; do 2 apply Forall_filter_bool|simpl; lia].
  simpl. rewrite scan_rows_spec by (simpl; lia). simpl. f_equal. rewrite !Nat.sub_0_r.
  rewrite fmap_take. f_equal. rewrite omap_fmap_out, filter_comm, omap_filter.
  apply omap_ext_Forall. apply Forall_filter_bool.
  eapply Forall_impl; [exact Hsorted|]. intros c Hc. symmetry.
  rewrite (scan_row_owned cx a q org email c Ho Hs); [|by constructor].
  by destruct (owned_by _ _ _).
Qed.

(** Nothing unreadable is listed: every row of a listing is a conversation of the
    listed organization that [may_read_conversation] lets this connection list, with its
    id and its cursor, on either path. *)
Theorem listing_only_readable `{!StorageLaws S} require (cx : Conn) a org q rows row
    (Hwf : store_wf (storage a))
    (Horgs : ∀ cid ps, list_participants_by_conversation (storage a) cid = Ok ps →
               Forall (λ p, part_organization_id p = org) ps)
    (Hauth : auth_org cx = Some org)
    (Hrows : listing_rows require cx a org q = Ok rows) (Hrow : row ∈ rows) :
  ∃ c, conv_organization_id c = org ∧ row.1 = key_of c ∧
       get_str row.2 "conversationId" = Some (conv_id c) ∧
       may_read_conversation require a (conv_id c) (auth_org cx) (scope cx) Listing = true.
Proof.
  unfold listing_rows in Hrows. destruct (require && _) eqn:Epath.
  - apply andb_true_iff in Epath as [-> Eu]. unfold owned_rows in Hrows.
    destruct (scope cx) as [|email|] eqn:Es; [done| |by simplify_eq; apply elem_of_nil in Hrow].
    unfold list_owned_conversation_summaries_page in Hrows.
    destruct (list_conversations_by_org_and_user _ _ _) as [owned|] eqn:Eo; simpl in Hrows; [|done].
    destruct (summary_rows _ _ _ _) as [sums|] eqn:Er; simpl in Hrows; [|done]. simplify_eq.
    apply list_elem_of_fmap in Hrow as (r & -> & Hr).
    assert (Hc : sum_conversation r ∈ owned).
    { rewrite <- (sort_by_perm newest_first owned).
      change (sort_by newest_first owned) with (sort_conversations_newest_first owned).
      assert (Hin : ∀ cs rows0 out, summary_rows (storage a) q rows0 cs = Ok out →
        ∀ r, r ∈ out → r ∈ rows0 ∨ sum_conversation r ∈ cs); [|by destruct (Hin _ _ _ Er r Hr) as [[]%elem_of_nil|?]].
      clear. induction cs as [|c cs IH]; intros rows0 out; simpl; [by intros [= <-]; left|].
      destruct (_ <=? _); [by intros [= <-]; left|]. destruct (negb _).
      { intros Hout r Hr. destruct (IH _ _ Hout r Hr); [by left|right; by right]. }
      destruct (summary_row _ _ c) as [row|] eqn:Erow; simpl; [|done]. intros Hout r Hr.
      destruct (IH _ _ Hout r Hr) as [Hx|?]; [|right; by right].
      apply elem_of_app in Hx as [?|Hx]; [by left|right].
      destruct row as [r0|]; [|by apply elem_of_nil in Hx]. apply list_elem_of_singleton in Hx as ->.
      unfold summary_row in Erow. destruct (list_messages_by_conversation _ _); simpl in Erow; [|done].
      injection Erow as Erow. repeat case_match; simplify_eq; left. }
    unfold list_conversations_by_org_and_user in Eo.
    destruct (list_conversations_by_org _ _) as [cs|] eqn:Ecs; simpl in Eo; [|done].
    apply (filter_owned_spec _ _ _ _ Eo) in Hc as (Hin & ps & Hps & Ha).
    destruct (list_by_org_scoped _ _ _ Hwf Ecs) as [Hall _]. rewrite Forall_forall in Hall.
    exists (sum_conversation r). split; [by apply Hall|]. split; [done|]. split; [done|].
    rewrite Hauth, (may_list_owned a org _ ps email Hps); [done|by eapply Horgs].
  - destruct (list_conversations_by_org _ _) as [cs|] eqn:Ecs; simpl in Hrows; [|done].
    injection Hrows as <-. rewrite scan_rows_spec in Hrow by (simpl; lia). simpl in Hrow.
    apply elem_of_take in Hrow as (i & Hi & _). apply list_elem_of_lookup_2 in Hi.
    apply list_elem_of_omap in Hi as (c & Hc & Hsr). apply filter_elem in Hc as [Hc _].
    unfold sort_conversations_newest_first in Hc. rewrite sort_by_perm in Hc.
    destruct (list_by_org_scoped _ _ _ Hwf Ecs) as [Hall _]. rewrite Forall_forall in Hall.
    exists c. split; [by apply Hall|]. unfold scan_row in Hsr.
    destruct (may_read_conversation _ _ _ _ _ _) eqn:Em; simpl in Hsr; [|done].
    by repeat case_match; simplify_eq.
Qed.
End listing.

(** ** Properties of the frames *)

Section frames.
Context {S : Type} `{!StorageAdapter S, !Lowercase, !WireText}.

(** Titles are presentable: a sanitized title has at most 60 characters, no leading or
    trailing whitespace and no whitespace but single-word spaces (no newline, no tab), and
    the title a listing shows is either such a preview, one character longer for the
    ellipsis, or the stored default name. *)
Theorem titles_bounded raw first name :
  length (sanitize_title raw) ≤ TITLE_MAX ∧
  trim (sanitize_title raw) = sanitize_title raw ∧
  only_spaces (sanitize_title raw) ∧
  (length (summary_title first name) ≤ TITLE_MAX + 1 ∨ first = None ∧ summary_title first name = name).
Proof.
  split; [apply sanitize_title_length|]. split; [apply trim_idemp|].
  split; [apply sanitize_title_spaces|]. unfold summary_title.
  destruct (_ && _); [left; apply truncate_preview_length|].
  destruct first; [left; apply truncate_preview_length|by right].
Qed.

(** Renaming is not an oracle and not a leak: for a conversation the connection may not
    read the frame answers with the very event it answers for an id that does not exist,
    storage is not touched, and the title is only ever written to a conversation the
    connection may read. *)
Theorem rename_respects_scope require cx parsed rid now ts (w : World S) cid c
    (Hcid : get_str parsed "conversationId" = Some cid)
    (Htitle : sanitize_title (default [] (get_str parsed "title")) ≠ [])
    (Hget : get_conversation (storage (app w)) cid = Ok c)
    (Hdenied : is_some c = true →
       may_read_conversation require (app w) cid (auth_org cx) (scope cx) ById = false) :
  handle_rename_conversation require cx parsed rid now ts w =
    send (Protocol.error ts rid "CONVERSATION_NOT_FOUND"
            (lit "conversation '" ++ cid ++ lit "' not found")) w.
Proof.
  unfold handle_rename_conversation. rewrite Hcid.
  destruct (str_is_empty _) eqn:E; [by apply str_is_empty_true in E|]. rewrite Hget.
  destruct c; simpl; [|done]. by rewrite Hdenied.
Qed.

(** Session frames hide foreign sessions: when the scoped lookup gives no session, whether
    because the id is unknown or because the session is not this connection's, [get_session]
    and [get_conversation_messages] both send the same single not-found event and leave
    storage alone; when storage cannot answer they send a retryable error instead. *)
Theorem session_frames_hide require cx parsed rid ts (w : World S) sid
    (Hsid : get_str parsed "sessionId" = Some sid) :
  match (scoped_session require sid (auth_org cx) (scope cx) (app w)).1 with
  | Ok None =>
      events (handle_get_session require cx parsed rid ts w) =
        events w ++ [session_not_found ts rid sid] ∧
      events (handle_get_conversation_messages require cx parsed rid ts w) =
        events w ++ [session_not_found ts rid sid]
  | Err _ =>
      events (handle_get_session require cx parsed rid ts w) = events w ++ [session_storage_error ts rid] ∧
      events (handle_get_conversation_messages require cx parsed rid ts w) =
        events w ++ [session_storage_error ts rid]
  | Ok (Some s) =>
      events (handle_get_session require cx parsed rid ts w) =
        events w ++ [immediate_response ts rid 200 (lit "Session") (session_json s)]
  end ∧
  storage (app (handle_get_session require cx parsed rid ts w)) = storage (app w) ∧
  storage (app (handle_get_conversation_messages require cx parsed rid ts w)) = storage (app w).
Proof.
  assert (Hst : storage (scoped_session require sid (auth_org cx) (scope cx) (app w)).2 = storage (app w)).
  { unfold scoped_session, load_session. by repeat case_match; simplify_eq/=. }
  unfold handle_get_session, handle_get_conversation_messages, lookup_session. rewrite Hsid.
  destruct (scoped_session require sid (auth_org cx) (scope cx) (app w)) as [r a]. simpl in *.
  destruct r as [[s|]|]; simpl; (split; [done|]); split; try done.
  by destruct (list_messages_by_conversation _ _).
Qed.
End frames.

(** ** Concrete frames *)

Module Demo.
Definition cx : Conn := mk_Conn (lit "n") None (Some (lit "acme")) (UserOf (lit "ann@x.io")).
Definition w0 : World Tables := mk_World (new Storage.Demo.t0) [].
Definition frame (kvs : list (string * string)) : Value := Object ((λ kv, field kv.1 (jstr kv.2)) <$> kvs).
End Demo.
Import Storage.Demo Demo.

Lemma demo_readable :
  org_readable t0 (lit "acme") [conv "c1" "k1" 1; conv "c2" "k2" 2; conv "c3" "k3" 3].
Proof.
  repeat (apply Forall_cons; split);
    [split; eexists; (split; [vm_compute; reflexivity|by repeat constructor]) || (vm_compute; reflexivity)..
    |constructor].
Qed.

Lemma listing_paths_agree_witness :
  (λ rows, rows.*1 : list ConversationKey) <$>
    listing_rows true cx (app w0) (lit "acme") (summary_query_new 5) =
    Ok [key_of (conv "c2" "k2" 2); key_of (conv "c1" "k1" 1)].
Proof.
  rewrite (listing_paths_agree cx (app w0) (lit "acme") (lit "ann@x.io") (summary_query_new 5)
    [conv "c3" "k3" 3; conv "c2" "k2" 2; conv "c1" "k1" 1]); [by vm_compute|done|done|by vm_compute|].
  unfold org_readable. pose proof demo_readable as H. unfold org_readable in H.
  rewrite Forall_forall in H |- *. intros c Hc. apply H. set_solver.
Defined.

Lemma rename_respects_scope_witness :
  handle_rename_conversation false cx (frame [("conversationId", "c3"); ("title", "mine")]) None 9%Z 9 w0 =
    send (Protocol.error 9 None "CONVERSATION_NOT_FOUND" (lit "conversation 'c3' not found")) w0.
Proof.
  apply (rename_respects_scope false cx _ None 9%Z 9 w0 (lit "c3") (Some (conv "c3" "k3" 3)));
    [done|by vm_compute|by vm_compute|intros _; by vm_compute].
Defined.

Lemma session_frames_hide_witness :
  events (handle_get_session false cx (frame [("sessionId", "zz")]) None 9 w0) =
    [session_not_found 9 None (lit "zz")].
Proof.
  pose proof (session_frames_hide false cx (frame [("sessionId", "zz")]) None 9 w0 (lit "zz") eq_refl) as [H _].
  assert (E : (scoped_session false (lit "zz") (auth_org cx) (scope cx) (app w0)).1 = Ok None) by by vm_compute.
  rewrite E in H. exact (proj1 H).
Defined.

Lemma demo_orgs cid ps :
  list_participants_by_conversation t0 cid = Ok ps →
  Forall (λ p, part_organization_id p = lit "acme") ps.
Proof.
  intros H. apply Ok_inj in H as <-. rewrite sort_by_perm. apply Forall_filter_bool.
  assert (all (λ p, str_eqb (part_organization_id p) (lit "acme")) (values (participants t0)) = true)
    as Hall by by vm_compute.
  apply Forall_forall. intros p Hp. apply str_eqb_true. by apply (proj1 (all_true _ _) Hall).
Qed.

Lemma listing_only_readable_witness :
  ∃ c, conv_organization_id c = lit "acme" ∧
       may_read_conversation true (app w0) (conv_id c) (auth_org cx) (scope cx) Listing = true.
Proof.
  pose (rows := [row_of (conv "c2" "k2" 2) (Some (lit "there")) 2;
                 row_of (conv "c1" "k1" 1) (Some (lit "hello")) 1]).
  assert (E : listing_rows true cx (app w0) (lit "acme") (summary_query_new 5) = Ok rows)
    by by vm_compute.
  destruct (listing_only_readable true cx (app w0) (lit "acme") (summary_query_new 5) rows
    (row_of (conv "c2" "k2" 2) (Some (lit "there")) 2)
    (t0_wf : store_wf (StorageLaws := in_memory_storage_laws) t0) demo_orgs eq_refl E)
    as (c & Hc & _ & _ & Hm); [left|].
  exists c. split; [exact Hc|exact Hm].
Defined.
