(* ===== verification/Sessions.v ===== *)
(** * Sessions: opening a conversation session ([server/src/handler.rs])

    [create_conversation_session]: the embedding agent's policy, resuming a conversation,
    the organization and the identity a session gets, the capabilities it inherits, and
    when its rows are written; with the metadata a conversation keeps for the next
    connection (the declared capabilities and the workflow step).  The signed-context
    arithmetic is that of a build without overflow checks. *)

From stdpp Require Import prelude gmap strings list.
From S2P Require Import Prelude Text Backplane Json Storage Widget AppState Protocol Scope Conversations.

Definition AGENT_NAME : str := lit "smooth-agent".

(** ** What a conversation keeps in its metadata *)

Definition WF_STEP_META_KEY : str := lit "workflowCurrentStepId".
Definition WF_ATTEMPTS_META_KEY : str := lit "workflowStepAttempts".
Definition CLIENT_SUPPORTS_META_KEY : str := lit "clientSupports".

(** [Map::remove]. *)
Definition assoc_remove {A} (k : str) (kvs : list (str * A)) : list (str * A) :=
  List.filter (λ kv, negb (str_eqb kv.1 k)) kvs.

(** The object a metadata edit starts from. *)
Definition metadata_object (m : option Value) : list (str * Value) :=
  match m with Some (Object kvs) => kvs | _ => [] end.

Definition strings_json (l : list str) : Value := Array (String <$> l).

Definition conversation_supports (metadata : option Value) : list str :=
  match (metadata ≫= λ m, get m CLIENT_SUPPORTS_META_KEY) ≫= as_array with
  | Some caps => omap as_str caps
  | None => []
  end.

Definition with_client_supports (metadata : option Value) (supports : list str) : option Value :=
  match supports with
  | [] => metadata
  | _ => Some (Object (assoc_insert CLIENT_SUPPORTS_META_KEY (strings_json supports)
                         (metadata_object metadata)))
  end.

Definition set_supports (supports : list str) (obj : list (str * Value)) : list (str * Value) :=
  match supports with
  | [] => assoc_remove CLIENT_SUPPORTS_META_KEY obj
  | _ => assoc_insert CLIENT_SUPPORTS_META_KEY (strings_json supports) obj
  end.

Definition set_step (step_id : str) (attempts : N) (obj : list (str * Value)) : list (str * Value) :=
  assoc_insert WF_ATTEMPTS_META_KEY (Int (Z.of_N attempts))
    (assoc_insert WF_STEP_META_KEY (String step_id) obj).

Section durable.
Context {S : Type} `{!StorageAdapter S}.

(** [Ok(Some(c)) => c.metadata_json, _ => None]. *)
Definition stored_metadata (s : S) (conversation_id : str) : option Value :=
  match get_conversation s conversation_id with
  | Ok (Some c) => conv_metadata_json c
  | Ok None | Err _ => None
  end.

(** The read-modify-write both writers share; a failing write is only logged. *)
Definition edit_conversation_metadata (conversation_id : str)
    (f : list (str * Value) → list (str * Value)) (now : Timestamp) (s : S) : S :=
  (update_conversation conversation_id
     (mk_ConversationUpdate None (Some (Object (f (metadata_object (stored_metadata s conversation_id))))) None)
     now s).2.

Definition persist_client_supports (conversation_id : str) (supports : list str) (now : Timestamp) (s : S) : S :=
  edit_conversation_metadata conversation_id (set_supports supports) now s.

Definition persist_workflow_step (conversation_id step_id : str) (attempts : N) (now : Timestamp) (s : S) : S :=
  edit_conversation_metadata conversation_id (set_step step_id attempts) now s.

Definition load_workflow_step (s : S) (conversation_id : str) : option str * N :=
  match stored_metadata s conversation_id with
  | Some (Object m) =>
      (assoc WF_STEP_META_KEY m ≫= as_str,
       (default 0 (assoc WF_ATTEMPTS_META_KEY m ≫= as_u64) mod 2 ^ 32)%N)
  | _ => (None, 0%N)
  end.
End durable.

(** ** The embedding policy *)

Inductive WidgetAuthOutcome := WDenied | WAllowed (org_id : option str).

(** [Value::as_i64]. *)
Definition as_i64 (v : Value) : option Z :=
  match v with Int n => if is_i64 n then Some n else None | _ => None end.

Section create.
Context {S : Type} `{!StorageAdapter S, !Signing}.
(** Host and configuration: the flag on owned conversations, the strict-embedding flag, and
    the policy provider's answer. *)
Context (require_owned_conversations widget_auth_strict : bool).
Context (agent_widget_auth : str → option AgentWidgetAuth).
Implicit Types (w : World S).

Definition verify_auth_context_value (public_key : option str) (ac : Value) (now_unix : Z) : bool :=
  match public_key, get_str ac "userId", get_str ac "signature",
        get ac (lit "timestamp") ≫= as_i64 with
  | Some pk, Some user_id, Some signature, Some timestamp =>
      default false (verify_auth_context false pk user_id signature timestamp now_unix 60)
  | _, _, _, _ => false
  end.

Definition enforce_widget_auth (origin : option str) (agent_id : str) (parsed : Value)
    (request_id : option str) (now_unix ts : Z) w : WidgetAuthOutcome * World S :=
  match agent_widget_auth agent_id with
  | None =>
      if widget_auth_strict
      then (WDenied, send (Protocol.error ts request_id "AGENT_NOT_AUTHORIZED"
                             (lit "this agent is not registered for embedding")) w)
      else (WAllowed None, w)
  | Some policy =>
      if negb (origin_allowed (allowed_origins policy) (default [] origin))
      then (WDenied, send (Protocol.error ts request_id "ORIGIN_NOT_ALLOWED"
                             (lit "this origin is not allowed to embed this agent")) w)
      else
        if is_some_and (λ ac, negb (verify_auth_context_value (public_key policy) ac now_unix))
             (get parsed (lit "authContext"))
        then (WDenied, send (Protocol.error ts request_id "AUTH_CONTEXT_INVALID"
                               (lit "authContext signature failed verification")) w)
        else (WAllowed (organization_id policy), w)
  end.

(** ** create_conversation_session *)

(** The fresh UUIDs of one frame. *)
Record NewIds := mk_NewIds {
  new_conversation_id : str;
  new_session_id : str;
  new_user_participant_id : str;
  new_agent_participant_id : str;
}.

Definition frame_agent_id (parsed : Value) : option str :=
  opt_filter (λ s, negb (str_is_empty s)) (trim <$> get_str parsed "agentId").

(** An authenticated e-mail wins over the frame's. *)
Definition session_email (scope : UserScope) (parsed : Value) : option str :=
  opt_or (principal_email scope) (get_str parsed "userEmail").

Definition frame_conversation_id (parsed : Value) : option str :=
  opt_filter (λ s, negb (str_is_empty s)) (get_str parsed "conversationId").

(** A reconnect may name a conversation whose create is still parked. *)
Definition land_parked (parsed : Value) (a : AppState S) : AppState S :=
  match frame_conversation_id parsed with
  | Some cid => (materialize_conversation cid a).2
  | None => a
  end.

Definition resume_of (cx : Conn) (parsed : Value) (a : AppState S) : option Conversation :=
  match frame_conversation_id parsed with
  | Some cid =>
      if may_read_conversation require_owned_conversations a cid (auth_org cx) (scope cx) ById
      then default None (result_ok (get_conversation (storage a) cid))
      else None
  | None => None
  end.

Definition session_org (resume : option Conversation) (widget_org auth_org : option str) : str :=
  match resume with
  | Some c => conv_organization_id c
  | None => default SEED_ORG_ID (opt_or widget_org auth_org)
  end.

Definition declared_supports (parsed : Value) : option (list str) :=
  (λ caps : list Value, omap as_str caps) <$> (get parsed (lit "supports") ≫= as_array).

Definition session_supports (declared : option (list str)) (resume : option Conversation) : list str :=
  match declared, resume with
  | Some caps, _ => caps
  | None, Some c => conversation_supports (conv_metadata_json c)
  | None, None => []
  end.

Definition new_conversation (ids : NewIds) (org_id : str) (metadata : option Value)
    (supports : list str) (now : Timestamp) : Conversation :=
  mk_Conversation (new_conversation_id ids) Web (lit "Session " ++ new_session_id ids) org_id
    (new_session_id ids) (with_client_supports metadata supports) None now now.

Definition new_participant (id conversation_id org_id : str) (t : ParticipantType)
    (internal_id browser_fingerprint : option str) (name : str) (email : option str) (now : Timestamp) :
    Participant :=
  mk_Participant id conversation_id org_id t None internal_id browser_fingerprint None name email
    None None None now now.

Definition session_metadata (email : option str) (supports : list str) : option (gmap str Value) :=
  let m : gmap str Value :=
    (match supports with [] => id | _ => insert (lit "supports") (strings_json supports) end)
      (match email with Some e => {[lit "contactEmail" := String e]} | None => ∅ end) in
  if bool_decide (m = ∅) then None else Some m.

(** Everything one create writes, in the order it is written. *)
Definition new_pending (cx : Conn) (parsed : Value) (ids : NewIds) (now : Timestamp)
    (agent_id : str) (widget_org : option str) (resume : option Conversation) : PendingSession :=
  let org_id := session_org resume widget_org (auth_org cx) in
  let supports := session_supports (declared_supports parsed) resume in
  let email := session_email (scope cx) parsed in
  let conversation_id := from_option conv_id (new_conversation_id ids) resume in
  mk_PendingSession (new_session_id ids) (conn_id cx)
    (match resume with
     | Some _ => None
     | None => Some (new_conversation ids org_id (get parsed (lit "metadata")) supports now)
     end)
    (Some (new_participant (new_user_participant_id ids) conversation_id org_id User None
             (get_str parsed "browserFingerprint") (default (lit "Visitor") (get_str parsed "userName"))
             email now))
    (Some (new_participant (new_agent_participant_id ids) conversation_id org_id AiAgent (Some agent_id)
             None AGENT_NAME None now))
    (Some (mk_Session (new_session_id ids) conversation_id org_id (Some agent_id) AGENT_NAME
             (new_user_participant_id ids) (new_agent_participant_id ids) conversation_id (Some Active)
             (Some 0%N) (Some 0%N) (session_metadata email supports) (Some now) (Some now) None (Some now))).

Definition created_json (ids : NewIds) (conversation_id agent_id : str) : Value :=
  Object [field "sessionId" (String (new_session_id ids));
          field "conversationId" (String conversation_id);
          field "agentId" (String agent_id);
          field "agentName" (String AGENT_NAME);
          field "userParticipantId" (String (new_user_participant_id ids));
          field "agentParticipantId" (String (new_agent_participant_id ids))].

Definition carries_identity (cx : Conn) (parsed : Value) : bool :=
  is_some (session_email (scope cx) parsed) ||
  is_some_and (λ phone, negb (str_is_empty (trim phone)))
    (get parsed (lit "metadata") ≫= λ m, get_str m "userPhone").

(** The write task of a create that is not deferred. *)
Record CreateJob := mk_CreateJob {
  job_pending : PendingSession;
  job_conversation_id : str;
  job_redeclared : option (list str);
  job_request_id : option str;
  job_data : Value;
}.

Definition created (ts : Z) (request_id : option str) (data : Value) w : World S :=
  send (immediate_response ts request_id 200 (lit "Session created") data) w.

Definition failed (ts : Z) (request_id : option str) (what : string) (e : Prelude.error) (s : S) w : World S :=
  send (Protocol.error ts request_id "INTERNAL_ERROR" (lit what ++ lit " failed: " ++ show_err e))
    (set_storage s w).

Definition run_create_job (job : CreateJob) (now : Timestamp) (ts : Z) w : World S :=
  let p := job_pending job in
  let rid := job_request_id job in
  match (match ps_conversation p with
         | Some c => let '(r, s) := create_conversation c (storage (app w)) in ((λ _, ()) <$> r, s)
         | None =>
             (Ok (), match job_redeclared job with
                     | Some supports =>
                         persist_client_supports (job_conversation_id job) supports now (storage (app w))
                     | None => storage (app w)
                     end)
         end) with
  | (Err e, s) => failed ts rid "create conversation" e s w
  | (Ok _, s) =>
  match (match ps_user_participant p with
         | Some u => let '(r, s) := add_participant u s in ((λ _, ()) <$> r, s)
         | None => (Ok (), s)
         end) with
  | (Err e, s) => failed ts rid "add user participant" e s w
  | (Ok _, s) =>
  match (match ps_agent_participant p with
         | Some g => let '(r, s) := add_participant g s in ((λ _, ()) <$> r, s)
         | None => (Ok (), s)
         end) with
  | (Err e, s) => failed ts rid "add agent participant" e s w
  | (Ok _, s) =>
  match ps_session p with
  | None => set_storage s w
  | Some d =>
      match create_session d s with
      | (Err e, s) => failed ts rid "create session" e s w
      | (Ok _, s) =>
          let w := set_storage s w in
          created ts rid (job_data job) (set_app (insert_session d (app w)) w)
      end
  end end end end.

Definition associate_conn (cx : Conn) (ids : NewIds) (agent_id : str) (a : AppState S) : AppState S :=
  with_backplane (associate (conn_id cx) (Backplane.Agent agent_id)
                    (associate (conn_id cx) (Backplane.Session (new_session_id ids)) (backplane a))) a.

(** The rest of the frame, once the policy admitted it and the resume is settled. *)
Definition open_session (cx : Conn) (parsed : Value) (request_id : option str) (ids : NewIds)
    (now : Timestamp) (ts : Z) (agent_id : str) (widget_org : option str)
    (resume : option Conversation) w : World S * option CreateJob :=
  let p := new_pending cx parsed ids now agent_id widget_org resume in
  let conversation_id := from_option conv_id (new_conversation_id ids) resume in
  let data := created_json ids conversation_id agent_id in
  let w := set_app (associate_conn cx ids agent_id (app w)) w in
  if is_some (ps_conversation p) && negb (carries_identity cx parsed)
  then
    let a := defer_session p (app w) in
    let a := match ps_session p with Some s => insert_session s a | None => a end in
    (created ts request_id data (set_app a w), None)
  else
    (w, Some (mk_CreateJob p conversation_id
                (const (session_supports (declared_supports parsed) resume) <$> declared_supports parsed)
                request_id data)).

Definition handle_create_session (cx : Conn) (parsed : Value) (request_id : option str) (ids : NewIds)
    (now : Timestamp) (now_unix ts : Z) w : World S * option CreateJob :=
  match frame_agent_id parsed with
  | None => (send (missing ts request_id "missing 'agentId'") w, None)
  | Some agent_id =>
      match enforce_widget_auth (origin cx) agent_id parsed request_id now_unix ts w with
      | (WDenied, w) => (w, None)
      | (WAllowed widget_org, w) =>
          let w := set_app (land_parked parsed (app w)) w in
          open_session cx parsed request_id ids now ts agent_id widget_org
            (resume_of cx parsed (app w)) w
      end
  end.
End create.

(** ** Lemmas *)

Lemma assoc_remove_eq {A} k (kvs : list (str * A)) : assoc k (assoc_remove k kvs) = None.
Proof.
  induction kvs as [|[k' v] kvs IH]; [done|]. unfold assoc_remove in *. simpl.
  destruct (str_eqb k' k) eqn:E; simpl; [done|by rewrite E].
Qed.

Lemma assoc_remove_ne {A} k k2 (kvs : list (str * A)) :
  k ≠ k2 → assoc k2 (assoc_remove k kvs) = assoc k2 kvs.
Proof.
  intros Hne. induction kvs as [|[k' v] kvs IH]; [done|]. unfold assoc_remove in *. simpl.
  destruct (str_eqb k' k) eqn:E; simpl; [|by rewrite IH].
  apply str_eqb_true in E as ->. by rewrite (proj2 (str_eqb_false k k2)).
Qed.

Lemma as_strings (l : list str) : omap as_str (String <$> l) = l.
Proof. induction l as [|x l IH]; simpl; [done|]. by f_equal. Qed.

Lemma set_supports_get supports obj :
  conversation_supports (Some (Object (set_supports supports obj))) = supports.
Proof.
  unfold conversation_supports, set_supports. simpl.
  destruct supports as [|x l]; [by rewrite assoc_remove_eq|].
  rewrite assoc_insert_eq. simpl. f_equal. apply as_strings.
Qed.

Lemma set_supports_ne supports obj k :
  k ≠ CLIENT_SUPPORTS_META_KEY → assoc k (set_supports supports obj) = assoc k obj.
Proof.
  intros Hk. unfold set_supports.
  destruct supports; [by apply assoc_remove_ne|by apply assoc_insert_ne].
Qed.

Lemma set_step_ne step n obj k :
  k ≠ WF_STEP_META_KEY → k ≠ WF_ATTEMPTS_META_KEY → assoc k (set_step step n obj) = assoc k obj.
Proof. intros. unfold set_step. by rewrite !assoc_insert_ne. Qed.

(** The in-memory backend keeps the edited object. *)
Lemma stored_edit (t : Tables) cid f now c :
  conversations t !! cid = Some c →
  stored_metadata (edit_conversation_metadata cid f now t) cid =
    Some (Object (f (metadata_object (conv_metadata_json c)))).
Proof.
  intros Hc. unfold edit_conversation_metadata. simpl. unfold InMemory.update_conversation.
  rewrite Hc. unfold stored_metadata. simpl. unfold InMemory.get_conversation.
  rewrite lookup_insert_eq, Hc. done.
Qed.

(** One write after the other, the rest of the task on each outcome. *)
Ltac run_the_writes :=
  repeat match goal with
  | |- context [create_conversation ?c ?s] => destruct (create_conversation c s) as [[?|?] ?]; simpl
  | |- context [add_participant ?c ?s] => destruct (add_participant c s) as [[?|?] ?]; simpl
  | |- context [create_session ?c ?s] => destruct (create_session c s) as [[?|?] ?]; simpl
  end;
  (split; [done|]); (split; [done|]); eexists; (split; [done|]); (done || apply is_error_error).

Section create_lemmas.
Context {S : Type} `{!StorageAdapter S, !Signing}.
Implicit Types (w : World S).

(** A create that has no conversation to mint starts from the refreshed capabilities. *)
Definition job_start (job : CreateJob) (now : Timestamp) (s : S) : S :=
  match ps_conversation (job_pending job), job_redeclared job with
  | None, Some supports => persist_client_supports (job_conversation_id job) supports now s
  | _, _ => s
  end.

Lemma enforce_app strict provider origin agent parsed rid now_unix ts w :
  app (enforce_widget_auth strict provider origin agent parsed rid now_unix ts w).2 = app w.
Proof. unfold enforce_widget_auth. by repeat case_match. Qed.
End create_lemmas.

(** ** Properties *)

Section properties.
Context {S : Type} `{!StorageAdapter S, !Signing}.
Context (require strict : bool) (provider : str → option AgentWidgetAuth).
Implicit Types (w : World S).

(** A bare open writes nothing: when an admitted open resumes nothing and carries no
    identity, storage is exactly as it was, the client is told the session exists, and
    later frames on this pod find it; what is held back are the conversation, both
    participants and the session, consistent with one another and in that order, filed
    under this connection. *)
Theorem bare_open_writes_nothing cx parsed rid ids now now_unix ts w agent_id org
    (Hagent : frame_agent_id parsed = Some agent_id)
    (Hallow : enforce_widget_auth strict provider (origin cx) agent_id parsed rid now_unix ts w
              = (WAllowed org, w))
    (Hfresh : frame_conversation_id parsed = None)
    (Hbare : carries_identity cx parsed = false) :
  let '(w', job) := handle_create_session require strict provider cx parsed rid ids now now_unix ts w in
  job = None ∧ storage (app w') = storage (app w) ∧
  events w' = events w ++ [immediate_response ts rid 200 (lit "Session created")
                             (created_json ids (new_conversation_id ids) agent_id)] ∧
  ∃ p c u g d,
    pending_sessions (app w') !! new_session_id ids = Some p ∧ ps_conn_id p = conn_id cx ∧
    writes p = [WConversation c; WParticipant u; WParticipant g; WSession d] ∧
    load_session (new_session_id ids) (app w') = (Ok (Some d), app w') ∧
    conv_id c = new_conversation_id ids ∧ sess_conversation_id d = conv_id c ∧
    part_conversation_id u = conv_id c ∧ part_conversation_id g = conv_id c ∧
    conv_organization_id c = default SEED_ORG_ID (opt_or org (auth_org cx)) ∧
    sess_organization_id d = conv_organization_id c ∧
    part_organization_id u = conv_organization_id c ∧
    part_organization_id g = conv_organization_id c.
Proof.
  unfold handle_create_session. rewrite Hagent, Hallow.
  unfold land_parked, resume_of. rewrite Hfresh. unfold open_session.
  rewrite Hbare. simpl. split; [done|]. split; [done|]. split; [done|].
  do 5 eexists. unfold load_session, get_session. simpl. rewrite !lookup_insert_eq. done.
Qed.

(** The write task refines the held-back create's writes: run at any later time it
    performs the same writes in the same order (after refreshing the declared
    capabilities, when it resumes), stops at the first failure, registers the session
    exactly when all of them landed, and sends exactly one event, which says which. *)
Theorem create_job_refines cx parsed rid ids now ts0 agent_id widget_org resume w0 w job now' ts
    (Hjob : (open_session cx parsed rid ids now ts0 agent_id widget_org resume w0).2 = Some job) :
  let '(r, _, s') := run_writes (writes (job_pending job)) (job_start job now' (storage (app w))) in
  let w' := run_create_job job now' ts w in
  storage (app w') = s' ∧
  sessions (app w') = (match r with
                       | Ok _ => from_option (λ d, <[new_session_id ids := d]>) id (ps_session (job_pending job))
                       | Err _ => id
                       end) (sessions (app w)) ∧
  ∃ ev, events w' = events w ++ [ev] ∧
        match r with
        | Ok _ => ev = immediate_response ts rid 200 (lit "Session created") (job_data job)
        | Err _ => is_error "INTERNAL_ERROR" ev = true
        end.
Proof.
  unfold open_session in Hjob.
  destruct (is_some _ && _) in Hjob; [done|]. injection Hjob as <-.
  unfold run_create_job, job_start. simpl.
  destruct resume as [c|]; simpl; [destruct (declared_supports parsed); simpl|]; run_the_writes.
Qed.
(** C36. Resuming is not an oracle: naming a conversation this connection may not read, or one
    that does not exist, gives byte for byte the outcome of naming none (the same events,
    the same state, the same rows), as long as no held-back create is waiting under that
    id. *)
Theorem resume_not_an_oracle cx parsed parsed' rid ids now now_unix ts w cid
    (Hcid : frame_conversation_id parsed = Some cid)
    (Hnone : frame_conversation_id parsed' = None)
    (Hsame : ∀ k, k ≠ lit "conversationId" → get parsed k = get parsed' k)
    (Hparked : materialize_conversation cid (app w) = (Ok (), app w))
    (Hhidden : may_read_conversation require (app w) cid (auth_org cx) (scope cx) ById = false ∨
               ∀ c, get_conversation (storage (app w)) cid ≠ Ok (Some c)) :
  handle_create_session require strict provider cx parsed rid ids now now_unix ts w =
  handle_create_session require strict provider cx parsed' rid ids now now_unix ts w.
Proof.
  assert (Hs : ∀ k, k ≠ "conversationId"%string → get_str parsed k = get_str parsed' k).
  { intros k Hk. unfold get_str. rewrite (Hsame (lit k) (lit_ne _ _ Hk)). done. }
  unfold handle_create_session, frame_agent_id. rewrite (Hs "agentId"%string) by done.
  destruct (opt_filter _ _) as [agent_id|]; [|done].
  assert (Henf : enforce_widget_auth strict provider (origin cx) agent_id parsed rid now_unix ts w =
                 enforce_widget_auth strict provider (origin cx) agent_id parsed' rid now_unix ts w).
  { unfold enforce_widget_auth. rewrite (Hsame (lit "authContext")) by (by apply lit_ne). done. }
  rewrite Henf. clear Henf. pose proof (enforce_app strict provider (origin cx) agent_id parsed' rid now_unix ts w) as Ha.
  destruct (enforce_widget_auth _ _ _ _ _ _ _ _ _) as [[|org] w1]; [done|]. simpl in Ha.
  unfold land_parked. rewrite Hcid, Hnone, Ha, Hparked. simpl.
  assert (Hres : resume_of require cx parsed (app w) = None).
  { unfold resume_of. rewrite Hcid. destruct Hhidden as [->|Hno]; [done|].
    destruct (may_read_conversation _ _ _ _ _ _); [|done].
    destruct (get_conversation _ _) as [[c|]|] eqn:E; [|done..]. by destruct (Hno c). }
  assert (Hres' : resume_of require cx parsed' (app w) = None)
    by (unfold resume_of; by rewrite Hnone).
  rewrite Hres, Hres'. unfold open_session, new_pending, carries_identity, session_email, declared_supports.
  rewrite !(Hs "userEmail"%string), !(Hs "browserFingerprint"%string), !(Hs "userName"%string) by done.
  rewrite !(Hsame (lit "supports")), !(Hsame (lit "metadata")) by (by apply lit_ne). done.
Qed.
End properties.

(** Capabilities survive a reconnect: what a client last declared for a conversation, the
    empty declaration included, is exactly what a later session that declares nothing
    inherits, whether the conversation was created with the declaration or refreshed by a
    resume; and the refresh leaves every other key of the conversation's metadata alone. *)
Theorem supports_survive_reconnect (t : Tables) cid c supports now md
    (Hc : conversations t !! cid = Some c) :
  (supports ≠ [] → conversation_supports (with_client_supports md supports) = supports) ∧
  let t' := persist_client_supports cid supports now t in
  ∃ c', InMemory.get_conversation t' cid = Ok (Some c') ∧
    session_supports None (Some c') = supports ∧
    ∀ k, k ≠ CLIENT_SUPPORTS_META_KEY →
      assoc k (metadata_object (conv_metadata_json c')) = assoc k (metadata_object (conv_metadata_json c)).
Proof.
  split.
  - intros Hne. unfold with_client_supports. destruct supports as [|x l]; [done|].
    apply (set_supports_get (x :: l)).
  - pose proof (stored_edit t cid (set_supports supports) now c Hc) as Hst.
    unfold stored_metadata in Hst. simpl in Hst. unfold InMemory.get_conversation in *.
    fold (persist_client_supports (S := Tables) cid supports now t) in Hst.
    destruct (conversations (persist_client_supports cid supports now t) !! cid) as [c'|]; [|done].
    exists c'. split; [done|]. simpl. rewrite Hst. split; [apply set_supports_get|].
    intros k Hk. simpl. by apply set_supports_ne.
Qed.

(** A persisted pointer is the one loaded. *)
Lemma load_persisted_step (t : Tables) cid c step attempts now :
  conversations t !! cid = Some c → (attempts < 2 ^ 32)%N →
  load_workflow_step (persist_workflow_step cid step attempts now t) cid = (Some step, attempts).
Proof.
  intros Hc Hn. pose proof (stored_edit t cid (set_step step attempts) now c Hc) as Hst.
  fold (persist_workflow_step (S := Tables) cid step attempts now t) in Hst.
  unfold load_workflow_step. rewrite Hst. unfold set_step.
  rewrite assoc_insert_eq, assoc_insert_ne by (by apply lit_ne).
  rewrite assoc_insert_eq. simpl.
  rewrite (proj2 (Z.leb_le 0 (Z.of_N attempts))) by lia.
  rewrite (proj2 (Z.ltb_lt (Z.of_N attempts) (2 ^ 64))) by lia. simpl.
  rewrite N2Z.id, N.mod_small by done. done.
Qed.

(** The workflow pointer survives a reconnect: after a turn persists a step and its
    attempt count, loading them back gives exactly those, declared capabilities and every
    other metadata key unharmed, so neither of the two writers of a conversation's
    metadata disturbs the other. *)
Theorem workflow_step_roundtrip (t : Tables) cid c step attempts now
    (Hc : conversations t !! cid = Some c) (Hn : (attempts < 2 ^ 32)%N) :
  let t' := persist_workflow_step cid step attempts now t in
  load_workflow_step t' cid = (Some step, attempts) ∧
  conversation_supports (stored_metadata t' cid) = conversation_supports (conv_metadata_json c) ∧
  ∀ k, k ≠ WF_STEP_META_KEY → k ≠ WF_ATTEMPTS_META_KEY →
    assoc k (metadata_object (stored_metadata t' cid)) = assoc k (metadata_object (conv_metadata_json c)).
Proof.
  split; [by eapply load_persisted_step|].
  pose proof (stored_edit t cid (set_step step attempts) now c Hc) as Hst.
  fold (persist_workflow_step (S := Tables) cid step attempts now t) in Hst. rewrite Hst. split.
  - unfold conversation_supports. simpl. rewrite set_step_ne by (by apply lit_ne).
    by destruct (conv_metadata_json c) as [[]|].
  - intros k H1 H2. simpl. by apply set_step_ne.
Qed.

(** A read that fails is taken for empty metadata: the write that follows replaces whatever
    the conversation kept by the one key written. *)
Theorem blip_wipes_metadata {S : Type} `{!StorageAdapter S} (s : S) cid supports step n now e
    (Hblip : get_conversation s cid = Err e) :
  persist_client_supports cid supports now s =
    (update_conversation cid
       (mk_ConversationUpdate None (Some (Object (set_supports supports []))) None) now s).2 ∧
  persist_workflow_step cid step n now s =
    (update_conversation cid
       (mk_ConversationUpdate None (Some (Object [(WF_STEP_META_KEY, String step);
                                                  (WF_ATTEMPTS_META_KEY, Int (Z.of_N n))])) None)
       now s).2.
Proof.
  unfold persist_client_supports, persist_workflow_step, edit_conversation_metadata, stored_metadata.
  by rewrite Hblip.
Qed.

(** *** Who may read what was just created *)

Section owned.
Context `{!Signing} (require : bool).

Lemma participants_after (m : gmap str Participant) (t : Tables) cid u g ps :
  part_conversation_id u = cid → part_conversation_id g = cid → part_id u ≠ part_id g →
  Forall (λ p, part_conversation_id p ≠ cid) (values m) →
  participants t = <[part_id g := g]> (<[part_id u := u]> m) →
  InMemory.list_participants_by_conversation t cid = Ok ps → ∀ p, p ∈ ps ↔ p = u ∨ p = g.
Proof.
  intros Hu Hg Hne Hfresh Hm [= <-] p. rewrite sort_by_perm, filter_elem, values_elem, Hm.
  rewrite str_eqb_true. split.
  - intros [(k & Hk) Hp]. apply lookup_insert_Some in Hk as [[_ <-]|[_ Hk]]; [by right|].
    apply lookup_insert_Some in Hk as [[_ <-]|[_ Hk]]; [by left|].
    rewrite Forall_forall in Hfresh. destruct (Hfresh p); [|done]. apply values_elem. by exists k.
  - intros [-> | ->]; (split; [|done]).
    + exists (part_id u). by rewrite lookup_insert_ne, lookup_insert_eq.
    + exists (part_id g). by rewrite lookup_insert_eq.
Qed.

(** The reading rule on a conversation of one user and one agent. *)
Lemma may_read_pair (a : AppState Tables) cid u g ps o e auth_org scope reach :
  list_participants_by_conversation (storage a) cid = Ok ps → (∀ p, p ∈ ps ↔ p = u ∨ p = g) →
  participant_type u = User → participant_type g = AiAgent →
  part_organization_id u = o → part_organization_id g = o →
  part_email u = Some e → trim e ≠ [] →
  may_read_conversation require a cid auth_org scope reach =
    (is_none_or (λ o', str_eqb o' o) auth_org &&
     match scope with
     | Unscoped => true
     | UserOf e' => negb (str_is_empty (trim e')) && eq_ignore_ascii_case (trim e) (trim e')
     | Denied => is_none auth_org && bool_decide (reach = ById)
     end).
Proof.
  intros Hps Hmem Hu Hg Hou Hog He Hne. unfold may_read_conversation. rewrite Hps.
  assert (Hown : has_owner ps = true).
  { apply has_owner_true. exists u, e. split; [apply Hmem; by left|done]. }
  assert (Hany : ∀ e', any (λ p, is_owner p e') ps =
    negb (str_is_empty (trim e')) && eq_ignore_ascii_case (trim e) (trim e')).
  { intros e'. apply eq_true_iff_eq. rewrite any_true. split.
    - intros (p & Hp & Ho). apply Hmem in Hp as [->| ->].
      + unfold is_owner in Ho. destruct (str_is_empty (trim e')); [done|]. bool_props.
        rewrite He in *. done.
      + unfold is_owner in Ho. destruct (str_is_empty (trim e')); [done|]. bool_props. congruence.
    - intros [Ht Hq]%andb_true_iff. apply negb_true_iff in Ht. exists u. split; [apply Hmem; by left|].
      unfold is_owner. rewrite Ht, He, bool_decide_eq_true_2 by done. done. }
  assert (Hhead : match head ps with
                  | Some p => negb (same_org auth_org (part_organization_id p))
                  | None => false
                  end = negb (is_none_or (λ o', str_eqb o' o) auth_org)).
  { destruct ps as [|p ps]; [by destruct (not_elem_of_nil u); apply Hmem; left|].
    simpl. unfold same_org. f_equal. destruct (proj1 (Hmem p) ltac:(left)) as [->| ->];
    destruct auth_org; simpl; congruence. }
  rewrite Hhead, Hown.
  destruct auth_org as [o'|]; simpl; destruct scope; simpl; rewrite ?andb_false_r, ?Hany; try done;
    destruct (str_eqb o' o); done.
Qed.
End owned.

(** C28. A created conversation belongs to its creator: once the open of an authenticated user,
    admitted by whatever embedding policy applies, has been written, by-id or in a listing,
    whatever the ownership flag, exactly these may read it: connections of the conversation's
    organization (or of none) whose user is the creator, up to case and surrounding blanks,
    the single-user scope, and the anonymous scope of a connection without organization, by
    id only.  That organization is the embedding policy's, where it names one, else the
    creator's own, else the seed one.  The e-mail a frame claims never matters. *)
Theorem created_conversation_owned `{!Signing} require strict provider cx parsed rid ids now now_unix ts (w : World Tables)
    agent_id policy_org e now' ts' org scope' reach
    (Hagent : frame_agent_id parsed = Some agent_id)
    (Hallow : enforce_widget_auth strict provider (origin cx) agent_id parsed rid now_unix ts w
              = (WAllowed policy_org, w))
    (Hfresh : frame_conversation_id parsed = None)
    (Hscope : scope cx = UserOf e) (He : trim e ≠ [])
    (Hids : new_user_participant_id ids ≠ new_agent_participant_id ids)
    (Hnew : Forall (λ p, part_conversation_id p ≠ new_conversation_id ids)
              (values (participants (storage (app w))))) :
  let o := default SEED_ORG_ID (opt_or policy_org (auth_org cx)) in
  let '(w1, job) := handle_create_session require strict provider cx parsed rid ids now now_unix ts w in
  ∃ j, job = Some j ∧
    may_read_conversation require (app (run_create_job j now' ts' w1)) (new_conversation_id ids)
      org scope' reach =
    (is_none_or (λ o', str_eqb o' o) org &&
     match scope' with
     | Unscoped => true
     | UserOf e' => negb (str_is_empty (trim e')) && eq_ignore_ascii_case (trim e) (trim e')
     | Denied => is_none org && bool_decide (reach = ById)
     end).
Proof.
  intros o. unfold handle_create_session. rewrite Hagent, Hallow.
  unfold land_parked, resume_of. rewrite Hfresh. unfold open_session, carries_identity, session_email.
  rewrite Hscope. simpl. eexists. split; [done|].
  set (job := mk_CreateJob _ _ _ _ _). unfold run_create_job, job. simpl.
  destruct (InMemory.create_conversation _ _) as [r s] eqn:Ec. simpl.
  assert (Hs : participants s = participants (storage (app w))).
  { unfold InMemory.create_conversation in Ec. by destruct (find_first _ _) in Ec; simplify_eq/=. }
  destruct r as [c|err].
  2: { unfold InMemory.create_conversation in Ec. by destruct (find_first _ _) in Ec. }
  cbn [storage app].
  match goal with |- context [may_read_conversation _ ?a _ _ _ _] => set (a' := a) end.
  pose (u := new_participant (new_user_participant_id ids) (new_conversation_id ids) o User None
               (get_str parsed "browserFingerprint") (default (lit "Visitor") (get_str parsed "userName"))
               (Some e) now).
  pose (g := new_participant (new_agent_participant_id ids) (new_conversation_id ids) o AiAgent
               (Some agent_id) None AGENT_NAME None now).
  assert (Hp : participants (storage a') =
               <[part_id g := g]> (<[part_id u := u]> (participants (storage (app w))))).
  { rewrite <- Hs. unfold a', u, g, session_email. rewrite Hscope. reflexivity. }
  eapply (may_read_pair require a' (new_conversation_id ids) u g); try reflexivity; [|exact He].
  eapply (participants_after (participants (storage (app w))) (storage a') (new_conversation_id ids) u g);
    [reflexivity|reflexivity|exact Hids|exact Hnew|exact Hp|reflexivity].
Qed.

(** ** Concrete frames *)

Import Storage.Demo Conversations.Demo Widget.Demo.

Module Demo.
Definition ids : NewIds := mk_NewIds (lit "c9") (lit "s9") (lit "u9") (lit "a9").
Definition bare : Value := frame [("agentId", "bot"); ("userName", "Zoe")].
Definition visitor : Conn := mk_Conn (lit "n") None None Denied.
Definition resume : Value := frame [("agentId", "bot"); ("conversationId", "c3")].
Definition no_resume : Value := frame [("agentId", "bot")].
Definition anyone (_ : str) : option AgentWidgetAuth := None.
(** A host whose agent is embedded by another organization's site. *)
Definition embedded (_ : str) : option AgentWidgetAuth :=
  Some (mk_AgentWidgetAuth [lit "*"] None (Some (lit "globex"))).
Definition created_job : CreateJob :=
  default (mk_CreateJob (mk_PendingSession [] [] None None None None) [] None None Null)
    (open_session cx no_resume None ids 7%Z 7 (lit "bot") None None w0).2.
End Demo.
Import Demo.

Lemma bare_open_writes_nothing_witness :
  let '(w', job) := handle_create_session true false anyone visitor bare None ids 7%Z 7 7 w0 in
  job = None ∧ storage (app w') = t0.
Proof.
  pose proof (bare_open_writes_nothing true false anyone visitor bare None ids 7%Z 7 7 w0 (lit "bot") None
    eq_refl eq_refl eq_refl eq_refl) as H.
  destruct (handle_create_session true false anyone visitor bare None ids 7%Z 7 7 w0) as [w' job].
  exact (conj (proj1 H) (proj1 (proj2 H))).
Defined.

Lemma create_job_refines_witness :
  storage (app (run_create_job created_job 8%Z 8 w0)) =
    (run_writes (writes (job_pending created_job)) t0).2.
Proof.
  pose proof (create_job_refines cx no_resume None ids 7%Z 7 (lit "bot") None None w0 w0 created_job 8%Z 8
    eq_refl) as H.
  change (job_start created_job 8%Z (storage (app w0))) with t0 in H.
  destruct (run_writes (writes (job_pending created_job)) t0) as [[r rest] s']. exact (proj1 H).
Defined.

Lemma resume_not_an_oracle_witness :
  handle_create_session false false anyone cx resume None ids 7%Z 7 7 w0 =
  handle_create_session false false anyone cx no_resume None ids 7%Z 7 7 w0.
Proof.
  refine (resume_not_an_oracle false false anyone cx resume no_resume None ids 7%Z 7 7 w0 (lit "c3")
    eq_refl eq_refl _ eq_refl (or_introl _)); [|by vm_compute].
  intros k Hk. unfold resume, no_resume, frame. simpl.
  destruct (str_eqb (lit "agentId") k); [done|].
  by rewrite (proj2 (str_eqb_false (lit "conversationId") k)).
Defined.

Lemma supports_survive_reconnect_witness :
  ∃ c', InMemory.get_conversation (persist_client_supports (lit "c1") [lit "identity_form"] 7%Z t0) (lit "c1")
          = Ok (Some c') ∧ session_supports None (Some c') = [lit "identity_form"].
Proof.
  destruct (supports_survive_reconnect t0 (lit "c1") (conv "c1" "k1" 1) [lit "identity_form"] 7%Z None
    eq_refl) as (_ & c' & Hg & Hs & _).
  exists c'. exact (conj Hg Hs).
Defined.

Lemma workflow_step_roundtrip_witness :
  load_workflow_step (persist_workflow_step (lit "c1") (lit "ask") 3 7%Z t0) (lit "c1") =
    (Some (lit "ask"), 3%N).
Proof.
  exact (proj1 (workflow_step_roundtrip t0 (lit "c1") (conv "c1" "k1" 1) (lit "ask") 3 7%Z eq_refl
    ltac:(lia))).
Defined.

Lemma created_conversation_owned_witness :
  let '(w1, job) := handle_create_session true true embedded cx no_resume None ids 7%Z 7 7 w0 in
  ∃ j, job = Some j ∧
    may_read_conversation true (app (run_create_job j 8%Z 8 w1)) (lit "c9") (Some (lit "globex"))
      (UserOf (lit " ANN@x.io")) Listing = true ∧
    may_read_conversation true (app (run_create_job j 8%Z 8 w1)) (lit "c9") (Some (lit "acme"))
      (UserOf (lit "ann@x.io")) Listing = false.
Proof.
  assert (Hnew : Forall (λ p, part_conversation_id p ≠ lit "c9") (values (participants (storage (app w0))))).
  { apply Forall_forall. intros p Hp Heq.
    assert (all (λ p, negb (str_eqb (part_conversation_id p) (lit "c9"))) (values (participants t0)) = true)
      as Hall by by vm_compute.
    pose proof (proj1 (all_true _ _) Hall p Hp) as Hq. simpl in Hq. rewrite Heq in Hq. done. }
  assert (He : trim (lit "ann@x.io") ≠ []) by done.
  assert (Hids : new_user_participant_id ids ≠ new_agent_participant_id ids) by done.
  pose proof (λ org sc, created_conversation_owned true true embedded cx no_resume None ids 7%Z 7 7 w0 (lit "bot")
    (Some (lit "globex")) (lit "ann@x.io") 8%Z 8 org sc Listing eq_refl eq_refl eq_refl eq_refl He Hids Hnew) as H.
  pose proof (H (Some (lit "globex")) (UserOf (lit " ANN@x.io"))) as H1.
  pose proof (H (Some (lit "acme")) (UserOf (lit "ann@x.io"))) as H2. clear H.
  cbv zeta in H1, H2.
  destruct (handle_create_session true true embedded cx no_resume None ids 7%Z 7 7 w0) as [w1 job].
  destruct H1 as (j & Hj & H1). destruct H2 as (j2 & Hj2 & H2).
  exists j. split; [exact Hj|]. rewrite Hj in Hj2. injection Hj2 as <-.
  change (new_conversation_id ids) with (lit "c9") in H1, H2. split.
  - rewrite H1. by vm_compute.
  - rewrite H2. by vm_compute.
Defined.
