(* ===== verification/Turns.v ===== *)
(** * Turns: accepting a message ([server/src/handler.rs], [handle_send_message])

    Everything a [send_message] frame decides before its agent turn is spawned: what is
    rejected, what is claimed, landed and acknowledged, and the whole configuration the
    turn runs with, resolved from the host, the organization, the agent and the frame.
    The task is handed a [TurnPlan]; what it does with it is in [TurnRun] and [TurnTail].  The [temperature], retry policy and wire format of an
    [LlmConfig] are constants of the server and left out. *)

From stdpp Require Import prelude gmap strings list.
From S2P Require Import Prelude Text AccessControl RunningTurns Json Storage Agents AppState.
From S2P Require Import Protocol Scope Conversations Sessions.

(** ** The host and its configuration *)

Record ServerConfig := mk_ServerConfig {
  gateway_url : str;
  gateway_key : option str;
  server_model : str;
  server_max_iterations : N;
  server_max_tokens : N;
  confirm_tools : list str;
  judge_model : str;
}.

Record LlmConfig := mk_LlmConfig { api_url : str; api_key : str; llm_model : str; max_tokens : N }.

Definition llm_config_with_key (c : ServerConfig) (key : str) : LlmConfig :=
  mk_LlmConfig (gateway_url c) key (server_model c) (server_max_tokens c).
Definition placeholder_llm_config (c : ServerConfig) : LlmConfig :=
  mk_LlmConfig (gateway_url c) (lit "mock-no-network") (server_model c) (server_max_tokens c).

Definition confirmation_tool_patterns (c : ServerConfig) : option (list str) :=
  match confirm_tools c with [] => None | l => Some l end.

Record AgentSettings := mk_AgentSettings {
  settings_org_id : str;
  settings_model : option str;
  settings_system_prompt : str;
  settings_persona : option str;
  default_tools : list str;
  settings_updated_at : Timestamp;
}.

(** serde's derived readers of the [images] and [files] arrays. *)
Class Attachments := {
  UserImage : Type;
  UserFile : Type;
  read_images : Value → option (list UserImage);
  read_files : Value → option (list UserFile);
}.

(** What a host installs; a resolver's answer is the one it gives during the frame.
    [chat_provider] and [host_approver] only matter by being installed. *)
Record Host := mk_Host {
  config : ServerConfig;
  require_owned_conversations : bool;
  skill_resolver : option (str → option str);
  gateway_key_resolver : str → option str;
  chat_provider : bool;
  host_approver : bool;
  agent_config : str → option AgentBehaviorConfig;
  settings : str → AgentSettings;
  default_persona : option str;
  auth_tools_env : option str;
}.

Definition resolve_gateway_key (resolver : str → option str) (org_id : str) (env_key : option str) :
    option str :=
  match resolver org_id with Some key => Some key | None => env_key end.

(** ** Skills *)

Definition skill_section (name body : str) : str :=
  lit "## Skill: " ++ name ++ lf ++ lf ++
  lit "The user invoked this skill for this turn. Follow it." ++ lf ++ lf ++ body.

Definition resolve_section (resolver : option (str → option str)) (name : str) : option str :=
  resolve ← resolver; body ← resolve name; Some (skill_section name body).

(** ** The model of a turn *)

Definition set_model (o : option str) (llm : LlmConfig) : LlmConfig :=
  match o with
  | Some model =>
      let model := trim model in
      if str_is_empty model then llm else mk_LlmConfig (api_url llm) (api_key llm) model (max_tokens llm)
  | None => llm
  end.

Definition apply_model_override (llm : LlmConfig) (body : Value) : LlmConfig :=
  set_model (get_str body "model") llm.
Definition apply_org_model_override (llm : LlmConfig) (s : AgentSettings) : LlmConfig :=
  set_model (settings_model s) llm.
Definition apply_agent_model_override (llm : LlmConfig) (cfg : option AgentBehaviorConfig) : LlmConfig :=
  set_model (cfg ≫= cfg_model) llm.

Definition resolve_turn_model (llm : LlmConfig) (s : AgentSettings) (agent_cfg : option AgentBehaviorConfig)
    (body : Value) : LlmConfig :=
  apply_model_override (apply_agent_model_override (apply_org_model_override llm s) agent_cfg) body.

Definition JUDGE_MAX_TOKENS : N := 512.
Definition judge_llm_config (judge_model : str) (turn_llm : LlmConfig) : LlmConfig :=
  mk_LlmConfig (api_url turn_llm) (api_key turn_llm) judge_model JUDGE_MAX_TOKENS.

(** ** The base prompt *)

Inductive BaseSource := FromAgent | OrgPersona | DefaultPersona | BuiltIn.

Definition resolve_base_prompt (agent org_persona default_persona : option str) : option str * BaseSource :=
  match agent, org_persona, default_persona with
  | Some p, _, _ => (Some p, FromAgent)
  | None, Some p, _ => (Some p, OrgPersona)
  | None, None, Some p => (Some p, DefaultPersona)
  | None, None, None => (None, BuiltIn)
  end.

(** ** What the spawned turn runs with *)

Record TurnPlan `{Attachments} := mk_TurnPlan {
  plan_session : Session;
  plan_request_id : str;
  plan_message : str;
  plan_images : list UserImage;
  plan_files : list UserFile;
  plan_llm : LlmConfig;
  plan_gateway_key : option str;
  plan_org_id : str;
  plan_access : AccessContext;
  plan_max_iterations : N;
  plan_prompt : option str * BaseSource;
  plan_greeting : option str;
  plan_skill : option str;
  plan_enabled_tools : option (list str);
  plan_enabled_extensions : option (list str);
  plan_tool_configs : option (gmap str Value);
  plan_auth_gate : option AuthGateHook;
  plan_metadata : option (list (str * Value));
  plan_workflow : option (ConversationWorkflow * option str);
  plan_attempts : N;
  plan_judge : option LlmConfig;
  plan_confirmation : option (list str);
  plan_pre_approved : option str;
  plan_capabilities : list str;
}.

Record SpawnedTurn `{Attachments} := mk_SpawnedTurn {
  spawned_handle : nat;
  spawned_cancelled : nat;
  spawned_reservation : TurnReservation;
  spawned_plan : TurnPlan;
}.

Section send_message.
Context {S : Type} `{!StorageAdapter S, !Attachments}.
Context (host : Host).
Implicit Types (w : World S).

(** The connection's document access, and the name of its sink. *)
Context (access : AccessContext) (sink : nat).

Definition TURN_IN_PROGRESS_MESSAGE : str :=
  lit "a turn is already in progress for this conversation (possibly from an earlier connection); cancel it or wait for it to complete".
Definition LLM_UNAVAILABLE_MESSAGE : str :=
  lit "No LLM gateway key is available for this turn (SMOOAI_GATEWAY_KEY is unset and no per-org key resolved); this server cannot serve LLM turns. Configure the gateway key to enable send_message.".
Definition EMPTY_MESSAGE : string :=
  "missing or empty 'message' (an empty message needs at least one 'images' or 'files' attachment)".

(** The frame's own content, or what it is rejected with. *)
Record Frame := mk_Frame {
  fr_session_id : str;
  fr_message : str;
  fr_images : list UserImage;
  fr_files : list UserFile;
  fr_skill : option str;
}.

Definition read_frame (parsed : Value) (request_id : str) (ts : Z) : result Value Frame :=
  match get_str parsed "sessionId" with
  | None => Err (missing ts (Some request_id) "missing 'sessionId'")
  | Some session_id =>
      let images := default [] (get parsed (lit "images") ≫= read_images) in
      let files := default [] (get parsed (lit "files") ≫= read_files) in
      let message := default [] (get_str parsed "message") in
      if str_is_empty (trim message) && bool_decide (length images = 0) && bool_decide (length files = 0)
      then Err (missing ts (Some request_id) EMPTY_MESSAGE)
      else
        match trimmed (get_str parsed "skill") with
        | None => Ok (mk_Frame session_id message images files None)
        | Some name =>
            match resolve_section (skill_resolver host) name with
            | Some section => Ok (mk_Frame session_id message images files (Some section))
            | None => Err (Protocol.error ts (Some request_id) "SKILL_NOT_FOUND"
                             (lit "skill '" ++ name ++ lit "' is not available on this server"))
            end
        end
  end.

(** The organization the gateway key is resolved for: the conversation row's. *)
Definition conversation_org (s : S) (conversation_id : str) : str :=
  match get_conversation s conversation_id with
  | Ok (Some c) => conv_organization_id c
  | Ok None | Err _ => []
  end.

Definition turn_llm (key : option str) : option LlmConfig :=
  match key with
  | Some key => Some (llm_config_with_key (config host) key)
  | None => if chat_provider host then Some (placeholder_llm_config (config host)) else None
  end.

Definition access_for (session : Session) : AccessContext :=
  AccessContext.with_agent_id (sess_agent_id session)
    (match ctx_organization_id access with
     | Some _ => access
     | None => AccessContext.with_organization_id (sess_organization_id session) access
     end).

Definition confirmation_patterns : option (list str) :=
  match confirmation_tool_patterns (config host) with
  | Some patterns => Some patterns
  | None => if host_approver host then Some [] else None
  end.

Definition enabled_tools_for (agent_cfg : option AgentBehaviorConfig) (org_id : str) : option (list str) :=
  match agent_cfg ≫= enabled_tool_ids with
  | Some ids => Some ids
  | None => match default_tools (settings host org_id) with [] => None | org_tools => Some org_tools end
  end.

(** The turn's configuration, once its key is known; the one-shot approval is taken here. *)
Definition make_plan (parsed : Value) (request_id : str) (fr : Frame) (session : Session)
    (key : option str) (llm : LlmConfig) (conversation_org : str) (a : AppState S) :
    TurnPlan * AppState S :=
  let '(pre_approved, a) :=
    match confirmation_patterns with
    | Some _ => take_pre_approval (fr_session_id fr) a
    | None => (None, a)
    end in
  let org_id := if str_is_empty conversation_org then SEED_ORG_ID else conversation_org in
  let agent_cfg := sess_agent_id session ≫= agent_config host in
  let llm := resolve_turn_model llm (settings host org_id) agent_cfg parsed in
  let wf := agent_cfg ≫= conversation_workflow in
  let '(step, attempts) :=
    match wf with
    | Some _ => load_workflow_step (storage a) (sess_conversation_id session)
    | None => (None, 0%N)
    end in
  let tools := from_option tool_configs ∅ agent_cfg in
  (mk_TurnPlan _ session request_id (fr_message fr) (fr_images fr) (fr_files fr) llm key org_id
     (access_for session)
     (default (server_max_iterations (config host)) (agent_cfg ≫= cfg_max_iterations))
     (resolve_base_prompt (agent_cfg ≫= system_prompt) (settings_persona (settings host org_id))
        (default_persona host))
     (agent_cfg ≫= greeting_section) (fr_skill fr) (enabled_tools_for agent_cfg org_id)
     (enabled_extension_ids <$> agent_cfg)
     (if bool_decide (tools = ∅) then None else Some tools)
     (agent_cfg ≫= λ cfg, build_auth_gate (auth_tools_env host) cfg
                             (session_authenticated (fr_session_id fr) a))
     (agent_cfg ≫= llm_metadata)
     ((λ wf, (wf, step)) <$> wf) attempts
     ((λ _, judge_llm_config (judge_model (config host)) llm) <$> wf)
     confirmation_patterns pre_approved (session_capabilities (fr_session_id fr) a), a).

(** [flag] and [task] name the fresh cancelled flag and the spawned task. *)
Definition handle_send_message (cx : Conn) (parsed : Value) (request_id : option str) (flag task : nat)
    (ts : Z) w : World S * option SpawnedTurn :=
  match request_id with
  | None => (send (missing ts None "send_message requires a 'requestId'") w, None)
  | Some request_id =>
  match read_frame parsed request_id ts with
  | Err ev => (send ev w, None)
  | Ok fr =>
  match lookup_session (require_owned_conversations host) cx (fr_session_id fr) (Some request_id) ts w with
  | (None, w) => (w, None)
  | (Some session, w) =>
  match try_reserve (sess_conversation_id session) request_id (Conversations.conn_id cx) sink flag
          (running_turns (app w)) with
  | (None, turns) =>
      (send (Protocol.error ts (Some request_id) "TURN_IN_PROGRESS" TURN_IN_PROGRESS_MESSAGE)
         (set_app (with_running_turns turns (app w)) w), None)
  | (Some reservation, turns) =>
      let w := set_app (with_running_turns turns (app w)) w in
      let drop_reservation w :=
        set_app (with_running_turns (release reservation (running_turns (app w))) (app w)) w in
      match materialize_session (fr_session_id fr) (app w) with
      | (Err _, a) =>
          (drop_reservation (send (session_storage_error ts (Some request_id)) (set_app a w)), None)
      | (Ok _, a) =>
          let w := set_app a w in
          let org := conversation_org (storage a) (sess_conversation_id session) in
          let key := resolve_gateway_key (gateway_key_resolver host) org (gateway_key (config host)) in
          match turn_llm key with
          | None =>
              (drop_reservation
                 (send (Protocol.error ts (Some request_id) "LLM_UNAVAILABLE" LLM_UNAVAILABLE_MESSAGE) w),
               None)
          | Some llm =>
              let w := send (immediate_response ts (Some request_id) 202
                               (lit "Processing your request...") (Object [])) w in
              let '(plan, a) := make_plan parsed request_id fr session key llm org (app w) in
              let w := set_app (with_running_turns (set_abort reservation task (running_turns a)) a) w in
              (w, Some (mk_SpawnedTurn _ task flag reservation plan))
          end
      end
  end end end end.
End send_message.

(** ** Lemmas *)

(** What a frame must leave alone on its way to a refusal. *)
Definition turn_state {S} (a : AppState S) :=
  (running_turns a, pre_approved_confirmations a, pending_confirmations a, pending_interactions a).

Section lemmas.
Context {S : Type} `{!StorageAdapter S, !Attachments}.
Implicit Types (a : AppState S) (w : World S).

Lemma load_session_frame sid a :
  let a' := (load_session sid a).2 in
  turn_state a' = turn_state a ∧ storage a' = storage a ∧ pending_sessions a' = pending_sessions a.
Proof. unfold load_session. by repeat case_match. Qed.

Lemma materialize_frame sid a :
  let '(r, a') := materialize_session sid a in
  turn_state a' = turn_state a ∧
  (pending_sessions a !! sid = None → storage a' = storage a) ∧
  (is_ok r = true → pending_sessions a' !! sid = None).
Proof.
  unfold materialize_session. destruct (pending_sessions a !! sid) as [p|] eqn:E; [|done].
  destruct (flush_pending p _) as [[u|e] [p' s]]; split; try done; simpl.
  split; [done|]. intros _. apply lookup_delete_eq.
Qed.

Lemma lookup_session_frame require cx sid rid ts w :
  let '(r, w') := lookup_session require cx sid rid ts w in
  app w' = (load_session sid (app w)).2 ∧
  match r with
  | Some s =>
      events w' = events w ∧ (load_session sid (app w)).1 = Ok (Some s) ∧
      same_org (auth_org cx) (sess_organization_id s) = true ∧
      may_read_conversation require (app w) (sess_conversation_id s) (auth_org cx) (scope cx) ById = true
  | None => ∃ code message, events w' = events w ++ [Protocol.error ts rid code message]
  end.
Proof.
  unfold lookup_session, scoped_session. destruct (load_session_frame sid (app w)) as (_ & Hs & _).
  destruct (load_session sid (app w)) as [[[s|]|e] a]; simpl in *.
  - destruct (same_org _ _) eqn:Eo; simpl; [|by split; [done|eexists _, _]].
    assert (Hm : may_read_conversation require a (sess_conversation_id s) (auth_org cx) (scope cx) ById =
      may_read_conversation require (app w) (sess_conversation_id s) (auth_org cx) (scope cx) ById).
    { unfold may_read_conversation. by rewrite Hs. }
    destruct (may_read_conversation require a _ _ _ _); simpl; [by rewrite <- Hm|].
    by split; [done|eexists _, _].
  - by split; [done|eexists _, _].
  - by split; [done|eexists _, _].
Qed.

(** Releasing a fresh claim puts the registry's turns back. *)
Lemma reserve_release c q n s f reg r reg' :
  try_reserve c q n s f reg = (Some r, reg') →
  turns (release r reg') = turns reg ∧ raised (release r reg') = raised reg ∧
  aborted (release r reg') = aborted reg.
Proof.
  unfold try_reserve. destruct (turns reg !! c) eqn:E; simpl; [done|]. intros; simplify_eq/=.
  unfold release. simpl. rewrite lookup_insert_eq. simpl. rewrite N.eqb_refl. simpl.
  split; [|done]. by rewrite delete_insert_id.
Qed.

Lemma reserve_set_abort c q n s f reg r reg' task :
  try_reserve c q n s f reg = (Some r, reg') →
  is_running c reg = false ∧ tr_conversation_id r = c ∧
  turns (set_abort r task reg') =
    <[c := mk_RunningTurn (tr_token r) q n s f (Some task)]> (turns reg).
Proof.
  unfold try_reserve, is_running. destruct (is_some (turns reg !! c)) eqn:E; simpl; [done|].
  intros; simplify_eq/=. split; [done|]. split; [done|]. unfold set_abort. simpl.
  rewrite lookup_insert_eq. simpl. rewrite N.eqb_refl. simpl. by rewrite insert_insert_eq.
Qed.

Lemma read_frame_error host parsed rid ts ev :
  read_frame host parsed rid ts = Err ev → ∃ code message, ev = Protocol.error ts (Some rid) code message.
Proof. unfold read_frame, missing. intros. case_all; eauto. Qed.

Lemma read_frame_session host parsed rid ts fr :
  read_frame host parsed rid ts = Ok fr → get_str parsed "sessionId" = Some (fr_session_id fr).
Proof. unfold read_frame. intros. by case_all. Qed.
End lemmas.

(** How a frame goes, step by step; every property below reads it off. *)
Lemma send_message_cases {S : Type} `{!StorageAdapter S, !Attachments} host access sink cx parsed rid
    flag task ts (w w' : World S) o :
  handle_send_message host access sink cx parsed rid flag task ts w = (w', o) →
  match o with
  | None =>
      (∃ code message, events w' = events w ++ [Protocol.error ts rid code message]) ∧
      turns (running_turns (app w')) = turns (running_turns (app w)) ∧
      raised (running_turns (app w')) = raised (running_turns (app w)) ∧
      aborted (running_turns (app w')) = aborted (running_turns (app w)) ∧
      pre_approved_confirmations (app w') = pre_approved_confirmations (app w) ∧
      pending_confirmations (app w') = pending_confirmations (app w) ∧
      pending_interactions (app w') = pending_interactions (app w) ∧
      ((∀ sid, get_str parsed "sessionId" = Some sid → pending_sessions (app w) !! sid = None) →
       storage (app w') = storage (app w))
  | Some t =>
      ∃ q fr session w1 r turns1 a llm plan a2,
        rid = Some q ∧ read_frame host parsed q ts = Ok fr ∧
        lookup_session (require_owned_conversations host) cx (fr_session_id fr) (Some q) ts w =
          (Some session, w1) ∧
        try_reserve (sess_conversation_id session) q (Conversations.conn_id cx) sink flag
          (running_turns (app w1)) = (Some r, turns1) ∧
        materialize_session (fr_session_id fr) (with_running_turns turns1 (app w1)) = (Ok (), a) ∧
        (let org := conversation_org (storage a) (sess_conversation_id session) in
         let key := resolve_gateway_key (gateway_key_resolver host) org (gateway_key (config host)) in
         turn_llm host key = Some llm ∧
         make_plan host access parsed q fr session key llm org a = (plan, a2)) ∧
        t = mk_SpawnedTurn _ task flag r plan ∧
        app w' = with_running_turns (set_abort r task (running_turns a2)) a2 ∧
        events w' = events w ++ [immediate_response ts (Some q) 202 (lit "Processing your request...") (Object [])]
  end.
Proof.
  unfold handle_send_message. destruct rid as [q|].
  2: { intros [= <- <-]. split; [eexists _, _; reflexivity|done]. }
  destruct (read_frame host parsed q ts) as [fr|ev] eqn:Ef.
  2: { intros [= <- <-]. apply read_frame_error in Ef as (c & m & ->). split; [by eexists _, _|done]. }
  pose proof (read_frame_session _ _ _ _ _ Ef) as Hsid.
  pose proof (lookup_session_frame (require_owned_conversations host) cx (fr_session_id fr) (Some q) ts w) as Hl.
  destruct (lookup_session _ cx _ _ ts w) as [[session|] w1] eqn:El; destruct Hl as [Ha Hev];
    destruct (load_session_frame (fr_session_id fr) (app w)) as (Ht & Hst & Hps); rewrite <- Ha in *;
    injection Ht as Hrt Hpa Hpc Hpi.
  2: { intros [= <- <-]. rewrite Hrt, Hpa, Hpc, Hpi, Hst. done. }
  destruct Hev as (Hev & _).
  destruct (try_reserve _ q _ sink flag _) as [[r|] turns1] eqn:Er.
  2: { intros [= <- <-]. assert (turns1 = running_turns (app w1)) as ->.
       { unfold try_reserve in Er. by destruct (is_some _); simplify_eq. }
       simpl. rewrite Hev, Hrt, Hpa, Hpc, Hpi, Hst. by split; [eexists _, _|]. }
  pose proof (materialize_frame (fr_session_id fr) (with_running_turns turns1 (app w1))) as Hm.
  destruct (reserve_release _ _ _ _ _ _ _ _ Er) as (Hr1 & Hr2 & Hr3).
  simpl. destruct (materialize_session _ _) as [[u|e] a] eqn:Em; destruct Hm as (Hm & Hms & _);
    simpl in Hms; rewrite Hps, Hst in Hms; injection Hm as M1 M2 M3 M4; simpl in M1, M2, M3, M4.
  2: { intros [= <- <-]. simpl. rewrite M1, M2, M3, M4, Hr1, Hr2, Hr3, Hev, Hrt, Hpa, Hpc, Hpi.
       split; [by eexists _, _|]. split_and!; try done. intros Hp. by apply Hms, Hp. }
  destruct (turn_llm host _) as [llm|] eqn:Ellm.
  2: { intros [= <- <-]. simpl. rewrite M1, M2, M3, M4, Hr1, Hr2, Hr3, Hev, Hrt, Hpa, Hpc, Hpi.
       split; [by eexists _, _|]. split_and!; try done. intros Hp. by apply Hms, Hp. }
  destruct (make_plan _ _ _ _ _ _ _ _ _ _) as [plan a2] eqn:Ep. intros [= <- <-]. simpl in *. destruct u.
  exists q, fr, session, w1, r, turns1, a, llm, plan, a2. rewrite Hev. done.
Qed.

Lemma make_plan_frame {S : Type} `{!StorageAdapter S, !Attachments} host access parsed q fr session key llm org
    (a : AppState S) :
  let '(plan, a2) := make_plan host access parsed q fr session key llm org a in
  plan_session plan = session ∧ plan_request_id plan = q ∧ plan_access plan = access_for access session ∧
  plan_gateway_key plan = key ∧
  plan_org_id plan = (if str_is_empty org then SEED_ORG_ID else org) ∧
  (let cfg := sess_agent_id session ≫= agent_config host in
   plan_prompt plan = resolve_base_prompt (cfg ≫= system_prompt)
     (settings_persona (settings host (plan_org_id plan))) (default_persona host) ∧
   plan_enabled_tools plan = enabled_tools_for host cfg (plan_org_id plan) ∧
   plan_llm plan = resolve_turn_model llm (settings host (plan_org_id plan)) cfg parsed) ∧
  running_turns a2 = running_turns a ∧ storage a2 = storage a ∧
  pending_sessions a2 = pending_sessions a ∧
  match confirmation_patterns host with
  | Some _ => plan_pre_approved plan = pre_approved_confirmations a !! fr_session_id fr ∧
              pre_approved_confirmations a2 = delete (fr_session_id fr) (pre_approved_confirmations a)
  | None => plan_pre_approved plan = None ∧ a2 = a
  end.
Proof.
  unfold make_plan, take_pre_approval. destruct (confirmation_patterns host) as [ps|]; simpl;
    by destruct (match _ ≫= conversation_workflow with Some _ => _ | None => _ end).
Qed.

(** The grant an accepted message takes. *)
Lemma accepted_takes_grant {S : Type} `{!StorageAdapter S, !Attachments} host access sink cx parsed rid
    flag task ts (w w' : World S) t sid
    (Hsend : handle_send_message host access sink cx parsed rid flag task ts w = (w', Some t))
    (Hsid : get_str parsed "sessionId" = Some sid) :
  let gated := is_some (confirmation_patterns host) in
  plan_pre_approved (spawned_plan t) = (if gated then pre_approved_confirmations (app w) !! sid else None) ∧
  pre_approved_confirmations (app w') =
    (if gated then delete sid (pre_approved_confirmations (app w)) else pre_approved_confirmations (app w)).
Proof.
  apply send_message_cases in Hsend as (q & fr & session & w1 & r & turns1 & a & llm & plan & a2 & -> & Hf & Hl
    & Hr & Hm & [_ Hp] & -> & Ha & He). simpl.
  pose proof (make_plan_frame host access parsed q fr session
    (resolve_gateway_key (gateway_key_resolver host) (conversation_org (storage a) (sess_conversation_id session))
       (gateway_key (config host))) llm (conversation_org (storage a) (sess_conversation_id session)) a) as Hpl.
  rewrite Hp in Hpl. destruct Hpl as (_ & _ & _ & _ & _ & _ & _ & _ & _ & Hpre).
  pose proof (lookup_session_frame (require_owned_conversations host) cx (fr_session_id fr) (Some q) ts w) as Hl'.
  rewrite Hl in Hl'. destruct Hl' as (Ha1 & _).
  destruct (load_session_frame (fr_session_id fr) (app w)) as (Ht & _ & _). rewrite <- Ha1 in Ht.
  pose proof (materialize_frame (fr_session_id fr) (with_running_turns turns1 (app w1))) as Hm'.
  rewrite Hm in Hm'. destruct Hm' as (Hmt & _ & _).
  injection Ht as _ Ht2 _ _. injection Hmt as _ Hmt2 _ _. simpl in Hmt2.
  rewrite Ha. simpl. rewrite (read_frame_session _ _ _ _ _ Hf) in Hsid. injection Hsid as <-.
  rewrite <- Ht2, <- Hmt2. destruct (confirmation_patterns host); simpl; [done|].
  by destruct Hpre as [-> ->].
Qed.

(** What a message does to the registry: nothing, a claim released again, or the claim of
    the turn it started, with its task recorded. *)
Lemma send_message_registry {S : Type} `{!StorageAdapter S, !Attachments} host access sink cx parsed rid
    flag task ts (w w' : World S) o :
  handle_send_message host access sink cx parsed rid flag task ts w = (w', o) →
  let reg := running_turns (app w) in
  match o with
  | None =>
      running_turns (app w') = reg ∨
      ∃ c q r reg1, try_reserve c q (Conversations.conn_id cx) sink flag reg = (Some r, reg1) ∧
        running_turns (app w') = release r reg1
  | Some t =>
      ∃ q reg1, try_reserve (sess_conversation_id (plan_session (spawned_plan t))) q (Conversations.conn_id cx)
          sink flag reg = (Some (spawned_reservation t), reg1) ∧
        running_turns (app w') = set_abort (spawned_reservation t) task reg1 ∧
        spawned_handle t = task ∧ spawned_cancelled t = flag
  end.
Proof.
  unfold handle_send_message. destruct rid as [q|]; [|by intros [= <- <-]; left].
  destruct (read_frame host parsed q ts) as [fr|ev]; [|by intros [= <- <-]; left].
  pose proof (lookup_session_frame (require_owned_conversations host) cx (fr_session_id fr) (Some q) ts w) as Hl.
  destruct (lookup_session _ cx _ _ ts w) as [[session|] w1]; destruct Hl as [Ha _];
    destruct (load_session_frame (fr_session_id fr) (app w)) as (Ht & _); rewrite <- Ha in Ht;
    injection Ht as Hrt _ _ _; rewrite <- Hrt; [|by intros [= <- <-]; left].
  destruct (try_reserve _ q _ sink flag _) as [[r|] turns1] eqn:Er.
  2: { intros [= <- <-]. left. simpl. unfold try_reserve in Er. by destruct (is_some _); simplify_eq. }
  pose proof (materialize_frame (fr_session_id fr) (with_running_turns turns1 (app w1))) as Hm.
  simpl. destruct (materialize_session _ _) as [[u|e] a]; destruct Hm as (Hm & _); injection Hm as M _ _ _;
    simpl in M; rewrite <- M in *.
  2: { intros [= <- <-]. right. by eexists _, q, r, _. }
  destruct (turn_llm host _) as [llm|]; [|intros [= <- <-]; right; by eexists _, q, r, _].
  match goal with |- context [make_plan host access parsed q fr session ?k llm ?org a] =>
    pose proof (make_plan_frame host access parsed q fr session k llm org a) as Hp end.
  destruct (make_plan _ _ _ _ _ _ _ _ _ _) as [plan a2]. destruct Hp as (Hs & _ & _ & _ & _ & _ & Hp & _).
  intros [= <- <-]. simpl. rewrite Hs, Hp. by exists q, (running_turns a).
Qed.

(** ** Properties *)

(** C37. A refused message leaves nothing behind: the client gets exactly one event, an error
    echoing the frame's request id; the conversation's claim, if it was taken, is released,
    so every conversation is running exactly the turn it ran before; no flag is raised, no
    task aborted, no approval or parked question consumed; and durable storage is untouched
    unless the session was still a held-back create, which is then landed as far as it got. *)
Theorem refused_send_no_effects {S : Type} `{!StorageAdapter S, !Attachments} host access sink cx parsed rid
    flag task ts (w w' : World S)
    (Hsend : handle_send_message host access sink cx parsed rid flag task ts w = (w', None)) :
  (∃ code message, events w' = events w ++ [Protocol.error ts rid code message]) ∧
  turns (running_turns (app w')) = turns (running_turns (app w)) ∧
  raised (running_turns (app w')) = raised (running_turns (app w)) ∧
  aborted (running_turns (app w')) = aborted (running_turns (app w)) ∧
  pre_approved_confirmations (app w') = pre_approved_confirmations (app w) ∧
  pending_confirmations (app w') = pending_confirmations (app w) ∧
  pending_interactions (app w') = pending_interactions (app w) ∧
  ((∀ sid, get_str parsed "sessionId" = Some sid → pending_sessions (app w) !! sid = None) →
   storage (app w') = storage (app w)).
Proof. exact (send_message_cases _ _ _ _ _ _ _ _ _ _ _ _ Hsend). Qed.

(** C24. An accepted message started a turn that was allowed to start: its session is of the
    connection's organization and its conversation readable by the connection, no turn was
    running on that conversation, and now this one is, under the claim the task owns, with
    its own flag, sink and task, every other conversation's turn unchanged; the rows of a
    held-back session are landed; and the client was sent exactly the 202 of its request. *)
Theorem accepted_send_claims {S : Type} `{!StorageAdapter S, !Attachments} host access sink cx parsed rid
    flag task ts (w w' : World S) t
    (Hsend : handle_send_message host access sink cx parsed rid flag task ts w = (w', Some t)) :
  let session := plan_session (spawned_plan t) in
  let c := sess_conversation_id session in
  ∃ q sid, rid = Some q ∧ get_str parsed "sessionId" = Some sid ∧
    (load_session sid (app w)).1 = Ok (Some session) ∧
    same_org (auth_org cx) (sess_organization_id session) = true ∧
    may_read_conversation (require_owned_conversations host) (app w) c (auth_org cx) (scope cx) ById = true ∧
    is_running c (running_turns (app w)) = false ∧
    tr_conversation_id (spawned_reservation t) = c ∧
    turns (running_turns (app w')) =
      <[c := mk_RunningTurn (tr_token (spawned_reservation t)) q (Conversations.conn_id cx) sink flag (Some task)]>
        (turns (running_turns (app w))) ∧
    pending_sessions (app w') !! sid = None ∧
    events w' = events w ++ [immediate_response ts (Some q) 202 (lit "Processing your request...") (Object [])].
Proof.
  apply send_message_cases in Hsend as (q & fr & session & w1 & r & turns1 & a & llm & plan & a2 & -> & Hf & Hl
    & Hr & Hm & [_ Hp] & -> & Ha & He). simpl.
  pose proof (make_plan_frame host access parsed q fr session
    (resolve_gateway_key (gateway_key_resolver host) (conversation_org (storage a) (sess_conversation_id session))
       (gateway_key (config host))) llm (conversation_org (storage a) (sess_conversation_id session)) a) as Hpl.
  rewrite Hp in Hpl. destruct Hpl as (-> & _ & _ & _ & _ & _ & Hrt & _ & Hps & _).
  pose proof (lookup_session_frame (require_owned_conversations host) cx (fr_session_id fr) (Some q) ts w) as Hl'.
  rewrite Hl in Hl'. destruct Hl' as (Ha1 & _ & Hld & Ho & Hmay).
  destruct (load_session_frame (fr_session_id fr) (app w)) as (Ht & _ & _). rewrite <- Ha1 in Ht.
  pose proof (materialize_frame (fr_session_id fr) (with_running_turns turns1 (app w1))) as Hm'.
  rewrite Hm in Hm'. destruct Hm' as (Hmt & _ & Hland).
  injection Ht as Hrt1 _ _ _. injection Hmt as Hrt2 _ _ _. simpl in Hrt2. rewrite Hrt1 in Hr.
  destruct (reserve_set_abort _ _ _ _ _ _ _ _ task Hr) as (Hrun & Hc & Hset).
  exists q, (fr_session_id fr). rewrite Ha. simpl. rewrite Hrt, Hps. split_and!; try done.
  - by apply read_frame_session in Hf.
  - by rewrite Hrt2, Hset.
  - by apply Hland.
Qed.

(** The first model that is set and not blank, trimmed. *)
Fixpoint first_model (l : list (option str)) : option str :=
  match l with
  | [] => None
  | o :: rest => match trimmed o with Some m => Some m | None => first_model rest end
  end.

(** Model precedence: the turn runs with the first model named by the frame, then the
    agent, then the organization's settings, ignoring blank ones, and with the server's
    default when none is; nothing else of the configuration, the endpoint and the key it is
    billed to included, can be changed by any of them. *)
Theorem turn_model_precedence llm s cfg body :
  let llm' := resolve_turn_model llm s cfg body in
  llm_model llm' = default (llm_model llm)
    (first_model [get_str body "model"; cfg ≫= cfg_model; settings_model s]) ∧
  api_url llm' = api_url llm ∧ api_key llm' = api_key llm ∧ max_tokens llm' = max_tokens llm.
Proof.
  assert (Hset : ∀ o l, llm_model (set_model o l) = default (llm_model l) (trimmed o) ∧
    api_url (set_model o l) = api_url l ∧ api_key (set_model o l) = api_key l ∧
    max_tokens (set_model o l) = max_tokens l).
  { intros [m|] l; [|done]. unfold set_model, trimmed. simpl. by destruct (str_is_empty (trim m)). }
  unfold resolve_turn_model, apply_model_override, apply_agent_model_override, apply_org_model_override.
  destruct (Hset (get_str body "model")
    (set_model (cfg ≫= cfg_model) (set_model (settings_model s) llm))) as (-> & -> & -> & ->).
  destruct (Hset (cfg ≫= cfg_model) (set_model (settings_model s) llm)) as (-> & -> & -> & ->).
  destruct (Hset (settings_model s) llm) as (-> & -> & -> & ->).
  simpl. by destruct (trimmed (get_str body "model")), (trimmed (cfg ≫= cfg_model)), (trimmed (settings_model s)).
Qed.

(** An approval is spent at most once: the turn that starts takes the session's one-shot
    approval, exactly when writes are gated on this host, and none is left for the next one;
    approvals of other sessions stay. *)
Theorem approval_spent_once {S : Type} `{!StorageAdapter S, !Attachments} host access sink cx parsed rid
    flag task ts (w w' : World S) t sid
    (Hsend : handle_send_message host access sink cx parsed rid flag task ts w = (w', Some t))
    (Hsid : get_str parsed "sessionId" = Some sid) :
  let gated := is_some (confirmation_patterns host) in
  plan_pre_approved (spawned_plan t) = (if gated then pre_approved_confirmations (app w) !! sid else None) ∧
  pre_approved_confirmations (app w') =
    (if gated then delete sid (pre_approved_confirmations (app w)) else pre_approved_confirmations (app w)).
Proof. exact (accepted_takes_grant host access sink cx parsed rid flag task ts w w' t sid Hsend Hsid). Qed.

(** One organization per turn: the gateway key is the one resolved for the organization
    of the conversation's row, or the server's own; persona, default tools and document
    access are of that same organization, the session's standing in for document access
    only when the connection has none; and a turn never starts without a key unless the
    host injected its own provider. *)
Theorem turn_has_one_org {S : Type} `{!StorageAdapter S, !Attachments} host access sink cx parsed rid
    flag task ts (w w' : World S) t conv
    (Hsend : handle_send_message host access sink cx parsed rid flag task ts w = (w', Some t))
    (Hconv : get_conversation (storage (app w')) (sess_conversation_id (plan_session (spawned_plan t)))
               = Ok (Some conv))
    (Horg : conv_organization_id conv ≠ []) :
  let p := spawned_plan t in
  let org := conv_organization_id conv in
  let cfg := sess_agent_id (plan_session p) ≫= agent_config host in
  plan_org_id p = org ∧
  plan_prompt p = resolve_base_prompt (cfg ≫= system_prompt) (settings_persona (settings host org))
                    (default_persona host) ∧
  plan_enabled_tools p = enabled_tools_for host cfg org ∧
  plan_gateway_key p = opt_or (gateway_key_resolver host org) (gateway_key (config host)) ∧
  (plan_gateway_key p = None → chat_provider host = true) ∧
  ctx_organization_id (plan_access p) =
    opt_or (ctx_organization_id access) (Some (sess_organization_id (plan_session p))) ∧
  ctx_agent_id (plan_access p) = sess_agent_id (plan_session p).
Proof.
  apply send_message_cases in Hsend as (q & fr & session & w1 & r & turns1 & a & llm & plan & a2 & -> & Hf & Hl
    & Hr & Hm & [Hllm Hp] & -> & Ha & He). simpl in *.
  pose proof (make_plan_frame host access parsed q fr session
    (resolve_gateway_key (gateway_key_resolver host) (conversation_org (storage a) (sess_conversation_id session))
       (gateway_key (config host))) llm (conversation_org (storage a) (sess_conversation_id session)) a) as Hpl.
  rewrite Hp in Hpl. destruct Hpl as (Hs & _ & Hacc & Hkey & Horg' & Hcfg & _ & Hst & _).
  assert (Hc : conversation_org (storage a) (sess_conversation_id session) = conv_organization_id conv).
  { rewrite Ha in Hconv. simpl in Hconv. rewrite Hst, Hs in Hconv. unfold conversation_org. by rewrite Hconv. }
  rewrite Hc in *. rewrite (proj2 (str_is_empty_false _) Horg) in Horg'. rewrite Horg' in Hcfg.
  destruct Hcfg as (Hprompt & Htools & _). rewrite Horg', Hkey, Hacc, Hs.
  do 3 (split; [done|]).
  unfold resolve_gateway_key, turn_llm in *.
  split; [by destruct (gateway_key_resolver host _)|]. split.
  - intros Hk. rewrite Hk in Hllm. by destruct (chat_provider host).
  - unfold access_for. by destruct (ctx_organization_id access) eqn:E.
Qed.

(** ** Concrete frames *)

Import Storage.Demo Conversations.Demo.

Module Demo.
#[export] Instance no_attachments : Attachments :=
  {| UserImage := str; UserFile := str; read_images _ := None; read_files _ := None |}.
Definition server : ServerConfig :=
  mk_ServerConfig (lit "https://gw") (Some (lit "env-key")) (lit "small") 8 1024 [lit "send_*"] (lit "judge").
Definition host (key : option str) : Host :=
  mk_Host server false None (λ _, key) false false (λ _, None)
    (λ o, mk_AgentSettings o (Some (lit "medium")) [] None [] 0%Z) None None.
Definition sess1 : Session :=
  mk_Session (lit "s1") (lit "c1") (lit "acme") None (lit "agent") (lit "p1") (lit "g") (lit "t")
    (Some Active) None None None None None None None.
(** A pod with one live session, and an approval waiting for it. *)
Definition w1 : World Tables :=
  mk_World (grant_pre_approval (lit "s1") (lit "send_mail") (insert_session sess1 (new t0))) [].
Definition hello : Value := frame [("sessionId", "s1"); ("message", "hi"); ("model", " large ")].
Definition blank : Value := frame [("sessionId", "s1"); ("message", "  ")].
Definition sent : World Tables * option SpawnedTurn :=
  handle_send_message (host (Some (lit "acme-key"))) AccessContext.anonymous 3 cx hello (Some (lit "q")) 5 6 9%Z w1.
Definition plan1 : TurnPlan :=
  (make_plan (host (Some (lit "acme-key"))) AccessContext.anonymous hello (lit "q")
     (mk_Frame (lit "s1") (lit "hi") [] [] None) sess1 (Some (lit "acme-key"))
     (llm_config_with_key server (lit "acme-key")) (lit "acme") (app w1)).1.
Definition turn1 : SpawnedTurn := mk_SpawnedTurn _ 6 5 (mk_TurnReservation (lit "c1") 0) plan1.
Lemma sent_turn : sent.2 = Some turn1.
Proof. vm_cast_no_check (eq_refl (Some turn1)). Qed.
Lemma sent_accepted : sent = (sent.1, Some turn1).
Proof. rewrite <- sent_turn. destruct sent. reflexivity. Qed.
End Demo.
Import Demo.

Lemma refused_send_no_effects_witness :
  turns (running_turns (app (handle_send_message (host None) AccessContext.anonymous 3 cx blank
    (Some (lit "q")) 5 6 9%Z w1).1)) = ∅.
Proof.
  destruct (handle_send_message (host None) AccessContext.anonymous 3 cx blank (Some (lit "q")) 5 6 9%Z w1)
    as [w' o] eqn:E.
  assert (o = None) as -> by by injection E as _ <-.
  exact (proj1 (proj2 (refused_send_no_effects (host None) AccessContext.anonymous 3 cx blank
    (Some (lit "q")) 5 6 9%Z w1 w' E))).
Defined.

Lemma accepted_send_claims_witness :
  turns (running_turns (app sent.1)) !! lit "c1" =
    Some (mk_RunningTurn 0 (lit "q") (lit "n") 3 5 (Some 6)).
Proof.
  destruct (accepted_send_claims _ _ _ _ _ _ _ _ _ _ _ _ sent_accepted)
    as (q & sid & Hq & _ & _ & _ & _ & _ & _ & Ht & _).
  injection Hq as <-. rewrite Ht. by vm_compute.
Defined.

Lemma approval_spent_once_witness :
  plan_pre_approved (spawned_plan turn1) = Some (lit "send_mail") ∧
  pre_approved_confirmations (app sent.1) !! lit "s1" = None.
Proof.
  destruct (approval_spent_once _ _ _ _ _ _ _ _ _ _ _ _ (lit "s1") sent_accepted eq_refl) as [H1 H2].
  split; [rewrite H1|rewrite H2]; by vm_compute.
Defined.

Lemma turn_has_one_org_witness :
  plan_org_id (spawned_plan turn1) = lit "acme" ∧
  plan_gateway_key (spawned_plan turn1) = Some (lit "acme-key").
Proof.
  assert (Hc : get_conversation (storage (app sent.1)) (sess_conversation_id (plan_session (spawned_plan turn1)))
                 = Ok (Some (conv "c1" "k1" 1))) by by vm_compute.
  destruct (turn_has_one_org _ _ _ _ _ _ _ _ _ _ _ _ (conv "c1" "k1" 1) sent_accepted Hc ltac:(done))
    as (H1 & _ & _ & H2 & _).
  exact (conj H1 H2).
Defined.
