(* ===== verification/TurnRun.v ===== *)
(** * TurnRun: one streaming turn ([server/src/runner.rs], [run_streaming_turn])

    What surrounds the agent loop of a turn: the prompt and history it is given, the
    translation of its events into frames, the choice of the final text, the messages it
    leaves and the result it hands back.  The loop itself (crate smooth-operator-core, with
    the tools it calls) is the argument [engine]: from the request it is built with and the
    store, it gives the events it emitted, how it ended, what its tools recorded and the
    store they left.  Tracing spans are left out, all but the records they are built from. *)

From stdpp Require Import prelude gmap strings list.
From Stdlib Require Import SpecFloat.
From S2P Require Import Prelude Text AccessControl Json Storage Agents Protocol Turns Suggestions Replay.

(** ** Events *)

Inductive AgentEvent :=
| TokenDelta (content : str)
| ReasoningDelta (content : str)
| ToolCallStart (iteration : N) (tool_name arguments : str)
| ToolCallComplete (iteration : N) (tool_name result : str) (is_error : bool) (duration_ms : N)
| PhaseStart (phase : str)
| Completed (u : TurnUsage)
| OtherEvent.

Record ToolSpanRecord := mk_ToolSpanRecord {
  span_tool_name : str;
  span_arguments : str;
  span_duration_ms : N;
  span_is_error : bool;
  span_error : option str;
}.

(** The locals of the event translator. *)
Record Translator := mk_Translator {
  invoked_knowledge_search : bool;
  pending_tool_args : gmap (N * str) str;
  tool_records : list ToolSpanRecord;
  usage : option TurnUsage;
  suppressor : MarkerSuppressor;
  streamed_reply : str;
  streamed_reasoning : str;
}.

Definition translator_new : Translator := mk_Translator false ∅ [] None suppressor_new [] [].

Section translate.
Context (request_id : str) (ts : Z).

Definition frame_if (text : str) (ev : Value) : list Value := if str_is_empty text then [] else [ev].

(** One iteration of the loop: the state after the event and the frames it sends. *)
Definition translate_event (e : AgentEvent) (t : Translator) : Translator * list Value :=
  match e with
  | TokenDelta content =>
      let '(safe, m) := push content (suppressor t) in
      (mk_Translator (invoked_knowledge_search t) (pending_tool_args t) (tool_records t) (usage t) m
         (streamed_reply t ++ content) (streamed_reasoning t),
       frame_if safe (stream_token ts request_id safe))
  | ReasoningDelta content =>
      if str_is_empty content then (t, [])
      else (mk_Translator (invoked_knowledge_search t) (pending_tool_args t) (tool_records t) (usage t)
              (suppressor t) (streamed_reply t) (streamed_reasoning t ++ content),
            [stream_reasoning ts request_id content])
  | ToolCallStart iteration tool_name arguments =>
      (mk_Translator (invoked_knowledge_search t || str_eqb tool_name (lit "knowledge_search"))
         (<[(iteration, tool_name) := arguments]> (pending_tool_args t)) (tool_records t) (usage t)
         (suppressor t) (streamed_reply t) (streamed_reasoning t),
       [stream_chunk ts request_id tool_name
          (Object [field "rawResponse" (Object [field "toolCall"
             (Object [field "name" (String tool_name); field "arguments" (String arguments)])])])])
  | ToolCallComplete iteration tool_name result is_error duration_ms =>
      let arguments := default [] (pending_tool_args t !! (iteration, tool_name)) in
      (mk_Translator (invoked_knowledge_search t) (delete (iteration, tool_name) (pending_tool_args t))
         (tool_records t ++ [mk_ToolSpanRecord tool_name arguments duration_ms is_error
                               (if is_error then Some result else None)])
         (usage t) (suppressor t) (streamed_reply t) (streamed_reasoning t),
       [stream_chunk ts request_id tool_name
          (Object [field "rawResponse" (Object [field "toolResult"
             (Object [field "name" (String tool_name); field "isError" (Bool is_error);
                      field "result" (String result)])])])])
  | PhaseStart phase => (t, [stream_chunk ts request_id phase (Object [])])
  | Completed u =>
      (mk_Translator (invoked_knowledge_search t) (pending_tool_args t) (tool_records t) (Some u)
         (suppressor t) (streamed_reply t) (streamed_reasoning t), [])
  | OtherEvent => (t, [])
  end.

Fixpoint translate_events (evs : list AgentEvent) (t : Translator) : Translator * list Value :=
  match evs with
  | [] => (t, [])
  | e :: evs =>
      let '(t, out) := translate_event e t in
      let '(t, rest) := translate_events evs t in
      (t, out ++ rest)
  end.

(** The whole task: the loop, then the flush of a held partial. *)
Definition translate (evs : list AgentEvent) : Translator * list Value :=
  let '(t, out) := translate_events evs translator_new in
  let tail := finish (suppressor t) in
  (t, out ++ frame_if tail (stream_token ts request_id tail)).

(** The fast model's sentence, sent unless the answer has started. *)
Definition preamble_frames (answer_started : bool) (answer : result Prelude.error str) : list Value :=
  match answer with
  | Ok content =>
      let text := trim content in
      if str_is_empty text || answer_started then [] else [stream_preamble ts request_id text]
  | Err _ => []
  end.
End translate.

(** ** The final text *)

Definition final_text (last_assistant : option str) (t : Translator) : str :=
  match opt_filter (λ c, negb (str_is_empty (trim c))) last_assistant with
  | Some c => c
  | None => if str_is_empty (trim (streamed_reply t)) then streamed_reasoning t else streamed_reply t
  end.

(** The chips of the step the turn was pursuing override the model's. *)
Definition turn_chips (workflow : option (ConversationWorkflow * option str)) (model_chips : list str) :
    list str :=
  match (wt ← workflow; step ← resolve_current_step wt.1 wt.2; suggested_replies step) with
  | Some (c :: cs) => c :: cs
  | Some [] | None => model_chips
  end.

(** ** The prompt ([prompt_composer.rs]) *)

Record PromptSections := mk_PromptSections {
  base : str;
  base_source : BaseSource;
  greeting_part : option str;
  workflow_part : option str;
  skill_part : option str;
  suggested_replies_part : str;
  prompt_access : AccessContext;
  session_verified : bool;
  prompt_conversation_id : str;
}.

Definition default_sections (s : PromptSections) : list str :=
  [base s] ++ option_list (greeting_part s) ++ option_list (workflow_part s) ++
  option_list (skill_part s) ++ [suggested_replies_part s].

Definition join_sections (sections : list str) : str :=
  join (lf ++ lf) (List.filter (λ s, negb (str_is_empty (trim s))) sections).

Definition render (composer : option (PromptSections → list str)) (s : PromptSections) : str :=
  join_sections (match composer with Some compose => compose s | None => default_sections s end).

Fixpoint step_index (id : str) (l : list ConversationWorkflowStep) : option nat :=
  match l with
  | [] => None
  | s :: l' => if str_eqb (step_id s) id then Some 0 else S <$> step_index id l'
  end.

Definition render_workflow_prompt_section (wf : ConversationWorkflow) (current : option str) : str :=
  match resolve_current_step wf current with
  | None => []
  | Some step =>
      let idx := default 0 (step_index (step_id step) (steps wf)) in
      lit "<ConversationWorkflow>" ++ lf ++ lit "GOAL: " ++ goal wf ++ lf ++ lf ++
      lit "CURRENT STEP (" ++ show_nat (S idx) ++ lit "/" ++ show_nat (length (steps wf)) ++ lit "): " ++
      step_id step ++ lf ++ lit "INTENT: " ++ intent step ++ lf ++ lit "CRITERIA: " ++ criteria step ++
      lf ++ lf ++
      lit "Focus this turn on the CURRENT STEP: pursue the INTENT directly in this reply " ++ em_dash ++
      lit " ask the step's question now. The user has already agreed to be here; never re-ask for permission, re-confirm readiness, or repeat a question they have already answered " ++
      em_dash ++
      lit " acknowledge briefly and move forward. Stay conversational; the workflow advances once the CRITERIA are met." ++
      lf ++ lit "</ConversationWorkflow>"
  end.

Definition KNOWLEDGE_CHAT_SYSTEM_PROMPT : str :=
  lit "You are a helpful customer-support agent for the organization. Answer the user's question accurately and concisely. When a question depends on organization-specific facts (policies, products, documentation), call the `knowledge_search` tool to retrieve them before answering, and ground your answer in what you retrieve. If the knowledge base has no relevant information, say so. Remember facts the user tells you within the conversation and use them when asked.".

Definition DEMO_CHAT_SYSTEM_PROMPT : str :=
  lit "You are a helpful customer-support agent for the organization. Answer the user's question accurately and concisely. When a question depends on organization-specific facts (policies, products, documentation), call the `knowledge_search` tool to retrieve them before answering, and ground your answer in what you retrieve. When the user asks to return an order or get a refund, FIRST call `knowledge_search` to look up the return policy, then call `issue_refund` with their order id to process the refund. If the knowledge base has no relevant information, say so. Remember facts the user tells you within the conversation and use them when asked.".

Definition SUGGESTED_REPLIES_PROMPT_SECTION : str :=
  let q := [34%N] in
  lit "## Suggested quick replies" ++ lf ++ lf ++
  lit "When your reply asks the user a question (or a small set of likely responses exists), end your reply with ONE final line of this exact machine-parsed form:" ++
  lf ++ lf ++
  lit "<suggested_replies>[" ++ q ++ lit "First candidate reply" ++ q ++ lit ", " ++ q ++
  lit "Second candidate reply" ++ q ++ lit "]</suggested_replies>" ++ lf ++ lf ++
  lit "Rules:" ++ lf ++
  lit "- 2 to 4 candidate replies, each a short first-person answer the USER might tap (under 60 characters each), written from the user's point of view." ++ lf ++
  lit "- Offer meaningfully different options (e.g. points on a scale, yes/no with nuance), not rephrasings of one answer." ++ lf ++
  lit "- The line is stripped before display and never shown to the user. Never mention it, never explain it, never place it anywhere but the very end." ++ lf ++
  lit "- Omit the line entirely when no quick reply makes sense (e.g. you asked for a name or a free-form description).".

(** ** The tools a turn offers *)

(** [register] replaces a tool of the same name, and otherwise appends. *)
Definition register_tool (tools : list str) (name : str) : list str :=
  if any (str_eqb name) tools then tools else tools ++ [name].

Record TurnTools := mk_TurnTools {
  demo_tools : bool;
  interaction_tools : list str;
  provider_tools : list str;
  extension_tools : list str;
  deferred_tools : list str;
}.

Definition tool_allowed (enabled : option (list str)) (name : str) : bool :=
  is_none_or (any (str_eqb name)) enabled.

(** The registry's names: those registered, cut to the allow-list, and the deferred ones. *)
Definition turn_tool_names (enabled : option (list str)) (tt : TurnTools) : list str * list str :=
  let builtin := lit "knowledge_search" :: (if demo_tools tt then [lit "issue_refund"] else []) in
  let eager := foldl register_tool [] (builtin ++ interaction_tools tt ++ provider_tools tt ++ extension_tools tt) in
  (List.filter (tool_allowed enabled) eager, List.filter (tool_allowed enabled) (deferred_tools tt)).

(** ** The turn *)

Record TurnResult := mk_TurnResult {
  turn_reply : str;
  turn_message_id : str;
  turn_invoked_search : bool;
  turn_citations : list Citation;
  turn_usage : option TurnUsage;
  turn_next_step_id : option str;
  turn_suggested_next_actions : list str;
  turn_directive : option Value;
}.

Definition AUTO_CONTEXT_LIMIT : nat := 3.

Section turn.
Context {S : Type} `{!StorageAdapter S, !Attachments, !Lowercase, !JsonParse}.

Record EngineRequest := mk_EngineRequest {
  eng_prompt : str;
  eng_llm : LlmConfig;
  eng_max_iterations : N;
  eng_prior : list EngineMessage;
  eng_message : str;
  eng_images : list UserImage;
  eng_metadata : option (list (str * Value));
  eng_tools : list str * list str;
}.

Record EngineRun := mk_EngineRun {
  run_events : list AgentEvent;
  (** The conversation's last assistant content, or the error. *)
  run_result : result Prelude.error (option str);
  run_tool_sources : list KnowledgeHit;
  run_directive : Value;
}.

Context (image_url : UserImage → str).
(** The adapter's ACL-bound knowledge handle, queried with a text and a limit. *)
Context (knowledge_for_access : AccessContext → S → str → nat → result Prelude.error (list KnowledgeHit)).
Context (composer : option (PromptSections → list str)).
Context (engine : EngineRequest → S → EngineRun * S).
(** The judge model's answer to a reply. *)
Context (judge_chat : LlmConfig → str → result Prelude.error str).

Definition resolved_prompt (plan : TurnPlan) (demo verified : bool) (prior : list EngineMessage) : str :=
  let default_prompt := if demo then DEMO_CHAT_SYSTEM_PROMPT else KNOWLEDGE_CHAT_SYSTEM_PROMPT in
  render composer
    (mk_PromptSections (default default_prompt (plan_prompt plan).1) (plan_prompt plan).2
       (match prior with [] => plan_greeting plan | _ => None end)
       ((λ wt, render_workflow_prompt_section wt.1 wt.2) <$> plan_workflow plan)
       (plan_skill plan) SUGGESTED_REPLIES_PROMPT_SECTION (plan_access plan) verified
       (sess_conversation_id (plan_session plan))).

(** What follows the agent loop. *)
Definition finish_turn (plan : TurnPlan) (auto : list KnowledgeHit) (run : EngineRun) (t : Translator)
    (last_assistant : option str) (id : str) (now : Timestamp) (s : S) : result Prelude.error TurnResult * S :=
  let '(reply, model_chips) := extract_suggested_replies (final_text last_assistant t) in
  let '(persisted, s) :=
    if str_is_empty reply then (Ok id, s)
    else let '(r, s) := persist_message id now (sess_conversation_id (plan_session plan)) Outbound reply [] s in
         (m ← r; mret (msg_id m), s) in
  (message_id ← persisted;
   mret (mk_TurnResult reply message_id (invoked_knowledge_search t)
           (collect_citations auto (run_tool_sources run)) (usage t)
           ((λ wt, judge_next_step ((λ llm, judge_chat llm reply) <$> plan_judge plan) wt.1 wt.2 reply)
              <$> plan_workflow plan)
           (turn_chips (plan_workflow plan) model_chips)
           (if is_null (run_directive run) then None else Some (run_directive run))), s).

(** The turn: its result, the store it leaves, the frames sent before it returned and those
    sent after.  [ids] are the fresh ids of the inbound and the outbound message, [t1] and
    [t2] the clock at each.  A failed loop returns without waiting for the translator, which
    then still has [lag] frames to send. *)
Definition run_streaming_turn (plan : TurnPlan) (tt : TurnTools) (demo verified : bool)
    (ids : str * str) (t1 t2 : Timestamp) (ts : Z) (lag : nat) (s : S) :
    result Prelude.error TurnResult * S * (list Value * list Value) :=
  let cid := sess_conversation_id (plan_session plan) in
  let auto := match knowledge_for_access (plan_access plan) s (plan_message plan) AUTO_CONTEXT_LIMIT with
              | Ok l => l
              | Err _ => []
              end in
  match load_prior_messages s cid with
  | Err e => (Err e, s, ([], []))
  | Ok prior =>
      match persist_message ids.1 t1 cid Inbound (plan_message plan) (image_url <$> plan_images plan) s with
      | (Err e, s) => (Err e, s, ([], []))
      | (Ok _, s) =>
          let '(run, s) :=
            engine (mk_EngineRequest (resolved_prompt plan demo verified prior) (plan_llm plan)
                      (plan_max_iterations plan) prior (plan_message plan) (plan_images plan)
                      (plan_metadata plan) (turn_tool_names (plan_enabled_tools plan) tt)) s in
          let '(t, frames) := translate (plan_request_id plan) ts (run_events run) in
          match run_result run with
          | Err e =>
              let sent := length frames - lag in (Err e, s, (take sent frames, drop sent frames))
          | Ok last_assistant =>
              let '(r, s) := finish_turn plan auto run t last_assistant ids.2 t2 s in
              (r, s, (frames, []))
          end
      end
  end.
End turn.

(** ** Lemmas: the translated stream *)

Definition token_of (e : AgentEvent) : option str := match e with TokenDelta c => Some c | _ => None end.
Definition reasoning_of (e : AgentEvent) : option str := match e with ReasoningDelta c => Some c | _ => None end.

(** The answer and the reasoning of an event sequence. *)
Definition answer (evs : list AgentEvent) : str := concat (omap token_of evs).
Definition reasoning (evs : list AgentEvent) : str := concat (omap reasoning_of evs).

(** What a client assembles from the frames of one kind. *)
Definition frame_text (type : string) (ev : Value) : str :=
  if bool_decide (event_type ev = Some (lit type)) then default [] (get_str ev "token") else [].
Definition wire_text (type : string) (frames : list Value) : str := frames ≫= frame_text type.
#[local] Arguments wire_text : simpl never.

Section stream.
Context (rid : str) (ts : Z).

Lemma wire_text_app type l k : wire_text type (l ++ k) = wire_text type l ++ wire_text type k.
Proof. unfold wire_text. by rewrite bind_app. Qed.

Lemma wire_text_single type ev : wire_text type [ev] = frame_text type ev.
Proof. unfold wire_text. csimpl. apply app_nil_r. Qed.

Lemma frame_text_token c : frame_text "stream_token" (stream_token ts rid c) = c.
Proof. done. Qed.

Lemma wire_text_frame_if c : wire_text "stream_token" (frame_if c (stream_token ts rid c)) = c.
Proof. unfold frame_if. destruct c; [done|]. simpl str_is_empty. cbv iota. by rewrite wire_text_single, frame_text_token. Qed.

(** The answer frames carry what the suppressor lets through, and nothing else does. *)
Lemma translate_event_tokens e t :
  let '(t', out) := translate_event rid ts e t in
  pushes (option_list (token_of e)) (suppressor t) = (wire_text "stream_token" out, suppressor t').
Proof.
  destruct e; simpl; try done.
  - destruct (push content (suppressor t)) as [safe m]. simpl. by rewrite wire_text_frame_if, app_nil_r.
  - by destruct content.
Qed.

Lemma translate_event_texts e t :
  let '(t', out) := translate_event rid ts e t in
  streamed_reply t' = streamed_reply t ++ default [] (token_of e) ∧
  streamed_reasoning t' = streamed_reasoning t ++ default [] (reasoning_of e) ∧
  wire_text "stream_reasoning" out = default [] (reasoning_of e).
Proof.
  destruct e; simpl; rewrite ?app_nil_r; try done.
  - destruct (push content (suppressor t)) as [safe m]. simpl. rewrite ?app_nil_r.
    split_and!; [done|done|]. by destruct safe.
  - destruct content as [|c cs]; simpl; rewrite ?app_nil_r; [done|]. split_and!; [done|done|].
    by rewrite wire_text_single.
Qed.

Lemma pushes_app ds1 ds2 m :
  pushes (ds1 ++ ds2) m =
    let '(o1, m1) := pushes ds1 m in let '(o2, m2) := pushes ds2 m1 in (o1 ++ o2, m2).
Proof.
  revert m. induction ds1 as [|d ds1 IH]; intros m; simpl; [by destruct (pushes ds2 m)|].
  destruct (push d m) as [o m']. rewrite IH. destruct (pushes ds1 m') as [o1 m1], (pushes ds2 m1) as [o2 m2].
  by rewrite (assoc_L (++)).
Qed.

Lemma omap_cons_app {A B} (f : A → option B) x l : omap f (x :: l) = option_list (f x) ++ omap f l.
Proof. csimpl. by destruct (f x). Qed.

Lemma translate_events_spec evs t :
  let '(t', out) := translate_events rid ts evs t in
  pushes (omap token_of evs) (suppressor t) = (wire_text "stream_token" out, suppressor t') ∧
  streamed_reply t' = streamed_reply t ++ answer evs ∧
  streamed_reasoning t' = streamed_reasoning t ++ reasoning evs ∧
  wire_text "stream_reasoning" out = reasoning evs.
Proof.
  revert t. induction evs as [|e evs IH]; intros t; simpl translate_events.
  { by rewrite !app_nil_r. }
  pose proof (translate_event_tokens e t) as Hp. pose proof (translate_event_texts e t) as Ht.
  destruct (translate_event rid ts e t) as [t1 o1]. destruct Ht as (H1 & H2 & H3). specialize (IH t1).
  destruct (translate_events rid ts evs t1) as [t2 o2]. destruct IH as (I1 & I2 & I3 & I4).
  unfold answer, reasoning in *. rewrite !omap_cons_app, !concat_app, !wire_text_app, pushes_app, Hp, I1.
  rewrite I2, I3, I4, H1, H2, H3, !(assoc_L (++)).
  split_and!; [done|..]; by destruct (token_of e), (reasoning_of e); simpl; rewrite ?app_nil_r.
Qed.

Lemma translate_spec evs :
  let '(t, out) := translate rid ts evs in
  wire_text "stream_token" out = stream (omap token_of evs) ∧
  wire_text "stream_reasoning" out = reasoning evs ∧
  streamed_reply t = answer evs ∧ streamed_reasoning t = reasoning evs.
Proof.
  unfold translate. pose proof (translate_events_spec evs translator_new) as Hs.
  destruct (translate_events rid ts evs translator_new) as [t out]. destruct Hs as (H1 & H2 & H3 & H4).
  rewrite !wire_text_app, wire_text_frame_if, H4. simpl in H1, H2, H3. unfold stream. rewrite H1.
  split_and!; [done| |done|done]. unfold frame_if. destruct (finish (suppressor t)); by rewrite app_nil_r.
Qed.

(** Every frame of the translator is one of three kinds and names its request. *)
Definition turn_frame (ev : Value) : Prop :=
  event_request_id ev = Some rid ∧
  event_type ev ∈ [Some (lit "stream_token"); Some (lit "stream_reasoning"); Some (lit "stream_chunk")].

Lemma translate_event_frames e t : Forall turn_frame (translate_event rid ts e t).2.
Proof.
  destruct e; simpl; unfold frame_if; repeat case_match; simpl; subst; repeat constructor; set_solver.
Qed.

Lemma translate_events_frames evs t : Forall turn_frame (translate_events rid ts evs t).2.
Proof.
  revert t. induction evs as [|e evs IH]; intros t; simpl; [constructor|].
  pose proof (translate_event_frames e t) as He. destruct (translate_event rid ts e t) as [t1 o1].
  specialize (IH t1). destruct (translate_events rid ts evs t1). by apply Forall_app.
Qed.

Lemma translate_frames evs : Forall turn_frame (translate rid ts evs).2.
Proof.
  unfold translate. pose proof (translate_events_frames evs translator_new) as Hf.
  destruct (translate_events rid ts evs translator_new) as [t out]. apply Forall_app. split; [done|].
  unfold frame_if. destruct (str_is_empty _); repeat constructor; set_solver.
Qed.
End stream.

(** ** Lemmas: the choice of the final text *)

Lemma final_text_streamed last t :
  trim (streamed_reply t) ≠ [] → (∀ c, last = Some c → trim c = [] ∨ c = streamed_reply t) →
  final_text last t = streamed_reply t.
Proof.
  intros Ht Hl. unfold final_text, opt_filter.
  assert (Hs : str_is_empty (trim (streamed_reply t)) = false) by by apply str_is_empty_false.
  destruct last as [c|]; simpl; [|by rewrite Hs].
  destruct (str_is_empty (trim c)) eqn:Ec; simpl; [by rewrite Hs|].
  apply str_is_empty_false in Ec. destruct (Hl c eq_refl); [done|]. by subst.
Qed.

Lemma final_text_last c t : trim c ≠ [] → final_text (Some c) t = c.
Proof. intros Hc. unfold final_text, opt_filter. by rewrite (proj2 (str_is_empty_false _) Hc). Qed.

(** Nothing gets past the suppressor once it has seen the marker. *)
Lemma strip_marker_app s k : find_str MARKER_OPEN s ≠ None → strip_marker (s ++ k) = strip_marker s.
Proof.
  intros Hm. unfold strip_marker. destruct (find_str MARKER_OPEN s) as [i|] eqn:E; [|done].
  rewrite (find_str_app_Some _ _ k _ E). apply take_app_le. by apply find_str_Some in E as (_ & ? & _).
Qed.

Lemma answer_app evs1 evs2 : answer (evs1 ++ evs2) = answer evs1 ++ answer evs2.
Proof. unfold answer. by rewrite omap_app, concat_app. Qed.

(** ** Lemmas: the tools *)

Lemma register_tool_elem tools name x : x ∈ register_tool tools name ↔ x ∈ tools ∨ x = name.
Proof.
  unfold register_tool. destruct (any _ _) eqn:E; [|set_solver].
  apply any_true in E as (y & Hy & ->%str_eqb_true). set_solver.
Qed.

Lemma register_all_elem names tools x : x ∈ foldl register_tool tools names ↔ x ∈ tools ∨ x ∈ names.
Proof.
  revert tools. induction names as [|n names IH]; intros tools; simpl; [set_solver|].
  rewrite IH, register_tool_elem. set_solver.
Qed.

Lemma register_all_NoDup names tools : NoDup tools → NoDup (foldl register_tool tools names).
Proof.
  revert tools. induction names as [|n names IH]; intros tools Ht; simpl; [done|]. apply IH.
  unfold register_tool. destruct (any _ _) eqn:E; [done|]. apply NoDup_app. split_and!; [done| |by apply NoDup_singleton].
  intros x Hx ->%list_elem_of_singleton. rewrite any_false in E. specialize (E n Hx). by rewrite str_eqb_refl in E.
Qed.

Lemma tool_allowed_spec enabled name :
  tool_allowed enabled name = true ↔ ∀ ids, enabled = Some ids → name ∈ ids.
Proof.
  unfold tool_allowed, is_none_or. destruct enabled as [ids|]; [|naive_solver].
  rewrite any_true. setoid_rewrite str_eqb_true. naive_solver.
Qed.

Lemma elem_of_filter_bool {A} (p : A → bool) l x : x ∈ List.filter p l ↔ p x = true ∧ x ∈ l.
Proof. rewrite !list_elem_of_In, filter_In. tauto. Qed.

Lemma NoDup_filter_bool {A} (p : A → bool) l : NoDup l → NoDup (List.filter p l).
Proof.
  induction 1 as [|x l Hx Hl IH]; simpl; [constructor|]. destruct (p x); [|done].
  constructor; [|done]. by rewrite elem_of_filter_bool; intros [].
Qed.

(** ** Properties *)

(** C18. What a client assembles from the live answer is the reply of the turn's result, up to
    trailing white space, whatever the chunks were: when the loop's last message is the
    answer it streamed or says nothing (a tool call, a reasoning-only message), and the
    answer's trailer is where the prompt asks for it.  The reasoning is streamed apart from
    it, whole. *)
Theorem streamed_answer_is_reply `{!JsonParse} rid ts evs last
    (Hsays : trim (answer evs) ≠ []) (Hplaced : well_placed (answer evs))
    (Hlast : ∀ c, last = Some c → trim c = [] ∨ c = answer evs) :
  let '(t, frames) := translate rid ts evs in
  trim_end (wire_text "stream_token" frames) = trim_end (extract_suggested_replies (final_text last t)).1 ∧
  wire_text "stream_reasoning" frames = reasoning evs.
Proof.
  pose proof (translate_spec rid ts evs) as Hs. destruct (translate rid ts evs) as [t frames].
  destruct Hs as (-> & -> & Hr & _). split; [|done].
  rewrite final_text_streamed by by rewrite Hr. rewrite Hr. by apply stream_reply.
Qed.

(** The suppressor lives as long as the turn: when a message before a tool call ends with
    the trailer, the answer after it is in the result but never in the live stream. *)
Theorem later_answer_hidden `{!JsonParse} rid ts evs1 evs2
    (Hfirst : find_str MARKER_OPEN (answer evs1) ≠ None)
    (Hsays : trim (answer evs2) ≠ []) (Hplain : find_str MARKER_OPEN (answer evs2) = None)
    (Hheader : extract_markdown_suggested_replies (answer evs2) = None) :
  let '(t, frames) := translate rid ts (evs1 ++ evs2) in
  wire_text "stream_token" frames = wire_text "stream_token" (translate rid ts evs1).2 ∧
  (extract_suggested_replies (final_text (Some (answer evs2)) t)).1 = answer evs2.
Proof.
  pose proof (translate_spec rid ts (evs1 ++ evs2)) as Hs. pose proof (translate_spec rid ts evs1) as H1.
  destruct (translate rid ts (evs1 ++ evs2)) as [t frames], (translate rid ts evs1) as [t1 frames1].
  destruct Hs as (-> & _), H1 as (H1 & _). simpl. rewrite H1, !stream_spec. split.
  - rewrite omap_app, concat_app. by apply strip_marker_app.
  - rewrite final_text_last by done. unfold extract_suggested_replies.
    apply rfind_find_None in Hplain as ->. by rewrite Hheader.
Qed.

(** C34. An agent's allow-list is the last word on the tools of its turn.  The tools the model is
    offered are exactly the registered ones on the list (all of them without one): the search
    of the knowledge base, the refunds of the demo, those of interactions, of the host and of
    extensions, no two of them of one name; and the tools it may discover are exactly the
    deferred ones on the list, in their order, whatever names they have. *)
Theorem allow_list_enforced enabled tt :
  let '(eager, deferred) := turn_tool_names enabled tt in
  let on_list name := ∀ ids, enabled = Some ids → name ∈ ids in
  (∀ name, name ∈ eager ↔ on_list name ∧
     (name = lit "knowledge_search" ∨ demo_tools tt = true ∧ name = lit "issue_refund" ∨
      name ∈ interaction_tools tt ∨ name ∈ provider_tools tt ∨ name ∈ extension_tools tt)) ∧
  NoDup eager ∧
  (∀ name, name ∈ deferred ↔ on_list name ∧ name ∈ deferred_tools tt) ∧
  deferred `sublist_of` deferred_tools tt.
Proof.
  unfold turn_tool_names. cbv zeta. split_and!.
  - intros name. rewrite elem_of_filter_bool, tool_allowed_spec, register_all_elem.
    destruct (demo_tools tt); simpl; set_solver.
  - apply NoDup_filter_bool, register_all_NoDup, NoDup_nil_2.
  - intros name. by rewrite elem_of_filter_bool, tool_allowed_spec.
  - generalize (deferred_tools tt). intros l. induction l as [|x l IH]; simpl; [done|].
    destruct (tool_allowed enabled x); [by apply sublist_skip|by apply sublist_cons].
Qed.

(** A conversation's messages, oldest first. *)
Definition log (t : Tables) (cid : str) : list str := default [] (message_order t !! cid).

Section in_memory.
Context `{!Attachments, !Lowercase, !JsonParse}.
Context (image_url : UserImage → str).
Context (knowledge_for_access : AccessContext → Tables → str → nat → result Prelude.error (list KnowledgeHit)).
Context (composer : option (PromptSections → list str)).
Context (engine : EngineRequest → Tables → EngineRun * Tables).
Context (judge_chat : LlmConfig → str → result Prelude.error str).

Lemma persist_log id now cid d text urls t :
  let '(r, t') := persist_message id now cid d text urls t in
  (∃ m, r = Ok m ∧ msg_id m = id ∧ messages t' = <[id := m]> (messages t) ∧
     content m = match urls with [] => from_text text | _ => from_text_and_images text urls end ∧ direction m = d) ∧
  log t' cid = log t cid ++ [id].
Proof.
  unfold log. simpl. rewrite lookup_insert_eq. split; [|done]. eexists. split_and!; [done|..]; done.
Qed.

Lemma finish_turn_log plan auto run t last id now tb :
  let cid := sess_conversation_id (plan_session plan) in
  let '(r, tb') := finish_turn judge_chat plan auto run t last id now tb in
  ∃ turn, r = Ok turn ∧ turn_message_id turn = id ∧
    turn_reply turn = (extract_suggested_replies (final_text last t)).1 ∧
    (turn_reply turn = [] → tb' = tb) ∧
    (turn_reply turn ≠ [] → log tb' cid = log tb cid ++ [id] ∧
      (∃ m, messages tb' = <[id := m]> (messages tb) ∧ content m = from_text (turn_reply turn) ∧
            direction m = Outbound)).
Proof.
  intros cid. unfold finish_turn. destruct (extract_suggested_replies _) as [reply chips].
  destruct (str_is_empty reply) eqn:E.
  - apply str_is_empty_true in E as ->. eexists. split_and!; try done.
  - apply str_is_empty_false in E. pose proof (persist_log id now cid Outbound reply [] tb) as Hp.
    fold cid. destruct (persist_message id now cid Outbound reply [] tb) as [r tb']. destruct Hp as [(m & -> & Hid & Hm & Hc & Hd) Hl].
    eexists. simpl. split_and!; try done. intros _. split; [done|]. by exists m.
Qed.

(** C8. What a turn writes, whatever its tools write.  The user's message is appended before the
    loop runs, which is shown the conversation up to, and without, that message.  Of a turn
    that ends well and says something, the reply is appended last, to the store as the tools
    left it and under the id the client is told; the run of a turn that fails, or is silent,
    adds nothing to what the tools left (a failure is put on record later, by the tail of the
    turn).  So when the tools leave the conversation alone, the message and the reply are its
    last two, in that order. *)
Theorem turn_transcript plan tt demo verified ids t1 t2 ts lag (tb : Tables) :
  let cid := sess_conversation_id (plan_session plan) in
  let '(r, tb', frames) :=
    run_streaming_turn image_url knowledge_for_access composer engine judge_chat
      plan tt demo verified ids t1 t2 ts lag tb in
  ∃ req asked m0,
    let '(run, tb1) := engine req asked in
    load_prior_messages tb cid = Ok (eng_prior req) ∧ eng_message req = plan_message plan ∧
    log asked cid = log tb cid ++ [ids.1] ∧ messages asked = <[ids.1 := m0]> (messages tb) ∧
    direction m0 = Inbound ∧
    content m0 = match plan_images plan with
                 | [] => from_text (plan_message plan)
                 | images => from_text_and_images (plan_message plan) (image_url <$> images)
                 end ∧
    match run_result run with
    | Err e => r = Err e ∧ tb' = tb1
    | Ok _ => ∃ turn, r = Ok turn ∧ turn_message_id turn = ids.2 ∧
        if str_is_empty (turn_reply turn) then tb' = tb1
        else log tb' cid = log tb1 cid ++ [ids.2] ∧
             ∃ m, messages tb' = <[ids.2 := m]> (messages tb1) ∧ direction m = Outbound ∧
                  content m = from_text (turn_reply turn)
    end ∧
    (log tb1 cid = log asked cid →
     log tb' cid = log tb cid ++ ids.1 ::
       match r with Ok turn => if str_is_empty (turn_reply turn) then [] else [ids.2] | Err _ => [] end).
Proof.
  intros cid. unfold run_streaming_turn. fold cid. rewrite load_prior_in_memory. set (prior := prior_messages_for_replay _).
  pose proof (persist_log ids.1 t1 cid Inbound (plan_message plan) (image_url <$> plan_images plan) tb) as Hp.
  destruct (persist_message _ _ _ _ _ _ tb) as [r0 tb0]. destruct Hp as [(m0 & -> & _ & Hm0 & Hc0 & Hd0) Hl0].
  set (req := mk_EngineRequest _ _ _ _ _ _ _ _). destruct (engine req tb0) as [run tb1] eqn:Erun.
  assert (content m0 = match plan_images plan with
                       | [] => from_text (plan_message plan)
                       | images => from_text_and_images (plan_message plan) (image_url <$> images)
                       end) as Hcontent by (rewrite Hc0; by destruct (plan_images plan)).
  destruct (translate _ _ _) as [t frames]. destruct (run_result run) as [last|e] eqn:Er.
  - pose proof (finish_turn_log plan
      (match knowledge_for_access (plan_access plan) tb (plan_message plan) AUTO_CONTEXT_LIMIT with
       | Ok l => l | Err _ => [] end) run t last ids.2 t2 tb1) as Hf.
    destruct (finish_turn _ _ _ _ _ _ _ _ _) as [r tb2]. destruct Hf as (turn & -> & Hid & _ & Hempty & Hsays).
    exists req, tb0, m0. rewrite Erun, Er. split_and!; [done..| |].
    + exists turn. split_and!; [done|done|]. destruct (str_is_empty (turn_reply turn)) eqn:E.
      * apply str_is_empty_true in E. by apply Hempty.
      * apply str_is_empty_false in E. destruct (Hsays E) as [Hl (m & Hm & ? & ?)]. split; [done|]. by exists m.
    + intros Hleft. destruct (str_is_empty (turn_reply turn)) eqn:E.
      * apply str_is_empty_true in E. by rewrite (Hempty E), Hleft.
      * apply str_is_empty_false in E. destruct (Hsays E) as [Hl _]. fold cid in Hl.
        by rewrite Hl, Hleft, Hl0, <- (assoc_L (++)).
  - exists req, tb0, m0. rewrite Erun, Er. split_and!; try done. intros Hkept. by rewrite Hkept.
Qed.

(** Every frame a turn sends, on time or late, is a stream frame that names its request; and
    only a failed turn has late ones. *)
Theorem turn_frames_correlated plan tt demo verified ids t1 t2 ts lag (tb : Tables) :
  let '(r, _, (sent, late)) :=
    run_streaming_turn image_url knowledge_for_access composer engine judge_chat
      plan tt demo verified ids t1 t2 ts lag tb in
  Forall (turn_frame (plan_request_id plan)) (sent ++ late) ∧ (is_ok r = true → late = []).
Proof.
  unfold run_streaming_turn. rewrite load_prior_in_memory.
  destruct (persist_message _ _ _ _ _ _ tb) as [[m0|e0] tb0]; [|by split; [constructor|]].
  destruct (engine _ tb0) as [run tb1]. pose proof (translate_frames (plan_request_id plan) ts (run_events run)) as Hf.
  destruct (translate _ _ _) as [t frames]. simpl in Hf. destruct (run_result run) as [last|e].
  - destruct (finish_turn _ _ _ _ _ _ _ _ _) as [r tb2]. by rewrite app_nil_r.
  - by rewrite take_drop.
Qed.
End in_memory.

(** ** Concrete turns *)

Module Demo.
Import Storage.Demo Turns.Demo Suggestions.Demo.
Definition asked : list AgentEvent :=
  [PhaseStart (lit "thinking"); ReasoningDelta (lit "hm"); TokenDelta (lit "Shall I? <sugg");
   TokenDelta (lit "ested_replies>chips</suggested_replies> ")].
Definition searched : list AgentEvent :=
  [ToolCallStart 1 (lit "knowledge_search") (lit "{}"); ToolCallComplete 1 (lit "knowledge_search") (lit "[]") false 3].
Definition concluded : list AgentEvent := [TokenDelta (lit "It is"); TokenDelta (lit " done.")].

(** A loop that answers without touching the store. *)
Definition echo (req : EngineRequest) (tb : Tables) : EngineRun * Tables :=
  (mk_EngineRun concluded (Ok (Some (lit "It is done."))) [] Null, tb).
Definition ran : result Prelude.error TurnResult * Tables * (list Value * list Value) :=
  run_streaming_turn id (λ _ _ _ _, Ok []) None echo (λ _ _, Ok (lit "yes")) plan1
    (mk_TurnTools false [] [] [] []) false false (lit "u1", lit "a1") 5%Z 6%Z 9%Z 0 t0.
End Demo.
Import Storage.Demo Turns.Demo Suggestions.Demo.

Lemma streamed_answer_is_reply_witness :
  trim_end (wire_text "stream_token" (translate (lit "q") 9 Demo.asked).2) = lit "Shall I?" ∧
  wire_text "stream_reasoning" (translate (lit "q") 9 Demo.asked).2 = lit "hm".
Proof.
  assert (Hf : find_str MARKER_OPEN (answer Demo.asked) = Some 9) by by vm_compute.
  pose proof (streamed_answer_is_reply (lit "q") 9 Demo.asked None ltac:(vm_compute; discriminate)) as H.
  destruct (translate (lit "q") 9 Demo.asked) as [t frames] eqn:E.
  destruct H as [H1 H2]; [|done|].
  - unfold well_placed. rewrite Hf. split; [by vm_compute|].
    assert (Hc : find_str MARKER_CLOSE (drop (9 + length MARKER_OPEN) (answer Demo.asked)) = Some 5) by by vm_compute.
    rewrite Hc. repeat constructor.
  - cbn [snd]. split; [|exact H2]. rewrite H1.
    assert (Ht : t = (translate (lit "q") 9 Demo.asked).1) by by rewrite E. rewrite Ht. by vm_compute.
Defined.

Lemma later_answer_hidden_witness :
  wire_text "stream_token" (translate (lit "q") 9 ((Demo.asked ++ Demo.searched) ++ Demo.concluded)).2 = lit "Shall I? ".
Proof.
  pose proof (later_answer_hidden (lit "q") 9 (Demo.asked ++ Demo.searched) Demo.concluded
    ltac:(vm_compute; discriminate) ltac:(vm_compute; discriminate) ltac:(by vm_compute) ltac:(by vm_compute)) as H.
  destruct (translate (lit "q") 9 ((Demo.asked ++ Demo.searched) ++ Demo.concluded)) as [t frames].
  destruct H as [H _]. cbn [snd]. rewrite H. by vm_compute.
Defined.

Lemma turn_transcript_witness :
  ∃ turn, Demo.ran.1.1 = Ok turn ∧
    log Demo.ran.1.2 (lit "c1") = log Storage.Demo.t0 (lit "c1") ++ [lit "u1"; lit "a1"].
Proof.
  pose proof (turn_transcript id (λ _ _ _ _, Ok []) None Demo.echo (λ _ _, Ok (lit "yes")) Turns.Demo.plan1
    (mk_TurnTools false [] [] [] []) false false (lit "u1", lit "a1") 5%Z 6%Z 9%Z 0 Storage.Demo.t0) as H.
  fold Demo.ran in H. assert (Hok : is_ok Demo.ran.1.1 = true) by by vm_compute.
  destruct Demo.ran as [[r tb'] frames] eqn:E. cbn [fst snd] in Hok |- *. destruct r as [turn|e]; [|done].
  destruct H as (req & asked & m0 & H). cbn [Demo.echo] in H. destruct H as (_ & _ & _ & _ & _ & _ & _ & Hlog).
  exists turn. split; [done|].
  assert (Hr : str_is_empty (turn_reply turn) = false).
  { assert (Hc : match Demo.ran.1.1 with Ok u => str_is_empty (turn_reply u) | Err _ => true end = false) by by vm_compute.
    by rewrite E in Hc. }
  specialize (Hlog eq_refl). by rewrite Hr in Hlog.
Defined.
