(* ===== verification/Approvals.v ===== *)
(** * Approvals: answering a parked turn ([server/src/handler.rs])

    The three frames a human answers a turn with: [confirm_tool_action] (a write that
    waits for approval), [submit_interaction] (a card that waits for values) and
    [verify_otp].  A parked turn is reached through its channel when it lives on this pod,
    and through the record it left in the session's metadata when it does not.
    What a handler hands over (a verdict on a channel, a spawned task) is in its result. *)

From stdpp Require Import prelude gmap strings list.
From S2P Require Import Prelude Text AccessControl RunningTurns Json Storage Agents AppState.
From S2P Require Import Protocol Scope Conversations Widget Sessions Turns.

(** ** Data *)

(** [HumanResponse], what a parked confirmation is answered with. *)
Inductive HumanResponse := Approved | Rejected (reason : str).

Inductive InteractionOutcome := Submitted (values : Value) | Declined.

Record InteractionResolution := mk_InteractionResolution {
  res_interaction_id : str;
  res_outcome : InteractionOutcome;
}.

(** An interaction kind's validator: canonical values, or the errors of its fields,
    serialised. *)
Definition Validator : Type := Value → Value → result (list Value) Value.

Inductive OtpChannel := Email | Sms.
Definition channel_as_str (c : OtpChannel) : str :=
  match c with Email => lit "email" | Sms => lit "sms" end.

Definition contact_is_empty (c : OtpContact) : bool :=
  is_none (contact_email c) && is_none (contact_phone c).
Definition available_channels (c : OtpContact) : list OtpChannel :=
  (match contact_email c with Some _ => [Email] | None => [] end) ++
  (match contact_phone c with Some _ => [Sms] | None => [] end).

Record OtpDelivery := mk_OtpDelivery { channel : OtpChannel; masked_destination : str }.

Inductive OtpError := InvalidCode | MaxAttempts | OtpNotFound | Expired.
Definition otp_error_as_str (e : OtpError) : str :=
  match e with
  | InvalidCode => lit "INVALID_CODE"
  | MaxAttempts => lit "MAX_ATTEMPTS"
  | OtpNotFound => lit "NOT_FOUND"
  | Expired => lit "EXPIRED"
  end.

Inductive OtpVerifyOutcome :=
| Verified
| Invalid (attempts_remaining : N) (error : option OtpError) (message : str).

(** The host's service, with the answers it gives during the frame. *)
Record OtpService := mk_OtpService {
  send_otp : str → OtpContact → result Prelude.error OtpDelivery;
  verify_otp : str → str → OtpVerifyOutcome;
}.

(** [Display] of a JSON value. *)
Class JsonText := { to_json : Value → str }.

Definition saturating_sub_i64 (a b : Z) : Z := Z.max i64_min (Z.min i64_max (a - b)).

Definition CONFIRMATION_TIMEOUT : Z := 300.

(** A record is answered within the lifetime its park would have had. *)
Definition record_fresh (record : Value) (now_unix : Z) : bool :=
  is_some_and (λ at_, let age := saturating_sub_i64 now_unix at_ in
                      (0 <=? age)%Z && (age <=? CONFIRMATION_TIMEOUT)%Z)
    (get record (lit "requestedAt") ≫= as_i64).

(** *** serde's reader of [IntakeValues] *)

Definition read_opt_str (o : option Value) : option (option str) :=
  match o with
  | None | Some Null => Some None
  | Some (String s) => Some (Some s)
  | Some _ => None
  end.

Definition read_intake_values (v : Value) : option IntakeValues :=
  let read name email phone :=
    n ← read_opt_str name; e ← read_opt_str email; p ← read_opt_str phone; Some (mk_IntakeValues n e p) in
  match v with
  | Object kvs => read (assoc (lit "name") kvs) (assoc (lit "email") kvs) (assoc (lit "phone") kvs)
  | Array l => if length l <=? 3 then read (l !! 0) (l !! 1) (l !! 2) else None
  | _ => None
  end.

Section approvals.
Context {S : Type} `{!StorageAdapter S, !Attachments, !JsonText}.
Context (host : Host) (access : AccessContext) (sink : nat).
(** Channels whose turn still listens; the interaction kinds hosted; the host's OTP service. *)
Context (listening : Responder → bool).
Context (interactions : str → option Validator).
Context (otp_service : option OtpService).
Implicit Types (w : World S).

(** ** confirm_tool_action *)

Definition no_pending_confirmation (ts : Z) (request_id : option str) (session_id : str) : Value :=
  Protocol.error ts request_id "NO_PENDING_CONFIRMATION"
    (lit "no tool action is awaiting confirmation for session '" ++ session_id ++ lit "'").

Definition confirm_ack (ts : Z) (request_id : option str) (session_id : str) (approved : bool) : Value :=
  immediate_response ts request_id 200
    (lit (if approved then "Tool action approved" else "Tool action rejected"))
    (Object [field "sessionId" (String session_id); field "approved" (Bool approved)]).

(** [cf_retire]: a task clearing the durable record was spawned. *)
Record ConfirmOutcome := mk_ConfirmOutcome {
  cf_resumed : option (Responder * HumanResponse);
  cf_retire : bool;
  cf_spawned : option SpawnedTurn;
}.
Definition no_outcome : ConfirmOutcome := mk_ConfirmOutcome None false None.

(** The task a resolved park spawns. *)
Definition retire_confirmation (session_id : str) (now : Timestamp) w : World S :=
  set_app (set_pending_confirmation session_id None now (app w)).2 w.

Definition quote : str := [34%N].

Definition approval_message (tool prompt : str) (arguments : Value) : str :=
  lit "Approved " ++ em_dash ++ lit " please proceed with the pending " ++ quote ++ tool ++ quote ++
  lit " action now (" ++ prompt ++ lit "). Use exactly these arguments: " ++ to_json arguments.

Definition continuation_frame (session_id message : str) : Value :=
  Object [field "action" (jstr "send_message"); field "sessionId" (String session_id);
          field "message" (String message)].

(** [now] is the backend's clock, [now_unix] the server's in seconds; [flag] and [task] as
    in [handle_send_message]. *)
Definition durable_confirm_fallback (cx : Conn) (session_id : str) (approved : bool)
    (request_id : option str) (flag task : nat) (now : Timestamp) (now_unix ts : Z) w :
    World S * option SpawnedTurn :=
  let no_pending := no_pending_confirmation ts request_id session_id in
  match Storage.get_session (storage (app w)) session_id with
  | Ok None => (send no_pending w, None)
  | Err _ => (send (session_storage_error ts request_id) w, None)
  | Ok (Some session) =>
      match sess_metadata session ≫= (λ m, m !! lit "pendingConfirmation") with
      | None => (send no_pending w, None)
      | Some record =>
          let fresh := record_fresh record now_unix in
          let '(cleared, a) :=
            set_pending_confirmation session_id None now (insert_session session (app w)) in
          let w := set_app a w in
          if negb fresh then (send no_pending w, None)
          else
            match cleared with
            | Err _ => (send (session_storage_error ts request_id) w, None)
            | Ok _ =>
                if negb approved then (send (confirm_ack ts request_id session_id false) w, None)
                else
                  let tool := default [] (get_str record "tool") in
                  let prompt := default [] (get_str record "prompt") in
                  let arguments := default Null (get record (lit "arguments")) in
                  if str_is_empty tool then (send no_pending w, None)
                  else
                    let w := set_app (grant_pre_approval session_id tool (app w)) w in
                    handle_send_message host access sink cx
                      (continuation_frame session_id (approval_message tool prompt arguments))
                      request_id flag task ts w
            end
      end
  end.

Definition handle_confirm_tool_action (cx : Conn) (parsed : Value) (request_id : option str)
    (flag task : nat) (now : Timestamp) (now_unix ts : Z) w : World S * ConfirmOutcome :=
  match get_str parsed "sessionId" with
  | None => (send (missing ts request_id "confirm_tool_action requires a 'sessionId'") w, no_outcome)
  | Some session_id =>
  match get_bool parsed "approved" with
  | None => (send (missing ts request_id "confirm_tool_action requires a boolean 'approved'") w, no_outcome)
  | Some approved =>
  let '(owned, a) := scoped_session (require_owned_conversations host) session_id (auth_org cx) (scope cx)
                       (app w) in
  let w := set_app a w in
  match owned with
  | Err _ => (send (session_storage_error ts request_id) w, no_outcome)
  | Ok None => (send (no_pending_confirmation ts request_id session_id) w, no_outcome)
  | Ok (Some _) =>
      let '(responder, a) := take_confirmation session_id (app w) in
      let w := set_app a w in
      let durable :=
        let '(w, t) := durable_confirm_fallback cx session_id approved request_id flag task now now_unix ts w in
        (w, mk_ConfirmOutcome None false t) in
      match responder with
      | Some r =>
          if listening r
          then (send (confirm_ack ts request_id session_id approved) w,
                mk_ConfirmOutcome
                  (Some (r, if approved then Approved else Rejected (lit "user rejected the action")))
                  true None)
          else durable
      | None => durable
      end
  end end end.

(** ** submit_interaction *)

Definition attach_interaction_effect (session_id kind : str) (values : Value) (a : AppState S) : AppState S :=
  if str_eqb kind (lit "identity_intake")
  then match read_intake_values values with
       | Some v => attach_session_identity session_id v a
       | None => a
       end
  else a.

Record PendingView := mk_PendingView {
  pv_interaction_id : str;
  pv_kind : str;
  pv_spec : Value;
  pv_live : bool;
}.

Definition durable_pending_interaction (session_id : str) (a : AppState S) :
    result Prelude.error (option PendingView) * AppState S :=
  match Storage.get_session (storage a) session_id with
  | Err e => (Err e, a)
  | Ok None => (Ok None, a)
  | Ok (Some session) =>
      match sess_metadata session ≫= (λ m, m !! lit "pendingInteraction") with
      | None => (Ok None, a)
      | Some record =>
          (Ok (i ← get_str record "interactionId"; k ← get_str record "kind";
               s ← get record (lit "spec"); Some (mk_PendingView i k s false)),
           insert_session session a)
      end
  end.

Definition no_pending_interaction (ts : Z) (request_id session_id : str) : Value :=
  Protocol.error ts (Some request_id) "NO_PENDING_INTERACTION"
    (lit "no interaction is awaiting submission for session '" ++ session_id ++ lit "'").

(** The parked turn resumed, when it was. *)
Definition resolve_interaction (session_id request_id : str) (outcome : InteractionOutcome) (ts : Z) w :
    World S * option (Responder * InteractionResolution) :=
  let '(pending, a) := take_interaction session_id (app w) in
  let w := set_app a w in
  match pending with
  | None => (send (no_pending_interaction ts request_id session_id) w, None)
  | Some p =>
      if listening (responder p)
      then (w, Some (responder p, mk_InteractionResolution (interaction_id p) outcome))
      else (send (Protocol.error ts (Some request_id) "NO_PENDING_INTERACTION"
                    (lit "the turn awaiting an interaction for session '" ++ session_id ++
                     lit "' is no longer active")) w, None)
  end.

(** Resuming the live park, or retiring the record of one that is gone. *)
Definition settle (view : PendingView) (session_id request_id : str) (outcome : InteractionOutcome)
    (now : Timestamp) (ts : Z) w : bool * (World S * option (Responder * InteractionResolution)) :=
  if pv_live view
  then let '(w, r) := resolve_interaction session_id request_id outcome ts w in (is_some r, (w, r))
  else
    let '(r, a) := set_pending_interaction session_id None now (app w) in
    let w := set_app a w in
    match r with
    | Ok _ => (true, (w, None))
    | Err _ => (false, (send (session_storage_error ts (Some request_id)) w, None))
    end.

Definition find_pending (owned : bool) (session_id request_id : str) (ts : Z) w :
    option PendingView * World S :=
  match (if owned then pending_interaction session_id (app w) else None) with
  | Some p => (Some (mk_PendingView (interaction_id p) (kind p) (spec p) true), w)
  | None =>
      let '(r, a) := if owned then durable_pending_interaction session_id (app w) else (Ok None, app w) in
      let w := set_app a w in
      match r with
      | Ok (Some v) => (Some v, w)
      | Ok None => (None, send (no_pending_interaction ts request_id session_id) w)
      | Err _ => (None, send (session_storage_error ts (Some request_id)) w)
      end
  end.

Definition interaction_ack (ts : Z) (request_id session_id : str) (message : string)
    (rest : list (str * Value)) (view : PendingView) : Value :=
  immediate_response ts (Some request_id) 200 (lit message)
    (Object (field "sessionId" (String session_id) ::
             field "interactionId" (String (pv_interaction_id view)) :: rest)).

(** Everything after the pending interaction was found. *)
Definition submit_to (view : PendingView) (parsed : Value) (session_id request_id : str)
    (now : Timestamp) (ts : Z) w : World S * option (Responder * InteractionResolution) :=
  let err code message w := (send (Protocol.error ts (Some request_id) code message) w, None) in
  if negb (bool_decide (get_str parsed "interactionId" = Some (pv_interaction_id view)))
  then err "INTERACTION_MISMATCH"
         (lit "the submitted 'interactionId' does not match the pending interaction") w
  else
    match opt_filter (λ k, negb (str_eqb k (pv_kind view))) (get_str parsed "kind") with
    | Some k => err "INTERACTION_MISMATCH"
                  (lit "the pending interaction is '" ++ pv_kind view ++ lit "', not '" ++ k ++ lit "'") w
    | None =>
        if default false (get_bool parsed "declined")
        then
          let '(resolved, (w, r)) := settle view session_id request_id Declined now ts w in
          (if resolved
           then send (interaction_ack ts request_id session_id "Interaction declined"
                        [field "declined" (Bool true)] view) w
           else w, r)
        else
          match get parsed (lit "values"), interactions (pv_kind view) with
          | None, _ => err "VALIDATION_ERROR"
                         (lit "submit_interaction requires 'values' (or 'declined': true)") w
          | Some _, None => err "NO_PENDING_INTERACTION"
                              (lit "interaction kind '" ++ pv_kind view ++
                               lit "' is not hosted by this server") w
          | Some values, Some validate =>
              match validate (pv_spec view) values with
              | Err errors =>
                  (send (interaction_invalid ts request_id (pv_interaction_id view) (pv_kind view) errors
                           (lit "Some fields need attention.")) w, None)
              | Ok canonical =>
                  let '(resolved, (w, r)) :=
                    settle view session_id request_id (Submitted canonical) now ts w in
                  if resolved
                  then
                    let w := set_app (attach_interaction_effect session_id (pv_kind view) canonical (app w)) w in
                    (send (interaction_ack ts request_id session_id "Interaction submitted"
                             [field "kind" (String (pv_kind view)); field "values" canonical] view) w, r)
                  else (w, r)
              end
          end
    end.

Definition handle_submit_interaction (cx : Conn) (parsed : Value) (request_id : option str)
    (now : Timestamp) (ts : Z) w : World S * option (Responder * InteractionResolution) :=
  match request_id with
  | None => (send (missing ts None "submit_interaction requires a 'requestId'") w, None)
  | Some request_id =>
  match get_str parsed "sessionId" with
  | None => (send (missing ts (Some request_id) "submit_interaction requires a 'sessionId'") w, None)
  | Some session_id =>
  let '(owned, a) := scoped_session (require_owned_conversations host) session_id (auth_org cx) (scope cx)
                       (app w) in
  let w := set_app a w in
  match owned with
  | Err _ => (send (session_storage_error ts (Some request_id)) w, None)
  | Ok session =>
      match find_pending (is_some session) session_id request_id ts w with
      | (None, w) => (w, None)
      | (Some view, w) => submit_to view parsed session_id request_id now ts w
      end
  end end end.

(** ** OTP *)

Definition offer_otp (otp : OtpService) (session_id tool : str) (contact : OtpContact)
    (request_id : str) (ts : Z) w : World S :=
  let w := send (otp_verification_required ts request_id tool
                   (lit "Verify your identity to continue using '" ++ tool ++ lit "'.")
                   (channel_as_str <$> available_channels contact) (lit "end_user")) w in
  match send_otp otp session_id contact with
  | Ok d => send (otp_sent ts request_id (channel_as_str (channel d)) (masked_destination d)) w
  | Err e => send (Protocol.error ts (Some request_id) "OTP_SEND_FAILED"
                     (lit "failed to send verification code: " ++ show_err e)) w
  end.

Definition handle_verify_otp (cx : Conn) (parsed : Value) (request_id : option str)
    (now : Timestamp) (ts : Z) w : World S :=
  match request_id with
  | None => send (missing ts None "verify_otp requires a 'requestId'") w
  | Some request_id =>
  match get_str parsed "sessionId" with
  | None => send (missing ts (Some request_id) "verify_otp requires a 'sessionId'") w
  | Some session_id =>
  match get_str parsed "code" with
  | None => send (missing ts (Some request_id) "verify_otp requires a 'code'") w
  | Some code =>
  match lookup_session (require_owned_conversations host) cx session_id (Some request_id) ts w with
  | (None, w) => w
  | (Some _, w) =>
      match otp_service with
      | None =>
          send (otp_invalid ts request_id (Some (lit "NOT_FOUND")) 0
                  (lit "No verification is in progress for this session.")) w
      | Some otp =>
          match verify_otp otp session_id code with
          | Verified =>
              send (otp_verified ts request_id (lit "Identity verified successfully."))
                (set_app (set_session_authenticated session_id true now (app w)) w)
          | Invalid attempts_remaining error message =>
              send (otp_invalid ts request_id (otp_error_as_str <$> error) attempts_remaining message) w
          end
      end
  end end end end.
End approvals.

(** ** Lemmas *)

Section lemmas.
Context {S : Type} `{!StorageAdapter S}.
Implicit Types (a : AppState S) (w : World S).

(** What a scoped lookup that yields a session has checked. *)
Definition readable_by (require : bool) (cx : Conn) (sid : str) a (s : Session) : Prop :=
  (load_session sid a).1 = Ok (Some s) ∧ same_org (auth_org cx) (sess_organization_id s) = true ∧
  may_read_conversation require a (sess_conversation_id s) (auth_org cx) (scope cx) ById = true.

Lemma scoped_session_frame require cx sid a :
  let '(r, a') := scoped_session require sid (auth_org cx) (scope cx) a in
  a' = (load_session sid a).2 ∧ ∀ s, r = Ok (Some s) → readable_by require cx sid a s.
Proof.
  unfold scoped_session, readable_by. destruct (load_session_frame sid a) as (_ & Hs & _).
  destruct (load_session sid a) as [[[s|]|e] a']; simpl in *; try (by split; [|intros ? [=]]).
  split; [done|]. intros s'. destruct (same_org _ _) eqn:Eo; simpl; [|done].
  assert (Hm : may_read_conversation require a' (sess_conversation_id s) (auth_org cx) (scope cx) ById =
    may_read_conversation require a (sess_conversation_id s) (auth_org cx) (scope cx) ById).
  { unfold may_read_conversation. by rewrite Hs. }
  destruct (may_read_conversation require a' _ _ _ _); [|done]. by intros [= <-].
Qed.

Lemma set_meta_key_frame sid k v now a :
  let a' := (set_session_meta_key sid k v now a).2 in
  turn_state a' = turn_state a ∧ pending_sessions a' = pending_sessions a.
Proof.
  unfold set_session_meta_key, edit_metadata, write_through. destruct (sessions a !! sid); [|done]. simpl.
  by destruct (update_session _ _ _ _).
Qed.

Lemma set_authenticated_other sid sid' b now a :
  sid' ≠ sid → session_authenticated sid' (set_session_authenticated sid b now a) = session_authenticated sid' a.
Proof.
  intros Hne. unfold set_session_authenticated, edit_metadata, write_through.
  destruct (sessions a !! sid); [|done]. simpl. destruct (update_session _ _ _ _).
  unfold session_authenticated, session_meta. simpl. by rewrite lookup_insert_ne.
Qed.
End lemmas.

(** Retiring a record the pod has just loaded from storage, on the in-memory tables. *)
Lemma retire_in_memory (k : str) now (a : AppState Tables) sid s m :
  Storage.sessions (storage a) !! sid = Some s → session_id s = sid → sess_metadata s = Some m →
  let '(r, a') := set_session_meta_key sid k None now (insert_session s a) in
  r = Ok () ∧ ∃ s', Storage.sessions (storage a') !! sid = Some s' ∧ sess_metadata s' = Some (delete k m).
Proof.
  intros Hs Hid Hm. unfold set_session_meta_key.
  rewrite (edit_metadata_known _ _ _ s) by (simpl; by rewrite Hid, lookup_insert_eq).
  rewrite Hm. simpl. unfold write_through. simpl. unfold InMemory.update_session. rewrite Hs. simpl.
  split; [done|]. rewrite lookup_insert_eq. by eexists.
Qed.

(** An accepted message leaves the tables alone once its session's rows are landed. *)
Lemma accepted_keeps_storage {S : Type} `{!StorageAdapter S, !Attachments} host access sink cx parsed rid
    flag task ts (w w' : World S) t sid :
  handle_send_message host access sink cx parsed rid flag task ts w = (w', Some t) →
  get_str parsed "sessionId" = Some sid → pending_sessions (app w) !! sid = None →
  storage (app w') = storage (app w).
Proof.
  intros Hsend Hsid Hp.
  apply send_message_cases in Hsend as (q & fr & session & w1 & r & turns1 & a & llm & plan & a2 & -> & Hf & Hl
    & _ & Hm & [_ Hplan] & -> & Ha & _). rewrite Ha. simpl.
  rewrite (read_frame_session _ _ _ _ _ Hf) in Hsid. injection Hsid as <-.
  pose proof (make_plan_frame host access parsed q fr session
    (resolve_gateway_key (gateway_key_resolver host) (conversation_org (storage a) (sess_conversation_id session))
       (gateway_key (config host))) llm (conversation_org (storage a) (sess_conversation_id session)) a) as Hpl.
  rewrite Hplan in Hpl. destruct Hpl as (_ & _ & _ & _ & _ & _ & _ & -> & _).
  pose proof (lookup_session_frame (require_owned_conversations host) cx (fr_session_id fr) (Some q) ts w) as Hl'.
  rewrite Hl in Hl'. destruct Hl' as (Ha1 & _).
  destruct (load_session_frame (fr_session_id fr) (app w)) as (_ & Hst & Hps). rewrite <- Ha1 in *.
  pose proof (materialize_frame (fr_session_id fr) (with_running_turns turns1 (app w1))) as Hm'.
  rewrite Hm in Hm'. destruct Hm' as (_ & Hms & _). rewrite Hms; [done|]. simpl. by rewrite Hps.
Qed.

(** How a durable confirmation goes. *)
Lemma durable_confirm_cases {S : Type} `{!StorageAdapter S, !Attachments, !JsonText} host access sink cx sid
    approved rid flag task now now_unix ts (w w' : World S) o :
  durable_confirm_fallback host access sink cx sid approved rid flag task now now_unix ts w = (w', o) →
  (o = None ∧ pre_approved_confirmations (app w') = pre_approved_confirmations (app w)) ∨
  ∃ s m record a tool msg,
    Storage.get_session (storage (app w)) sid = Ok (Some s) ∧ sess_metadata s = Some m ∧
    m !! lit "pendingConfirmation" = Some record ∧ record_fresh record now_unix = true ∧
    set_pending_confirmation sid None now (insert_session s (app w)) = (Ok (), a) ∧
    approved = true ∧ get_str record "tool" = Some tool ∧ tool ≠ [] ∧
    handle_send_message host access sink cx (continuation_frame sid msg) rid flag task ts
      (set_app (grant_pre_approval sid tool a) (set_app a w)) = (w', o).
Proof.
  unfold durable_confirm_fallback.
  destruct (Storage.get_session (storage (app w)) sid) as [[s|]|e] eqn:Eg;
    [|by intros [= <- <-]; left..].
  destruct (sess_metadata s) as [m|] eqn:Em; simpl; [|by intros [= <- <-]; left].
  destruct (m !! lit "pendingConfirmation") as [record|] eqn:Er; [|by intros [= <- <-]; left].
  pose proof (set_meta_key_frame sid (lit "pendingConfirmation") None now (insert_session s (app w))) as [Hf _].
  unfold set_pending_confirmation.
  destruct (set_session_meta_key _ _ _ _ _) as [c a] eqn:Ec. injection Hf as _ Hpa _ _. simpl in Hpa.
  assert (Hno : ∀ ev, (send ev (set_app a w), @None SpawnedTurn) = (w', o) →
    o = None ∧ pre_approved_confirmations (app w') = pre_approved_confirmations (app w)) by by intros ev [= <- <-].
  destruct (record_fresh record now_unix) eqn:Ef; simpl; [|by intros ?%Hno; left].
  destruct c as [[]|e]; [|by intros ?%Hno; left].
  destruct approved; simpl; [|by intros ?%Hno; left].
  destruct (str_is_empty (default [] (get_str record "tool"))) eqn:Et; [by intros ?%Hno; left|].
  apply str_is_empty_false in Et. destruct (get_str record "tool") as [tool|] eqn:Etool; [|done].
  intros Hsend. right. by eexists s, m, record, a, tool, _.
Qed.


(** ** Properties *)

Section properties.
Context {S : Type} `{!StorageAdapter S, !Attachments, !JsonText}.
Context (host : Host) (access : AccessContext) (sink : nat) (listening : Responder → bool).
Implicit Types (w : World S).

(** The frame asks for [approved] on a session its connection may answer for. *)
Definition may_answer (cx : Conn) (parsed : Value) w (sid : str) (approved : bool) : Prop :=
  get_str parsed "sessionId" = Some sid ∧ get_bool parsed "approved" = Some approved ∧
  ∃ s, readable_by (require_owned_conversations host) cx sid (app w) s.

(** C2. A write is approved only by someone who may approve it and who said so: whatever the
    frame, a parked turn is resumed and a continuation is spawned only when the session is
    of the connection's organization and its conversation readable, and the verdict handed
    over is the frame's boolean; a continuation needs, besides, a record in storage no older
    than a live park could have been. Anything else (a missing or garbled verdict, a
    session out of reach) resumes nothing, spawns nothing and grants nothing. *)
Theorem confirm_fails_closed cx parsed rid flag task now now_unix ts w :
  let '(w', o) := handle_confirm_tool_action host access sink listening cx parsed rid flag task now now_unix ts w in
  (∀ r v, cf_resumed o = Some (r, v) → cf_spawned o = None ∧
     ∃ sid approved, may_answer cx parsed w sid approved ∧
       pending_confirmations (app w) !! sid = Some r ∧ listening r = true ∧ (v = Approved ↔ approved = true)) ∧
  (∀ t, cf_spawned o = Some t → ∃ sid s m record, may_answer cx parsed w sid true ∧
     Storage.get_session (storage (app w)) sid = Ok (Some s) ∧ sess_metadata s = Some m ∧
     m !! lit "pendingConfirmation" = Some record ∧ record_fresh record now_unix = true) ∧
  ((∀ sid, ¬ may_answer cx parsed w sid true) →
     cf_spawned o = None ∧ pre_approved_confirmations (app w') = pre_approved_confirmations (app w)).
Proof.
  unfold handle_confirm_tool_action.
  destruct (get_str parsed "sessionId") as [sid|] eqn:Esid; [|by split_and!].
  destruct (get_bool parsed "approved") as [approved|] eqn:Eap; [|by split_and!].
  pose proof (scoped_session_frame (require_owned_conversations host) cx sid (app w)) as Hs.
  destruct (scoped_session _ _ _ _ _) as [[[s|]|e] a]; destruct Hs as [-> Hs];
    destruct (load_session_frame sid (app w)) as (Ht & Hst & _); injection Ht as _ Hpa Hpc _;
    [|by split_and!..].
  assert (Hans : may_answer cx parsed w sid approved) by (split_and!; [done..|eauto]).
  clear Hs. unfold take_confirmation. simpl. rewrite Hpc.
  set (w1 := set_app (with_pending_confirmations _ _) _).
  destruct (durable_confirm_fallback host access sink cx sid approved rid flag task now now_unix ts w1)
    as [w2 o2] eqn:Ed. apply durable_confirm_cases in Ed. simpl in Ed. rewrite Hst, Hpa in Ed.
  assert (Hdur : (∀ t, o2 = Some t → ∃ sid s m record, may_answer cx parsed w sid true ∧
     Storage.get_session (storage (app w)) sid = Ok (Some s) ∧ sess_metadata s = Some m ∧
     m !! lit "pendingConfirmation" = Some record ∧ record_fresh record now_unix = true) ∧
    ((∀ sid, ¬ may_answer cx parsed w sid true) →
     o2 = None ∧ pre_approved_confirmations (app w2) = pre_approved_confirmations (app w))).
  { destruct Ed as [[-> Hp]|(s' & m & record & a & tool & msg & Hg & Hm & Hr & Hf & _ & -> & _)]; [done|].
    split; [|intros Hno; by destruct (Hno sid)]. intros t _. by exists sid, s', m, record. }
  destruct (pending_confirmations (app w) !! sid) as [r|] eqn:Er; [|done].
  destruct (listening r) eqn:El; [|done]. simpl. split_and!; [|done|by rewrite Hpa].
  intros r0 v [= <- <-]. split; [done|]. exists sid, approved. split_and!; try done. by destruct approved.
Qed.

(** An OTP-gated session is opened by the code alone: after the frame a session counts as
    verified only if it did before, or the frame was for it, its connection may read it, and
    the host's service accepted exactly the submitted code; without a service no code is
    ever accepted, and every refusal says so with one event. *)
Theorem verification_needs_code otp cx parsed rid now ts w sid :
  let w' := handle_verify_otp host otp cx parsed rid now ts w in
  (session_authenticated sid (app w') = true →
   (∃ sid0, session_authenticated sid (load_session sid0 (app w)).2 = true) ∨
   session_authenticated sid (app w) = true ∨
   ∃ service code s, otp = Some service ∧ get_str parsed "sessionId" = Some sid ∧
     get_str parsed "code" = Some code ∧ verify_otp service sid code = Verified ∧
     readable_by (require_owned_conversations host) cx sid (app w) s) ∧
  ∃ ev, events w' = events w ++ [ev].
Proof.
  unfold handle_verify_otp. destruct rid as [q|]; [|split; [by right; left|by eexists]].
  destruct (get_str parsed "sessionId") as [sid0|] eqn:Esid; [|split; [by right; left|by eexists]].
  destruct (get_str parsed "code") as [code|] eqn:Ecode; [|split; [by right; left|by eexists]].
  pose proof (lookup_session_frame (require_owned_conversations host) cx sid0 (Some q) ts w) as Hl.
  destruct (lookup_session _ cx sid0 _ ts w) as [[s|] w1]; destruct Hl as [Ha Hev].
  2: { split; [rewrite Ha; eauto|]. destruct Hev as (c & m & ->). by eexists. }
  destruct Hev as (Hev & Hr). destruct otp as [service|].
  2: { simpl. rewrite Ha, Hev. split; [eauto|by eexists]. }
  destruct (verify_otp service sid0 code) eqn:Ev; simpl; rewrite Hev; (split; [|by eexists]);
    [|rewrite Ha; eauto].
  destruct (decide (sid = sid0)) as [->|Hne].
  - intros _. right; right. exists service, code, s. by split_and!.
  - intros Hv. left. exists sid0. rewrite <- Ha, <- Hv. symmetry. by apply set_authenticated_other.
Qed.

(** Finding the pending interaction moves nothing but the pod's copy of the session. *)
Lemma find_pending_frame owned sid q ts w :
  let '(v, w') := find_pending owned sid q ts w in
  turn_state (app w') = turn_state (app w) ∧
  (∀ view, v = Some view → owned = true ∧ events w' = events w ∧
    (pv_live view = true → ∃ p, pending_interactions (app w) !! sid = Some p ∧
       pv_interaction_id view = interaction_id p ∧ pv_kind view = kind p ∧ pv_spec view = spec p)).
Proof.
  unfold find_pending, pending_interaction. destruct owned; simpl.
  - destruct (pending_interactions (app w) !! sid) as [p|].
    + split; [done|]. intros view [= <-]. split; [done|]. split; [done|]. by exists p.
    + unfold durable_pending_interaction.
      destruct (Storage.get_session _ sid) as [[s|]|e]; simpl; [|by split..].
      destruct (sess_metadata s ≫= _) as [record|]; simpl; [|by split].
      destruct (get_str record "interactionId"), (get_str record "kind"), (get record (lit "spec")); simpl;
        by (split; [done|]; intros view [= <-]).
  - by split.
Qed.

Lemma attach_effect_frame sid k v (a : AppState S) :
  turn_state (attach_interaction_effect sid k v a) = turn_state a.
Proof.
  unfold attach_interaction_effect, attach_session_identity, edit_metadata.
  destruct (str_eqb _ _); [|done]. destruct (read_intake_values v); [|done].
  by destruct (sessions a !! sid).
Qed.

(** A view of a live park is the park's. *)
Definition view_of_park (view : PendingView) w (sid : str) : Prop :=
  pv_live view = true → ∃ p, pending_interactions (app w) !! sid = Some p ∧
    pv_interaction_id view = interaction_id p ∧ pv_kind view = kind p ∧ pv_spec view = spec p.

(** Listening parks are still there. *)
Definition parks_kept w w' : Prop :=
  ∀ sid p, pending_interactions (app w) !! sid = Some p → listening (responder p) = true →
    pending_interactions (app w') !! sid = Some p.

(** [res] went to the park of [sid], which is gone. *)
Definition answered (sid : str) (view : PendingView) (r : Responder) (res : InteractionResolution)
    (outcome : InteractionOutcome) w w' : Prop :=
  ∃ p, pending_interactions (app w) !! sid = Some p ∧
    pv_interaction_id view = interaction_id p ∧ pv_kind view = kind p ∧ pv_spec view = spec p ∧
    r = responder p ∧ listening r = true ∧ res = mk_InteractionResolution (interaction_id p) outcome ∧
    pending_interactions (app w') = delete sid (pending_interactions (app w)).

Lemma settle_spec view sid q outcome now ts w :
  view_of_park view w sid →
  let '(ok, (w', o)) := settle listening view sid q outcome now ts w in
  match o with
  | Some (r, res) => ok = true ∧ answered sid view r res outcome w w'
  | None => parks_kept w w'
  end.
Proof.
  intros Hlive. unfold settle. destruct (pv_live view) eqn:El.
  - destruct (Hlive El) as (p & Hp & H1 & H2 & H3). unfold resolve_interaction, take_interaction. simpl.
    rewrite Hp. destruct (listening (responder p)) eqn:Elis; simpl.
    + split; [done|]. by exists p.
    + intros sid' p' Hp' Hl'. destruct (decide (sid' = sid)) as [->|]; [congruence|].
      simpl. by rewrite lookup_delete_ne.
  - pose proof (set_meta_key_frame sid (lit "pendingInteraction") None now (app w)) as [Hm _].
    unfold set_pending_interaction. destruct (set_session_meta_key _ _ _ _ _) as [[u|e] a'];
      injection Hm as _ _ _ Hm; intros ? ?; simpl in *; by rewrite Hm.
Qed.

Lemma submit_to_spec interactions view parsed sid q now ts w :
  view_of_park view w sid →
  let '(w', o) := submit_to listening interactions view parsed sid q now ts w in
  match o with
  | Some (r, res) =>
      get_str parsed "interactionId" = Some (pv_interaction_id view) ∧
      (get_bool parsed "declined" = Some true ∧ answered sid view r res Declined w w' ∨
       ∃ validate values canonical, get parsed (lit "values") = Some values ∧
         interactions (pv_kind view) = Some validate ∧ validate (pv_spec view) values = Ok canonical ∧
         answered sid view r res (Submitted canonical) w w')
  | None => parks_kept w w'
  end.
Proof.
  intros Hlive. unfold submit_to.
  destruct (bool_decide_reflect (get_str parsed "interactionId" = Some (pv_interaction_id view)))
    as [Hid|Hid]; simpl; [|by intros ??].
  destruct (opt_filter _ (get_str parsed "kind")); [by intros ??|].
  destruct (default false (get_bool parsed "declined")) eqn:Edec.
  { pose proof (settle_spec view sid q Declined now ts w Hlive) as Hset.
    destruct (settle _ _ _ _ _ _ _ _) as [ok [w2 [[r res]|]]]; [|by destruct ok].
    destruct Hset as [-> Ha]. split; [done|]. left. by destruct (get_bool parsed "declined") as [[]|]. }
  destruct (get parsed (lit "values")) as [values|]; [|by intros ??].
  destruct (interactions (pv_kind view)) as [validate|]; [|by intros ??].
  destruct (validate (pv_spec view) values) as [canonical|errors] eqn:Ev; [|by intros ??].
  pose proof (settle_spec view sid q (Submitted canonical) now ts w Hlive) as Hset.
  destruct (settle _ _ _ _ _ _ _ _) as [ok [w2 [[r res]|]]].
  - destruct Hset as [-> (p & Hp & H1 & H2 & H3 & H4 & H5 & H6 & H7)]. split; [done|]. right.
    exists validate, values, canonical. split_and!; [done..|]. exists p. split_and!; try done. simpl.
    pose proof (attach_effect_frame sid (pv_kind view) canonical (app w2)) as Ha. injection Ha as _ _ _ Ha.
    by rewrite Ha.
  - destruct ok; [|done]. intros sid' p' Hp' Hl'. simpl.
    pose proof (attach_effect_frame sid (pv_kind view) canonical (app w2)) as Ha. injection Ha as _ _ _ Ha.
    rewrite Ha. by apply Hset.
Qed.

(** C27. A card answers only its own question: a parked turn is resumed only by a submit that
    names the pending interaction of a readable session, and what it receives is a decline
    the client asked for, or values the parked kind's validator accepted and made canonical;
    the answer is tagged with that interaction. A submit that resumes nothing leaves the
    question parked for a retry, as long as its turn still listens. *)
Theorem submit_answers_its_park interactions cx parsed rid now ts w :
  let '(w', o) := handle_submit_interaction host listening interactions cx parsed rid now ts w in
  match o with
  | Some (r, res) =>
      ∃ sid s p, get_str parsed "sessionId" = Some sid ∧
        readable_by (require_owned_conversations host) cx sid (app w) s ∧
        pending_interactions (app w) !! sid = Some p ∧ r = responder p ∧ listening r = true ∧
        get_str parsed "interactionId" = Some (interaction_id p) ∧ res_interaction_id res = interaction_id p ∧
        match res_outcome res with
        | Declined => get_bool parsed "declined" = Some true
        | Submitted canonical => ∃ validate values, get parsed (lit "values") = Some values ∧
            interactions (kind p) = Some validate ∧ validate (spec p) values = Ok canonical
        end ∧
        pending_interactions (app w') = delete sid (pending_interactions (app w))
  | None => parks_kept w w'
  end.
Proof.
  unfold handle_submit_interaction. destruct rid as [q|]; [|by intros ??].
  destruct (get_str parsed "sessionId") as [sid|]; [|by intros ??].
  pose proof (scoped_session_frame (require_owned_conversations host) cx sid (app w)) as Hs.
  destruct (load_session_frame sid (app w)) as (Ht & _ & _). injection Ht as _ _ _ Hpi.
  unfold parks_kept.
  destruct (scoped_session _ _ _ _ _) as [[s|e] a]; destruct Hs as [-> Hs]; [|simpl; by rewrite Hpi].
  pose proof (find_pending_frame (is_some s) sid q ts (set_app (load_session sid (app w)).2 w)) as Hf.
  destruct (find_pending _ _ _ _ _) as [[view|] w1]; destruct Hf as [Hf Hv];
    injection Hf as _ _ _ Hpi1; simpl in Hpi1; rewrite Hpi in Hpi1; [|by rewrite Hpi1].
  destruct (Hv view eq_refl) as (Hown & _ & Hlive). simpl in Hlive. rewrite Hpi in Hlive.
  destruct s as [s|]; [|done]. specialize (Hs s eq_refl).
  assert (Hl1 : view_of_park view w1 sid) by (unfold view_of_park; by rewrite Hpi1).
  pose proof (submit_to_spec interactions view parsed sid q now ts w1 Hl1) as Hsub.
  destruct (submit_to _ _ _ _ _ _ _ _ _) as [w' [[r res]|]]; [|unfold parks_kept in Hsub; by rewrite Hpi1 in Hsub].
  unfold answered in Hsub. rewrite Hpi1 in Hsub.
  destruct Hsub as (Hid & [(Hd & p & Hp & H1 & H2 & H3 & -> & H5 & -> & H7)
    |(validate & values & canonical & Hval & Hk & Hok & p & Hp & H1 & H2 & H3 & -> & H5 & -> & H7)]);
    exists sid, s, p; rewrite <- H1; split_and!; try done.
  exists validate, values. by rewrite <- H2, <- H3.
Qed.
End properties.

Section durable.
Context `{!Attachments, !JsonText}.
Implicit Types (w : World Tables).

(** The record of a session whose row is keyed by its id, as the write path leaves it. *)
Definition parked_record w (sid : str) (record : Value) : Prop :=
  ∃ d m, Storage.sessions (storage (app w)) !! sid = Some d ∧ session_id d = sid ∧
    sess_metadata d = Some m ∧ m !! lit "pendingConfirmation" = Some record.

Lemma no_record_no_pending host access sink cx sid approved rid flag task now now_unix ts w d m :
  Storage.sessions (storage (app w)) !! sid = Some d → sess_metadata d = Some m →
  m !! lit "pendingConfirmation" = None →
  durable_confirm_fallback host access sink cx sid approved rid flag task now now_unix ts w =
    (send (no_pending_confirmation ts rid sid) w, None).
Proof.
  intros Hd Hm Hr. unfold durable_confirm_fallback. simpl. unfold InMemory.get_session. rewrite Hd. simpl.
  rewrite Hm. simpl. by rewrite Hr.
Qed.

(** C17. A durable approval runs its action once. The approval that starts a continuation
    found a fresh record in the session's stored row, and takes it out of that row, the rest
    of the metadata kept, before the continuation is accepted; so while nothing else writes
    that row, a later confirmation of the session that finds no live park, from any host or
    connection, by this pod or another, whatever it has cached, finds nothing pending: it
    starts nothing and changes nothing. This is for a session whose rows have landed, under
    its own id; a pod that writes its stale copy of the row through, or a write of the record
    overtaken by its retirement, can bring the record back. *)
Theorem durable_approval_once host access sink cx sid approved rid flag task now now_unix ts w w' t
    (Hrun : durable_confirm_fallback host access sink cx sid approved rid flag task now now_unix ts w = (w', Some t))
    (Hkeyed : ∀ d, Storage.sessions (storage (app w)) !! sid = Some d → session_id d = sid)
    (Hlanded : pending_sessions (app w) !! sid = None) :
  (∃ record d d' m, Storage.sessions (storage (app w)) !! sid = Some d ∧ sess_metadata d = Some m ∧
     m !! lit "pendingConfirmation" = Some record ∧ record_fresh record now_unix = true ∧
     Storage.sessions (storage (app w')) !! sid = Some d' ∧
     sess_metadata d' = Some (delete (lit "pendingConfirmation") m)) ∧
  ∀ host2 access2 sink2 cx2 approved2 rid2 flag2 task2 now2 now_unix2 ts2 w2,
    Storage.sessions (storage (app w2)) !! sid = Storage.sessions (storage (app w')) !! sid →
    durable_confirm_fallback host2 access2 sink2 cx2 sid approved2 rid2 flag2 task2 now2 now_unix2 ts2 w2 =
      (send (no_pending_confirmation ts2 rid2 sid) w2, None).
Proof.
  apply durable_confirm_cases in Hrun as [[? _]|(d & m & record & a & tool & msg & Hg & Hm & Hrec & Hfresh & Hret
    & _ & _ & _ & Hsend)]; [done|].
  simpl in Hg. unfold InMemory.get_session in Hg. destruct (Storage.sessions _ !! sid) as [d0|] eqn:Hd; [|done].
  assert (Hkey : session_id d0 = sid) by by apply Hkeyed. injection Hg as ->.
  pose proof (retire_in_memory (lit "pendingConfirmation") now (app w) sid d m Hd Hkey Hm) as Hr.
  unfold set_pending_confirmation in Hret. rewrite Hret in Hr. destruct Hr as (_ & d' & Hd' & Hmd').
  pose proof (set_meta_key_frame sid (lit "pendingConfirmation") None now (insert_session d (app w))) as [_ Hps].
  rewrite Hret in Hps.
  assert (Hst : storage (app w') = storage a).
  { refine (accepted_keeps_storage _ _ _ _ _ _ _ _ _ _ _ _ sid Hsend eq_refl _). simpl in *. by rewrite Hps. }
  rewrite Hst. split; [by exists record, d, d', m|]. intros * Hw2.
  eapply no_record_no_pending; [by rewrite Hw2|exact Hmd'|apply lookup_delete_eq].
Qed.

(** An approval whose continuation is refused stays granted: the record is gone, no turn was
    started, and the one-shot approval waits for whatever message of the session is accepted
    next, whoever sends it and whatever it says, whose turn may then run the tool unasked.
    A confirmation without a request id is always of this kind. *)
Theorem refused_continuation_leaves_grant host access sink cx sid rid flag task now now_unix ts w w' record tool
    (Hrun : durable_confirm_fallback host access sink cx sid true rid flag task now now_unix ts w = (w', None))
    (Hparked : parked_record w sid record) (Hfresh : record_fresh record now_unix = true)
    (Htool : get_str record "tool" = Some tool) (Hne : tool ≠ []) :
  pre_approved_confirmations (app w') !! sid = Some tool ∧
  ∀ access2 sink2 cx2 parsed rid2 flag2 task2 ts2 w2 w3 t,
    pre_approved_confirmations (app w2) = pre_approved_confirmations (app w') →
    get_str parsed "sessionId" = Some sid → is_some (confirmation_patterns host) = true →
    handle_send_message host access2 sink2 cx2 parsed rid2 flag2 task2 ts2 w2 = (w3, Some t) →
    plan_pre_approved (spawned_plan t) = Some tool.
Proof.
  destruct Hparked as (d & m & Hd & Hkey & Hm & Hrec).
  assert (Hgrant : pre_approved_confirmations (app w') !! sid = Some tool).
  { unfold durable_confirm_fallback in Hrun. simpl in Hrun. unfold InMemory.get_session in Hrun.
    rewrite Hd in Hrun. rewrite Hm in Hrun. simpl in Hrun. rewrite Hrec in Hrun.
    pose proof (retire_in_memory (lit "pendingConfirmation") now (app w) sid d m Hd Hkey Hm) as Hr.
    unfold set_pending_confirmation in Hrun. destruct (set_session_meta_key _ _ _ _ _) as [c a].
    destruct Hr as [-> _]. rewrite Hfresh, Htool in Hrun. simpl in Hrun.
    rewrite (proj2 (str_is_empty_false _) Hne) in Hrun.
    apply send_message_cases in Hrun as (_ & _ & _ & _ & Hp & _). rewrite Hp. simpl. apply lookup_insert_eq. }
  split; [exact Hgrant|]. intros access2 sink2 cx2 parsed rid2 flag2 task2 ts2 w2 w3 t Hsame Hsid Hgated Hsend.
  destruct (accepted_takes_grant _ _ _ _ _ _ _ _ _ _ _ _ _ Hsend Hsid) as [-> _].
  by rewrite Hgated, Hsame.
Qed.
End durable.

(** ** Concrete frames *)

Import Storage.Demo Conversations.Demo Turns.Demo.

Module Demo.
#[export] Instance demo_json : JsonText := {| to_json _ := lit "{}" |}.
Definition record : Value :=
  Object [field "tool" (jstr "send_mail"); field "prompt" (jstr "mail Bob"); field "requestedAt" (Int 1000)].
Definition parked : Session := set_metadata (Some {[lit "pendingConfirmation" := record]}) sess1.
(** A pod that never saw the session, over storage that holds its record. *)
Definition w2 : World Tables :=
  mk_World (new (mk_Tables (conversations t0) (participants t0) (messages t0) (message_order t0)
                   {[lit "s1" := parked]})) [].
Definition h : Host := host (Some (lit "acme-key")).
Definition confirmed (rid : option str) : World Tables * option SpawnedTurn :=
  durable_confirm_fallback h AccessContext.anonymous 3 cx (lit "s1") true rid 5 6 9%Z 1060 9 w2.
Lemma w2_parked : parked_record w2 (lit "s1") record.
Proof. exists parked, {[lit "pendingConfirmation" := record]}. by split_and!. Qed.
End Demo.
Import Demo.

Lemma durable_approval_once_witness :
  (durable_confirm_fallback h AccessContext.anonymous 3 cx (lit "s1") true (Some (lit "q2")) 7 8 10%Z 1061 10
     (mk_World (new (storage (app (confirmed (Some (lit "q"))).1))) [])).2 = None.
Proof.
  destruct (confirmed (Some (lit "q"))) as [w' [t|]] eqn:E.
  - assert (Hk : ∀ d, Storage.sessions (storage (app w2)) !! lit "s1" = Some d → session_id d = lit "s1")
      by (intros d; by intros [= <-]).
    pose proof (durable_approval_once h AccessContext.anonymous 3 cx (lit "s1") true (Some (lit "q")) 5 6 9%Z 1060 9
      w2 w' t E Hk eq_refl) as [_ Hnext].
    rewrite Hnext; reflexivity.
  - exfalso. apply (f_equal (λ p, is_some p.2)) in E. vm_compute in E. discriminate.
Defined.

(** No request id: the continuation is refused, the approval stays. *)
Lemma refused_continuation_leaves_grant_witness :
  pre_approved_confirmations (app (confirmed None).1) !! lit "s1" = Some (lit "send_mail").
Proof.
  destruct (confirmed None) as [w' o] eqn:E.
  assert (o = None) as ->.
  { apply (f_equal (λ p, is_some p.2)) in E. vm_compute in E. by destruct o. }
  refine (proj1 (refused_continuation_leaves_grant h AccessContext.anonymous 3 cx (lit "s1") None 5 6 9%Z 1060 9
    w2 w' record (lit "send_mail") E w2_parked eq_refl eq_refl _)). done.
Defined.
