(* ===== verification/Kinds.v ===== *)
(** * Kinds: the rich interactions a model can raise ([smooth-operator/src/interaction.rs],
    [identity_intake.rs], [choices.rs], [tools/interaction.rs])

    The two reference kinds, intake of a visitor's identity and multiple choice: the parsing
    of a raise, the contract it is announced with, the validation every answer passes
    whatever way it came, and the tools that park a turn on a raise or take its answer in
    conversation.  The schemas and prose shown to the model are left out, and a serde error's
    text is an argument. *)

From stdpp Require Import prelude gmap strings list.
From S2P Require Import Prelude Text Json Storage Agents AppState Turns Approvals.

Record InteractionFieldError := mk_InteractionFieldError { error_field : str; error_text : str }.

Record InteractionRequest := mk_InteractionRequest {
  request_kind : str;
  request_spec : Value;
  request_reason : str;
}.

(** What a kind supplies, its prose apart. *)
Record InteractionKind := mk_InteractionKind {
  kind_id : str;
  kind_capability : str;
  parse_request : Value → result Prelude.error InteractionRequest;
  validate : Value → Value → result (list InteractionFieldError) Value;
  fallback_directive : Value → str → str;
}.

(** [Array]-or-[Object] structs as serde's derived readers take them: members by name, or
    by position. *)
Definition members (names : list string) (v : Value) : option (list (option Value)) :=
  match v with
  | Object kvs => Some ((λ n, assoc (lit n) kvs) <$> names)
  | Array l => if length l <=? length names then Some (imap (λ i _, l !! i) names) else None
  | _ => None
  end.

Definition read_bool (v : Value) : option bool := as_bool v.
Definition read_list {A} (read : Value → option A) (v : Value) : option (list A) :=
  l ← as_array v; mapM read l.
(** [#[serde(default)]]: a member that is absent, not one that is malformed. *)
Definition or_default {A} (read : Value → option A) (d : A) (o : option Value) : option A :=
  match o with Some v => read v | None => Some d end.

Definition request_reason_of (args : Value) : str :=
  default (lit "to help you better")
    (opt_filter (λ s, negb (str_is_empty s)) (trim <$> get_str args "reason")).

(** ** Identity intake *)

Inductive IntakeFieldKey := KeyName | KeyEmail | KeyPhone.
#[export] Instance IntakeFieldKey_eq_dec : EqDecision IntakeFieldKey.
Proof. solve_decision. Defined.

Definition key_as_str (k : IntakeFieldKey) : str :=
  match k with KeyName => lit "name" | KeyEmail => lit "email" | KeyPhone => lit "phone" end.

Definition key_of_str (s : str) : option IntakeFieldKey :=
  if str_eqb s (lit "name") then Some KeyName
  else if str_eqb s (lit "email") then Some KeyEmail
  else if str_eqb s (lit "phone") then Some KeyPhone else None.

Record IntakeField := mk_IntakeField { key : IntakeFieldKey; required : bool; label : option str }.

Definition values_empty (v : IntakeValues) : bool :=
  is_none (iv_name v) && is_none (iv_email v) && is_none (iv_phone v).

Definition IntakeFieldError : Type := IntakeFieldKey * str.

Definition normalize_email (raw : str) : option str :=
  let s := trim raw in
  if any is_whitespace s then None
  else
    '(local, domain) ← split_once 64 s;
    if str_is_empty local || any (λ c, c =? 64)%N domain then None
    else
      let domain_lc := to_ascii_lowercase domain in
      let parts := split_on (λ c, c =? 46)%N domain_lc in
      if (length parts <? 2) || any str_is_empty parts then None
      else Some (local ++ 64%N :: domain_lc).

Definition ascii_digit (c : char) : bool := ((48 <=? c) && (c <=? 57))%N.
Definition separator (c : char) : bool := ((c =? 32) || (c =? 45) || (c =? 46) || (c =? 40) || (c =? 41))%N.

Definition normalize_phone_e164 (raw : str) : option str :=
  let s := List.filter (λ c, negb (separator c)) (trim raw) in
  let '(plus, digits) :=
    match strip_prefix (lit "+") s with Some rest => (true, rest) | None => (false, s) end in
  if str_is_empty digits || negb (all ascii_digit digits) then None
  else if (plus : bool) then
    if (8 <=? length digits) && (length digits <=? 15) && negb (starts_with (lit "0") digits)
    then Some (lit "+" ++ digits) else None
  else if length digits =? 10 then Some (lit "+1" ++ digits)
  else if (length digits =? 11) && starts_with (lit "1") digits then Some (lit "+" ++ digits)
  else None.

Definition value_of (v : IntakeValues) (k : IntakeFieldKey) : option str :=
  match k with KeyName => iv_name v | KeyEmail => iv_email v | KeyPhone => iv_phone v end.

Definition not_blank (o : option str) : option str := opt_filter (λ s, negb (str_is_empty s)) (trim <$> o).

Definition EMAIL_MESSAGE : str := lit "must be a valid email address".
Definition PHONE_MESSAGE : str :=
  lit "must be a valid phone number (include your country code, e.g. +1 555 123 4567)".

(** A format check: the normal form, or the error. *)
Definition checked (k : IntakeFieldKey) (normalize : str → option str) (message : str) (o : option str) :
    option str * list IntakeFieldError :=
  match not_blank o with
  | None => (None, [])
  | Some s => match normalize s with Some n => (Some n, []) | None => (None, [(k, message)]) end
  end.

Definition validate_intake (fields : list IntakeField) (values : IntakeValues) :
    result (list IntakeFieldError) IntakeValues :=
  let missing :=
    (λ f, (key f, lit "this field is required")) <$>
      List.filter (λ f, required f && is_none_or (λ v, str_is_empty (trim v)) (value_of values (key f))) fields in
  let '(email, email_errors) := checked KeyEmail normalize_email EMAIL_MESSAGE (iv_email values) in
  let '(phone, phone_errors) := checked KeyPhone normalize_phone_e164 PHONE_MESSAGE (iv_phone values) in
  match missing ++ email_errors ++ phone_errors with
  | [] => Ok (mk_IntakeValues (not_blank (iv_name values)) email phone)
  | errors => Err errors
  end.

(** The serialised forms. *)
Definition field_json (f : IntakeField) : Value :=
  Object ([field "key" (String (key_as_str (key f))); field "required" (Bool (required f))] ++
          match label f with Some l => [field "label" (String l)] | None => [] end).
Definition values_json (v : IntakeValues) : Value :=
  let member k (o : option str) := match o with Some s => [field k (String s)] | None => [] end in
  Object (member "name" (iv_name v) ++ member "email" (iv_email v) ++ member "phone" (iv_phone v)).

(** A unit variant is read from its name, or from an object that maps its name to null. *)
Definition read_key (v : Value) : option IntakeFieldKey :=
  match v with String s | Object [(s, Null)] => key_of_str s | _ => None end.

Definition read_field (v : Value) : option IntakeField :=
  ms ← members ["key"; "required"; "label"] v;
  k ← default None (ms !! 0) ≫= read_key;
  r ← or_default read_bool false (default None (ms !! 1));
  l ← read_opt_str (default None (ms !! 2));
  Some (mk_IntakeField k r l).

Section intake.
Context `{!JsonText}.
Context (shape_error : Value → str).

Definition parse_key (s : str) : result Prelude.error IntakeFieldKey :=
  ok_or (key_of_str s) [lit "unknown intake field '" ++ s ++ lit "' (expected name, email, or phone)"].

Definition parse_field (item : Value) : result Prelude.error IntakeField :=
  match item with
  | String s => k ← parse_key s; mret (mk_IntakeField k true None)
  | Object kvs =>
      name ← ok_or (assoc (lit "key") kvs ≫= as_str) [lit "each field object needs a string 'key'"];
      k ← parse_key name;
      mret (mk_IntakeField k (default true (assoc (lit "required") kvs ≫= as_bool))
              (assoc (lit "label") kvs ≫= as_str))
  | other => Err [lit "invalid field entry: " ++ to_json other]
  end.

(** The loop, stopping at the first malformed entry. *)
Fixpoint parse_all {A} (parse : Value → result Prelude.error A) (items : list Value) : result Prelude.error (list A) :=
  match items with
  | [] => Ok []
  | item :: rest => x ← parse item; xs ← parse_all parse rest; mret (x :: xs)
  end.

Definition parse_fields (raw : Value) : result Prelude.error (list IntakeField) :=
  items ← ok_or (as_array raw) [lit "'fields' must be an array"];
  match items with
  | [] => Err [lit "'fields' must contain at least one field"]
  | _ => parse_all parse_field items
  end.

Definition identity_intake : InteractionKind :=
  mk_InteractionKind (lit "identity_intake") (lit "identity_form")
    (λ args,
      fields ← parse_fields (default Null (get args (lit "fields")));
      mret (mk_InteractionRequest (lit "identity_intake")
              (Object [field "fields" (Array (field_json <$> fields))]) (request_reason_of args)))
    (λ spec values,
      let fields := default [] (get spec (lit "fields") ≫= read_list read_field) in
      match read_intake_values values with
      | None => Err [mk_InteractionFieldError (lit "values") (lit "invalid values shape: " ++ shape_error values)]
      | Some v =>
          if values_empty v
          then Err [mk_InteractionFieldError (lit "values")
                      (lit "provide at least one of name/email/phone, or declined=true")]
          else match validate_intake fields v with
               | Ok v => Ok (values_json v)
               | Err errors => Err ((λ e, mk_InteractionFieldError (key_as_str e.1) e.2) <$> errors)
               end
      end)
    (λ spec reason,
      let field_list := join (lit ", ")
        (omap (λ f, get_str f "key") (default [] (get spec (lit "fields") ≫= as_array))) in
      lit "This visitor's channel cannot display a form. Collect the requested details (" ++ field_list ++
      lit ") conversationally: ask for ONE field at a time, in the order given, naturally weaving in the reason (" ++
      reason ++
      lit "). When you have the values, call the `submit_interaction` tool with kind " ++ quote ++
      lit "identity_intake" ++ quote ++ lit " and the values " ++ em_dash ++
      lit " it validates each field and will tell you if something looks wrong so you can re-ask. If the visitor declines to share, call `submit_interaction` with declined=true and continue helping them without the details.").
End intake.

(** ** Choices *)

Definition HEADER_MAX_CHARS : nat := 12.

Record ChoiceOption := mk_ChoiceOption { option_label : str; option_description : str }.
Record ChoiceQuestion := mk_ChoiceQuestion {
  question : str;
  header : str;
  options : list ChoiceOption;
  multi_select : bool;
}.
Record ChoiceAnswer := mk_ChoiceAnswer {
  answer_header : str;
  answer_options : list str;
  answer_other : option str;
}.

Definition ChoiceFieldError : Type := str * str.

Definition selection_count (a : ChoiceAnswer) : nat :=
  length (answer_options a) + (if is_some (answer_other a) then 1 else 0).

Definition normalize_answer (a : ChoiceAnswer) : ChoiceAnswer :=
  mk_ChoiceAnswer (trim (answer_header a))
    (List.filter (λ o, negb (str_is_empty o)) (trim <$> answer_options a)) (not_blank (answer_other a)).

Definition NO_PICK : str := lit "select an option or provide an 'other' answer".

(** The body of the loop over the questions: its errors, and the answer it keeps. *)
Definition check_question (normalized : list ChoiceAnswer) (q : ChoiceQuestion) :
    list ChoiceFieldError * option ChoiceAnswer :=
  match find_first (λ a, str_eqb (answer_header a) (header q)) normalized with
  | None => ([(header q, lit "this question must be answered")], None)
  | Some a =>
      let bad := List.filter (λ l, negb (any (λ o, str_eqb (option_label o) l) (options q))) (answer_options a) in
      let count := selection_count a in
      (((λ l, (header q, lit "'" ++ l ++ lit "' is not one of the offered options")) <$> bad) ++
       (if count =? 0 then [(header q, NO_PICK)]
        else if negb (multi_select q) && (1 <? count)
        then [(header q, lit "this question takes a single answer")] else []),
       match bad with [] => Some a | _ => None end)
  end.

Definition validate_choices (questions : list ChoiceQuestion) (values : list ChoiceAnswer) :
    result (list ChoiceFieldError) (list ChoiceAnswer) :=
  let normalized := normalize_answer <$> values in
  match questions with
  | [] =>
      match ((λ a, (answer_header a, NO_PICK)) <$> List.filter (λ a, selection_count a =? 0) normalized) ++
            match normalized with
            | [] => [(lit "answers", lit "provide an answer for each question, or declined=true")]
            | _ => []
            end with
      | [] => Ok normalized
      | errors => Err errors
      end
  | _ =>
      let checks := check_question normalized <$> questions in
      match concat checks.*1 with
      | [] => Ok (omap id checks.*2)
      | errors => Err errors
      end
  end.

(** The serialised forms and their readers. *)
Definition option_json (o : ChoiceOption) : Value :=
  Object [field "label" (String (option_label o)); field "description" (String (option_description o))].
Definition question_json (q : ChoiceQuestion) : Value :=
  Object [field "question" (String (question q)); field "header" (String (header q));
          field "options" (Array (option_json <$> options q)); field "multiSelect" (Bool (multi_select q))].
Definition answer_json (a : ChoiceAnswer) : Value :=
  Object ([field "header" (String (answer_header a)); field "options" (Array (String <$> answer_options a))] ++
          match answer_other a with Some o => [field "other" (String o)] | None => [] end).

Definition read_option (v : Value) : option ChoiceOption :=
  ms ← members ["label"; "description"] v;
  l ← (v ← default None (ms !! 0); as_str v);
  d ← or_default as_str [] (default None (ms !! 1));
  Some (mk_ChoiceOption l d).

Definition read_question (v : Value) : option ChoiceQuestion :=
  ms ← members ["question"; "header"; "options"; "multiSelect"] v;
  q ← (v ← default None (ms !! 0); as_str v);
  h ← (v ← default None (ms !! 1); as_str v);
  os ← (v ← default None (ms !! 2); read_list read_option v);
  m ← or_default read_bool false (default None (ms !! 3));
  Some (mk_ChoiceQuestion q h os m).

Definition read_answer (v : Value) : option ChoiceAnswer :=
  ms ← members ["header"; "options"; "other"] v;
  h ← (v ← default None (ms !! 0); as_str v);
  os ← or_default (read_list as_str) [] (default None (ms !! 1));
  o ← read_opt_str (default None (ms !! 2));
  Some (mk_ChoiceAnswer h os o).

Definition read_choice_values (v : Value) : option (list ChoiceAnswer) :=
  ms ← members ["answers"] v; or_default (read_list read_answer) [] (default None (ms !! 0)).

Section choices.
Context `{!JsonText}.
Context (shape_error : Value → str).

Definition named (kvs : list (str * Value)) (k : string) : option str :=
  opt_filter (λ s, negb (str_is_empty s)) (trim <$> (assoc (lit k) kvs ≫= as_str)).

Definition parse_option (h : str) (v : Value) : result Prelude.error ChoiceOption :=
  o ← match v with
      | String s => Ok (mk_ChoiceOption (trim s) [])
      | Object kvs =>
          Ok (mk_ChoiceOption (default [] (trim <$> (assoc (lit "label") kvs ≫= as_str)))
                (trim (default [] (assoc (lit "description") kvs ≫= as_str))))
      | other => Err [lit "invalid option entry in '" ++ h ++ lit "': " ++ to_json other]
      end;
  if str_is_empty (option_label o) then Err [lit "an option in '" ++ h ++ lit "' has an empty label"] else Ok o.

Definition parse_question (seen : list str) (item : Value) : result Prelude.error ChoiceQuestion :=
  kvs ← ok_or (as_object item) [lit "each question must be an object"];
  q ← ok_or (named kvs "question") [lit "each question needs a non-empty 'question'"];
  h ← ok_or (named kvs "header") [lit "each question needs a non-empty 'header'"];
  if HEADER_MAX_CHARS <? length h
  then Err [lit "header '" ++ h ++ lit "' is too long (max 12 characters)"]
  else if any (str_eqb h) seen then Err [lit "duplicate question header '" ++ h ++ lit "'"]
  else
    raw ← ok_or (assoc (lit "options") kvs ≫= as_array) [lit "question '" ++ h ++ lit "' needs an 'options' array"];
    if negb ((2 <=? length raw) && (length raw <=? 4))
    then Err [lit "question '" ++ h ++ lit "' must offer between 2 and 4 options"]
    else
      os ← parse_all (parse_option h) raw;
      mret (mk_ChoiceQuestion q h os (default false (assoc (lit "multiSelect") kvs ≫= as_bool))).

Fixpoint parse_questions_go (seen : list str) (items : list Value) : result Prelude.error (list ChoiceQuestion) :=
  match items with
  | [] => Ok []
  | item :: rest =>
      q ← parse_question seen item;
      qs ← parse_questions_go (seen ++ [header q]) rest;
      mret (q :: qs)
  end.

Definition parse_questions (raw : Value) : result Prelude.error (list ChoiceQuestion) :=
  items ← ok_or (as_array raw) [lit "'questions' must be an array"];
  if negb ((1 <=? length items) && (length items <=? 4))
  then Err [lit "'questions' must contain between 1 and 4 questions"]
  else parse_questions_go [] items.

Definition enumerated (q : Value) : option str :=
  text ← get_str q "question";
  let h := default text (get_str q "header") in
  let opts := join (lit ", ") (omap (λ o, get_str o "label") (default [] (get q (lit "options") ≫= as_array))) in
  Some (lit "- [" ++ h ++ lit "] " ++ text ++ lit " Options: " ++ opts ++
        (if default false (get_bool q "multiSelect") then lit " (choose one or more)" else []) ++ lit ".").

Definition choices : InteractionKind :=
  mk_InteractionKind (lit "choices") (lit "choice_chips")
    (λ args,
      questions ← parse_questions (default Null (get args (lit "questions")));
      mret (mk_InteractionRequest (lit "choices")
              (Object [field "questions" (Array (question_json <$> questions))]) (request_reason_of args)))
    (λ spec values,
      let questions := default [] (get spec (lit "questions") ≫= read_list read_question) in
      match read_choice_values values with
      | None => Err [mk_InteractionFieldError (lit "values") (lit "invalid values shape: " ++ shape_error values)]
      | Some v =>
          match validate_choices questions v with
          | Ok answers => Ok (Object [field "answers" (Array (answer_json <$> answers))])
          | Err errors => Err ((λ e, mk_InteractionFieldError e.1 e.2) <$> errors)
          end
      end)
    (λ spec reason,
      let lines := join lf (omap enumerated (default [] (get spec (lit "questions") ≫= as_array))) in
      lit "This visitor's channel cannot display choice chips. Ask the following question(s) conversationally, naturally weaving in the reason (" ++
      reason ++ lit "), and read out each option so the visitor can pick:" ++ lf ++ lines ++ lf ++
      lit "The visitor may also answer with something not listed (that's fine " ++ em_dash ++
      lit " capture it as their 'other' answer). When you have their pick(s), call the `submit_interaction` tool with kind " ++
      quote ++ lit "choices" ++ quote ++ lit " and `values.answers` " ++ em_dash ++
      lit " one entry per question `{ header, options: [chosen label(s)], other?: " ++ quote ++
      lit "their free-text answer" ++ quote ++
      lit " }`. It validates each answer and will tell you if a pick isn't offered so you can re-ask. If the visitor declines to choose, call `submit_interaction` with declined=true and continue helping them.").
End choices.

(** ** The registry and the tools *)

Definition InteractionRegistry : Type := list InteractionKind.
Definition registry_get (r : InteractionRegistry) (kind : str) : option InteractionKind :=
  find_first (λ k, str_eqb (kind_id k) kind) r.
Definition registry_with (k : InteractionKind) (r : InteractionRegistry) : InteractionRegistry := r ++ [k].
Definition registry_default `{!JsonText} (shape_error : Value → str) : InteractionRegistry :=
  registry_with (choices shape_error) (registry_with (identity_intake shape_error) []).

(** The specs raised this turn on the conversational path. *)
Definition RaisedSpecs : Type := gmap str Value.

(** What a raise does: an answer at once, or a park on an id. *)
Inductive Raised := Directive (result_json : Value) (specs : RaisedSpecs) | Parks (id : str) (request : InteractionRequest).

Definition request_interaction (k : InteractionKind) (rich bridge_listens : bool) (id : str) (args : Value) (specs : RaisedSpecs) :
    result Prelude.error Raised :=
  request ← parse_request k args;
  if negb rich
  then Ok (Directive
             (Object [field "mode" (jstr "conversational"); field "kind" (String (request_kind request));
                      field "spec" (request_spec request); field "reason" (String (request_reason request));
                      field "instructions"
                        (String (fallback_directive k (request_spec request) (request_reason request)))])
             (<[request_kind request := request_spec request]> specs))
  else if bridge_listens then Ok (Parks id request) else Err [lit "interaction channel closed"].

Definition resolved (o : InteractionOutcome) : Value :=
  match o with
  | Submitted values => Object [field "status" (jstr "submitted"); field "values" values]
  | Declined =>
      Object [field "status" (jstr "declined");
              field "message" (jstr "The visitor declined. Continue helping them without this and do not ask again this conversation.")]
  end.
Definition no_response : Value :=
  Object [field "status" (jstr "no_response");
          field "message" (jstr "The visitor did not respond to the card. Continue without it; you may offer again later if it becomes relevant.")].

(** The wait: the resolutions the turn's shared channel delivers before the deadline (or its
    close), in order; what is left of them is for the next park. *)
Fixpoint await_outcome (id : str) (arrivals : list InteractionResolution) : Value * list InteractionResolution :=
  match arrivals with
  | [] => (no_response, [])
  | r :: rest => if str_eqb (res_interaction_id r) id then (resolved (res_outcome r), rest) else await_outcome id rest
  end.

Definition submit_interaction_tool (kinds : InteractionRegistry) (specs : RaisedSpecs) (args : Value) :
    result Prelude.error (Value * option (str * Value)) :=
  kind ← ok_or (get_str args "kind") [lit "'kind' is required"];
  k ← ok_or (registry_get kinds kind) [lit "unknown interaction kind '" ++ kind ++ lit "'"];
  if default false (get_bool args "declined")
  then Ok (Object [field "status" (jstr "declined");
                   field "message" (jstr "Noted. Continue helping the visitor without this and do not ask again this conversation.")],
           None)
  else
    let values := default Null (get args (lit "values")) in
    match validate k (default Null (specs !! kind)) values with
    | Ok canonical => Ok (resolved (Submitted canonical), Some (kind, canonical))
    | Err errors =>
        Err [lit "validation failed " ++ em_dash ++ lit " " ++
             join (lit "; ") ((λ e, error_field e ++ lit ": " ++ error_text e) <$> errors) ++
             lit ". Re-ask the visitor for the corrected value(s) and submit again."]
    end.

(** [InteractionFieldError] on the wire, and a kind's validator as the frame handler uses it. *)
Definition field_error_json (e : InteractionFieldError) : Value :=
  Object [field "field" (String (error_field e)); field "message" (String (error_text e))].
Definition validator_of (k : InteractionKind) : Validator :=
  λ spec values, match validate k spec values with Ok v => Ok v | Err es => Err (field_error_json <$> es) end.

(** ** Lemmas: the serialised forms *)

Lemma mapM_fmap_Some {A B} (f : A → option B) (g : B → A) l :
  (∀ x, f (g x) = Some x) → mapM f (g <$> l) = Some l.
Proof. intros Hfg. induction l as [|x l IH]; [done|]. rewrite fmap_cons. simpl. rewrite Hfg. simpl. by rewrite IH. Qed.

Lemma read_list_json {A} (read : Value → option A) json (l : list A) :
  (∀ x, read (json x) = Some x) → read_list read (Array (json <$> l)) = Some l.
Proof. apply mapM_fmap_Some. Qed.

Lemma key_roundtrip k : key_of_str (key_as_str k) = Some k.
Proof. by destruct k. Qed.

Lemma read_field_json f : read_field (field_json f) = Some f.
Proof. destruct f as [[] r [l|]]; by vm_compute. Qed.

Lemma read_option_json o : read_option (option_json o) = Some o.
Proof. by destruct o. Qed.

Lemma read_question_json q : read_question (question_json q) = Some q.
Proof.
  destruct q as [q h os m]. unfold read_question, question_json. simpl.
  rewrite (read_list_json _ _ _ read_option_json). done.
Qed.

Lemma read_answer_json a : read_answer (answer_json a) = Some a.
Proof.
  destruct a as [h os o]. unfold read_answer, answer_json. simpl.
  rewrite (read_list_json as_str String os) by done. by destruct o.
Qed.

Lemma read_intake_values_json v : read_intake_values (values_json v) = Some v.
Proof. destruct v as [[n|] [e|] [p|]]; by vm_compute. Qed.

(** ** Lemmas: normal forms *)

Lemma not_blank_Some o s : not_blank o = Some s → s ≠ [] ∧ trim s = s.
Proof.
  unfold not_blank, opt_filter. destruct o as [v|]; [|done]. simpl.
  destruct (str_is_empty (trim v)) eqn:E; [done|]. simpl. intros [= <-].
  split; [by apply str_is_empty_false|apply trim_idemp].
Qed.

Lemma not_blank_idemp o : not_blank (not_blank o) = not_blank o.
Proof.
  destruct (not_blank o) as [s|] eqn:E; [|done]. apply not_blank_Some in E as [Hne Ht].
  unfold not_blank, opt_filter. simpl. rewrite Ht. by rewrite (proj2 (str_is_empty_false _) Hne).
Qed.

Lemma trim_no_space s : any is_whitespace s = false → trim s = s.
Proof.
  intros Hs. apply trim_no_ws, Forall_forall. intros c Hc.
  by apply (proj1 (any_false _ _) Hs).
Qed.

Lemma split_once_Some c s a b : split_once c s = Some (a, b) → s = a ++ c :: b ∧ c ∉ a.
Proof.
  revert a. induction s as [|d s IH]; intros a; simpl; [done|]. destruct (N.eqb_spec d c) as [-> | Hne].
  - intros [= <- <-]. split; [done|]. by intros ?%elem_of_nil.
  - destruct (split_once c s) as [[a' b']|]; [|done]. simpl. intros [= <- <-].
    destruct (IH a' eq_refl) as [-> Ha]. split; [done|]. by intros [?|?]%elem_of_cons.
Qed.

Lemma ascii_lower_idemp c : ascii_lower (ascii_lower c) = ascii_lower c.
Proof.
  unfold ascii_lower. destruct ((65 <=? c) && (c <=? 90))%N eqn:E; [|by rewrite E].
  apply andb_true_iff in E as [E1%N.leb_le E2%N.leb_le].
  replace ((65 <=? c + 32) && (c + 32 <=? 90))%N with false; [done|].
  symmetry. apply andb_false_iff. right. apply N.leb_gt. lia.
Qed.

Lemma lowercase_idemp s : to_ascii_lowercase (to_ascii_lowercase s) = to_ascii_lowercase s.
Proof. unfold to_ascii_lowercase. rewrite <- list_fmap_compose. apply list_fmap_ext. intros ? ? _. apply ascii_lower_idemp. Qed.

(** Lowercasing neither makes nor hides a character outside the letters. *)
Lemma ascii_lower_class (p : char → bool) c :
  (∀ d, (65 <= d <= 90 ∨ 97 <= d <= 122)%N → p d = false) → p (ascii_lower c) = p c.
Proof.
  intros Hp. unfold ascii_lower. destruct ((65 <=? c) && (c <=? 90))%N eqn:E; [|done].
  apply andb_true_iff in E as [E1%N.leb_le E2%N.leb_le]. rewrite !Hp; [done|lia|lia].
Qed.

Lemma any_lowercase (p : char → bool) s :
  (∀ d, (65 <= d <= 90 ∨ 97 <= d <= 122)%N → p d = false) → any p (to_ascii_lowercase s) = any p s.
Proof. intros Hp. induction s as [|c s IH]; [done|]. simpl. f_equal; [by apply ascii_lower_class|exact IH]. Qed.

Lemma whitespace_not_letter d : (65 <= d <= 90 ∨ 97 <= d <= 122)%N → is_whitespace d = false.
Proof.
  intros Hd. unfold is_whitespace. repeat (apply orb_false_intro);
    first [apply N.eqb_neq; lia | apply andb_false_iff; first [left; apply N.leb_gt; lia | right; apply N.leb_gt; lia]].
Qed.

(** An accepted address is one [@] between a non-empty local part and a domain in lower case
    with a dot inside, and stands for itself. *)
Lemma normalize_email_idemp raw e : normalize_email raw = Some e → normalize_email e = Some e.
Proof.
  unfold normalize_email. destruct (any is_whitespace (trim raw)) eqn:Ews; [done|].
  destruct (split_once 64 (trim raw)) as [[l d]|] eqn:Es; [|done]. simpl.
  destruct (str_is_empty l || any (λ c, c =? 64)%N d) eqn:E1; [done|].
  destruct ((_ <? 2) || _) eqn:E2; [done|]. intros [= <-].
  apply split_once_Some in Es as [Hs Hl]. rewrite Hs in Ews. unfold any in Ews. rewrite existsb_app in Ews. simpl in Ews.
  apply orb_false_iff in Ews as [Hwl Hwd].
  assert (Hws : any is_whitespace (l ++ 64%N :: to_ascii_lowercase d) = false).
  { unfold any. rewrite existsb_app. simpl. rewrite Hwl. simpl.
    pose proof (any_lowercase is_whitespace d whitespace_not_letter) as Ha. unfold any in Ha. by rewrite Ha. }
  rewrite (trim_no_space _ Hws), Hws. rewrite split_once_app by done. simpl.
  rewrite (any_lowercase (λ c, c =? 64)%N d), E1 by (intros c Hc; apply N.eqb_neq; lia).
  rewrite lowercase_idemp, E2. done.
Qed.

Lemma ascii_digit_spec c : ascii_digit c = true ↔ (48 <= c <= 57)%N.
Proof. unfold ascii_digit. rewrite andb_true_iff, !N.leb_le. done. Qed.

Lemma all_app {A} (p : A → bool) l k : all p (l ++ k) = all p l && all p k.
Proof. apply forallb_app. Qed.

Lemma digits_plain d : all ascii_digit d = true → List.filter (λ c, negb (separator c)) d = d ∧ any is_whitespace d = false.
Proof.
  induction d as [|c d IH]; simpl; [done|]. intros [Hc%ascii_digit_spec Hd]%andb_true_iff. destruct (IH Hd) as [-> ->].
  assert (separator c = false) as ->.
  { unfold separator. repeat (apply orb_false_intro); apply N.eqb_neq; lia. }
  split; [done|]. simpl. rewrite orb_false_r. unfold is_whitespace. repeat (apply orb_false_intro);
    first [apply N.eqb_neq; lia | apply andb_false_iff; right; apply N.leb_gt; lia | apply andb_false_iff; left; apply N.leb_gt; lia].
Qed.

(** The E.164 form: a plus and 8 to 15 digits, the first not 0. *)
Definition e164 (s : str) : Prop :=
  ∃ d, s = lit "+" ++ d ∧ all ascii_digit d = true ∧ 8 ≤ length d ≤ 15 ∧ starts_with (lit "0") d = false.

Lemma normalize_phone_e164_form raw p : normalize_phone_e164 raw = Some p → e164 p.
Proof.
  unfold normalize_phone_e164. set (s := List.filter _ _).
  destruct (strip_prefix (lit "+") s) as [d|];
    destruct (str_is_empty _ || negb (all ascii_digit _)) eqn:E; try done;
    apply orb_false_iff in E as [_ Hd%negb_false_iff].
  - destruct (_ && _) eqn:E; [|done]. intros [= <-].
    apply andb_true_iff in E as [[H1%Nat.leb_le H2%Nat.leb_le]%andb_true_iff H3%negb_true_iff]. by exists d.
  - destruct (length s =? 10) eqn:E10.
    + intros [= <-]. apply Nat.eqb_eq in E10. exists (lit "1" ++ s). split; [done|].
      rewrite length_app, E10. simpl. rewrite Hd. split_and!; [done|lia|lia|done].
    + destruct (_ && _) eqn:E11; [|done]. intros [= <-]. apply andb_true_iff in E11 as [Hl%Nat.eqb_eq Hone].
      exists s. split; [done|]. split; [done|]. split; [lia|].
      apply starts_with_spec in Hone as [k ->]. done.
Qed.

Lemma normalize_phone_e164_fixed p : e164 p → normalize_phone_e164 p = Some p.
Proof.
  intros (d & -> & Hd & Hl & H0). unfold normalize_phone_e164. destruct (digits_plain d Hd) as [Hf Hw].
  assert (Ht : trim (lit "+" ++ d) = lit "+" ++ d) by (apply trim_no_space; exact Hw).
  assert (Hfil : List.filter (λ c, negb (separator c)) (lit "+" ++ d) = lit "+" ++ d).
  { transitivity (lit "+" ++ List.filter (λ c, negb (separator c)) d); [reflexivity|by rewrite Hf]. }
  assert (Hpre : strip_prefix (lit "+") (lit "+" ++ d) = Some d) by by apply strip_prefix_Some.
  rewrite Ht, Hfil, Hpre.
  rewrite Hd. destruct d as [|c d']; [simpl in Hl; lia|]. simpl str_is_empty. simpl orb. cbv iota.
  rewrite (proj2 (Nat.leb_le 8 _)), (proj2 (Nat.leb_le _ 15)) by lia. rewrite H0. done.
Qed.

(** ** Lemmas: validation *)

Lemma checked_spec k normalize message o r errs :
  checked k normalize message o = (r, errs) → errs = [] →
  (∀ raw n, normalize raw = Some n → normalize n = Some n ∧ n ≠ [] ∧ trim n = n) →
  checked k normalize message r = (r, []) ∧
  (r = None ↔ not_blank o = None) ∧ ∀ s, r = Some s → ∃ raw, normalize raw = Some s.
Proof.
  unfold checked. destruct (not_blank o) as [s|] eqn:Eo.
  - destruct (normalize s) as [n|] eqn:En; intros [= <- <-]; [|done]. intros _ Hn.
    destruct (Hn _ _ En) as (H1 & H2 & H3).
    assert (Hb : not_blank (Some n) = Some n).
    { unfold not_blank, opt_filter. simpl. rewrite H3. by rewrite (proj2 (str_is_empty_false _) H2). }
    rewrite Hb, H1. split_and!; [done|naive_solver|]. intros s' [= <-]. by exists s.
  - intros [= <- <-] _ _. split_and!; done.
Qed.

Lemma normalize_email_plain raw n : normalize_email raw = Some n → normalize_email n = Some n ∧ n ≠ [] ∧ trim n = n.
Proof.
  intros Hn. apply normalize_email_idemp in Hn as H1. split; [done|].
  unfold normalize_email in H1. destruct (any is_whitespace (trim n)) eqn:E; [done|].
  destruct (split_once 64 (trim n)) as [[l d]|] eqn:Es; [|done]. simpl in H1.
  destruct (_ || _) in H1; [done|]. destruct (_ || _) in H1; [done|]. injection H1 as Hl.
  split; [subst n; by destruct l|].
  assert (Hw : any is_whitespace n = false).
  { apply split_once_Some in Es as [Hs _]. rewrite Hs in E. rewrite <- Hl. unfold any in *. rewrite existsb_app in *.
    simpl in *. apply orb_false_iff in E as [-> E]. simpl.
    pose proof (any_lowercase is_whitespace d whitespace_not_letter) as Ha. unfold any in Ha. by rewrite Ha. }
  by apply trim_no_space.
Qed.

Lemma normalize_phone_plain raw n :
  normalize_phone_e164 raw = Some n → normalize_phone_e164 n = Some n ∧ n ≠ [] ∧ trim n = n.
Proof.
  intros Hn%normalize_phone_e164_form. split; [by apply normalize_phone_e164_fixed|].
  destruct Hn as (d & -> & Hd & _). split; [done|]. apply trim_no_space. apply (digits_plain d Hd).
Qed.

Lemma trim_trim s : trim (trim s) = trim s.
Proof. apply trim_idemp. Qed.

Lemma normalize_answer_idemp a : normalize_answer (normalize_answer a) = normalize_answer a.
Proof.
  unfold normalize_answer. cbn [answer_header answer_options answer_other]. rewrite trim_trim, not_blank_idemp. f_equal.
  induction (answer_options a) as [|o os IH]; [done|]. csimpl.
  destruct (str_is_empty (trim o)) eqn:E; csimpl; [done|]. rewrite trim_trim, E. csimpl. by rewrite IH.
Qed.

(** What an answer kept for a question is. *)
Record answers (q : ChoiceQuestion) (a : ChoiceAnswer) : Prop := {
  names_question : answer_header a = header q;
  normal_answer : normalize_answer a = a;
  picks_offered : Forall (λ l, l ∈ option_label <$> options q) (answer_options a);
  picks_some : 1 ≤ selection_count a;
  picks_one : multi_select q = false → selection_count a = 1;
}.

Definition offered (q : ChoiceQuestion) (l : str) : bool := any (λ o, str_eqb (option_label o) l) (options q).

Lemma offered_spec q l : offered q l = true ↔ l ∈ option_label <$> options q.
Proof.
  unfold offered. rewrite any_true, list_elem_of_fmap. split.
  - intros (o & Ho & <-%str_eqb_true). by exists o.
  - intros (o & -> & Ho). exists o. split; [done|apply str_eqb_refl].
Qed.

Lemma none_rejected {A} (p : A → bool) l : List.filter (λ x, negb (p x)) l = [] ↔ Forall (λ x, p x = true) l.
Proof.
  induction l as [|x l IH]; simpl; [done|]. rewrite Forall_cons, <- IH. destruct (p x); simpl; naive_solver.
Qed.

Lemma check_question_spec normalized q o :
  Forall (λ a, normalize_answer a = a) normalized →
  check_question normalized q = ([], o) ↔
  ∃ a, o = Some a ∧ find_first (λ a, str_eqb (answer_header a) (header q)) normalized = Some a ∧ answers q a.
Proof.
  intros Hn. unfold check_question. destruct (find_first _ normalized) as [a|] eqn:Ef; [|naive_solver].
  fold (offered q). change (λ l, negb (any _ _)) with (λ l, negb (offered q l)).
  pose proof (none_rejected (offered q) (answer_options a)) as Hnr. split.
  - destruct (List.filter _ _) as [|b bad]; simpl; [|done].
    destruct (selection_count a =? 0) eqn:E0; [done|]. apply Nat.eqb_neq in E0.
    destruct (negb (multi_select q) && (1 <? selection_count a)) eqn:E1; [done|]. intros [= <-].
    exists a. apply find_first_Some in Ef as [Ha Hh%str_eqb_true]. split_and!; [done..|]. split; [done| | |lia|].
    + rewrite Forall_forall in Hn. by apply Hn.
    + apply (Forall_impl _ _ _ (proj1 Hnr eq_refl)). intros l. apply offered_spec.
    + intros Hm. rewrite Hm in E1. simpl in E1. apply Nat.ltb_ge in E1. lia.
  - intros (a' & -> & [= <-] & [_ _ Ho H1 Hm]).
    rewrite (proj2 Hnr) by (apply (Forall_impl _ _ _ Ho); intros l; apply offered_spec).
    rewrite (proj2 (Nat.eqb_neq _ 0)) by lia. destruct (multi_select q); simpl; [done|].
    by rewrite Hm by done.
Qed.

(** No errors: every question has found its answer. *)
Lemma checks_answered normalized qs :
  Forall (λ a, normalize_answer a = a) normalized →
  concat (check_question normalized <$> qs).*1 = [] →
  Forall2 (λ q a, find_first (λ a, str_eqb (answer_header a) (header q)) normalized = Some a ∧ answers q a)
    qs (omap id (check_question normalized <$> qs).*2).
Proof.
  intros Hn. induction qs as [|q qs IH]; [constructor|]. csimpl.
  destruct (check_question normalized q) as [es o] eqn:E. simpl. intros [-> Hes]%app_nil.
  apply (check_question_spec _ _ _ Hn) in E as (a & -> & Ha). csimpl. constructor; [done|by apply IH].
Qed.

(** The kept answers, searched again, give each question the same answer. *)
Lemma find_kept normalized qs out h a :
  Forall2 (λ q a, find_first (λ a, str_eqb (answer_header a) (header q)) normalized = Some a ∧ answers q a) qs out →
  a ∈ out → answer_header a = h →
  find_first (λ a, str_eqb (answer_header a) h) out = Some a.
Proof.
  intros H2 Ha Hh.
  assert (Hall : ∀ b, b ∈ out → answer_header b = h → find_first (λ a, str_eqb (answer_header a) h) normalized = Some b).
  { intros b [i Hb]%list_elem_of_lookup Hbh.
    destruct (Forall2_lookup_r _ _ _ _ _ H2 Hb) as (q & _ & Hf & [Hn _ _ _ _]). by rewrite <- Hbh, Hn. }
  clear H2. induction out as [|b out IH]; [by apply elem_of_nil in Ha|]. simpl.
  destruct (str_eqb (answer_header b) h) eqn:E.
  - apply str_eqb_true in E. pose proof (Hall b (list_elem_of_here _ _) E). pose proof (Hall a Ha Hh). congruence.
  - apply elem_of_cons in Ha as [->|Ha].
    + rewrite Hh, str_eqb_refl in E. done.
    + apply IH; [done|]. intros c Hc. apply Hall. by right.
Qed.

Lemma normal_all values : Forall (λ a, normalize_answer a = a) (normalize_answer <$> values).
Proof. apply Forall_fmap, Forall_forall. intros a _. apply normalize_answer_idemp. Qed.

Lemma normal_fmap out : Forall (λ a, normalize_answer a = a) out → normalize_answer <$> out = out.
Proof. induction 1 as [|a out Ha _ IH]; [done|]. csimpl. by rewrite Ha, IH. Qed.

Lemma kept_checks normalized qs out :
  Forall2 (λ q a, find_first (λ a, str_eqb (answer_header a) (header q)) normalized = Some a ∧ answers q a) qs out →
  check_question out <$> qs = (λ a, ([], Some a)) <$> out.
Proof.
  intros H2. apply list_eq_Forall2, Forall2_fmap, Forall2_same_length_lookup_2; [by eapply Forall2_length|].
  assert (Hn : Forall (λ a, normalize_answer a = a) out).
  { apply Forall_forall. intros a [i Ha]%list_elem_of_lookup.
    by destruct (Forall2_lookup_r _ _ _ _ _ H2 Ha) as (q & _ & _ & []). }
  intros i q a Hq Ha. destruct (Forall2_lookup_lr _ _ _ _ _ _ H2 Hq Ha) as [_ Hqa].
  apply check_question_spec; [done|]. exists a. split_and!; [done| |done].
  eapply find_kept; [exact H2|by eapply list_elem_of_lookup_2|apply Hqa].
Qed.

Lemma validate_choices_nonempty qs values :
  qs ≠ [] →
  validate_choices qs values =
    match concat (check_question (normalize_answer <$> values) <$> qs).*1 with
    | [] => Ok (omap id (check_question (normalize_answer <$> values) <$> qs).*2)
    | errors => Err errors
    end.
Proof. by destruct qs. Qed.

Lemma validate_choices_answers qs values out :
  qs ≠ [] → validate_choices qs values = Ok out → Forall2 answers qs out ∧ validate_choices qs out = Ok out.
Proof.
  intros Hqs. rewrite !validate_choices_nonempty by done.
  pose proof (checks_answered _ qs (normal_all values)) as Hc.
  destruct (concat _) eqn:E; [|done]. intros Hok. specialize (Hc eq_refl).
  assert (omap id (check_question (normalize_answer <$> values) <$> qs).*2 = out) as Heq by congruence.
  rewrite Heq in Hc. clear Heq Hok.
  split; [by eapply Forall2_impl; [exact Hc|intros ?? []]|].
  assert (Hn : Forall (λ a, normalize_answer a = a) out).
  { apply Forall_forall. intros a [i Ha]%list_elem_of_lookup.
    by destruct (Forall2_lookup_r _ _ _ _ _ Hc Ha) as (q' & _ & _ & []). }
  rewrite (normal_fmap _ Hn), (kept_checks _ _ _ Hc). clear. f_equal.
  assert (concat ((λ a : ChoiceAnswer, ([] : list ChoiceFieldError, Some a)) <$> out).*1 = []) as ->.
  { induction out as [|a out IH]; [done|exact IH]. }
  f_equal. induction out as [|a out IH]; [done|]. csimpl. by rewrite IH.
Qed.

Lemma validate_choices_format values out :
  validate_choices [] values = Ok out → out ≠ [] ∧ Forall (λ a, 1 ≤ selection_count a) out ∧ validate_choices [] out = Ok out.
Proof.
  unfold validate_choices. destruct (_ ++ _) eqn:E; [|done]. intros [= <-].
  rewrite (normal_fmap _ (normal_all values)), E. apply app_nil in E as [E1 E2].
  apply fmap_nil_inv in E1. set (n := normalize_answer <$> values) in *. split; [by destruct n|]. split; [|done].
  clear E2. clearbody n. induction n as [|a n IH]; [constructor|]. simpl in E1.
  destruct (selection_count a =? 0) eqn:Ea; [done|]. apply Nat.eqb_neq in Ea. constructor; [lia|by apply IH].
Qed.

(** ** Lemmas: the questions a raise can have *)

(** A question that makes a usable card. *)
Record usable (q : ChoiceQuestion) : Prop := {
  asks : question q ≠ [];
  short_header : 1 ≤ length (header q) ≤ HEADER_MAX_CHARS;
  few_options : 2 ≤ length (options q) ≤ 4;
  labelled : Forall (λ o, option_label o ≠ [] ∧ trim (option_label o) = option_label o) (options q);
}.

Lemma parse_all_Forall {A} (parse : Value → result Prelude.error A) (P : A → Prop) items xs :
  (∀ v x, parse v = Ok x → P x) → parse_all parse items = Ok xs → length xs = length items ∧ Forall P xs.
Proof.
  intros HP. revert xs. induction items as [|v items IH]; intros xs; simpl; [by intros [= <-]|].
  destruct (parse v) as [x|] eqn:E; [|done]. simpl. destruct (parse_all parse items) as [ys|]; [|done]. simpl.
  intros [= <-]. destruct (IH ys eq_refl) as [<- ?]. split; [done|]. constructor; [by eapply HP|done].
Qed.

Lemma named_Some kvs k s : named kvs k = Some s → s ≠ [] ∧ trim s = s.
Proof. apply not_blank_Some. Qed.

Section parsing.
Context `{!JsonText}.

Lemma parse_option_labelled h v o :
  parse_option h v = Ok o → option_label o ≠ [] ∧ trim (option_label o) = option_label o.
Proof.
  unfold parse_option. set (r := match v with String _ => _ | _ => _ end).
  assert (Hr : ∀ o, r = Ok o → trim (option_label o) = option_label o).
  { intros o'. subst r. destruct v; intros [= <-]; cbn [option_label]; [apply trim_trim|].
    destruct (assoc _ _ ≫= as_str); [apply trim_trim|done]. }
  destruct r as [o'|]; [|done]. simpl. destruct (str_is_empty (option_label o')) eqn:E; [done|]. intros [= <-].
  split; [by apply str_is_empty_false|by apply Hr].
Qed.

Lemma parse_question_usable seen item q : parse_question seen item = Ok q → usable q ∧ header q ∉ seen.
Proof.
  unfold parse_question. destruct (as_object item) as [kvs|]; [|done]. simpl.
  destruct (named kvs "question") as [t|] eqn:Eq; [|done]. simpl. apply named_Some in Eq as [Ht _].
  destruct (named kvs "header") as [h|] eqn:Eh; [|done]. simpl. apply named_Some in Eh as [Hh _].
  destruct (HEADER_MAX_CHARS <? length h) eqn:El; [done|]. apply Nat.ltb_ge in El.
  destruct (any (str_eqb h) seen) eqn:Es; [done|].
  destruct (assoc _ kvs ≫= as_array) as [raw|]; [|done]. cbn [ok_or mbind result_bind].
  destruct (_ && _) eqn:Er; [|done]. simpl.
  assert (2 ≤ length raw ≤ 4) by (clear -Er; destruct raw as [|?[|?[|?[|?[|]]]]]; simpl in *; first [done|lia]).
  destruct (parse_all _ raw) as [os|] eqn:Eo; [|done]. simpl. intros [= <-].
  apply (parse_all_Forall _ _ _ _ (parse_option_labelled h)) in Eo as [Hos Hl].
  split; [split; simpl; [done| |lia|done]|]; simpl.
  - split; [destruct h; [done|simpl; lia]|done].
  - intros Hin. pose proof (proj1 (any_false _ _) Es h Hin) as Hf.
    by rewrite str_eqb_refl in Hf.
Qed.

Lemma parse_questions_go_usable seen items qs :
  parse_questions_go seen items = Ok qs →
  length qs = length items ∧ Forall usable qs ∧ NoDup (header <$> qs) ∧ ∀ q, q ∈ qs → header q ∉ seen.
Proof.
  revert seen qs. induction items as [|item items IH]; intros seen qs; simpl.
  { intros [= <-]. split_and!; [done|constructor|constructor|by intros q ?%elem_of_nil]. }
  destruct (parse_question seen item) as [q|] eqn:Eq; [|done]. simpl.
  destruct (parse_questions_go _ items) as [qs'|] eqn:Er; [|done]. simpl. intros [= <-].
  apply parse_question_usable in Eq as [Hu Hs]. destruct (IH _ _ Er) as (<- & Hus & Hd & Hseen).
  split_and!; [done|by constructor| |].
  - csimpl. constructor; [|done]. intros (q' & Hh & Hq')%list_elem_of_fmap. apply (Hseen _ Hq').
    rewrite <- Hh. apply elem_of_app. right. by left.
  - intros q' [->|Hq']%elem_of_cons; [done|]. intros Hin. apply (Hseen _ Hq'). apply elem_of_app. by left.
Qed.
End parsing.

Lemma values_empty_json v : values_empty v = true → values_json v = Object [].
Proof. by destruct v as [[] [] []]. Qed.

(** The required fields are all there. *)
Lemma nothing_missing fields v :
  (λ f, (key f, lit "this field is required")) <$>
    List.filter (λ f, required f && is_none_or (λ s, str_is_empty (trim s)) (value_of v (key f))) fields = [] ↔
  ∀ f, f ∈ fields → required f = true → not_blank (value_of v (key f)) ≠ None.
Proof.
  set (p := λ f, negb (required f) || is_some (not_blank (value_of v (key f)))).
  rewrite (filter_ext _ (λ f, negb (p f))).
  - transitivity (Forall (λ f, p f = true) fields).
    + rewrite <- none_rejected. split; [apply fmap_nil_inv|by intros ->].
    + rewrite Forall_forall. split; intros H f Hf; specialize (H f Hf); revert H; unfold p;
        destruct (required f), (not_blank _); simpl; naive_solver.
  - intros f. unfold p, not_blank, opt_filter. destruct (required f), (value_of v (key f)) as [s|]; simpl; try done.
    by destruct (str_is_empty (trim s)).
Qed.

Lemma validate_intake_canonical fields v out :
  validate_intake fields v = Ok out →
  (∀ k, value_of out k = None ↔ not_blank (value_of v k) = None) ∧
  (∀ k s, value_of out k = Some s → s ≠ [] ∧ trim s = s) ∧
  (∀ f, f ∈ fields → required f = true → value_of out (key f) ≠ None) ∧
  (∀ e, iv_email out = Some e → normalize_email e = Some e) ∧
  (∀ p, iv_phone out = Some p → e164 p) ∧
  validate_intake fields out = Ok out.
Proof.
  unfold validate_intake at 1. destruct (checked KeyEmail _ _ _) as [email ee] eqn:Ee.
  destruct (checked KeyPhone _ _ _) as [phone pe] eqn:Ep. destruct (_ ++ _) eqn:E; [|done]. intros [= <-].
  apply app_nil in E as [Hm [-> ->]%app_nil]. rewrite nothing_missing in Hm.
  apply checked_spec in Ee as (Ee & Hee & He); [|done|exact normalize_email_plain].
  apply checked_spec in Ep as (Ep & Hpe & Hp); [|done|exact normalize_phone_plain].
  set (out := mk_IntakeValues _ _ _).
  assert (Hn : ∀ k, value_of out k = None ↔ not_blank (value_of v k) = None) by by intros [].
  assert (Hs : ∀ k s, value_of out k = Some s → s ≠ [] ∧ trim s = s).
  { intros [] s Hs; simpl in Hs; [by eapply not_blank_Some| |].
    - destruct (He _ Hs) as [raw Hr]. by apply normalize_email_plain in Hr as (_ & ? & ?).
    - destruct (Hp _ Hs) as [raw Hr]. by apply normalize_phone_plain in Hr as (_ & ? & ?). }
  assert (Hreq : ∀ f, f ∈ fields → required f = true → value_of out (key f) ≠ None)
    by (intros f Hf Hr; rewrite Hn; by apply Hm).
  split_and!; [done..| | |].
  - intros e Hs'. destruct (He _ Hs') as [raw Hr]. by apply normalize_email_plain in Hr as (? & _).
  - intros p Hs'. destruct (Hp _ Hs') as [raw Hr]. by eapply normalize_phone_e164_form.
  - unfold validate_intake. subst out. cbn [iv_email iv_phone iv_name] in *. rewrite Ee, Ep.
    rewrite (proj2 (nothing_missing _ _)).
    + simpl. by rewrite not_blank_idemp.
    + intros f Hf Hr. specialize (Hreq f Hf Hr). destruct (value_of _ _) as [s|] eqn:Es; [|done].
      destruct (Hs _ _ Es) as [Hne Ht]. unfold not_blank, opt_filter. simpl. rewrite Ht.
      by rewrite (proj2 (str_is_empty_false _) Hne).
Qed.

Lemma parse_fields_nonempty `{!JsonText} raw fields : parse_fields raw = Ok fields → fields ≠ [].
Proof.
  unfold parse_fields. destruct (as_array raw) as [[|v vs]|]; [done| |done]. cbn [ok_or mbind result_bind].
  intros Hp. apply (parse_all_Forall _ (λ _, True)) in Hp as [Hl _]; [|done]. by destruct fields.
Qed.

(** The validators, past the reading of the spec and of the values. *)
Lemma intake_validate_inv `{!JsonText} se fields values c :
  validate (identity_intake se) (Object [field "fields" (Array (field_json <$> fields))]) values = Ok c →
  ∃ v out, read_intake_values values = Some v ∧ validate_intake fields v = Ok out ∧ c = values_json out.
Proof.
  unfold identity_intake. cbn [validate]. set (o := get _ _ ≫= _).
  assert (o = Some fields) as -> by exact (read_list_json _ _ _ read_field_json). simpl.
  destruct (read_intake_values values) as [v|]; [|done]. destruct (values_empty v); [done|].
  destruct (validate_intake fields v) as [out|] eqn:E; [|done]. intros [= <-]. by exists v, out.
Qed.

Lemma intake_validate_json `{!JsonText} se fields out :
  validate_intake fields out = Ok out → values_empty out = false →
  validate (identity_intake se) (Object [field "fields" (Array (field_json <$> fields))]) (values_json out) =
    Ok (values_json out).
Proof.
  intros Hv He. unfold identity_intake. cbn [validate]. set (o := get _ _ ≫= _).
  assert (o = Some fields) as -> by exact (read_list_json _ _ _ read_field_json).
  rewrite read_intake_values_json, He. change (default [] (Some fields)) with fields. by rewrite Hv.
Qed.

Lemma read_choice_values_json out : read_choice_values (Object [field "answers" (Array (answer_json <$> out))]) = Some out.
Proof. exact (read_list_json _ _ _ read_answer_json). Qed.

Lemma choices_validate_json `{!JsonText} se qs values :
  validate (choices se) (Object [field "questions" (Array (question_json <$> qs))]) values =
    match read_choice_values values with
    | None => Err [mk_InteractionFieldError (lit "values") (lit "invalid values shape: " ++ se values)]
    | Some v =>
        match validate_choices qs v with
        | Ok answers => Ok (Object [field "answers" (Array (answer_json <$> answers))])
        | Err errors => Err ((λ e, mk_InteractionFieldError e.1 e.2) <$> errors)
        end
    end.
Proof.
  unfold choices. cbn [validate]. set (o := get _ _ ≫= _).
  assert (o = Some qs) as -> by exact (read_list_json _ _ _ read_question_json). done.
Qed.

(** ** Theorems *)

(** C29. The contract a raise announces is the one its answer is checked against: the spec of
    a parsed raise, read back by the kind's validator, is exactly the fields or questions
    parsed from the model's arguments; an intake raise has at least one field, and a choices
    raise between one and four questions that make usable cards, under distinct headers. *)
Theorem raised_contract `{!JsonText} se args r :
  (parse_request (identity_intake se) args = Ok r →
   ∃ fields, parse_fields (default Null (get args (lit "fields"))) = Ok fields ∧ fields ≠ [] ∧
     get (request_spec r) (lit "fields") ≫= read_list read_field = Some fields) ∧
  (parse_request (choices se) args = Ok r →
   ∃ qs, parse_questions (default Null (get args (lit "questions"))) = Ok qs ∧
     1 ≤ length qs ≤ 4 ∧ Forall usable qs ∧ NoDup (header <$> qs) ∧
     get (request_spec r) (lit "questions") ≫= read_list read_question = Some qs).
Proof.
  split; unfold identity_intake, choices; cbn [parse_request].
  - destruct (parse_fields _) as [fields|] eqn:E; [|done]. intros [= <-]. exists fields.
    split; [done|]. split; [by eapply parse_fields_nonempty|]. exact (read_list_json _ _ _ read_field_json).
  - destruct (parse_questions _) as [qs|] eqn:E; [|done]. intros [= <-]. exists qs. split; [done|].
    unfold parse_questions in E. destruct (as_array _) as [items|]; [|done]. cbn [ok_or mbind result_bind] in E.
    destruct (_ && _) eqn:Eb; [|done]. apply andb_true_iff in Eb as [H1%Nat.leb_le H4%Nat.leb_le]. cbn [negb] in E.
    apply parse_questions_go_usable in E as (Hl & Hu & Hd & _).
    split_and!; [lia|lia|done|done|]. exact (read_list_json _ _ _ read_question_json).
Qed.

(** C30. What an identity intake resumes its turn with is canonical whatever was typed: every
    required field is there, no value is blank or padded, the email stands for itself under
    normalisation and the phone is E.164; and submitting it again changes nothing, unless it
    is the empty submission. *)
Theorem intake_validated `{!JsonText} se fields values c :
  validate (identity_intake se) (Object [field "fields" (Array (field_json <$> fields))]) values = Ok c →
  ∃ out, read_intake_values c = Some out ∧
    (∀ f, f ∈ fields → required f = true → value_of out (key f) ≠ None) ∧
    (∀ k s, value_of out k = Some s → s ≠ [] ∧ trim s = s) ∧
    (∀ e, iv_email out = Some e → normalize_email e = Some e) ∧
    (∀ p, iv_phone out = Some p → e164 p) ∧
    (c = Object [] ∨
     validate (identity_intake se) (Object [field "fields" (Array (field_json <$> fields))]) c = Ok c).
Proof.
  intros (v & out & _ & Hv & ->)%intake_validate_inv. exists out.
  apply validate_intake_canonical in Hv as (_ & Hs & Hreq & He & Hp & Hv).
  split_and!; [apply read_intake_values_json|done..|]. destruct (values_empty out) eqn:E.
  - left. by apply values_empty_json.
  - right. by apply intake_validate_json.
Qed.

(** C31. What a choices raise resumes its turn with answers it: one answer per question in the
    questions' order, each naming its question, in normal form, every picked label offered,
    at least one pick and exactly one where the question is single-select; and submitting it
    again changes nothing. *)
Theorem choices_validated `{!JsonText} se qs values c :
  qs ≠ [] →
  validate (choices se) (Object [field "questions" (Array (question_json <$> qs))]) values = Ok c →
  (∃ out, read_choice_values c = Some out ∧ Forall2 answers qs out) ∧
  validate (choices se) (Object [field "questions" (Array (question_json <$> qs))]) c = Ok c.
Proof.
  intros Hqs. rewrite !choices_validate_json. destruct (read_choice_values values) as [v|]; [|done].
  destruct (validate_choices qs v) as [out|] eqn:E; [|done]. intros [= <-].
  apply validate_choices_answers in E as [H2 Hv]; [|done].
  rewrite read_choice_values_json, Hv. split; [by exists out|done].
Qed.

(** A parked turn takes its own answer and no other: on the resolutions its shared
    channel delivers, it drops those of other parks, returns on the first for its id what the
    visitor submitted or that they declined, leaving the rest for the next park, and without
    one for its id ends at the deadline with a no-response result. *)
Theorem park_takes_its_own id arrivals :
  (∃ stale r rest, arrivals = stale ++ r :: rest ∧ res_interaction_id r = id ∧
     (∀ s, s ∈ stale → res_interaction_id s ≠ id) ∧ await_outcome id arrivals = (resolved (res_outcome r), rest)) ∨
  ((∀ s, s ∈ arrivals → res_interaction_id s ≠ id) ∧ await_outcome id arrivals = (no_response, [])).
Proof.
  induction arrivals as [|r rest IH]; simpl.
  { right. split; [by intros s ?%elem_of_nil|done]. }
  destruct (str_eqb (res_interaction_id r) id) eqn:E.
  - apply str_eqb_true in E. left. exists [], r, rest. split_and!; [done|done|by intros s ?%elem_of_nil|done].
  - apply str_eqb_false in E. destruct IH as [(stale & r' & rest' & -> & Hr & Hs & ->)|[Hs ->]].
    + left. exists (r :: stale), r', rest'. split_and!; [done|done| |done].
      intros s [->|Hin]%elem_of_cons; [done|by apply Hs].
    + right. split; [|done]. intros s [->|Hin]%elem_of_cons; [done|by apply Hs].
Qed.

(** A submission of blanks passes as an empty one when nothing is required, although an
    absent one is refused: the emptiness check comes before the blanks are dropped. *)
Lemma blank_values_accepted `{!JsonText} se :
  validate (identity_intake se) (Object [field "fields" (Array [field_json (mk_IntakeField KeyName false None)])])
    (Object [field "name" (jstr " ")]) = Ok (Object []) ∧
  ∃ errors, validate (identity_intake se)
      (Object [field "fields" (Array [field_json (mk_IntakeField KeyName false None)])]) (Object []) = Err errors.
Proof. split; [reflexivity|]. eexists. reflexivity. Qed.

(** A two-pick answer in the wrong order comes back in the questions' order. *)
Lemma answers_reordered `{!JsonText} se :
  let q h := mk_ChoiceQuestion (lit "Which?") (lit h) [mk_ChoiceOption (lit "A") []; mk_ChoiceOption (lit "B") []] false in
  let a h l := mk_ChoiceAnswer (lit h) [lit l] None in
  validate (choices se) (Object [field "questions" (Array (question_json <$> [q "x"; q "y"]))])
    (Object [field "answers" (Array (answer_json <$> [a "y" "B"; a "x" "A"]))]) =
  Ok (Object [field "answers" (Array (answer_json <$> [a "x" "A"; a "y" "B"]))]).
Proof. reflexivity. Qed.

(** ** Concrete raises *)

Module Demo.
Import Approvals.Demo.
Definition se (v : Value) : str := lit "?".
Definition intake_args : Value :=
  Object [field "fields" (Array [jstr "name"; Object [field "key" (jstr "email"); field "required" (Bool true)]])].
Definition fields : list IntakeField :=
  [mk_IntakeField KeyName true None; mk_IntakeField KeyEmail true None; mk_IntakeField KeyPhone false None].
Definition typed : Value :=
  Object [field "name" (jstr "  Ann "); field "email" (jstr "Ann@Example.COM"); field "phone" (jstr "(555) 123-4567")].
Definition canonical : Value :=
  Object [field "name" (jstr "Ann"); field "email" (jstr "Ann@example.com"); field "phone" (jstr "+15551234567")].
Definition qs : list ChoiceQuestion :=
  [mk_ChoiceQuestion (lit "Which plan?") (lit "plan")
     [mk_ChoiceOption (lit "Basic") []; mk_ChoiceOption (lit "Pro") []] false].
Definition picked (l : string) : Value :=
  Object [field "answers" (Array [answer_json (mk_ChoiceAnswer (lit "plan") [lit l] None)])].
End Demo.
Import Demo.

Lemma intake_validated_witness :
  ∃ out, read_intake_values canonical = Some out ∧
    (∀ f, f ∈ fields → required f = true → value_of out (key f) ≠ None) ∧
    (∀ k s, value_of out k = Some s → s ≠ [] ∧ trim s = s) ∧
    (∀ e, iv_email out = Some e → normalize_email e = Some e) ∧
    (∀ p, iv_phone out = Some p → e164 p) ∧
    (canonical = Object [] ∨
     validate (@identity_intake Approvals.Demo.demo_json se) (Object [field "fields" (Array (field_json <$> fields))]) canonical =
       Ok canonical).
Proof. apply (@intake_validated Approvals.Demo.demo_json se fields typed canonical). vm_compute. reflexivity. Defined.

Lemma choices_validated_witness :
  (∃ out, read_choice_values (picked "Pro") = Some out ∧ Forall2 answers qs out) ∧
  validate (@choices Approvals.Demo.demo_json se) (Object [field "questions" (Array (question_json <$> qs))]) (picked "Pro") =
    Ok (picked "Pro").
Proof.
  apply (@choices_validated Approvals.Demo.demo_json se qs (picked " Pro ") (picked "Pro")); [discriminate|].
  vm_compute. reflexivity.
Defined.

(** The raise of [intake_args] parses, and announces both fields. *)
Lemma raised_contract_witness :
  ∃ r fs, parse_request (@identity_intake Approvals.Demo.demo_json se) intake_args = Ok r ∧ fs ≠ [] ∧
    get (request_spec r) (lit "fields") ≫= read_list read_field = Some fs.
Proof.
  destruct (parse_request (@identity_intake Approvals.Demo.demo_json se) intake_args) as [r|] eqn:E; [|vm_compute in E; discriminate].
  destruct (proj1 (@raised_contract Approvals.Demo.demo_json se intake_args r) E) as (fs & _ & Hfs & Hr).
  by exists r, fs.
Defined.
