(* ===== verification/TurnTail.v ===== *)
(** * TurnTail: what a finished turn does ([server/src/handler.rs])

    The end of the task [handle_send_message] spawns: the durable workflow pointer, the OTP
    offer, the answer or the recorded failure, each behind a fresh read of the turn's
    cancelled flag; and the detached job that names a conversation after its first answer. *)

From stdpp Require Import prelude gmap strings list.
From Stdlib Require Import SpecFloat.
From S2P Require Import Prelude Text AccessControl Json Storage Agents AppState Protocol Scope Conversations.
From S2P Require Import Sessions Turns Approvals Suggestions Replay TurnRun.

(** [0.5_f64]. *)
Definition f64_0_5 : spec_float := S754_finite false 4503599627370496 (-53).

Definition general_agent_response `{!Lowercase, !Alphanumeric} (reply : str) (suggested_next_actions : list str) : Value :=
  Object [field "responseParts" (Array [String (collapse_repetition reply)]);
          field "customerHappinessScore" (Float f64_0_5); field "needsSatisfactionScore" (Float f64_0_5);
          field "requestSummary" (jstr ""); field "resolutionStatus" (jstr "in_progress");
          field "suggestedNextActions" (Array (String <$> suggested_next_actions))].

(** The conversation and the exchange a title is asked for. *)
Record TitleJob := mk_TitleJob { title_conversation : str; title_user : str; title_reply : str }.

(** The readings of the cancelled flag: when the run returned, before an OTP dispatch, and
    before the answer is sent. *)
Record FlagReads := mk_FlagReads { at_return : bool; at_otp : bool; at_emit : bool }.

(** The flag is set once and never reset, so a later reading is no lower. *)
Definition reads_monotone (f : FlagReads) : Prop :=
  (at_return f = true → at_otp f = true) ∧ (at_otp f = true → at_emit f = true).

Section tail.
Context {S : Type} `{!StorageAdapter S, !Attachments, !Lowercase, !Alphanumeric}.
Context (otp_service : option OtpService).
Implicit Types (w : World S).

Definition persist_pointer (plan : TurnPlan) (turn : TurnResult) (now : Timestamp) w : World S :=
  match turn_next_step_id turn with
  | Some step =>
      let '(persist_step, persist_attempts) :=
        match plan_workflow plan with
        | Some (wf, before) => apply_step_cap wf before step (plan_attempts plan) WORKFLOW_STEP_ATTEMPT_CAP
        | None => (step, 0%N)
        end in
      set_storage (persist_workflow_step (sess_conversation_id (plan_session plan)) persist_step
                     persist_attempts now (storage (app w))) w
  | None => w
  end.

(** [refused] is the tool the turn's gate refused for lack of a verified session. *)
Definition offer_after_turn (plan : TurnPlan) (refused : option str) (cancelled : bool) (ts : Z) w : World S :=
  match refused, otp_service with
  | Some tool, Some otp =>
      let sid := session_id (plan_session plan) in
      let contact := session_contact sid (app w) in
      if contact_is_empty contact || cancelled then w
      else offer_otp otp sid tool contact (plan_request_id plan) ts w
  | _, _ => w
  end.

Definition turn_answer (plan : TurnPlan) (turn : TurnResult) (ts : Z) : Value :=
  eventual_response ts (plan_request_id plan) 200 (turn_message_id turn)
    (general_agent_response (turn_reply turn) (turn_suggested_next_actions turn)) false
    (citation_json <$> turn_citations turn) (turn_usage turn) (turn_directive turn).

Definition turn_failure (plan : TurnPlan) (e : Prelude.error) (ts : Z) : Value :=
  Protocol.error ts (Some (plan_request_id plan)) "AGENT_ERROR" (lit "agent turn failed: " ++ show_err e).

(** [id] is the fresh id of the record of a failure. *)
Definition turn_tail (plan : TurnPlan) (refused : option str) (r : result Prelude.error TurnResult)
    (f : FlagReads) (id : str) (now : Timestamp) (ts : Z) w : World S * option TitleJob :=
  if at_return f then (w, None)
  else
    match r with
    | Ok turn =>
        let w := persist_pointer plan turn now w in
        let w := offer_after_turn plan refused (at_otp f) ts w in
        if at_emit f then (w, None)
        else (send (turn_answer plan turn ts) w,
              Some (mk_TitleJob (sess_conversation_id (plan_session plan)) (plan_message plan) (turn_reply turn)))
    | Err e =>
        if at_otp f then (w, None)
        else
          let s := (persist_turn_error id now (sess_conversation_id (plan_session plan)) (plan_request_id plan)
                      (lit "AGENT_ERROR") (lit "agent turn failed: " ++ show_err e) (storage (app w))).2 in
          (send (turn_failure plan e ts) (set_storage s w), None)
    end.
End tail.

(** ** Naming a conversation *)

Definition AUTO_TITLE_MAX_TOKENS : Z := 512.
Definition AUTO_TITLE_MODEL : str := lit "groq-gpt-oss-20b".

(** [0.3_f64]. *)
Definition f64_0_3 : spec_float := S754_finite false 5404319552844595 (-54).

Definition title_request_body (user_message reply : str) : Value :=
  let prompt := lit "Give this conversation a short 3-6 word title. Reply with ONLY the title, no quotes." ++ lf ++ lf ++
                lit "User: " ++ take 500 user_message ++ lf ++ lit "Assistant: " ++ take 500 reply in
  Object [field "max_tokens" (Int AUTO_TITLE_MAX_TOKENS); field "model" (String AUTO_TITLE_MODEL);
          field "temperature" (Float f64_0_3);
          field "messages" (Array [Object [field "role" (jstr "user"); field "content" (String prompt)]])].

(** What [generate_title] reads of the gateway's answer, if one decoded. *)
Definition title_of_response (resp : Value) : option str :=
  choices ← get resp (lit "choices");
  first ← (as_array choices ≫= λ l, l !! 0);
  message ← get first (lit "message");
  content ← get message (lit "content");
  as_str content.

Section auto_title.
Context {S : Type} `{!StorageAdapter S, !Attachments}.
Context (host : Host).
(** The gateway: url, key and body to its decoded answer, [None] on any failure. *)
Context (post : str → str → Value → option Value).

Definition default_named (c : Conversation) : bool := starts_with DEFAULT_CONVERSATION_NAME_PREFIX (conv_name c).

Definition generate_title (key user_message reply : str) : option str :=
  post (trim_end_matches (λ c, c =? 47)%N (gateway_url (config host)) ++ lit "/chat/completions") key
    (title_request_body user_message reply) ≫= title_of_response.

(** Up to the moment the title is known. *)
Definition auto_title_begin (job : TitleJob) (s : S) : option str :=
  match get_conversation s (title_conversation job) with
  | Ok (Some c) =>
      if negb (default_named c) then None
      else
        key ← resolve_gateway_key (gateway_key_resolver host) (conv_organization_id c) (gateway_key (config host));
        raw ← generate_title key (title_user job) (title_reply job);
        let title := sanitize_title raw in
        if str_is_empty title then None else Some title
  | Ok None | Err _ => None
  end.

(** The write, on the store as it is by then. *)
Definition auto_title_write (job : TitleJob) (title : str) (now : Timestamp) (s : S) : S :=
  let write := (update_conversation (title_conversation job)
                  (mk_ConversationUpdate (Some title) None None) now s).2 in
  match get_conversation s (title_conversation job) with
  | Ok (Some c) => if negb (default_named c) then s else write
  | Ok None | Err _ => write
  end.

(** [maybe_auto_title], [s] the store when it starts and [s'] when the model has answered. *)
Definition maybe_auto_title (job : TitleJob) (now : Timestamp) (s s' : S) : S :=
  match auto_title_begin job s with
  | Some title => auto_title_write job title now s'
  | None => s'
  end.
End auto_title.

(** ** Lemmas *)

Section tail_lemmas.
Context {S : Type} `{!StorageAdapter S, !Attachments, !Lowercase, !Alphanumeric}.
Context (otp_service : option OtpService).
Implicit Types (w : World S).

Lemma persist_pointer_events plan turn now w : events (persist_pointer plan turn now w) = events w.
Proof. unfold persist_pointer. by repeat case_match. Qed.

(** The events that end a turn for the clients of the protocol
    ([typescript/src/client.ts], [python/src/smooth_operator/client.py]): the answer, any error
    and the notice of a cancellation, under the turn's request. *)
Definition TURN_TERMINAL : list str := lit <$> ["eventual_response"; "error"; "cancelled"]%string.
Definition is_terminal (rid : str) (ev : Value) : bool :=
  bool_decide (event_request_id ev = Some rid) &&
  is_some_and (λ t, bool_decide (t ∈ TURN_TERMINAL)) (event_type ev).

Lemma turn_answer_terminal plan turn ts : is_terminal (plan_request_id plan) (turn_answer plan turn ts) = true.
Proof. unfold is_terminal. rewrite bool_decide_true by done. done. Qed.

Lemma error_terminal ts rid code message : is_terminal rid (Protocol.error ts (Some rid) code message) = true.
Proof. unfold is_terminal. rewrite bool_decide_true by done. done. Qed.

Lemma not_terminal rid ev : is_some_and (λ t, bool_decide (t ∈ TURN_TERMINAL)) (event_type ev) = false → is_terminal rid ev = false.
Proof. intros Ht. unfold is_terminal. by rewrite Ht, andb_false_r. Qed.

Definition code_not_sent (plan : TurnPlan) (e : Prelude.error) (ts : Z) : Value :=
  Protocol.error ts (Some (plan_request_id plan)) "OTP_SEND_FAILED" (lit "failed to send verification code: " ++ show_err e).

(** Why no code could be sent, when one was due: the turn's gate refused a tool, and there is
    a service and a contact. *)
Definition undelivered (plan : TurnPlan) (refused : option str) w : option Prelude.error :=
  _ ← refused; otp ← otp_service;
  let sid := session_id (plan_session plan) in
  let contact := session_contact sid (app w) in
  if contact_is_empty contact then None
  else match send_otp otp sid contact with Ok _ => None | Err e => Some e end.

Lemma persist_pointer_undelivered plan refused turn now w :
  undelivered plan refused (persist_pointer plan turn now w) = undelivered plan refused w.
Proof. unfold persist_pointer. by repeat case_match. Qed.

(** Of what an offer sends, only the failure to send the code ends the turn. *)
Lemma offer_after_turn_events plan refused cancelled ts w :
  ∃ o, events (offer_after_turn otp_service plan refused cancelled ts w) = events w ++ o ∧
       (cancelled = true ∨ refused = None → o = []) ∧
       List.filter (is_terminal (plan_request_id plan)) o =
         match undelivered plan refused w with
         | Some e => if cancelled then [] else [code_not_sent plan e ts]
         | None => []
         end.
Proof.
  unfold offer_after_turn, undelivered.
  destruct refused as [tool|]; [|exists []; by rewrite app_nil_r].
  destruct otp_service as [otp|]; [|exists []; by rewrite app_nil_r]. simpl.
  destruct (contact_is_empty _); [exists []; by rewrite app_nil_r|].
  destruct cancelled; simpl; [exists []; rewrite app_nil_r; by destruct (send_otp _ _ _)|].
  unfold offer_otp, send. destruct (send_otp otp _ _) as [d|e]; cbn [events]; rewrite <- (assoc_L (++));
    (eexists; split; [reflexivity|]; split; [by intros [|]|]); rewrite List.filter_app; cbn [List.filter]; rewrite ?error_terminal, !not_terminal by done; done.
Qed.
End tail_lemmas.

Section properties.
Context {S : Type} `{!StorageAdapter S, !Attachments, !Lowercase, !Alphanumeric}.
Context (otp_service : option OtpService).
Implicit Types (w : World S).

(** C6. How a turn ends, in its client's eyes.  One that is not cancelled closes with an event that
    ends it: the answer, and then a title is asked for, or the failure, put on record first.
    Nothing before that ends it, except the failure to send the verification code a refused
    tool called for, which comes once and before the answer: such a turn ends twice.  A turn
    cancelled before it returned changes and says nothing; before the OTP dispatch, nobody is
    sent a code and no end is announced; and before the emission, no answer is. *)
Theorem tail_ends_once plan refused r f id now ts w (Hf : reads_monotone f) :
  let '(w', job) := turn_tail otp_service plan refused r f id now ts w in
  let failed_code := match r, undelivered otp_service plan refused w with
                     | Ok _, Some e => [code_not_sent plan e ts]
                     | _, _ => []
                     end in
  (at_emit f = false →
     ∃ otp ev, events w' = events w ++ otp ++ [ev] ∧ is_terminal (plan_request_id plan) ev = true ∧
       List.filter (is_terminal (plan_request_id plan)) otp = failed_code ∧ (refused = None → otp = []) ∧
       match r with
       | Ok turn => ev = turn_answer plan turn ts ∧
           job = Some (mk_TitleJob (sess_conversation_id (plan_session plan)) (plan_message plan) (turn_reply turn))
       | Err e => ev = turn_failure plan e ts ∧ otp = [] ∧ job = None ∧
           storage (app w') = (persist_turn_error id now (sess_conversation_id (plan_session plan))
             (plan_request_id plan) (lit "AGENT_ERROR") (lit "agent turn failed: " ++ show_err e) (storage (app w))).2
       end) ∧
  (at_return f = true → w' = w ∧ job = None) ∧
  (at_otp f = true → events w' = events w ∧ job = None) ∧
  (at_emit f = true → is_ok r = true →
     job = None ∧ ∃ otp, events w' = events w ++ otp ∧
       List.filter (is_terminal (plan_request_id plan)) otp = if at_otp f then [] else failed_code).
Proof.
  destruct Hf as [Hf1 Hf2]. unfold turn_tail. destruct (at_return f) eqn:E1.
  { rewrite (Hf2 (Hf1 eq_refl)), (Hf1 eq_refl). split_and!; [done|done|done|]. intros _ _. split; [done|].
    exists []. by rewrite app_nil_r. }
  destruct r as [turn|e].
  - destruct (offer_after_turn_events otp_service plan refused (at_otp f) ts (persist_pointer plan turn now w))
      as (o & Ho & Hnone & Hends). rewrite persist_pointer_events in Ho. rewrite persist_pointer_undelivered in Hends.
    destruct (at_emit f) eqn:E3; simpl.
    + split_and!; [done|done| |].
      * intros E2. split; [|done]. by rewrite Ho, Hnone, app_nil_r by by left.
      * intros _ _. split; [done|]. exists o. split; [done|]. rewrite Hends.
        by destruct (undelivered _ _ _ _), (at_otp f).
    + assert (at_otp f = false) as E2 by (destruct (at_otp f); [by specialize (Hf2 eq_refl)|done]).
      rewrite E2 in *. split_and!; [|done|done|done].
      intros _. exists o, (turn_answer plan turn ts). rewrite Ho, <- (assoc_L (++)).
      split_and!; [done|apply turn_answer_terminal|done| |done|done].
      intros ->. by apply Hnone; right.
  - destruct (at_otp f) eqn:E2; simpl.
    + rewrite (Hf2 eq_refl). split_and!; [done|done|done|done].
    + split_and!; [|done|done|done]. intros _. exists [], (turn_failure plan e ts).
      split_and!; [done|apply error_terminal|done..].
Qed.

(** A code that cannot be sent ends the turn before its answer does: a client that stops at
    the first end never reads the answer. *)
Theorem failed_code_hides_answer plan refused turn id now ts w e :
  undelivered otp_service plan refused w = Some e →
  let w' := (turn_tail otp_service plan refused (Ok turn) (mk_FlagReads false false false) id now ts w).1 in
  ∃ prompt, events w' = events w ++ [prompt; code_not_sent plan e ts; turn_answer plan turn ts] ∧
    is_terminal (plan_request_id plan) prompt = false ∧
    is_terminal (plan_request_id plan) (code_not_sent plan e ts) = true ∧
    is_terminal (plan_request_id plan) (turn_answer plan turn ts) = true.
Proof.
  unfold turn_tail, undelivered. simpl. destruct refused as [tool|]; [|done]. destruct otp_service as [otp|]; [|done].
  simpl. intros Hu. unfold offer_after_turn.
  assert (session_contact (session_id (plan_session plan)) (app (persist_pointer plan turn now w)) =
          session_contact (session_id (plan_session plan)) (app w)) as -> by (unfold persist_pointer; by repeat case_match).
  destruct (contact_is_empty _); [done|]. simpl. unfold offer_otp. destruct (send_otp _ _ _); [done|].
  injection Hu as ->. simpl. rewrite persist_pointer_events, <- !(assoc_L (++)). eexists. split; [reflexivity|].
  split_and!; [by apply not_terminal|apply error_terminal|apply turn_answer_terminal].
Qed.
End properties.

Section workflow.
Context `{!Attachments, !Lowercase, !Alphanumeric}.
Context (otp_service : option OtpService).

Lemma offer_after_turn_storage plan refused cancelled ts (w : World Tables) :
  storage (app (offer_after_turn otp_service plan refused cancelled ts w)) = storage (app w).
Proof.
  unfold offer_after_turn. destruct refused; [|done]. destruct otp_service; [|done]. cbv zeta.
  destruct (_ || _); [done|]. unfold offer_otp. by destruct (send_otp _ _ _).
Qed.

Lemma apply_step_cap_bound wf before judged n :
  (n < 2 ^ 32)%N → ((apply_step_cap wf before judged n WORKFLOW_STEP_ATTEMPT_CAP).2 < 2 ^ 32)%N.
Proof.
  intros Hn. unfold apply_step_cap. destruct (step_id <$> _); [|simpl; lia].
  destruct (negb _); [simpl; lia|]. cbv zeta. case_match; simpl; [lia|]. apply N.mod_lt. lia.
Qed.

(** C15. The durable pointer is the abstract one: a completed turn leaves in the conversation's
    metadata exactly the step and the attempt count the workflow's specification gives for
    the judge's answer and the reply, so the next turn, on any pod, starts from there; and a
    turn cancelled before it returned leaves the pointer where it was. *)
Theorem durable_pointer_refines plan wf before judge turn f refused id now ts (w : World Tables) c
    (Hwf : plan_workflow plan = Some (wf, before)) (Hn : (plan_attempts plan < 2 ^ 32)%N)
    (Hnext : turn_next_step_id turn = Some (judge_next_step judge wf before (turn_reply turn)))
    (Hc : conversations (storage (app w)) !! sess_conversation_id (plan_session plan) = Some c) :
  let w' := (turn_tail otp_service plan refused (Ok turn) f id now ts w).1 in
  load_workflow_step (storage (app w')) (sess_conversation_id (plan_session plan)) =
    if at_return f then load_workflow_step (storage (app w)) (sess_conversation_id (plan_session plan))
    else turn_pointer wf judge (turn_reply turn) (before, plan_attempts plan).
Proof.
  simpl. unfold turn_tail. destruct (at_return f); [done|].
  match goal with |- context [if at_emit f then (?w0, None) else (?w1, ?j)] =>
    assert (Hst : storage (app (if at_emit f then (w0, None) else (w1, j)).1) = storage (app w0))
      by (by destruct (at_emit f)); rewrite Hst; clear Hst end.
  rewrite offer_after_turn_storage. unfold persist_pointer. rewrite Hnext, Hwf. unfold turn_pointer. simpl fst. simpl snd.
  pose proof (apply_step_cap_bound wf before (judge_next_step judge wf before (turn_reply turn)) _ Hn) as Hb.
  destruct (apply_step_cap _ _ _ _ _) as [step n]. exact (load_persisted_step _ _ c _ _ now Hc Hb).
Qed.
End workflow.

(** ** Naming: properties *)

Section naming.
Context `{!Attachments}.
Context (host : Host) (post : str → str → Value → option Value).

Lemma auto_title_begin_Some (job : TitleJob) (t : Tables) title :
  auto_title_begin host post job t = Some title →
  title ≠ [] ∧ length title ≤ TITLE_MAX ∧
  ∃ c, conversations t !! title_conversation job = Some c ∧ default_named c = true.
Proof.
  unfold auto_title_begin. simpl. unfold InMemory.get_conversation.
  destruct (conversations t !! title_conversation job) as [c|]; [|done].
  destruct (default_named c) eqn:En; [|done]. simpl.
  destruct (resolve_gateway_key _ _ _) as [key|]; [|done]. simpl.
  destruct (generate_title _ _ _ _ _) as [raw|]; [|done]. simpl.
  destruct (str_is_empty (sanitize_title raw)) eqn:Ee; [done|]. intros [= <-].
  apply str_is_empty_false in Ee. split; [done|]. split; [apply sanitize_title_length|]. by exists c.
Qed.

(** The title job only ever fills in a default name: it writes nothing when the conversation
    had another name as it started, or has one by the time the model answers; what it writes
    is a non-empty title of at most [TITLE_MAX] characters, to that conversation alone, and
    everything else about it stays. *)
Theorem auto_title_scope (job : TitleJob) now (t t' : Tables) :
  let cid := title_conversation job in
  let t'' := maybe_auto_title host post job now t t' in
  (∀ c, conversations t !! cid = Some c → default_named c = false → t'' = t') ∧
  (∀ c, conversations t' !! cid = Some c → default_named c = false → t'' = t') ∧
  (t'' = t' ∨ ∃ c title, conversations t' !! cid = Some c ∧ default_named c = true ∧
     title ≠ [] ∧ length title ≤ TITLE_MAX ∧
     t'' = mk_Tables (<[cid := InMemory.apply_conversation_update (mk_ConversationUpdate (Some title) None None) now c]>
                        (conversations t')) (participants t') (messages t') (message_order t') (Storage.sessions t')).
Proof.
  intros cid. cbv zeta. unfold maybe_auto_title.
  destruct (auto_title_begin host post job t) as [title|] eqn:E; [|by split_and!; [..|left]].
  destruct (auto_title_begin_Some _ _ _ E) as (Hne & Hlen & c0 & Hc0 & Hn0). fold cid in Hc0.
  unfold auto_title_write. simpl. unfold InMemory.get_conversation, InMemory.update_conversation. fold cid.
  split_and!.
  - intros c Hc Hn. rewrite Hc0 in Hc. congruence.
  - intros c Hc Hn. by rewrite Hc, Hn.
  - destruct (conversations t' !! cid) as [c|] eqn:Ec; [|by left].
    destruct (default_named c) eqn:En; simpl; [right|by left]. by exists c, title.
Qed.

(** A name is known for a default one by its prefix alone: a conversation somebody renamed to
    a name of that shape is titled over, whenever the rename landed. *)
Theorem session_prefixed_rename_lost (job : TitleJob) now (t t' : Tables) title c
    (Htitle : auto_title_begin host post job t = Some title)
    (Hc : conversations t' !! title_conversation job = Some c)
    (Hname : starts_with (lit "Session ") (conv_name c) = true) :
  ∃ c', conversations (maybe_auto_title host post job now t t') !! title_conversation job = Some c' ∧
        conv_name c' = title.
Proof.
  unfold maybe_auto_title. rewrite Htitle. unfold auto_title_write. simpl.
  unfold InMemory.get_conversation, InMemory.update_conversation. rewrite Hc.
  unfold default_named. change DEFAULT_CONVERSATION_NAME_PREFIX with (lit "Session "). rewrite Hname. simpl.
  rewrite lookup_insert_eq. by eexists.
Qed.
End naming.

(** ** Concrete ends *)

Module Demo.
Import Storage.Demo Turns.Demo.
#[export] Instance demo_alphanumeric : Alphanumeric := {| is_alphanumeric c := negb (is_whitespace c) |}.

Definition said : TurnResult := mk_TurnResult (lit "Done.") (lit "a1") false [] None (Some (lit "ask")) [] None.
Definition never : FlagReads := mk_FlagReads false false false.
Definition late : FlagReads := mk_FlagReads false false true.

(** A workflow of two steps, and the plan of a turn on its first. *)
Definition wf : ConversationWorkflow :=
  mk_Workflow (lit "g") [mk_Step (lit "ask") (lit "i") (lit "c") (Some (lit "end")) None;
                         mk_Step (lit "end") (lit "i") (lit "c") None None].
Definition wf_plan : TurnPlan :=
  mk_TurnPlan _ sess1 (lit "q") (lit "hi") [] [] (llm_config_with_key server (lit "k")) None (lit "acme")
    AccessContext.anonymous 8 (None, BuiltIn) None None None None None None None (Some (wf, None)) 2 None None None [].
Definition w : World Tables := mk_World (new t0) [].

Definition renamed : Tables :=
  (update_conversation (lit "c1") (mk_ConversationUpdate (Some (lit "Session notes")) None None) 8%Z t0).2.
Definition titled : Tables :=
  (update_conversation (lit "c1") (mk_ConversationUpdate (Some (lit "Session 1")) None None) 8%Z t0).2.
Definition gateway (url key : str) (body : Value) : option Value :=
  Some (Object [field "choices" (Array [Object [field "message" (Object [field "content" (jstr "Refund request")])]])]).
Definition job : TitleJob := mk_TitleJob (lit "c1") (lit "hi") (lit "Done.").
End Demo.
Import Storage.Demo Turns.Demo TurnTail.Demo.

Lemma tail_ends_once_witness :
  ∃ otp ev, events (turn_tail None wf_plan None (Ok said) never (lit "e") 9%Z 9 w).1 = otp ++ [ev] ∧
            is_terminal (lit "q") ev = true.
Proof.
  pose proof (tail_ends_once None wf_plan None (Ok said) never (lit "e") 9%Z 9 w ltac:(by split)) as Hend.
  destruct (turn_tail None wf_plan None (Ok said) never (lit "e") 9%Z 9 w) as [w' j].
  destruct (proj1 Hend eq_refl) as (otp & ev & He & Ht & _). by exists otp, ev.
Defined.

Lemma durable_pointer_refines_witness :
  load_workflow_step (storage (app (turn_tail None wf_plan None (Ok said) late (lit "e") 9%Z 9 w).1)) (lit "c1") =
    (Some (lit "end"), 0%N).
Proof.
  rewrite (durable_pointer_refines None wf_plan wf None (Some (Ok (lit "no"))) said late None (lit "e") 9%Z 9 w
    (conv "c1" "k1" 1)); by vm_compute.
Defined.

Lemma session_prefixed_rename_lost_witness :
  ∃ c', conversations (maybe_auto_title (host None) gateway job 9%Z titled renamed) !! lit "c1" = Some c' ∧
        conv_name c' = lit "Refund request".
Proof.
  eapply (session_prefixed_rename_lost (host None) gateway job 9%Z titled renamed (lit "Refund request")); by vm_compute.
Defined.
