(* ===== verification/Bridges.v ===== *)
(** * Bridges: how a turn parks and resumes ([server/src/runner.rs])

    A tool that needs a human's word emits a request and waits.  The tasks that carry such
    requests to the client and back: the confirmation bridge of a turn, its interaction
    bridge, and the process-wide drain of a host's own approval hook; and the spawned
    writes of the durable record of a park, whose two halves (the session cached here, then
    the stored one) other writes can come between. *)

From stdpp Require Import prelude gmap strings list.
From S2P Require Import Prelude Text AccessControl Json Storage Widget AppState Protocol Conversations Sessions Turns Approvals.

Inductive HumanRequest :=
| Confirm (tool_name : str) (arguments : Value) (prompt : str)
| Input (prompt : str).

(** What a raise tool emits. *)
Record InteractionRaise := mk_InteractionRaise {
  raise_id : str;
  raise_kind : str;
  raise_spec : Value;
  raise_reason : str;
}.

(** ** The durable record's writes *)

(** One call of [set_session_meta_key] from its spawn to its end. *)
Inductive Write :=
| ToEdit (session_id key : str) (value : option Value)
| ToStore (session_id : str) (meta : gmap str Value).

Section writes.
Context {S : Type} `{!StorageAdapter S}.

Definition edit_key (session_id key : str) (value : option Value) (a : AppState S) :=
  edit_metadata session_id (λ m, match value with Some v => <[key := v]> m | None => delete key m end) a.

(** One uninterrupted stretch: under the lock, then the storage call. *)
Definition advance (now : Timestamp) (wr : Write) (a : AppState S) : option Write * AppState S :=
  match wr with
  | ToEdit sid key value =>
      match edit_key sid key value a with
      | (None, a) => (None, a)
      | (Some meta, a) => (Some (ToStore sid meta), a)
      end
  | ToStore sid meta => (None, (write_through sid meta now a).2)
  end.

(** The writes in flight, and the scheduler's choice of the next to move. *)
Definition schedule (now : Timestamp) (i : nat) (p : list Write * AppState S) : list Write * AppState S :=
  match p.1 !! i with
  | Some wr =>
      let '(next, a) := advance now wr p.2 in
      (match next with Some wr => <[i := wr]> p.1 | None => delete i p.1 end, a)
  | None => p
  end.

Definition run_schedule (now : Timestamp) (order : list nat) (p : list Write * AppState S) : list Write * AppState S :=
  foldl (λ p i, schedule now i p) p order.
End writes.

(** ** The bridges of a turn *)

(** A frame sent to the client, and the pod as the client's answer to it would find it. *)
Record Shown (S : Type) := mk_Shown { shown_frame : Value; shown_at : AppState S }.
Arguments mk_Shown {S} _ _.
Arguments shown_frame {S} _.
Arguments shown_at {S} _.

(** What a bridge touches: the registries, the client's frames, the answers it gives the
    hook itself, and the writes it spawns, oldest first. *)
Record Carried (S : Type) := mk_Carried {
  c_app : AppState S;
  c_shown : list (Shown S);
  c_verdicts : list HumanResponse;
  c_writes : list Write;
}.
Arguments mk_Carried {S} _ _ _ _.
Arguments c_app {S} _.
Arguments c_shown {S} _.
Arguments c_verdicts {S} _.
Arguments c_writes {S} _.

Definition c_events {S} (c : Carried S) : list Value := shown_frame <$> c_shown c.

(** What passes while a bridge waits for its channel to close: the requests, and between two
    of them whatever the rest of the pod does to the registries; an arriving verdict, which
    takes the registered channel, is one such thing. *)
Inductive BridgeInput (S R : Type) :=
| Request (r : R)
| Meanwhile (f : AppState S → AppState S).
Arguments Request {S R} _.
Arguments Meanwhile {S R} _.

Definition requests {S R} (inputs : list (BridgeInput S R)) : list R :=
  omap (λ i, match i with Request r => Some r | Meanwhile _ => None end) inputs.

(** The bridge's own locals. *)
Record BridgeState := mk_BridgeState { pre_approved : option str; record_outstanding : bool }.

Section bridges.
Context {S : Type}.
Context (request_id session_id : str) (channel : Responder) (durable : bool) (now_unix ts : Z).
Implicit Types (c : Carried S).

(** [persist], when the turn has it: the spawn of a write. *)
Definition persist (key : str) (record : option Value) c : Carried S :=
  if durable
  then mk_Carried (c_app c) (c_shown c) (c_verdicts c) (c_writes c ++ [ToEdit session_id key record])
  else c.

Definition confirmation_record (tool_name : str) (arguments : Value) (prompt : str) : Value :=
  Object [field "tool" (String tool_name); field "arguments" arguments; field "prompt" (String prompt);
          field "requestedAt" (Int now_unix)].

Definition answer_hook (r : HumanResponse) c : Carried S :=
  mk_Carried (c_app c) (c_shown c) (c_verdicts c ++ [r]) (c_writes c).
Definition show_client (ev : Value) c : Carried S :=
  mk_Carried (c_app c) (c_shown c ++ [mk_Shown ev (c_app c)]) (c_verdicts c) (c_writes c).
Definition on_app (f : AppState S → AppState S) c : Carried S :=
  mk_Carried (f (c_app c)) (c_shown c) (c_verdicts c) (c_writes c).

(** One iteration of the confirmation bridge. *)
Definition confirmation_request (req : HumanRequest) (bc : BridgeState * Carried S) : BridgeState * Carried S :=
  let '(b, c) := bc in
  match req with
  | Confirm tool_name arguments prompt =>
      if bool_decide (pre_approved b = Some tool_name)
      then (mk_BridgeState None (record_outstanding b), answer_hook Approved c)
      else
        let c := persist (lit "pendingConfirmation") (Some (confirmation_record tool_name arguments prompt)) c in
        let c := on_app (register_confirmation session_id channel) c in
        (mk_BridgeState (pre_approved b) (record_outstanding b || durable),
         show_client (write_confirmation_required ts request_id tool_name prompt) c)
  | Input _ => (b, answer_hook (Rejected (lit "free-form human input is not supported on this channel")) c)
  end.

(** A loop over the request channel, the pod moving on between two of its iterations. *)
Definition between {B R : Type} (iteration : R → B * Carried S → B * Carried S) (i : BridgeInput S R)
    (bc : B * Carried S) : B * Carried S :=
  match i with
  | Request r => iteration r bc
  | Meanwhile f => (bc.1, on_app f bc.2)
  end.

(** The loop, to the close of the request channel. *)
Definition confirmation_bridge (pre : option str) (inputs : list (BridgeInput S HumanRequest)) c : Carried S :=
  let '(b, c) := foldl (λ bc i, between confirmation_request i bc) (mk_BridgeState pre false, c) inputs in
  if record_outstanding b then persist (lit "pendingConfirmation") None c else c.

Definition interaction_record (r : InteractionRaise) : Value :=
  Object [field "interactionId" (String (raise_id r)); field "kind" (String (raise_kind r));
          field "spec" (raise_spec r)].

Definition interaction_raise (r : InteractionRaise) (bc : bool * Carried S) : bool * Carried S :=
  let '(outstanding, c) := bc in
  let c := persist (lit "pendingInteraction") (Some (interaction_record r)) c in
  let c := on_app (register_interaction session_id
                     (mk_PendingInteraction (raise_id r) (raise_kind r) (raise_spec r) channel)) c in
  (outstanding || durable,
   show_client (interaction_required ts request_id (raise_id r) (raise_kind r) (raise_spec r) (raise_reason r)) c).

Definition interaction_bridge (inputs : list (BridgeInput S InteractionRaise)) c : Carried S :=
  let '(outstanding, c) := foldl (λ bc i, between interaction_raise i bc) (false, c) inputs in
  if outstanding then persist (lit "pendingInteraction") None c else c.
End bridges.

(** The guards armed before a turn can park ([ClearOnDrop]), run at its end or when its
    task is dropped. *)
Definition turn_teardown {S} (session_id : str) (a : AppState S) : AppState S :=
  clear_interaction session_id (clear_confirmation session_id a).

(** ** A host's approval hook

    One hook, one request channel and one answer channel for the process; the turns publish
    themselves as the one to ask. *)

Record TurnTarget := mk_TurnTarget {
  target_sink : nat;
  target_request_id : str;
  target_session_id : str;
}.

Record HostApprover := mk_HostApprover {
  current : option TurnTarget;
  drain_started : bool;
}.

Definition approver_new : HostApprover := mk_HostApprover None false.
Definition activate (t : TurnTarget) (h : HostApprover) : HostApprover := mk_HostApprover (Some t) true.
Definition deactivate (h : HostApprover) : HostApprover := mk_HostApprover None (drain_started h).

(** What the drain does with a request: ask a sink (registering the hook's answer channel
    [hook] under its session), or answer the hook itself. *)
Inductive Drained :=
| Asked (sink : nat) (session : str) (responder : Responder) (frame : Value)
| Answered (r : HumanResponse).

Definition drain (hook : Responder) (ts : Z) (req : HumanRequest) (h : HostApprover) : Drained :=
  match req, current h with
  | Confirm tool_name _ prompt, Some t =>
      Asked (target_sink t) (target_session_id t) hook
        (write_confirmation_required ts (target_request_id t) tool_name prompt)
  | Confirm _ _ _, None => Answered (Rejected (lit "no client is connected to approve this action"))
  | Input _, _ => Answered (Rejected (lit "free-form input is not supported over chat"))
  end.

(** The life of the process, as the approver sees it. *)
Inductive HostStep :=
| TurnStarts (t : TurnTarget)
| TurnEnds (t : TurnTarget)
| ToolAsks (by_turn : TurnTarget) (req : HumanRequest).

(** The state after a history, newest step last. *)
Definition host_step (h : HostApprover) (s : HostStep) : HostApprover :=
  match s with
  | TurnStarts t => activate t h
  | TurnEnds _ => deactivate h
  | ToolAsks _ _ => h
  end.
Definition host_after (steps : list HostStep) : HostApprover := foldl host_step approver_new steps.

(** ** Lemmas *)

#[export] Instance HumanResponse_eq_dec : EqDecision HumanResponse.
Proof. solve_decision. Defined.

(** The calls a turn's hook asked about, in order, and those of them that park. *)
Definition confirms (reqs : list HumanRequest) : list (str * Value * str) :=
  omap (λ r, match r with Confirm t a p => Some (t, a, p) | Input _ => None end) reqs.

Fixpoint parks (pre : option str) (calls : list (str * Value * str)) : list (str * Value * str) :=
  match calls with
  | [] => []
  | (t, a, p) :: rest => if bool_decide (pre = Some t) then rest else (t, a, p) :: parks pre rest
  end.

(** The one call the pre-approval lets through. *)
Definition let_through (pre : option str) (calls : list (str * Value * str)) : option (str * Value * str) :=
  find_first (λ c, bool_decide (pre = Some c.1.1)) calls.

Lemma parks_none calls : parks None calls = calls.
Proof. induction calls as [|[[t a] p] calls IH]; simpl; [done|]. by rewrite IH. Qed.

Lemma let_through_none calls : let_through None calls = None.
Proof. by apply find_first_None. Qed.

Lemma let_through_cons pre call calls :
  let_through pre (call :: calls) =
    if bool_decide (pre = Some call.1.1) then Some call else let_through pre calls.
Proof. done. Qed.

Lemma parks_split pre calls : calls ≡ₚ option_list (let_through pre calls) ++ parks pre calls.
Proof.
  unfold let_through. induction calls as [|[[t a] p] calls IH]; simpl; [done|].
  case_bool_decide; [done|]. rewrite IH at 1. by rewrite Permutation_middle.
Qed.

Lemma persist_fields {S} sid durable key record (c : Carried S) :
  let c' := persist sid durable key record c in
  c_app c' = c_app c ∧ c_shown c' = c_shown c ∧ c_verdicts c' = c_verdicts c ∧
  c_writes c' = c_writes c ++ (if durable then [ToEdit sid key record] else []).
Proof. unfold persist. destruct durable; simpl; by rewrite ?app_nil_r. Qed.

Section bridge_lemmas.
Context {S : Type} (request_id session_id : str) (channel : Responder) (durable : bool) (now_unix ts : Z).
Implicit Types (c : Carried S).

Definition prompt_of (call : str * Value * str) : Value :=
  write_confirmation_required ts request_id call.1.1 call.2.
Definition record_write (call : str * Value * str) : Write :=
  ToEdit session_id (lit "pendingConfirmation") (Some (confirmation_record now_unix call.1.1 call.1.2 call.2)).

Abbreviation step := (λ bc i, between (confirmation_request request_id session_id channel durable now_unix ts) i bc).

(** A verdict that comes as the frame [s] is sent gets the turn's channel. *)
Definition answerable (s : Shown S) : Prop := (take_confirmation session_id (shown_at s)).1 = Some channel.

Lemma confirmation_loop pre out inputs c :
  let '(b, c') := foldl step (mk_BridgeState pre out, c) inputs in
  let calls := confirms (requests inputs) in
  let parked := parks pre calls in
  (∃ new, c_shown c' = c_shown c ++ new ∧ shown_frame <$> new = prompt_of <$> parked ∧ Forall answerable new) ∧
  c_writes c' = c_writes c ++ (if durable then record_write <$> parked else []) ∧
  (∃ vs, c_verdicts c' = c_verdicts c ++ vs ∧
     filter (λ v, v = Approved) vs = (λ _, Approved) <$> option_list (let_through pre calls)) ∧
  record_outstanding b = out || (durable && negb (bool_decide (parked = []))).
Proof.
  revert pre out c. induction inputs as [|[[t a p|p]|f] inputs IH]; intros pre out c.
  - simpl. split_and!; [| | |by destruct out, durable].
    + exists []. by rewrite app_nil_r.
    + destruct durable; by rewrite app_nil_r.
    + exists []. by rewrite app_nil_r.
  - csimpl. rewrite let_through_cons. simpl fst. case_bool_decide as Hp.
    + specialize (IH None out (answer_hook Approved c)). csimpl in IH.
      destruct (foldl step _ inputs) as [b c']. rewrite parks_none, let_through_none in IH.
      destruct IH as (He & Hw & (vs & Hv & Hf) & Ho). simpl in *.
      split_and!; try done. exists (Approved :: vs). rewrite Hv, <- (assoc_L (++)).
      split; [done|]. rewrite filter_cons_True by done. by rewrite Hf.
    + set (c1 := show_client _ _).
      specialize (IH pre (out || durable) c1). destruct (foldl step _ inputs) as [b c'].
      destruct IH as ((new & Hn & He & Hall) & Hw & (vs & Hv & Hf) & Ho). simpl in *.
      rewrite Hn, Hw, Ho. unfold c1. simpl. destruct (persist_fields session_id durable (lit "pendingConfirmation")
        (Some (confirmation_record now_unix t a p)) c) as (_ & Hpe & Hpv & Hpw). split_and!.
      * eexists (_ :: new). rewrite Hpe, <- (assoc_L (++)). split; [done|]. split; [csimpl; by rewrite He|].
        constructor; [apply lookup_insert_eq|done].
      * rewrite Hpw, <- (assoc_L (++)). by destruct durable.
      * exists vs. split; [|done]. by rewrite Hv, Hpv.
      * by destruct out, durable; simpl; rewrite ?orb_true_r.
  - csimpl. set (c1 := answer_hook _ _). specialize (IH pre out c1). destruct (foldl step _ inputs) as [b c'].
    destruct IH as (He & Hw & (vs & Hv & Hf) & Ho). split_and!; try done.
    eexists (_ :: vs). rewrite Hv. unfold c1. simpl. rewrite <- (assoc_L (++)). split; [done|].
    by rewrite filter_cons_False.
  - csimpl. specialize (IH pre out (on_app f c)). destruct (foldl step _ inputs) as [b c']. exact IH.
Qed.
End bridge_lemmas.

(** *** The writes on the in-memory tables *)

(** What the store holds of a session's metadata, and what the pod caches. *)
Definition stored_meta (sid key : str) (a : AppState Tables) : option Value :=
  s ← Storage.sessions (storage a) !! sid; m ← sess_metadata s; m !! key.
Definition cached_meta (sid key : str) (a : AppState Tables) : option Value := session_meta sid key a.

(** The session is known to the pod and to the store. *)
Definition known (sid : str) (a : AppState Tables) : Prop :=
  is_Some (sessions a !! sid) ∧ is_Some (Storage.sessions (storage a) !! sid).

Definition edited (key : str) (value : option Value) (m : gmap str Value) : gmap str Value :=
  match value with Some v => <[key := v]> m | None => delete key m end.

Lemma edited_lookup key value m : edited key value m !! key = value.
Proof. destruct value; simpl; [by rewrite lookup_insert_eq|by rewrite lookup_delete_eq]. Qed.

Section writes_lemmas.
Context (now : Timestamp) (sid key : str).
Implicit Types (a : AppState Tables).

(** The cached metadata of a known session. *)
Definition cached_blob a : gmap str Value := default ∅ (sessions a !! sid ≫= sess_metadata).

Lemma advance_edit value a :
  known sid a →
  ∃ a', advance now (ToEdit sid key value) a = (Some (ToStore sid (edited key value (cached_blob a))), a') ∧
        known sid a' ∧ cached_blob a' = edited key value (cached_blob a) ∧
        cached_meta sid key a' = value ∧ (∀ k, stored_meta sid k a' = stored_meta sid k a).
Proof.
  intros [[s Hs] Hd]. simpl. unfold edit_key. rewrite (edit_metadata_known _ _ _ s Hs).
  assert (Hb : default ∅ (sess_metadata s) = cached_blob a) by (unfold cached_blob; by rewrite Hs).
  rewrite Hb. eexists. split; [reflexivity|]. split_and!.
  - split; [|done]. simpl. rewrite lookup_insert_eq. by eexists.
  - unfold cached_blob at 1. simpl. rewrite lookup_insert_eq. simpl. by destruct value.
  - unfold cached_meta, session_meta. simpl. rewrite lookup_insert_eq. simpl.
    pose proof (edited_lookup key value (cached_blob a)) as He. by destruct value.
  - done.
Qed.

Lemma write_through_cache meta a : sessions (write_through sid meta now a).2 = sessions a.
Proof. unfold write_through. by destruct (update_session _ _ _ _). Qed.

Lemma advance_store meta a :
  known sid a →
  ∃ a', advance now (ToStore sid meta) a = (None, a') ∧ known sid a' ∧
        (∀ k, stored_meta sid k a' = meta !! k) ∧ (∀ k, cached_meta sid k a' = cached_meta sid k a) ∧
        cached_blob a' = cached_blob a.
Proof.
  intros [Hs [d Hd]]. eexists. split; [reflexivity|].
  pose proof (write_through_durable sid meta now a d Hd) as Hw. split_and!.
  - split; [by rewrite write_through_cache|]. rewrite Hw. by eexists.
  - intros k. unfold stored_meta. by rewrite Hw.
  - intros k. unfold cached_meta, session_meta. by rewrite write_through_cache.
  - unfold cached_blob. by rewrite write_through_cache.
Qed.

Lemma schedule_at i ws wr a next a' :
  ws !! i = Some wr → advance now wr a = (next, a') →
  schedule now i (ws, a) = (match next with Some wr => <[i := wr]> ws | None => delete i ws end, a').
Proof. intros Hi Ha. unfold schedule. simpl. by rewrite Hi, Ha. Qed.

(** A write that runs undisturbed, and a list of them one after the other. *)
Lemma schedule_head value ws a :
  known sid a →
  ∃ a', run_schedule now [0; 0] (ToEdit sid key value :: ws, a) = (ws, a') ∧ known sid a' ∧
        stored_meta sid key a' = value ∧ cached_meta sid key a' = value.
Proof.
  intros Hk. destruct (advance_edit value a Hk) as (a1 & E1 & Hk1 & _ & Hc1 & _).
  destruct (advance_store (edited key value (cached_blob a)) a1 Hk1) as (a2 & E2 & Hk2 & Hs2 & Hc2 & _).
  exists a2. unfold run_schedule. cbn [foldl]. erewrite (schedule_at 0); [|reflexivity|exact E1].
  erewrite (schedule_at 0); [|reflexivity|exact E2]. split_and!; [done|done| |].
  - by rewrite Hs2, edited_lookup.
  - by rewrite Hc2.
Qed.

Lemma schedule_in_order values a :
  known sid a → values ≠ [] →
  ∃ a', run_schedule now (concat (replicate (length values) [0; 0]))
          ((ToEdit sid key) <$> values, a) = ([], a') ∧ known sid a' ∧
        Some (stored_meta sid key a') = last values ∧ Some (cached_meta sid key a') = last values.
Proof.
  revert a. induction values as [|v values IH]; intros a Hk Hne; [done|]. cbn [length replicate concat].
  rewrite fmap_cons. unfold run_schedule. rewrite foldl_app.
  destruct (schedule_head v ((ToEdit sid key) <$> values) a Hk) as (a1 & E1 & Hk1 & Hs1 & Hc1).
  unfold run_schedule in E1. rewrite E1. destruct values as [|v' values].
  - exists a1. simpl. by rewrite Hs1, Hc1.
  - destruct (IH a1 Hk1 ltac:(done)) as (a2 & E2 & Hk2 & Hs2 & Hc2). exists a2.
    unfold run_schedule in E2. rewrite E2, last_cons. split_and!; [done|done|by rewrite Hs2; destruct (last _)|by rewrite Hc2; destruct (last _)].
Qed.
End writes_lemmas.

(** ** Properties *)

(** C14. A turn asks about every call its hook stopped, in order, and about none twice,
    whatever the rest of the pod does to the registries between two requests: each is shown
    to the client as it came, and each time the turn's channel is registered by then, an
    earlier verdict having taken it or not, so that a verdict sent in answer finds it; except
    the one call a durable approval already covers, which is answered [Approved] without a
    prompt, the first of that name and no other. *)
Theorem every_park_announced {S : Type} rid sid channel durable now_unix ts pre
    (inputs : list (BridgeInput S HumanRequest)) (c : Carried S) :
  let c' := confirmation_bridge rid sid channel durable now_unix ts pre inputs c in
  let calls := confirms (requests inputs) in
  let parked := parks pre calls in
  calls ≡ₚ option_list (let_through pre calls) ++ parked ∧
  (∀ call, let_through pre calls = Some call → pre = Some call.1.1) ∧
  (∃ new, c_shown c' = c_shown c ++ new ∧ shown_frame <$> new = prompt_of rid ts <$> parked ∧
     Forall (λ s, (take_confirmation sid (shown_at s)).1 = Some channel) new) ∧
  ∃ vs, c_verdicts c' = c_verdicts c ++ vs ∧
    length (filter (λ v, v = Approved) vs) = length (option_list (let_through pre calls)).
Proof.
  cbv zeta. unfold confirmation_bridge.
  pose proof (confirmation_loop rid sid channel durable now_unix ts pre false inputs c) as Hl.
  destruct (foldl _ _ inputs) as [b c']. destruct Hl as (He & _ & (vs & Hv & Hf) & _).
  set (c'' := if record_outstanding b then _ else c').
  assert (Hc : c_shown c'' = c_shown c' ∧ c_verdicts c'' = c_verdicts c').
  { unfold c''. destruct (record_outstanding b); [|done].
    destruct (persist_fields sid durable (lit "pendingConfirmation") None c') as (_ & ? & ? & _). done. }
  destruct Hc as (-> & ->). split_and!; [apply parks_split| |exact He|].
  - intros call Hc. apply find_first_Some in Hc as [_ Hc]. by apply bool_decide_eq_true in Hc.
  - exists vs. split; [done|]. by rewrite Hf, length_fmap.
Qed.

(** The record of a park does not outlive the turn: when the writes a bridge spawned run one
    after the other, the last of them retires the record, in the cache and in the store. *)
Theorem bridge_retires_record rid sid channel now_unix ts now pre
    (inputs : list (BridgeInput Tables HumanRequest)) (a : AppState Tables)
    (Hparked : parks pre (confirms (requests inputs)) ≠ []) (Hknown : known sid a) :
  let c := confirmation_bridge rid sid channel true now_unix ts pre inputs (mk_Carried a [] [] []) in
  ∃ a', run_schedule now (concat (replicate (length (c_writes c)) [0; 0])) (c_writes c, a) = ([], a') ∧
        stored_meta sid (lit "pendingConfirmation") a' = None ∧
        cached_meta sid (lit "pendingConfirmation") a' = None.
Proof.
  cbv zeta. set (key := lit "pendingConfirmation").
  assert (Hw : c_writes (confirmation_bridge rid sid channel true now_unix ts pre inputs (mk_Carried a [] [] [])) =
    (ToEdit sid key) <$> ((λ call : str * Value * str, Some (confirmation_record now_unix call.1.1 call.1.2 call.2))
                            <$> parks pre (confirms (requests inputs))) ++ [None]).
  { unfold confirmation_bridge.
    pose proof (confirmation_loop rid sid channel true now_unix ts pre false inputs (mk_Carried a [] [] [])) as Hl.
    destruct (foldl _ _ inputs) as [b c']. destruct Hl as (_ & Hw & _ & Ho).
    rewrite Ho. simpl. rewrite bool_decide_eq_false_2 by done. simpl. rewrite Hw. simpl.
    by rewrite fmap_app, <- list_fmap_compose. }
  rewrite Hw, length_fmap.
  destruct (schedule_in_order now sid key (((λ call : str * Value * str,
      Some (confirmation_record now_unix call.1.1 call.1.2 call.2)) <$> parks pre (confirms (requests inputs))) ++ [None]) a Hknown)
    as (a' & E & _ & Hs & Hc); [by intros [_ ?]%app_nil|].
  rewrite last_snoc in Hs, Hc. exists a'. split; [exact E|]. by simplify_eq/=.
Qed.

(** Nothing keeps them in order: when the retirement overtakes the first write at the store,
    the record of a park already resolved is in the store for good, and fresh, while the pod
    that resolved it no longer has it. *)
Theorem retired_record_returns sid call arguments prompt now_unix now now' (a : AppState Tables)
    (Hknown : known sid a) (Hsoon : (now_unix <= now' <= now_unix + CONFIRMATION_TIMEOUT)%Z)
    (Hrange : (i64_min <= now_unix)%Z ∧ (now' <= i64_max)%Z) :
  let key := lit "pendingConfirmation" in
  let record := confirmation_record now_unix call arguments prompt in
  ∃ a', run_schedule now [0; 1; 1; 0] ([ToEdit sid key (Some record); ToEdit sid key None], a) = ([], a') ∧
        cached_meta sid key a' = None ∧ stored_meta sid key a' = Some record ∧ record_fresh record now' = true.
Proof.
  cbv zeta. set (key := lit "pendingConfirmation"). set (record := confirmation_record _ _ _ _).
  destruct (advance_edit now sid key (Some record) a Hknown) as (a1 & E1 & Hk1 & Hb1 & _ & _).
  destruct (advance_edit now sid key None a1 Hk1) as (a2 & E2 & Hk2 & _ & Hc2 & _).
  destruct (advance_store now sid (edited key None (cached_blob sid a1)) a2 Hk2) as (a3 & E3 & Hk3 & _ & Hc3 & _).
  destruct (advance_store now sid (edited key (Some record) (cached_blob sid a)) a3 Hk3) as (a4 & E4 & _ & Hs4 & Hc4 & _).
  exists a4. unfold run_schedule. cbn [foldl].
  erewrite (schedule_at _ 0); [|reflexivity|exact E1]. erewrite (schedule_at _ 1); [|reflexivity|exact E2].
  erewrite (schedule_at _ 1); [|reflexivity|exact E3]. erewrite (schedule_at _ 0); [|reflexivity|exact E4].
  split; [done|]. rewrite Hc4, Hc3, Hc2, Hs4, edited_lookup. split; [done|]. split; [done|].
  unfold record_fresh. simpl. unfold as_i64, saturating_sub_i64, CONFIRMATION_TIMEOUT, is_i64, i64_min, i64_max in *.
  rewrite (proj2 (Z.leb_le (- 2 ^ 63) now_unix)), (proj2 (Z.leb_le now_unix (2 ^ 63 - 1))) by lia. simpl.
  apply andb_true_iff. split; apply Z.leb_le; lia.
Qed.

(** Each interaction a turn raises is announced in order with the validation contract it was
    raised with, whatever happens to the registries between two raises, and from its
    announcement it is the session's pending one, under the turn's channel, with the durable
    copy of the same contract on its way to the store. *)
Theorem raises_announced {S : Type} rid sid channel ts (inputs : list (BridgeInput S InteractionRaise)) r (c : Carried S) :
  let '(outstanding, c') :=
    foldl (λ bc i, between (interaction_raise rid sid channel true ts) i bc) (false, c) (inputs ++ [Request r]) in
  outstanding = true ∧
  c_events c' = c_events c ++
    ((λ r, interaction_required ts rid (raise_id r) (raise_kind r) (raise_spec r) (raise_reason r)) <$> requests inputs ++ [r]) ∧
  pending_interaction sid (c_app c') =
    Some (mk_PendingInteraction (raise_id r) (raise_kind r) (raise_spec r) channel) ∧
  last (c_writes c') = Some (ToEdit sid (lit "pendingInteraction") (Some (interaction_record r))) ∧
  c_writes (interaction_bridge rid sid channel true ts (inputs ++ [Request r]) c) =
    c_writes c' ++ [ToEdit sid (lit "pendingInteraction") None].
Proof.
  assert (Hfold : ∀ l (c0 : Carried S),
    c_events (foldl (λ bc i, between (interaction_raise rid sid channel true ts) i bc) (false, c0) l).2 =
    c_events c0 ++ ((λ r, interaction_required ts rid (raise_id r) (raise_kind r) (raise_spec r) (raise_reason r)) <$> requests l)).
  { intros l. induction l as [|x l IH] using rev_ind; intros c0; [by rewrite app_nil_r|].
    unfold requests in *. rewrite foldl_snoc, omap_app, fmap_app. specialize (IH c0). destruct (foldl _ _ l) as [o c1].
    simpl in *. destruct x as [r'|f]; csimpl; [|by rewrite app_nil_r].
    rewrite (assoc_L (++)), <- IH. unfold c_events. simpl. by rewrite fmap_app. }
  unfold interaction_bridge. specialize (Hfold (inputs ++ [Request r]) c). rewrite foldl_snoc in *.
  unfold requests in *. rewrite omap_app in Hfold.
  destruct (foldl _ _ inputs) as [o c1]. simpl in *. rewrite orb_true_r. split_and!; try done.
  - unfold pending_interaction. simpl. apply lookup_insert_eq.
  - by rewrite last_snoc.
Qed.

(** A turn leaves nothing parked, killed or not, and touches no other session's parks.  The
    teardown goes by the session, not by the turn: it takes a park of that session whoever
    registered it. *)
Theorem teardown_clears_parks {S : Type} sid (a : AppState S) :
  pending_confirmations (turn_teardown sid a) !! sid = None ∧
  pending_interaction sid (turn_teardown sid a) = None ∧
  (∀ channel p, turn_teardown sid (register_interaction sid p (register_confirmation sid channel a)) = turn_teardown sid a) ∧
  ∀ sid', sid' ≠ sid →
    pending_confirmations (turn_teardown sid a) !! sid' = pending_confirmations a !! sid' ∧
    pending_interaction sid' (turn_teardown sid a) = pending_interaction sid' a.
Proof.
  unfold turn_teardown, clear_interaction, clear_confirmation, pending_interaction. simpl. split_and!.
  - apply lookup_delete_eq.
  - apply lookup_delete_eq.
  - intros channel p. unfold register_interaction, register_confirmation, with_pending_interactions,
      with_pending_confirmations. simpl. by rewrite !delete_insert_eq.
  - intros sid' Hne. by rewrite !lookup_delete_ne by done.
Qed.

(** One turn at a time: the turn running after a history, [None] when it is not such a one. *)
Definition next_running (r : option (option TurnTarget)) (s : HostStep) : option (option TurnTarget) :=
  match r, s with
  | Some None, TurnStarts t => Some (Some t)
  | Some (Some _), TurnEnds _ => Some None
  | Some (Some t), ToolAsks by_turn _ => Some (Some t)
  | _, _ => None
  end.
Definition one_at_a_time (steps : list HostStep) : option (option TurnTarget) := foldl next_running (Some None) steps.

Lemma one_at_a_time_current steps r :
  one_at_a_time steps = Some r → current (host_after steps) = r.
Proof.
  unfold one_at_a_time, host_after. revert r. induction steps as [|s steps IH] using rev_ind; intros r; simpl.
  { by intros [= <-]. }
  rewrite !foldl_snoc. destruct (foldl next_running _ steps) as [r'|]; [|by destruct s].
  specialize (IH r' eq_refl). destruct r', s; simpl; try done; intros [= <-]; done.
Qed.

(** While turns run one at a time, a host hook's question goes to the turn that raised it,
    under that turn's session and request, and with no turn running it is refused at once.
    With two at a time it goes astray: the question of the one that started first is put to
    the other's client, and the hook's answer channel registered under the other's session;
    and when the other ends, the first, still running, is told nobody is connected. *)
Theorem host_prompts_routed hook ts tool arguments prompt :
  let ask h := drain hook ts (Confirm tool arguments prompt) h in
  (∀ steps t, one_at_a_time steps = Some (Some t) →
     ask (host_after steps) = Asked (target_sink t) (target_session_id t) hook
       (write_confirmation_required ts (target_request_id t) tool prompt)) ∧
  (∀ steps, one_at_a_time steps = Some None → ∃ reason, ask (host_after steps) = Answered (Rejected reason)) ∧
  (∀ steps t1 t2, one_at_a_time steps = Some (Some t1) →
     ask (host_after (steps ++ [TurnStarts t2])) = Asked (target_sink t2) (target_session_id t2) hook
       (write_confirmation_required ts (target_request_id t2) tool prompt) ∧
     ask (host_after (steps ++ [TurnStarts t2; TurnEnds t2])) =
       Answered (Rejected (lit "no client is connected to approve this action"))).
Proof.
  cbv zeta. split_and!.
  - intros steps t Hs%one_at_a_time_current. simpl. by rewrite Hs.
  - intros steps Hs%one_at_a_time_current. simpl. rewrite Hs. by eexists.
  - intros steps t1 t2 _. unfold host_after. by rewrite !foldl_app.
Qed.

(** ** Concrete parks *)

Module Demo.
Import AppState.Demo.
(** Two parks, the first one's verdict taking the channel before the second. *)
Definition inputs : list (BridgeInput Tables HumanRequest) :=
  [Request (Confirm (lit "send_mail") Null (lit "Send?")); Meanwhile (λ a, (take_confirmation (lit "s1") a).2);
   Request (Confirm (lit "refund") Null (lit "Refund?"))].
End Demo.

Lemma bridge_retires_record_witness :
  ∃ a', run_schedule 9%Z [0; 0; 0; 0; 0; 0]
          (c_writes (confirmation_bridge (lit "q") (lit "s1") 4 true 100 9 None Demo.inputs
                       (mk_Carried AppState.Demo.pod [] [] [])), AppState.Demo.pod) = ([], a') ∧
        stored_meta (lit "s1") (lit "pendingConfirmation") a' = None.
Proof.
  destruct (bridge_retires_record (lit "q") (lit "s1") 4 100 9 9%Z None Demo.inputs AppState.Demo.pod) as (a' & E & Hs & _).
  - done.
  - split; by eexists.
  - exists a'. split; [exact E|exact Hs].
Defined.

Lemma retired_record_returns_witness :
  ∃ a', run_schedule 9%Z [0; 1; 1; 0]
          ([ToEdit (lit "s1") (lit "pendingConfirmation") (Some (confirmation_record 100 (lit "refund") Null (lit "Refund?")));
            ToEdit (lit "s1") (lit "pendingConfirmation") None], AppState.Demo.pod) = ([], a') ∧
        record_fresh (confirmation_record 100 (lit "refund") Null (lit "Refund?")) 160 = true ∧
        stored_meta (lit "s1") (lit "pendingConfirmation") a' =
          Some (confirmation_record 100 (lit "refund") Null (lit "Refund?")).
Proof.
  destruct (retired_record_returns (lit "s1") (lit "refund") Null (lit "Refund?") 100 9%Z 160 AppState.Demo.pod)
    as (a' & E & _ & Hs & Hf).
  - split; by eexists.
  - unfold CONFIRMATION_TIMEOUT. lia.
  - unfold i64_min, i64_max. lia.
  - exists a'. exact (conj E (conj Hf Hs)).
Defined.
