(* ===== verification/Connection.v ===== *)
(** * Connection: one WebSocket connection ([server/src/server.rs], [handler.rs])

    From the token of the handshake to the frames on the wire: what the connection may
    see, which handler answers a frame, the single running turn a connection tracks, the
    cancellation of a turn, and the writer that keeps a cancelled turn off the wire. *)

From stdpp Require Import prelude gmap strings list.
From S2P Require Import Prelude Text AccessControl RunningTurns Auth Json Backplane Storage.
From S2P Require Import Widget Agents AppState Protocol Scope Conversations Sessions Turns.
From S2P Require Import Approvals.

(** ** The handshake *)

Record ConnectionAuth := mk_ConnectionAuth {
  ca_access : AccessContext;
  ca_org_id : option str;
  ca_user_scope : UserScope;
}.

Section handshake.
Context `{!Jwt} (auth : Verifier) (strict_auth : bool).

Definition anonymous_scope : UserScope :=
  if is_single_user_mode (mode auth) then Unscoped else Denied.

Definition anonymous_connection : ConnectionAuth :=
  mk_ConnectionAuth AccessContext.anonymous None anonymous_scope.

(** [None]: the upgrade is refused.  [rd] is what the verifier reads from the outside. *)
Definition resolve_ws_access (token : option str) (rd : Reading) : option ConnectionAuth * Verifier :=
  match trimmed token with
  | None => (if strict_auth then None else Some anonymous_connection, auth)
  | Some token =>
      let '(r, auth') := verify auth token rd in
      (match r with
       | Ok principal =>
           Some (mk_ConnectionAuth (access_context principal) (Some (org_id principal))
                   (match Auth.email principal with
                    | Some email => UserOf email
                    | None => anonymous_scope
                    end))
       | Err _ => if strict_auth then None else Some anonymous_connection
       end, auth')
  end.
End handshake.

(** ** One frame *)

(** The clocks and fresh names of one frame. *)
Record Moment := mk_Moment {
  m_now : Timestamp;
  m_now_unix : Z;
  m_ts : Z;
  m_ids : NewIds;
  m_flag : nat;
  m_task : nat;
}.

(** What a frame hands over: a spawned turn, a create to be written by a task, a durable
    record to be retired by one, and the answers put on parked turns' channels. *)
Record FrameOutcome `{Attachments} := mk_FrameOutcome {
  fo_spawned : option SpawnedTurn;
  fo_job : option CreateJob;
  fo_retire : option str;
  fo_verdict : option (Responder * HumanResponse);
  fo_resolution : option (Responder * InteractionResolution);
}.
Definition nothing `{Attachments} : FrameOutcome := mk_FrameOutcome _ None None None None None.

(** A connection's in-flight turn, with the request id of its frame. *)
Definition Slot `{Attachments} : Type := option (option str * SpawnedTurn).

Section frames.
Context {S : Type} `{!StorageAdapter S, !Lowercase, !WireText, !Signing, !Attachments, !JsonText, !JsonParse}.
Context (host : Host) (widget_auth_strict : bool) (agent_widget_auth : str → option AgentWidgetAuth).
Context (listening : Responder → bool) (interactions : str → option Validator).
Context (otp_service : option OtpService).
(** The connection: its document access, its sink, and who it is. *)
Context (access : AccessContext) (sink : nat) (cx : Conn).
Implicit Types (w : World S).

Definition handle_frame (raw : str) (m : Moment) w : World S * FrameOutcome :=
  let ts := m_ts m in
  let owned := require_owned_conversations host in
  match from_str raw with
  | Err e => (send (Protocol.error ts None "VALIDATION_ERROR" (lit "invalid JSON frame: " ++ e)) w, nothing)
  | Ok parsed =>
      let rid := get_str parsed "requestId" in
      match get_str parsed "action" with
      | None => (send (missing ts rid "missing 'action' field") w, nothing)
      | Some action =>
          let act k := str_eqb action (lit k) in
          if act "ping" then (send (pong ts rid) w, nothing)
          else if act "create_conversation_session" then
            let '(w, job) := handle_create_session owned widget_auth_strict agent_widget_auth cx parsed rid
                               (m_ids m) (m_now m) (m_now_unix m) ts w in
            (w, mk_FrameOutcome _ None job None None None)
          else if act "get_session" then (handle_get_session owned cx parsed rid ts w, nothing)
          else if act "get_conversation_messages" then
            (handle_get_conversation_messages owned cx parsed rid ts w, nothing)
          else if act "list_conversations" then (handle_list_conversations owned cx parsed rid ts w, nothing)
          else if act "rename_conversation" then
            (handle_rename_conversation owned cx parsed rid (m_now m) ts w, nothing)
          else if act "send_message" then
            let '(w, t) := handle_send_message host access sink cx parsed rid (m_flag m) (m_task m) ts w in
            (w, mk_FrameOutcome _ t None None None None)
          else if act "confirm_tool_action" then
            let '(w, o) := handle_confirm_tool_action host access sink listening cx parsed rid (m_flag m)
                             (m_task m) (m_now m) (m_now_unix m) ts w in
            (w, mk_FrameOutcome _ (cf_spawned o) None
                  (if cf_retire o then get_str parsed "sessionId" else None) (cf_resumed o) None)
          else if act "verify_otp" then
            (handle_verify_otp host otp_service cx parsed rid (m_now m) ts w, nothing)
          else if act "submit_interaction" then
            let '(w, r) := handle_submit_interaction host listening interactions cx parsed rid (m_now m) ts w in
            (w, mk_FrameOutcome _ None None None None r)
          else
            (send (Protocol.error ts rid "UNSUPPORTED_ACTION"
                     (lit "action '" ++ action ++ lit "' is not supported by this server")) w, nothing)
      end
  end.

(** ** Cancellation *)

Definition cancel_conversation_turn (session_id : str) w : option CancelledTurn * World S :=
  let '(r, a) := scoped_session (require_owned_conversations host) session_id (auth_org cx) (scope cx) (app w) in
  let w := set_app a w in
  match r with
  | Ok (Some session) =>
      let '(t, turns) := RunningTurns.cancel (sess_conversation_id session) (running_turns (app w)) in
      (t, set_app (with_running_turns turns (app w)) w)
  | Ok None | Err _ => (None, w)
  end.

(** Raise the flag, abort the task, free the conversation. *)
Definition stop_turn (t : SpawnedTurn) (reg : RunningTurns) : RunningTurns :=
  release (spawned_reservation t)
    (mk_RunningTurns (turns reg) (next_token reg) ({[spawned_cancelled t]} ∪ raised reg)
       ({[spawned_handle t]} ∪ aborted reg)).

Definition frame_action_and_request_id (raw : str) : option str * option str :=
  match from_str raw with
  | Err _ => (None, None)
  | Ok v => (get_str v "action", get_str v "requestId")
  end.

Definition frame_session_id (raw : str) : option str :=
  match from_str raw with
  | Err _ => None
  | Ok v => opt_filter (λ s, negb (str_is_empty s)) (get_str v "sessionId")
  end.

(** What a frame leaves: the slot, the writer's gate, and the events put on other
    connections' sinks. *)
Record TextOutcome := mk_TextOutcome {
  to_slot : Slot;
  to_gate : option str;
  to_elsewhere : list (nat * Value);
  to_frame : FrameOutcome;
}.

Definition in_flight (finished : nat → bool) (slot : Slot) : Slot :=
  opt_filter (λ t, negb (finished (spawned_handle t.2))) slot.

Definition SLOT_BUSY_MESSAGE : str :=
  lit "a turn is already in progress on this connection; cancel it or wait for it to complete".

(** [finished] are the tasks that have ended. *)
Definition handle_text_frame (finished : nat → bool) (raw : str) (m : Moment) (slot : Slot)
    (gate : option str) w : World S * TextOutcome :=
  let ts := m_ts m in
  let slot := in_flight finished slot in
  let '(action, rid) := frame_action_and_request_id raw in
  let act k := bool_decide (action = Some (lit k)) in
  if act "cancel" then
    match slot with
    | Some (turn_rid, turn) =>
        let w := set_app (with_running_turns (stop_turn turn (running_turns (app w))) (app w)) w in
        let echo := opt_or turn_rid rid in
        (send (cancelled ts echo) w, mk_TextOutcome None (opt_or echo gate) [] nothing)
    | None =>
        match frame_session_id raw with
        | None => (w, mk_TextOutcome None gate [] nothing)
        | Some session_id =>
            match cancel_conversation_turn session_id w with
            | (None, w) => (w, mk_TextOutcome None gate [] nothing)
            | (Some stopped, w) =>
                let ev := cancelled ts (Some (ct_request_id stopped)) in
                (send ev w,
                 mk_TextOutcome None gate
                   (if str_eqb (ct_conn_id stopped) (Conversations.conn_id cx) then []
                    else [(ct_sink stopped, ev)]) nothing)
            end
        end
    end
  else if act "send_message" && is_some slot then
    (send (Protocol.error ts rid "TURN_IN_PROGRESS" SLOT_BUSY_MESSAGE) w, mk_TextOutcome slot gate [] nothing)
  else
    let '(w, o) := handle_frame raw m w in
    match fo_spawned o with
    | Some turn => (w, mk_TextOutcome (Some (rid, turn)) None [] o)
    | None => (w, mk_TextOutcome slot gate [] o)
    end.

(** The connection closes. *)
Definition close_connection (a : AppState S) : AppState S :=
  discard_pending_sessions_for_conn (Conversations.conn_id cx)
    (with_backplane (detach (Conversations.conn_id cx) (backplane a)) a).
End frames.

(** ** The writer *)

(** Whether the writer puts [ev] on the wire. *)
Definition writes_event (gate : option str) (ev : Value) : bool :=
  bool_decide (event_type ev = Some (lit "cancelled")) ||
  match event_request_id ev with
  | Some rid => negb (bool_decide (gate = Some rid))
  | None => true
  end.

(** The sink between the connection's tasks and its writer: what is queued, what has
    been written, and the gate. *)
Record Wire := mk_Wire { queued : list Value; written : list Value; gate : option str }.

(** A task puts an event on the sink; the reader does, setting the gate with it; the
    writer takes one. *)
Inductive wire_step : Wire → Wire → Prop :=
| wire_emit ev q o g : wire_step (mk_Wire q o g) (mk_Wire (q ++ [ev]) o g)
| wire_reader evs g' q o g : wire_step (mk_Wire q o g) (mk_Wire (q ++ evs) o g')
| wire_write ev q o g :
    wire_step (mk_Wire (ev :: q) o g) (mk_Wire q (if writes_event g ev then o ++ [ev] else o) g).

(** ** Properties of the handshake *)

(** C9. What a connection may see comes from a verified token or from nothing: it has an
    organization, a user's document access and a user's scope only when its token verified,
    and then exactly those of the principal; otherwise it is anonymous, and under strict
    authentication refused; and reads are unscoped only on a single-user deployment. *)
Theorem ws_access_fail_closed `{!Jwt} auth strict_auth token rd :
  match (resolve_ws_access auth strict_auth token rd).1 with
  | None => strict_auth = true ∧
      ∀ t p, trimmed token = Some t → (verify auth t rd).1 ≠ Ok p
  | Some c =>
      (ca_user_scope c = Unscoped → is_single_user_mode (mode auth) = true) ∧
      match ca_org_id c with
      | Some org => ∃ t p, trimmed token = Some t ∧ (verify auth t rd).1 = Ok p ∧
          org = org_id p ∧ ca_access c = access_context p ∧
          ∀ e, ca_user_scope c = UserOf e ↔ Auth.email p = Some e
      | None => strict_auth = false ∧ ca_access c = AccessContext.anonymous ∧
          (∀ e, ca_user_scope c ≠ UserOf e) ∧
          ∀ t p, trimmed token = Some t → (verify auth t rd).1 ≠ Ok p
      end
  end.
Proof.
  unfold resolve_ws_access, anonymous_connection, anonymous_scope.
  destruct (trimmed token) as [t|] eqn:Et; simpl.
  - destruct (verify auth t rd) as [[p|e] auth'] eqn:Ev; simpl.
    + split; [destruct (Auth.email p); simpl; [done|by destruct (is_single_user_mode (mode auth))]|].
      exists t, p. rewrite Ev. split_and!; try done. intros e.
      destruct (Auth.email p); simpl; [split; congruence|by destruct (is_single_user_mode (mode auth))].
    + destruct strict_auth; simpl.
      * split; [done|]. intros ? ? [= <-]. by rewrite Ev.
      * split; [by destruct (is_single_user_mode (mode auth))|]. split_and!; try done.
        -- intros e'. by destruct (is_single_user_mode (mode auth)).
        -- intros ? ? [= <-]. by rewrite Ev.
  - destruct strict_auth; simpl; [done|]. split; [by destruct (is_single_user_mode (mode auth))|].
    split_and!; try done. intros e'. by destruct (is_single_user_mode (mode auth)).
Qed.

(** ** Every frame is answered *)

(** At least one event more than before. *)
Definition answered_in {S} (w w' : World S) : Prop := ∃ ev evs, events w' = events w ++ ev :: evs.

Lemma answered_send {S} ev (w w' : World S) : events w' = events w → answered_in w (send ev w').
Proof. intros He. exists ev, []. simpl. by rewrite He. Qed.

Section answers.
Context {S : Type} `{!StorageAdapter S, !Lowercase, !WireText, !Signing, !Attachments, !JsonText}.
Implicit Types (w : World S).

Lemma lookup_session_answers require cx sid rid ts w :
  let '(r, w') := lookup_session require cx sid rid ts w in
  match r with Some _ => events w' = events w | None => answered_in w w' end.
Proof.
  pose proof (lookup_session_frame require cx sid rid ts w) as Hl.
  destruct (lookup_session _ _ _ _ _ _) as [[s|] w']; destruct Hl as [_ Hl]; [by destruct Hl as (-> & _)|].
  destruct Hl as (c & m & He). by exists (Protocol.error ts rid c m), [].
Qed.

Lemma get_session_answers require cx parsed rid ts w :
  answered_in w (handle_get_session require cx parsed rid ts w).
Proof.
  unfold handle_get_session. destruct (get_str parsed "sessionId") as [sid|]; [|by apply answered_send].
  pose proof (lookup_session_answers require cx sid rid ts w) as Hl.
  destruct (lookup_session _ _ _ _ _ _) as [[s|] w']; [by apply answered_send|done].
Qed.

Lemma get_messages_answers require cx parsed rid ts w :
  answered_in w (handle_get_conversation_messages require cx parsed rid ts w).
Proof.
  unfold handle_get_conversation_messages.
  destruct (get_str parsed "sessionId") as [sid|]; [|by apply answered_send].
  pose proof (lookup_session_answers require cx sid rid ts w) as Hl.
  destruct (lookup_session _ _ _ _ _ _) as [[s|] w']; [|done].
  destruct (list_messages_by_conversation _ _); by apply answered_send.
Qed.

Lemma list_answers require cx parsed rid ts w :
  answered_in w (handle_list_conversations require cx parsed rid ts w).
Proof.
  unfold handle_list_conversations, send_conversation_page.
  destruct (parse_cursor parsed); [|by apply answered_send].
  destruct (listing_rows _ _ _ _ _); by apply answered_send.
Qed.

Lemma rename_answers require cx parsed rid now ts w :
  answered_in w (handle_rename_conversation require cx parsed rid now ts w).
Proof.
  unfold handle_rename_conversation. destruct (get_str parsed "conversationId"); [|by apply answered_send].
  destruct (str_is_empty _); [by apply answered_send|].
  destruct (get_conversation _ _); [|by apply answered_send].
  destruct (is_some _ && _); [|by apply answered_send].
  destruct (update_conversation _ _ _ _) as [[?|?] ?]; by apply answered_send.
Qed.

Lemma send_message_answers host access sink cx parsed rid flag task ts w :
  answered_in w (handle_send_message host access sink cx parsed rid flag task ts w).1.
Proof.
  destruct (handle_send_message _ _ _ _ _ _ _ _ _ _) as [w' o] eqn:E. simpl.
  apply send_message_cases in E. destruct o.
  - destruct E as (q & _ & _ & _ & _ & _ & _ & _ & _ & _ & _ & _ & _ & _ & _ & _ & _ & _ & He). by eexists _, [].
  - destruct E as ((c & m & He) & _). by eexists _, [].
Qed.

Lemma create_session_answers require strict policy cx parsed rid ids now now_unix ts w :
  let '(w', job) := handle_create_session require strict policy cx parsed rid ids now now_unix ts w in
  match job with
  | Some j => events w' = events w ∧ is_some (ps_session (job_pending j)) = true
  | None => answered_in w w'
  end.
Proof.
  unfold handle_create_session, enforce_widget_auth, open_session, created.
  destruct (frame_agent_id parsed) as [agent|]; [|by apply answered_send].
  destruct (policy agent) as [p|].
  - destruct (negb (origin_allowed _ _)); [by apply answered_send|].
    destruct (is_some_and _ _); [by apply answered_send|].
    destruct (is_some _ && _); [by apply answered_send|done].
  - destruct strict; [by apply answered_send|]. destruct (is_some _ && _); [by apply answered_send|done].
Qed.

Lemma create_job_answers job now ts w :
  is_some (ps_session (job_pending job)) = true → answered_in w (run_create_job job now ts w).
Proof.
  unfold run_create_job, failed, created. intros Hs. destruct (ps_session (job_pending job)) as [d|]; [|done].
  destruct (match ps_conversation _ with Some _ => _ | None => _ end) as [[?|?] s1]; [|by apply answered_send].
  destruct (match ps_user_participant _ with Some _ => _ | None => _ end) as [[?|?] s2]; [|by apply answered_send].
  destruct (match ps_agent_participant _ with Some _ => _ | None => _ end) as [[?|?] s3]; [|by apply answered_send].
  destruct (create_session d s3) as [[?|?] s4]; by apply answered_send.
Qed.

Lemma durable_confirm_answers host access sink cx sid approved rid flag task now now_unix ts w :
  answered_in w (durable_confirm_fallback host access sink cx sid approved rid flag task now now_unix ts w).1.
Proof.
  unfold durable_confirm_fallback.
  destruct (Storage.get_session _ _) as [[s|]|e]; [|by apply answered_send..].
  destruct (sess_metadata s ≫= _) as [record|]; [|by apply answered_send].
  destruct (set_pending_confirmation _ _ _ _) as [c a].
  destruct (negb _); [by apply answered_send|]. destruct c; [|by apply answered_send].
  destruct (negb approved); [by apply answered_send|]. destruct (str_is_empty _); [by apply answered_send|].
  match goal with |- answered_in _ (handle_send_message _ _ _ _ ?f _ _ _ _ ?w').1 =>
    pose proof (send_message_answers host access sink cx f rid flag task ts w') as Ha end.
  exact Ha.
Qed.

Lemma confirm_answers host access sink listening cx parsed rid flag task now now_unix ts w :
  answered_in w (handle_confirm_tool_action host access sink listening cx parsed rid flag task now now_unix ts w).1.
Proof.
  unfold handle_confirm_tool_action, take_confirmation.
  destruct (get_str parsed "sessionId") as [sid|]; [|by apply answered_send].
  destruct (get_bool parsed "approved") as [approved|]; [|by apply answered_send].
  destruct (scoped_session _ _ _ _ _) as [[[s|]|e] a]; [|by apply answered_send..].
  set (w1 := set_app (with_pending_confirmations _ _) _).
  pose proof (durable_confirm_answers host access sink cx sid approved rid flag task now now_unix ts w1) as Hd.
  assert (He : events w1 = events w) by done. unfold answered_in in Hd. rewrite He in Hd.
  destruct (durable_confirm_fallback _ _ _ _ _ _ _ _ _ _ _ _ _) as [w2 t]. simpl in Hd.
  destruct (pending_confirmations _ !! sid) as [r|]; [|exact Hd].
  destruct (listening r); [by apply answered_send|exact Hd].
Qed.

Lemma settle_answers listening view sid q outcome now ts w :
  let '(ok, (w', _)) := settle listening view sid q outcome now ts w in
  if ok : bool then events w' = events w else answered_in w w'.
Proof.
  unfold settle, resolve_interaction. destruct (pv_live view).
  - destruct (take_interaction sid (app w)) as [[p|] a]; [|by apply answered_send].
    destruct (listening (responder p)); simpl; [done|by apply answered_send].
  - destruct (set_pending_interaction _ _ _ _) as [[?|?] a]; [done|by apply answered_send].
Qed.

Lemma find_pending_answers owned sid q ts w :
  let '(v, w') := find_pending owned sid q ts w in
  match v with Some _ => events w' = events w | None => answered_in w w' end.
Proof.
  unfold find_pending. destruct (if owned then pending_interaction sid (app w) else None); [done|].
  destruct (if owned then durable_pending_interaction sid (app w) else _) as [[[v|]|e] a];
    [done|by apply answered_send..].
Qed.

Lemma submit_to_answers listening interactions view parsed sid q now ts w :
  answered_in w (submit_to listening interactions view parsed sid q now ts w).1.
Proof.
  unfold submit_to. destruct (negb _); [by apply answered_send|].
  destruct (opt_filter _ _); [by apply answered_send|].
  destruct (default false _).
  { pose proof (settle_answers listening view sid q Declined now ts w) as Hs.
    destruct (settle _ _ _ _ _ _ _ _) as [[] [w' r]]; [by apply answered_send|done]. }
  destruct (get parsed (lit "values")) as [values|]; [|by apply answered_send].
  destruct (interactions _) as [validate|]; [|by apply answered_send].
  destruct (validate _ values) as [canonical|]; [|by apply answered_send].
  pose proof (settle_answers listening view sid q (Submitted canonical) now ts w) as Hs.
  destruct (settle _ _ _ _ _ _ _ _) as [[] [w' r]]; [by apply answered_send|done].
Qed.

Lemma submit_answers host listening interactions cx parsed rid now ts w :
  answered_in w (handle_submit_interaction host listening interactions cx parsed rid now ts w).1.
Proof.
  unfold handle_submit_interaction. destruct rid as [q|]; [|by apply answered_send].
  destruct (get_str parsed "sessionId") as [sid|]; [|by apply answered_send].
  destruct (scoped_session _ _ _ _ _) as [[s|e] a]; [|by apply answered_send].
  pose proof (find_pending_answers (is_some s) sid q ts (set_app a w)) as Hf.
  destruct (find_pending _ _ _ _ _) as [[view|] w']; [|exact Hf].
  pose proof (submit_to_answers listening interactions view parsed sid q now ts w') as Ha.
  unfold answered_in in Ha. by rewrite Hf in Ha.
Qed.

Lemma verify_otp_answers host otp cx parsed rid now ts w :
  answered_in w (handle_verify_otp host otp cx parsed rid now ts w).
Proof.
  unfold handle_verify_otp. destruct rid as [q|]; [|by apply answered_send].
  destruct (get_str parsed "sessionId") as [sid|]; [|by apply answered_send].
  destruct (get_str parsed "code") as [code|]; [|by apply answered_send].
  pose proof (lookup_session_answers (require_owned_conversations host) cx sid (Some q) ts w) as Hl.
  destruct (lookup_session _ _ _ _ _ _) as [[s|] w']; [|done].
  destruct otp as [service|]; [|by apply answered_send].
  destruct (verify_otp service sid code); by apply answered_send.
Qed.
End answers.

Section properties.
Context {S : Type} `{!StorageAdapter S, !Lowercase, !WireText, !Signing, !Attachments, !JsonText, !JsonParse}.
Context (host : Host) (strict : bool) (policy : str → option AgentWidgetAuth).
Context (listening : Responder → bool) (interactions : str → option Validator) (otp : option OtpService).
Context (access : AccessContext) (sink : nat) (cx : Conn).
Implicit Types (w : World S).

Abbreviation frame := (handle_frame host strict policy listening interactions otp access sink cx).
Abbreviation text_frame := (handle_text_frame host strict policy listening interactions otp access sink cx).

(** Only two actions start a turn. *)
Lemma frame_spawns raw m w t :
  fo_spawned (frame raw m w).2 = Some t → ∃ parsed, from_str raw = Ok parsed ∧
    (get_str parsed "action" = Some (lit "send_message") ∨
     get_str parsed "action" = Some (lit "confirm_tool_action")).
Proof.
  unfold handle_frame. destruct (from_str raw) as [parsed|e]; [|done].
  destruct (get_str parsed "action") as [action|] eqn:Ea; [|done]. intros Ht. exists parsed. split; [done|].
  destruct (str_eqb action (lit "send_message")) eqn:E1; [apply str_eqb_true in E1 as ->; rewrite Ea; by left|].
  destruct (str_eqb action (lit "confirm_tool_action")) eqn:E2;
    [apply str_eqb_true in E2 as ->; rewrite Ea; by right|]. exfalso. revert Ht.
  destruct (str_eqb action (lit "ping")); [done|].
  destruct (str_eqb action (lit "create_conversation_session"));
    [by destruct (handle_create_session _ _ _ _ _ _ _ _ _ _ _)|].
  destruct (str_eqb action (lit "get_session")); [done|].
  destruct (str_eqb action (lit "get_conversation_messages")); [done|].
  destruct (str_eqb action (lit "list_conversations")); [done|].
  destruct (str_eqb action (lit "rename_conversation")); [done|].
  destruct (str_eqb action (lit "verify_otp")); [done|].
  by destruct (str_eqb action (lit "submit_interaction")); [destruct (handle_submit_interaction _ _ _ _ _ _ _ _ _)|].
Qed.

(** The handlers answer at once, a create whose rows a task is writing when it is done. *)
Definition answered_or_writing w w' (o : FrameOutcome) : Prop :=
  answered_in w w' ∨ ∃ job, fo_job o = Some job ∧ ∀ now ts w1, answered_in w1 (run_create_job job now ts w1).

Lemma frame_answered raw m w :
  let '(w', o) := frame raw m w in answered_or_writing w w' o.
Proof.
  destruct (frame raw m w) as [w' o] eqn:E. revert E. unfold handle_frame.
  destruct (from_str raw) as [parsed|e]; [|intros [= <- <-]; left; by apply answered_send].
  destruct (get_str parsed "action") as [action|]; [|intros [= <- <-]; left; by apply answered_send].
  set (rid := get_str parsed "requestId"). set (owned := require_owned_conversations host).
  destruct (str_eqb action (lit "ping")); [intros [= <- <-]; left; by apply answered_send|].
  destruct (str_eqb action (lit "create_conversation_session")).
  { pose proof (create_session_answers owned strict policy cx parsed rid (m_ids m) (m_now m) (m_now_unix m)
      (m_ts m) w) as Hc.
    destruct (handle_create_session _ _ _ _ _ _ _ _ _ _ _) as [w1 [job|]]; intros [= <- <-]; [|by left].
    right. exists job. split; [done|]. intros. apply create_job_answers, Hc. }
  destruct (str_eqb action (lit "get_session")); [intros [= <- <-]; left; apply get_session_answers|].
  destruct (str_eqb action (lit "get_conversation_messages")); [intros [= <- <-]; left; apply get_messages_answers|].
  destruct (str_eqb action (lit "list_conversations")); [intros [= <- <-]; left; apply list_answers|].
  destruct (str_eqb action (lit "rename_conversation")); [intros [= <- <-]; left; apply rename_answers|].
  destruct (str_eqb action (lit "send_message")).
  { pose proof (send_message_answers host access sink cx parsed rid (m_flag m) (m_task m) (m_ts m) w) as Ha.
    destruct (handle_send_message _ _ _ _ _ _ _ _ _ _). intros [= <- <-]. by left. }
  destruct (str_eqb action (lit "confirm_tool_action")).
  { pose proof (confirm_answers host access sink listening cx parsed rid (m_flag m) (m_task m) (m_now m)
      (m_now_unix m) (m_ts m) w) as Ha.
    destruct (handle_confirm_tool_action _ _ _ _ _ _ _ _ _ _ _ _ _). intros [= <- <-]. by left. }
  destruct (str_eqb action (lit "verify_otp")); [intros [= <- <-]; left; apply verify_otp_answers|].
  destruct (str_eqb action (lit "submit_interaction")).
  { pose proof (submit_answers host listening interactions cx parsed rid (m_now m) (m_ts m) w) as Ha.
    destruct (handle_submit_interaction _ _ _ _ _ _ _ _ _). intros [= <- <-]. by left. }
  intros [= <- <-]. left. by apply answered_send.
Qed.

(** The turn of another connection that a [cancel] reaches through the session it names. *)
Definition reached_turn raw w : option CancelledTurn :=
  frame_session_id raw ≫= λ session_id, (cancel_conversation_turn host cx session_id w).1.

Lemma cancel_nothing sid w :
  let '(t, w') := cancel_conversation_turn host cx sid w in
  events w' = events w ∧ (t = None → running_turns (app w') = running_turns (app w)).
Proof.
  unfold cancel_conversation_turn.
  pose proof (scoped_session_frame (require_owned_conversations host) cx sid (app w)) as Hs.
  destruct (load_session_frame sid (app w)) as (Ht & _ & _). injection Ht as Ht _ _ _.
  destruct (scoped_session _ _ _ _ _) as [[[s|]|e] a]; destruct Hs as [-> _]; simpl; [|by split..].
  destruct (RunningTurns.cancel _ _) as [[t|] turns] eqn:Ec; simpl; split; try done.
  intros _. unfold RunningTurns.cancel in Ec. rewrite Ht in Ec. by case_match; simplify_eq.
Qed.

(** C39. No frame goes unanswered but a [cancel] with nothing to cancel: whatever text a client
    sends, valid or not, on a connection with a turn of its own or without, at least one event
    is put on the connection's sink, or a create's rows are being written by a task, which
    answers when it is done. A [cancel] says [cancelled] once, with the request id of the turn
    it stops, the connection's own or else the one its session id reaches; when there is
    neither it is the silent no-op the protocol makes it, and stops nothing. Only
    [send_message] and [confirm_tool_action] ever start a turn. *)
Theorem every_frame_answered finished raw m slot gate w :
  let '(w', o) := text_frame finished raw m slot gate w in
  let '(action, frame_rid) := frame_action_and_request_id raw in
  (action ≠ Some (lit "cancel") → answered_or_writing w w' (to_frame o)) ∧
  (action = Some (lit "cancel") →
     match in_flight finished slot, reached_turn raw w with
     | Some (turn_rid, _), _ => events w' = events w ++ [cancelled (m_ts m) (opt_or turn_rid frame_rid)]
     | None, Some stopped => events w' = events w ++ [cancelled (m_ts m) (Some (ct_request_id stopped))]
     | None, None => events w' = events w ∧ running_turns (app w') = running_turns (app w) ∧ to_elsewhere o = []
     end) ∧
  (∀ t, fo_spawned (to_frame o) = Some t →
     action = Some (lit "send_message") ∨ action = Some (lit "confirm_tool_action")).
Proof.
  unfold handle_text_frame. destruct (frame_action_and_request_id raw) as [action frame_rid] eqn:Ef.
  destruct (bool_decide_reflect (action = Some (lit "cancel"))) as [->|Hc].
  - unfold reached_turn. destruct (in_flight finished slot) as [[turn_rid turn]|]; [by split_and!|].
    destruct (frame_session_id raw) as [sid|]; [|by split_and!]. cbn [mbind option_bind].
    pose proof (cancel_nothing sid w) as Hn.
    destruct (cancel_conversation_turn host cx sid w) as [[stopped|] w']; destruct Hn as [He Hr]; simpl.
    + split_and!; [done| |done]. intros _. by rewrite He.
    + split_and!; [done| |done]. intros _. split_and!; [done|by apply Hr|done].
  - destruct (_ && _); [split_and!; [|done..]; intros _; left; by apply answered_send|].
    pose proof (frame_answered raw m w) as Ha. pose proof (frame_spawns raw m w) as Hsp.
    destruct (frame raw m w) as [w' o]. simpl in Hsp.
    assert (Hst : ∀ t, fo_spawned o = Some t →
      action = Some (lit "send_message") ∨ action = Some (lit "confirm_tool_action")).
    { intros t (parsed & Hp & Hact)%Hsp. unfold frame_action_and_request_id in Ef. rewrite Hp in Ef.
      injection Ef as <- <-. exact Hact. }
    destruct (fo_spawned o) eqn:Eo; simpl; rewrite ?Eo; by split_and!.
Qed.

(** Stopping a tracked turn frees its conversation. *)
Lemma stop_turn_frees t reg turn :
  turns reg !! tr_conversation_id (spawned_reservation t) = Some turn →
  token turn = tr_token (spawned_reservation t) →
  is_running (tr_conversation_id (spawned_reservation t)) (stop_turn t reg) = false.
Proof.
  intros Ht Htok. unfold stop_turn, release, is_running. simpl. rewrite Ht. simpl. rewrite Htok, N.eqb_refl.
  simpl. by rewrite lookup_delete_eq.
Qed.

Lemma stop_turn_marks t reg :
  spawned_cancelled t ∈ raised (stop_turn t reg) ∧ spawned_handle t ∈ aborted (stop_turn t reg).
Proof. unfold stop_turn, release. case_match; simpl; set_solver. Qed.

(** The connection's turn: while a turn it started is in flight, a [cancel] raises the turn's
    flag, aborts its task, frees its conversation at once and says [cancelled] with the turn's
    own request id; a second [send_message] is refused without reaching any handler; and every
    other frame but [confirm_tool_action] leaves the turn tracked and starts no other. *)
Theorem tracked_turn_kept finished raw m slot gate w rid t
    (Hslot : in_flight finished slot = Some (rid, t)) :
  let '(w', o) := text_frame finished raw m slot gate w in
  let '(action, frame_rid) := frame_action_and_request_id raw in
  let reg' := running_turns (app w') in
  (action = Some (lit "cancel") →
     to_slot o = None ∧ fo_spawned (to_frame o) = None ∧
     spawned_cancelled t ∈ raised reg' ∧ spawned_handle t ∈ aborted reg' ∧
     (∀ turn, turns (running_turns (app w)) !! tr_conversation_id (spawned_reservation t) = Some turn →
        token turn = tr_token (spawned_reservation t) →
        is_running (tr_conversation_id (spawned_reservation t)) reg' = false) ∧
     events w' = events w ++ [cancelled (m_ts m) (opt_or rid frame_rid)] ∧
     to_gate o = opt_or (opt_or rid frame_rid) gate) ∧
  (action = Some (lit "send_message") →
     app w' = app w ∧ to_slot o = Some (rid, t) ∧
     events w' = events w ++ [Protocol.error (m_ts m) frame_rid "TURN_IN_PROGRESS" SLOT_BUSY_MESSAGE]) ∧
  (action ≠ Some (lit "cancel") → action ≠ Some (lit "confirm_tool_action") →
     to_slot o = Some (rid, t) ∧ fo_spawned (to_frame o) = None ∧ to_gate o = gate).
Proof.
  unfold handle_text_frame. rewrite Hslot.
  destruct (frame_action_and_request_id raw) as [action frame_rid] eqn:Ef.
  destruct (bool_decide_reflect (action = Some (lit "cancel"))) as [->|Hc].
  { simpl. destruct (stop_turn_marks t (running_turns (app w))). split_and!; try done.
    intros _. split_and!; try done. intros turn. apply stop_turn_frees. }
  destruct (bool_decide_reflect (action = Some (lit "send_message"))) as [->|Hs]; [by split_and!|]. cbn [andb].
  pose proof (frame_spawns raw m w) as Hsp. destruct (frame raw m w) as [w' o]. simpl in Hsp.
  destruct (fo_spawned o) as [t2|] eqn:Eo; split_and!; try done; intros _ Hconf.
  exfalso. destruct (Hsp t2 eq_refl) as (parsed & Hp & Ha). unfold frame_action_and_request_id in Ef.
  rewrite Hp in Ef. injection Ef as <- <-. by destruct Ha.
Qed.
End properties.

(** ** The wire *)

(** A step after which the gate stands at [q]. *)
Definition gated_step (q : str) (x y : Wire) : Prop := wire_step x y ∧ gate y = Some q.

(** C7. [cancelled] is the last word on its request: from the moment the reader sets the gate,
    and for as long as it stands, whatever the turn's tasks put on the sink and in whatever
    order the writer drains it, nothing with that request id reaches the client any more
    except [cancelled] itself, and everything else still does. *)
Theorem cancelled_is_terminal q x y (Hgate : gate x = Some q) (Hrun : rtc (gated_step q) x y) :
  ∃ evs, written y = written x ++ evs ∧
    (∀ ev, ev ∈ evs → event_request_id ev = Some q → event_type ev = Some (lit "cancelled")) ∧
    (∀ ev, event_request_id ev ≠ Some q → writes_event (gate y) ev = true).
Proof.
  induction Hrun as [x|x z y [Hstep Hz] Hrun IH].
  - exists []. rewrite app_nil_r. split_and!; [done|by intros ? ?%elem_of_nil|].
    intros ev Hev. unfold writes_event. rewrite Hgate. apply orb_true_iff. right.
    destruct (event_request_id ev); [|done]. apply negb_true_iff, bool_decide_eq_false. congruence.
  - destruct (IH Hz) as (evs & Hw & Hevs & Hrest).
    assert (Hnew : ∃ new, written z = written x ++ new ∧
      ∀ ev, ev ∈ new → event_request_id ev = Some q → event_type ev = Some (lit "cancelled")).
    { inversion Hstep as [ev qu o g|e g' qu o g|ev qu o g]; subst; simpl in *;
        [exists []; rewrite app_nil_r; by split; [|intros ? ?%elem_of_nil]..|].
      rewrite Hgate in *. destruct (writes_event (Some q) ev) eqn:Ew;
        [|exists []; rewrite app_nil_r; by split; [|intros ? ?%elem_of_nil]].
      exists [ev]. split; [done|]. intros ev' ->%list_elem_of_singleton Hid. unfold writes_event in Ew.
      rewrite Hid, (bool_decide_eq_true_2 (Some q = Some q)), orb_false_r in Ew by done. by apply bool_decide_eq_true in Ew. }
    destruct Hnew as (new & Hn & Hnew). exists (new ++ evs). rewrite Hw, Hn, (assoc_L (++)).
    split_and!; [done| |done]. intros ev [?|?]%elem_of_app; eauto.
Qed.

(** ** What escapes *)

Section escapes.
Context {S : Type} `{!StorageAdapter S, !Lowercase, !WireText, !Signing, !Attachments, !JsonText, !JsonParse}.
Context (host : Host) (strict : bool) (policy : str → option AgentWidgetAuth).
Context (listening : Responder → bool) (interactions : str → option Validator) (otp : option OtpService).
Context (access : AccessContext) (sink : nat) (cx : Conn).
Implicit Types (w : World S).

Abbreviation text_frame := (handle_text_frame host strict policy listening interactions otp access sink cx).

(** Starting a turn raises no flag and aborts no task. *)
Lemma accepted_marks parsed rid flag task ts w w' t :
  handle_send_message host access sink cx parsed rid flag task ts w = (w', Some t) →
  raised (running_turns (app w')) = raised (running_turns (app w)) ∧
  aborted (running_turns (app w')) = aborted (running_turns (app w)).
Proof.
  intros (q & reg1 & Hr & -> & _)%send_message_registry. unfold try_reserve in Hr.
  destruct (is_some _); [done|]. injection Hr as <- <-. unfold set_abort. by repeat (case_match; simpl).
Qed.

Lemma durable_confirm_marks sid approved rid flag task now now_unix ts w w' t `{!JsonText} :
  durable_confirm_fallback host access sink cx sid approved rid flag task now now_unix ts w = (w', Some t) →
  raised (running_turns (app w')) = raised (running_turns (app w)) ∧
  aborted (running_turns (app w')) = aborted (running_turns (app w)).
Proof.
  intros [[? _]|(s & m & record & a & tool & msg & _ & _ & _ & _ & Hret & _ & _ & _ & Hsend)]%durable_confirm_cases;
    [done|].
  apply accepted_marks in Hsend. simpl in Hsend.
  pose proof (set_meta_key_frame sid (lit "pendingConfirmation") None now (insert_session s (app w))) as [Hf _].
  unfold set_pending_confirmation in Hret. rewrite Hret in Hf. injection Hf as Hf _ _ _. simpl in Hf.
  by rewrite Hf in Hsend.
Qed.

(** A connection can end up with two turns and track one: a [confirm_tool_action] that starts
    a continuation takes the slot of the turn in flight, which is neither stopped nor refused,
    and which no [cancel] without a session id on this connection reaches any more. *)
Theorem durable_confirm_displaces_turn finished raw m slot gate w rid t t2
    (Hslot : in_flight finished slot = Some (rid, t))
    (Haction : (frame_action_and_request_id raw).1 = Some (lit "confirm_tool_action"))
    (Hstarted : fo_spawned (to_frame (text_frame finished raw m slot gate w).2) = Some t2) :
  let '(w', o) := text_frame finished raw m slot gate w in
  to_slot o = Some ((frame_action_and_request_id raw).2, t2) ∧ to_gate o = None ∧
  raised (running_turns (app w')) = raised (running_turns (app w)) ∧
  aborted (running_turns (app w')) = aborted (running_turns (app w)).
Proof.
  revert Hstarted. unfold handle_text_frame. rewrite Hslot. unfold frame_action_and_request_id in *.
  destruct (from_str raw) as [parsed|e] eqn:Ep; [|done]. simpl in Haction |- *. rewrite Haction.
  do 2 (rewrite bool_decide_eq_false_2 by (intros [=]; done)). simpl.
  unfold handle_frame. rewrite Ep, Haction. simpl.
  destruct (handle_confirm_tool_action _ _ _ _ _ _ _ _ _ _ _ _ _) as [w' o] eqn:Ec. simpl.
  intros Hst. destruct (cf_spawned o) as [t3|] eqn:Eo; [|done].
  simpl in *. injection Hst as ->. do 2 (split; [done|]).
  unfold handle_confirm_tool_action, take_confirmation in Ec.
  destruct (get_str parsed "sessionId") as [sid|]; [|by injection Ec as <- <-].
  destruct (get_bool parsed "approved") as [approved|]; [|by injection Ec as <- <-].
  pose proof (scoped_session_frame (require_owned_conversations host) cx sid (app w)) as Hs.
  destruct (scoped_session _ _ _ _ _) as [[[s|]|e] a]; destruct Hs as [-> _]; try by injection Ec as <- <-.
  destruct (load_session_frame sid (app w)) as (Ht & _ & _). injection Ht as Ht _ _ _.
  destruct (durable_confirm_fallback _ _ _ _ _ _ _ _ _ _ _ _ _) as [w2 o2] eqn:Ed.
  assert (w' = w2 ∧ o2 = Some t2) as [-> ->].
  { destruct (pending_confirmations _ !! sid) as [r|]; [destruct (listening r)|]; injection Ec as <- <-; try done. }
  apply durable_confirm_marks in Ed. simpl in Ed. by rewrite Ht in Ed.
Qed.

(** The gate is the connection's, and it is taken down: the next turn the connection starts
    lifts it, cancelling a turn another connection started does not set it on either, and
    with it down the writer passes any event, so that whatever the cancelled turn's task
    still emits before it yields reaches the client after [cancelled]. *)
Theorem late_frames_pass finished raw m slot gate w q ev o :
  (∀ t, fo_spawned (to_frame (text_frame finished raw m slot gate w).2) = Some t →
     to_gate (text_frame finished raw m slot gate w).2 = None) ∧
  (in_flight finished slot = None → (frame_action_and_request_id raw).1 = Some (lit "cancel") →
     to_gate (text_frame finished raw m slot gate w).2 = gate) ∧
  ∃ y, rtc wire_step (mk_Wire [cancelled (m_ts m) (Some q)] o (Some q)) y ∧
       written y = o ++ [cancelled (m_ts m) (Some q); ev].
Proof.
  split_and!.
  - unfold handle_text_frame. destruct (frame_action_and_request_id raw) as [action rid].
    destruct (bool_decide (action = Some (lit "cancel"))).
    { destruct (in_flight finished slot) as [[r t]|]; [done|]. destruct (frame_session_id raw); [|done].
      by destruct (cancel_conversation_turn _ _ _ _) as [[c|] w']. }
    destruct (bool_decide _ && _); [done|].
    destruct (handle_frame _ _ _ _ _ _ _ _ _ _ _ _) as [w' f]. by destruct (fo_spawned f) eqn:E; simpl; [|rewrite E].
  - intros Hslot Hact. unfold handle_text_frame. rewrite Hslot.
    destruct (frame_action_and_request_id raw) as [action rid]. simpl in Hact. subst action. simpl.
    destruct (frame_session_id raw); [|done]. by destruct (cancel_conversation_turn _ _ _ _) as [[c|] w'].
  - exists (mk_Wire [] (o ++ [cancelled (m_ts m) (Some q); ev]) None). split; [|done].
    eapply rtc_l; [apply wire_write|]. replace (writes_event _ _) with true by done.
    eapply rtc_l; [apply (wire_reader [] None)|]. simpl.
    eapply rtc_l; [apply (wire_emit ev)|]. eapply rtc_l; [apply wire_write|].
    replace (writes_event None ev) with true.
    2: { unfold writes_event. symmetry. apply orb_true_iff. right. by destruct (event_request_id ev). }
    rewrite <- (assoc_L (++)). done.
Qed.
End escapes.

(** ** Concrete frames *)

Import Storage.Demo Conversations.Demo Widget.Demo Turns.Demo Approvals.Demo.

Module Demo.
(** The parser's answers on the two frames below. *)
#[export] Instance demo_parse : JsonParse := {|
  from_str s :=
    if str_eqb s (lit "confirm") then
      Ok (Object [field "action" (jstr "confirm_tool_action"); field "sessionId" (jstr "s1");
                  field "requestId" (jstr "q2"); field "approved" (Bool true)])
    else if str_eqb s (lit "cancel") then Ok (Object [field "action" (jstr "cancel")])
    else Err (lit "expected value") |}.

Definition moment : Moment := mk_Moment 9%Z 1060 9 (mk_NewIds (lit "c9") (lit "s9") (lit "u9") (lit "a9")) 5 6.
(** A turn in flight on another conversation, with its own flag and task. *)
Definition other : SpawnedTurn := mk_SpawnedTurn _ 51 50 (mk_TurnReservation (lit "c2") 7) plan1.
Definition slot : Slot := Some (Some (lit "q1"), other).
Definition running_other : World Tables :=
  set_app (with_running_turns
    (mk_RunningTurns {[lit "c2" := mk_RunningTurn 7 (lit "q1") (lit "n") 3 50 (Some 51)]} 8 ∅ ∅) (app w2)) w2.
Definition run (raw : string) : World Tables * TextOutcome :=
  handle_text_frame h false (λ _, None) (λ _, true) (λ _, None) None AccessContext.anonymous 3 cx
    (λ _, false) (lit raw) moment slot None running_other.
End Demo.
Import Demo.

Lemma tracked_turn_kept_witness :
  is_running (lit "c2") (running_turns (app (run "cancel").1)) = false ∧
  50 ∈ raised (running_turns (app (run "cancel").1)) ∧ 51 ∈ aborted (running_turns (app (run "cancel").1)) ∧
  to_gate (run "cancel").2 = Some (lit "q1").
Proof.
  pose proof (tracked_turn_kept h false (λ _, None) (λ _, true) (λ _, None) None AccessContext.anonymous 3 cx
    (λ _, false) (lit "cancel") moment slot None running_other (Some (lit "q1")) other eq_refl) as H.
  unfold run.
  destruct (handle_text_frame _ _ _ _ _ _ _ _ _ _ _ _ _ _ _) as [w' o].
  destruct H as [H _]. destruct (H eq_refl) as (_ & _ & Hr & Ha & Hfree & _ & Hg).
  split_and!; [exact (Hfree (mk_RunningTurn 7 (lit "q1") (lit "n") 3 50 (Some 51)) eq_refl eq_refl)|exact Hr|exact Ha|exact Hg].
Defined.

Lemma durable_confirm_displaces_turn_witness :
  raised (running_turns (app (run "confirm").1)) = ∅ ∧ aborted (running_turns (app (run "confirm").1)) = ∅ ∧
  is_some (to_slot (run "confirm").2) = true.
Proof.
  destruct (fo_spawned (to_frame (run "confirm").2)) as [t2|] eqn:E.
  - pose proof (durable_confirm_displaces_turn h false (λ _, None) (λ _, true) (λ _, None) None
      AccessContext.anonymous 3 cx (λ _, false) (lit "confirm") moment slot None running_other
      (Some (lit "q1")) other t2 eq_refl eq_refl E) as H.
    unfold run. destruct (handle_text_frame _ _ _ _ _ _ _ _ _ _ _ _ _ _ _) as [w' o].
    destruct H as (Hs & _ & Hr & Ha). cbn [fst snd]. rewrite Hs. split_and!; [exact Hr|exact Ha|reflexivity].
  - exfalso. apply (f_equal is_some) in E. vm_compute in E. discriminate.
Defined.

(** After [cancelled], a token of the same request is drained and not written. *)
Lemma cancelled_is_terminal_witness :
  let ev := stream_token 9 (lit "q1") (lit "late") in
  ∃ y, rtc (gated_step (lit "q1")) (mk_Wire [cancelled 9 (Some (lit "q1")); ev] [] (Some (lit "q1"))) y ∧
    queued y = [] ∧ written y = [cancelled 9 (Some (lit "q1"))] ∧
    ∀ e, e ∈ written y → event_request_id e = Some (lit "q1") → event_type e = Some (lit "cancelled").
Proof.
  intros ev. set (c := cancelled 9 (Some (lit "q1"))). set (q := lit "q1").
  assert (Hrun : rtc (gated_step q) (mk_Wire [c; ev] [] (Some q)) (mk_Wire [] [c] (Some q))).
  { eapply rtc_l; [split; [apply (wire_write c [ev] [] (Some q))|reflexivity]|].
    eapply rtc_l; [split; [apply (wire_write ev [] [c] (Some q))|reflexivity]|]. reflexivity. }
  exists (mk_Wire [] [c] (Some q)). split; [exact Hrun|]. split; [reflexivity|]. split; [reflexivity|].
  destruct (cancelled_is_terminal q (mk_Wire [c; ev] [] (Some q)) _ eq_refl Hrun) as (evs & Hw & Hevs & _). simpl in Hw. subst evs. exact Hevs.
Defined.
