(* ===== verification/Server.v ===== *)
(** * Server: every connection of a pod and every turn it started ([server/src/server.rs])

    The transition system of one process: connections open, send frames and close, turns
    run in tasks that outlive the connection that started them, and all of them share one
    [AppState].  A frame is one step; what a running task, a create job or a resolved park
    does to the rest of the state is any change that leaves the registry of running turns
    alone.  Tasks and their cancelled flags are named by the frame that made them. *)

From stdpp Require Import prelude gmap strings list.
From S2P Require Import Prelude Text AccessControl RunningTurns Auth Json Backplane Storage.
From S2P Require Import Widget Agents AppState Protocol Scope Conversations Sessions Turns.
From S2P Require Import Approvals Connection.

(** ** What a frame does to the registry *)

(** From [reg] to [reg'], having started [o]. *)
Definition registry_effect `{!Attachments} (reg reg' : RunningTurns) (o : option SpawnedTurn) : Prop :=
  raised reg' = raised reg ∧
  match o with
  | None =>
      turns reg' = turns reg ∧
      (next_token reg' = next_token reg ∨ next_token reg' = token_succ (next_token reg))
  | Some t =>
      let c := tr_conversation_id (spawned_reservation t) in
      turns reg !! c = None ∧ c = sess_conversation_id (plan_session (spawned_plan t)) ∧
      tr_token (spawned_reservation t) = next_token reg ∧ next_token reg' = token_succ (next_token reg) ∧
      ∃ q n s, turns reg' =
        <[c := mk_RunningTurn (next_token reg) q n s (spawned_cancelled t) (Some (spawned_handle t))]> (turns reg)
  end.

Section effects.
Context {S : Type} `{!StorageAdapter S, !Lowercase, !WireText, !Signing, !Attachments, !JsonText, !JsonParse}.
Implicit Types (w : World S) (a : AppState S).

Abbreviation reg w := (running_turns (app w)).

Lemma registry_effect_refl (r : RunningTurns) : registry_effect r r None.
Proof. split; [done|]. split; [done|by left]. Qed.

Lemma registry_effect_eq (r r' : RunningTurns) : r' = r → registry_effect r r' None.
Proof. intros ->. apply registry_effect_refl. Qed.

Lemma load_session_registry sid a : running_turns (load_session sid a).2 = running_turns a.
Proof. unfold load_session. by repeat case_match. Qed.

Lemma scoped_session_registry require sid org sc a :
  running_turns (scoped_session require sid org sc a).2 = running_turns a.
Proof.
  unfold scoped_session. pose proof (load_session_registry sid a) as Hl.
  destruct (load_session sid a) as [[[s|]|e] a']; simpl in *; [|done..]. by repeat case_match.
Qed.

Lemma lookup_session_registry require cx sid rid ts w :
  reg (lookup_session require cx sid rid ts w).2 = reg w.
Proof.
  pose proof (lookup_session_frame require cx sid rid ts w) as Hl.
  destruct (lookup_session _ _ _ _ _ _) as [r w']; destruct Hl as [Ha _]. simpl. rewrite Ha.
  apply load_session_registry.
Qed.

Lemma session_meta_registry sid k v now a :
  running_turns (set_session_meta_key sid k v now a).2 = running_turns a.
Proof. destruct (set_meta_key_frame sid k v now a) as [Hf _]. by injection Hf. Qed.

Lemma authenticated_registry sid b now a :
  running_turns (set_session_authenticated sid b now a) = running_turns a.
Proof.
  unfold set_session_authenticated, edit_metadata, write_through.
  destruct (sessions a !! sid); [|done]. simpl. by destruct (update_session _ _ _ _).
Qed.

Lemma identity_registry sid v a : running_turns (attach_session_identity sid v a) = running_turns a.
Proof. unfold attach_session_identity, edit_metadata. by destruct (sessions a !! sid). Qed.

Lemma materialize_registry sid a : running_turns (materialize_session sid a).2 = running_turns a.
Proof.
  pose proof (materialize_frame sid a) as Hm. destruct (materialize_session sid a) as [r a'].
  destruct Hm as [Hm _]. by injection Hm.
Qed.

Lemma land_parked_registry parsed a : running_turns (land_parked parsed a) = running_turns a.
Proof.
  unfold land_parked, materialize_conversation. destruct (frame_conversation_id parsed); [|done].
  destruct (find_first _ _); [|done]. apply materialize_registry.
Qed.

Lemma get_session_registry require cx parsed rid ts w :
  reg (handle_get_session require cx parsed rid ts w) = reg w.
Proof.
  unfold handle_get_session. destruct (get_str parsed "sessionId") as [sid|]; [|done].
  pose proof (lookup_session_registry require cx sid rid ts w) as Hl.
  by destruct (lookup_session _ _ _ _ _ _) as [[s|] w'].
Qed.

Lemma get_messages_registry require cx parsed rid ts w :
  reg (handle_get_conversation_messages require cx parsed rid ts w) = reg w.
Proof.
  unfold handle_get_conversation_messages. destruct (get_str parsed "sessionId") as [sid|]; [|done].
  pose proof (lookup_session_registry require cx sid rid ts w) as Hl.
  destruct (lookup_session _ _ _ _ _ _) as [[s|] w']; [|done].
  by destruct (list_messages_by_conversation _ _).
Qed.

Lemma list_registry require cx parsed rid ts w :
  reg (handle_list_conversations require cx parsed rid ts w) = reg w.
Proof.
  unfold handle_list_conversations, send_conversation_page.
  destruct (parse_cursor parsed); [|done]. by destruct (listing_rows _ _ _ _ _).
Qed.

Lemma rename_registry require cx parsed rid now ts w :
  reg (handle_rename_conversation require cx parsed rid now ts w) = reg w.
Proof.
  unfold handle_rename_conversation. destruct (get_str parsed "conversationId"); [|done].
  destruct (str_is_empty _); [done|]. destruct (get_conversation _ _); [|done].
  destruct (is_some _ && _); [|done]. by destruct (update_conversation _ _ _ _) as [[?|?] ?].
Qed.

Lemma create_registry require strict policy cx parsed rid ids now now_unix ts w :
  reg (handle_create_session require strict policy cx parsed rid ids now now_unix ts w).1 = reg w.
Proof.
  unfold handle_create_session, enforce_widget_auth, open_session, created.
  destruct (frame_agent_id parsed) as [agent|]; [|done].
  pose proof (land_parked_registry parsed (app w)) as Hl.
  repeat (case_match; simplify_eq; simpl; try done).
Qed.

Lemma verify_otp_registry host otp cx parsed rid now ts w :
  reg (handle_verify_otp host otp cx parsed rid now ts w) = reg w.
Proof.
  unfold handle_verify_otp. destruct rid as [q|]; [|done]. destruct (get_str parsed "sessionId") as [sid|]; [|done].
  destruct (get_str parsed "code") as [code|]; [|done].
  pose proof (lookup_session_registry (require_owned_conversations host) cx sid (Some q) ts w) as Hl.
  destruct (lookup_session _ _ _ _ _ _) as [[s|] w']; [|done]. simpl in Hl.
  destruct otp as [service|]; [|done]. destruct (verify_otp service sid code); [|done].
  simpl. rewrite <- Hl. apply authenticated_registry.
Qed.

Lemma settle_registry listening view sid q outcome now ts w :
  reg (settle listening view sid q outcome now ts w).2.1 = reg w.
Proof.
  unfold settle, resolve_interaction. destruct (pv_live view).
  - unfold take_interaction. destruct (pending_interactions (app w) !! sid) as [p|]; simpl; [|done].
    by destruct (listening (responder p)).
  - unfold set_pending_interaction.
    pose proof (session_meta_registry sid (lit "pendingInteraction") None now (app w)) as Hm.
    by destruct (set_session_meta_key _ _ _ _ _) as [[?|?] a].
Qed.

Lemma find_pending_registry owned sid q ts w : reg (find_pending owned sid q ts w).2 = reg w.
Proof. unfold find_pending, durable_pending_interaction. by repeat (case_match; simplify_eq/=). Qed.

Lemma submit_to_registry listening interactions view parsed sid q now ts w :
  reg (submit_to listening interactions view parsed sid q now ts w).1 = reg w.
Proof.
  unfold submit_to. destruct (negb _); [done|]. destruct (opt_filter _ _); [done|].
  destruct (default false _).
  { pose proof (settle_registry listening view sid q Declined now ts w) as Hs.
    by destruct (settle _ _ _ _ _ _ _ _) as [[] [w' r]]. }
  destruct (get parsed (lit "values")) as [values|]; [|done].
  destruct (interactions _) as [validate|]; [|done]. destruct (validate _ values) as [canonical|]; [|done].
  pose proof (settle_registry listening view sid q (Submitted canonical) now ts w) as Hs.
  destruct (settle _ _ _ _ _ _ _ _) as [[] [w' r]]; [|done]. simpl in *. rewrite <- Hs.
  unfold attach_interaction_effect. destruct (str_eqb _ _); [|done].
  destruct (read_intake_values canonical); [|done]. apply identity_registry.
Qed.

Lemma submit_registry host listening interactions cx parsed rid now ts w :
  reg (handle_submit_interaction host listening interactions cx parsed rid now ts w).1 = reg w.
Proof.
  unfold handle_submit_interaction. destruct rid as [q|]; [|done].
  destruct (get_str parsed "sessionId") as [sid|]; [|done].
  pose proof (scoped_session_registry (require_owned_conversations host) sid (auth_org cx) (scope cx) (app w)) as Hs.
  destruct (scoped_session _ _ _ _ _) as [[s|e] a]; [|done]. simpl in Hs.
  pose proof (find_pending_registry (is_some s) sid q ts (set_app a w)) as Hf.
  destruct (find_pending _ _ _ _ _) as [[view|] w']; simpl in Hf; [|by rewrite <- Hs].
  rewrite submit_to_registry. by rewrite Hf.
Qed.

Lemma reserve_release_effect c q n sk f r r1 h :
  try_reserve c q n sk f r = (Some h, r1) → registry_effect r (release h r1) None.
Proof.
  intros Hr. destruct (reserve_release _ _ _ _ _ _ _ _ Hr) as (Ht & Hm & _). split; [done|]. split; [done|].
  right. rewrite release_next. unfold try_reserve in Hr. by destruct (is_some _); simplify_eq.
Qed.

(** A message either leaves the registry's turns as they were or adds the one it started. *)
Lemma send_message_effect host access sink cx parsed rid flag task ts w :
  let '(w', o) := handle_send_message host access sink cx parsed rid flag task ts w in
  registry_effect (reg w) (reg w') o ∧
  ∀ t, o = Some t → spawned_cancelled t = flag ∧ spawned_handle t = task.
Proof.
  destruct (handle_send_message _ _ _ _ _ _ _ _ _ _) as [w' o] eqn:E.
  apply send_message_registry in E. destruct o as [t|].
  - destruct E as (q & reg1 & Hr & Ha & Ht & Hf). split; [|by intros ? [= <-]].
    destruct (reserve_set_abort _ _ _ _ _ _ _ _ task Hr) as (Hrun & Hc & Hset). rewrite Ha.
    unfold try_reserve in Hr. destruct (is_some _) eqn:En; [done|]. injection Hr as Hr <-.
    unfold registry_effect. destruct (spawned_reservation t) as [c tok]. injection Hr as <- <-. simpl in *.
    rewrite set_abort_next, Ht, Hf. split_and!; try done.
    + unfold set_abort. by repeat (case_match; simpl).
    + by destruct (turns (reg w) !! _).
    + eauto.
  - split; [|done]. destruct E as [->|(c & q & r & reg1 & Hr & ->)]; [apply registry_effect_refl|].
    by eapply reserve_release_effect.
Qed.

Lemma durable_confirm_effect host access sink cx sid approved rid flag task now now_unix ts w :
  let '(w', o) := durable_confirm_fallback host access sink cx sid approved rid flag task now now_unix ts w in
  registry_effect (reg w) (reg w') o ∧
  ∀ t, o = Some t → spawned_cancelled t = flag ∧ spawned_handle t = task.
Proof.
  unfold durable_confirm_fallback.
  destruct (Storage.get_session _ _) as [[s|]|e]; [|by split; [apply registry_effect_refl|]..].
  destruct (sess_metadata s ≫= _) as [record|]; [|by split; [apply registry_effect_refl|]].
  unfold set_pending_confirmation.
  pose proof (session_meta_registry sid (lit "pendingConfirmation") None now (insert_session s (app w))) as Hm.
  destruct (set_session_meta_key _ _ _ _ _) as [c a]. simpl in Hm.
  assert (Hsame : ∀ ev, registry_effect (reg w) (reg (send ev (set_app a w))) None)
    by (intros ev; by apply registry_effect_eq).
  destruct (negb _); [by split|]. destruct c; [|by split]. destruct (negb approved); [by split|].
  destruct (str_is_empty _); [by split|].
  match goal with |- context [handle_send_message host access sink cx ?f rid flag task ts ?w1] =>
    pose proof (send_message_effect host access sink cx f rid flag task ts w1) as Hs end.
  simpl in Hs. by rewrite Hm in Hs.
Qed.

Lemma confirm_effect host access sink listening cx parsed rid flag task now now_unix ts w :
  let '(w', o) := handle_confirm_tool_action host access sink listening cx parsed rid flag task now now_unix ts w in
  registry_effect (reg w) (reg w') (cf_spawned o) ∧
  ∀ t, cf_spawned o = Some t → spawned_cancelled t = flag ∧ spawned_handle t = task.
Proof.
  unfold handle_confirm_tool_action, take_confirmation.
  destruct (get_str parsed "sessionId") as [sid|]; [|by split; [apply registry_effect_refl|]].
  destruct (get_bool parsed "approved") as [approved|]; [|by split; [apply registry_effect_refl|]].
  pose proof (scoped_session_registry (require_owned_conversations host) sid (auth_org cx) (scope cx) (app w)) as Hs.
  destruct (scoped_session _ _ _ _ _) as [[[s|]|e] a]; simpl in Hs; [|by split; [apply registry_effect_eq|]..].
  set (w1 := set_app (with_pending_confirmations _ _) _).
  assert (Hw : reg w1 = reg w) by done.
  pose proof (durable_confirm_effect host access sink cx sid approved rid flag task now now_unix ts w1) as Hd.
  rewrite Hw in Hd.
  destruct (durable_confirm_fallback _ _ _ _ _ _ _ _ _ _ _ _ _) as [w2 t].
  destruct (pending_confirmations _ !! sid) as [r|]; [|exact Hd].
  destruct (listening r); [by split; [apply registry_effect_eq|]|exact Hd].
Qed.

(** Whatever the frame, the registry loses nothing and gains at most the turn it started. *)
Lemma frame_effect host strict policy listening interactions otp access sink cx raw m w :
  let '(w', o) := handle_frame host strict policy listening interactions otp access sink cx raw m w in
  registry_effect (reg w) (reg w') (fo_spawned o) ∧
  ∀ t, fo_spawned o = Some t → spawned_cancelled t = m_flag m ∧ spawned_handle t = m_task m.
Proof.
  unfold handle_frame. destruct (from_str raw) as [parsed|e]; [|by split; [apply registry_effect_refl|]].
  destruct (get_str parsed "action") as [action|]; [|by split; [apply registry_effect_refl|]].
  set (rid := get_str parsed "requestId"). set (owned := require_owned_conversations host).
  destruct (str_eqb action (lit "ping")); [by split; [apply registry_effect_refl|]|].
  destruct (str_eqb action (lit "create_conversation_session")).
  { pose proof (create_registry owned strict policy cx parsed rid (m_ids m) (m_now m) (m_now_unix m) (m_ts m) w) as Hc.
    destruct (handle_create_session _ _ _ _ _ _ _ _ _ _ _). by split; [apply registry_effect_eq|]. }
  destruct (str_eqb action (lit "get_session")); [by split; [apply registry_effect_eq, get_session_registry|]|].
  destruct (str_eqb action (lit "get_conversation_messages"));
    [by split; [apply registry_effect_eq, get_messages_registry|]|].
  destruct (str_eqb action (lit "list_conversations")); [by split; [apply registry_effect_eq, list_registry|]|].
  destruct (str_eqb action (lit "rename_conversation")); [by split; [apply registry_effect_eq, rename_registry|]|].
  destruct (str_eqb action (lit "send_message")).
  { pose proof (send_message_effect host access sink cx parsed rid (m_flag m) (m_task m) (m_ts m) w) as He.
    by destruct (handle_send_message _ _ _ _ _ _ _ _ _ _). }
  destruct (str_eqb action (lit "confirm_tool_action")).
  { pose proof (confirm_effect host access sink listening cx parsed rid (m_flag m) (m_task m) (m_now m)
      (m_now_unix m) (m_ts m) w) as He.
    by destruct (handle_confirm_tool_action _ _ _ _ _ _ _ _ _ _ _ _ _). }
  destruct (str_eqb action (lit "verify_otp")); [by split; [apply registry_effect_eq, verify_otp_registry|]|].
  destruct (str_eqb action (lit "submit_interaction")); [|by split; [apply registry_effect_refl|]].
  pose proof (submit_registry host listening interactions cx parsed rid (m_now m) (m_ts m) w) as Hs.
  destruct (handle_submit_interaction _ _ _ _ _ _ _ _ _). by split; [apply registry_effect_eq|].
Qed.

(** What the reader does to the registry with a frame: it stops the turn it tracks, stops
    the turn a session in its reach names, or hands the frame to its handler. *)
Lemma text_frame_effect host strict policy listening interactions otp access sink cx finished raw m slot gate w :
  let '(w', o) :=
    handle_text_frame host strict policy listening interactions otp access sink cx finished raw m slot gate w in
  let action := (frame_action_and_request_id raw).1 in
  (∃ q t, action = Some (lit "cancel") ∧ in_flight finished slot = Some (q, t) ∧ reg w' = stop_turn t (reg w) ∧
     to_slot o = None ∧ fo_spawned (to_frame o) = None) ∨
  (∃ sid s, action = Some (lit "cancel") ∧ in_flight finished slot = None ∧ frame_session_id raw = Some sid ∧
     readable_by (require_owned_conversations host) cx sid (app w) s ∧
     reg w' = (RunningTurns.cancel (sess_conversation_id s) (reg w)).2 ∧ to_slot o = None ∧
     fo_spawned (to_frame o) = None) ∨
  (registry_effect (reg w) (reg w') (fo_spawned (to_frame o)) ∧
   match fo_spawned (to_frame o) with
   | Some t => spawned_cancelled t = m_flag m ∧ spawned_handle t = m_task m ∧ ∃ q, to_slot o = Some (q, t)
   | None => to_slot o = None ∨ to_slot o = in_flight finished slot
   end).
Proof.
  unfold handle_text_frame. destruct (frame_action_and_request_id raw) as [action rid]. simpl.
  destruct (bool_decide_reflect (action = Some (lit "cancel"))) as [->|_].
  { destruct (in_flight finished slot) as [[q t]|]; [left; by eexists q, t|].
    destruct (frame_session_id raw) as [sid|] eqn:Esid.
    2: { right. right. split; [apply registry_effect_refl|by left]. }
    unfold cancel_conversation_turn.
    pose proof (scoped_session_registry (require_owned_conversations host) sid (auth_org cx) (scope cx) (app w)) as Hs.
    pose proof (scoped_session_frame (require_owned_conversations host) cx sid (app w)) as Hf.
    destruct (scoped_session _ _ _ _ _) as [[[s|]|e] a]; simpl in Hs; destruct Hf as [_ Hf].
    - simpl. destruct (RunningTurns.cancel (sess_conversation_id s) (running_turns a)) as [c r] eqn:Ec.
      pose proof (Hf s eq_refl) as Hread.
      destruct c; right; left; exists sid, s; rewrite <- Hs, Ec; done.
    - right. right. split; [by apply registry_effect_eq|by left].
    - right. right. split; [by apply registry_effect_eq|by left]. }
  destruct (bool_decide (action = Some (lit "send_message")) && is_some (in_flight finished slot)).
  { right. right. split; [apply registry_effect_refl|by right]. }
  pose proof (frame_effect host strict policy listening interactions otp access sink cx raw m w) as Hf.
  destruct (handle_frame _ _ _ _ _ _ _ _ _ _ _ _) as [w' o]. destruct Hf as [Hf Hsp].
  destruct (fo_spawned o) as [t|] eqn:Eo; right; right; simpl; rewrite Eo; (split; [exact Hf|]); [|by right].
  destruct (Hsp t eq_refl). split_and!; [done|done|by eexists].
Qed.
End effects.

(** ** The process *)

(** A connection of the process: who it is, the turn it tracks and its writer's gate. *)
Record Connected `{Attachments} := mk_Connected {
  cn_cx : Conn;
  cn_access : AccessContext;
  cn_slot : Slot;
  cn_gate : option str;
}.

(** What the host answers during one frame. *)
Record Answers := mk_Answers {
  an_host : Host;
  an_widget_auth_strict : bool;
  an_agent_widget_auth : str → option AgentWidgetAuth;
  an_listening : Responder → bool;
  an_interactions : str → option Validator;
  an_otp : option OtpService;
}.

Section process.
Context {S : Type} `{!StorageAdapter S, !Lowercase, !WireText, !Signing, !Attachments, !JsonText, !JsonParse}.

(** [sv_started]: every turn ever started, by its task; [sv_ended]: the tasks that have
    ended; [sv_frames]: the frames handled so far.  Connections go by their sink. *)
Record Server := mk_Server {
  sv_app : AppState S;
  sv_connections : gmap nat Connected;
  sv_started : gmap nat SpawnedTurn;
  sv_ended : gset nat;
  sv_frames : nat;
}.

Definition server_start (a : AppState S) : Server := mk_Server a ∅ ∅ ∅ 0.

Definition finished (s : Server) (task : nat) : bool := bool_decide (task ∈ sv_ended s).

(** One frame of connection [k]; the flag and the task it may make are named by its rank. *)
Definition frame_moment (m : Moment) (n : nat) : Moment :=
  mk_Moment (m_now m) (m_now_unix m) (m_ts m) (m_ids m) n n.

Definition server_frame (an : Answers) (k : nat) (raw : str) (m : Moment) (s : Server) : Server :=
  match sv_connections s !! k with
  | None => s
  | Some c =>
      let '(w, o) :=
        handle_text_frame (an_host an) (an_widget_auth_strict an) (an_agent_widget_auth an) (an_listening an)
          (an_interactions an) (an_otp an) (cn_access c) k (cn_cx c) (finished s) raw
          (frame_moment m (sv_frames s)) (cn_slot c) (cn_gate c) (mk_World (sv_app s) []) in
      mk_Server (app w)
        (<[k := mk_Connected _ (cn_cx c) (cn_access c) (to_slot o) (to_gate o)]> (sv_connections s))
        (match fo_spawned (to_frame o) with
         | Some t => <[sv_frames s := t]> (sv_started s)
         | None => sv_started s
         end)
        (sv_ended s) (Datatypes.S (sv_frames s))
  end.

Definition server_open (k : nat) (cx : Conn) (access : AccessContext) (s : Server) : Server :=
  mk_Server (with_backplane (attach (Conversations.conn_id cx) k (backplane (sv_app s))) (sv_app s))
    (<[k := mk_Connected _ cx access None None]> (sv_connections s)) (sv_started s) (sv_ended s) (sv_frames s).

(** The turn in flight is not touched. *)
Definition server_close (k : nat) (s : Server) : Server :=
  match sv_connections s !! k with
  | None => s
  | Some c =>
      mk_Server (close_connection (cn_cx c) (sv_app s)) (delete k (sv_connections s)) (sv_started s)
        (sv_ended s) (sv_frames s)
  end.

(** A task ends, or is dropped at a yield after its abort: its reservation goes with it. *)
Definition server_end (t : SpawnedTurn) (s : Server) : Server :=
  mk_Server
    (with_running_turns (release (spawned_reservation t) (running_turns (sv_app s))) (sv_app s))
    (sv_connections s) (sv_started s) ({[spawned_handle t]} ∪ sv_ended s) (sv_frames s).

Definition set_sv_app (a : AppState S) (s : Server) : Server :=
  mk_Server a (sv_connections s) (sv_started s) (sv_ended s) (sv_frames s).

(** [t]'s task has not ended. *)
Definition task_live (s : Server) (t : SpawnedTurn) : Prop :=
  sv_started s !! spawned_handle t = Some t ∧ spawned_handle t ∉ sv_ended s.

Inductive server_step : Server → Server → Prop :=
| sv_open k cx access s :
    sv_connections s !! k = None → server_step s (server_open k cx access s)
| sv_frame an k raw m s : server_step s (server_frame an k raw m s)
| sv_close k s : server_step s (server_close k s)
| sv_end t s : task_live s t → server_step s (server_end t s)
| sv_other a s : running_turns a = running_turns (sv_app s) → server_step s (set_sv_app a s).

Definition server_reachable (s : Server) : Prop :=
  ∃ a, running_turns a = registry_new ∧ rtc server_step (server_start a) s.

Definition turn_conversation (t : SpawnedTurn) : str := sess_conversation_id (plan_session (spawned_plan t)).

(** ** The invariant *)

(** A turn that runs: its task has not ended and nobody cancelled it. *)
Definition runs (started : gmap nat SpawnedTurn) (ended : gset nat) (reg : RunningTurns) (t : SpawnedTurn) : Prop :=
  started !! spawned_handle t = Some t ∧ (spawned_handle t ∉ ended) ∧ (spawned_cancelled t ∉ raised reg).

Definition active (s : Server) : SpawnedTurn → Prop :=
  runs (sv_started s) (sv_ended s) (running_turns (sv_app s)).

Record registry_inv (started : gmap nat SpawnedTurn) (ended : gset nat) (reg : RunningTurns) (n : nat) : Prop := {
  ri_next : (next_token reg ≤ N.of_nat n)%N;
  ri_started : ∀ h t, started !! h = Some t →
    spawned_handle t = h ∧ spawned_cancelled t = h ∧ h < n ∧
    (tr_token (spawned_reservation t) < next_token reg)%N ∧
    tr_conversation_id (spawned_reservation t) = turn_conversation t;
  ri_tokens : ∀ h t h' t', started !! h = Some t → started !! h' = Some t' →
    tr_token (spawned_reservation t) = tr_token (spawned_reservation t') → h = h';
  ri_raised : ∀ f, f ∈ raised reg → f < n;
  ri_ended : ∀ h, h ∈ ended → h < n;
  ri_registered : ∀ c rt, turns reg !! c = Some rt →
    ∃ t, runs started ended reg t ∧ spawned_reservation t = mk_TurnReservation c (token rt) ∧
      RunningTurns.cancelled rt = spawned_cancelled t ∧ abort rt = Some (spawned_handle t);
  ri_active : ∀ t, runs started ended reg t →
    ∃ rt, turns reg !! tr_conversation_id (spawned_reservation t) = Some rt ∧
      token rt = tr_token (spawned_reservation t);
}.

(** Every connection tracks a turn the process started. *)
Definition slots_inv (s : Server) : Prop :=
  ∀ k c q t, sv_connections s !! k = Some c → cn_slot c = Some (q, t) →
    sv_started s !! spawned_handle t = Some t.

(** As long as fewer than [2^64] frames were handled, so that no token was issued twice. *)
Definition server_inv (s : Server) : Prop :=
  (N.of_nat (sv_frames s) < 2 ^ 64)%N →
  registry_inv (sv_started s) (sv_ended s) (running_turns (sv_app s)) (sv_frames s) ∧ slots_inv s.
End process.

Section registry.
Context `{!Attachments}.
Implicit Types (started : gmap nat SpawnedTurn) (ended : gset nat) (reg : RunningTurns) (t : SpawnedTurn).

Lemma same_token started ended reg n t t' :
  registry_inv started ended reg n → started !! spawned_handle t = Some t →
  started !! spawned_handle t' = Some t' →
  tr_token (spawned_reservation t) = tr_token (spawned_reservation t') → t = t'.
Proof.
  intros Hinv Ht Ht' Htok. pose proof (ri_tokens _ _ _ _ Hinv _ _ _ _ Ht Ht' Htok) as Hh.
  rewrite Hh in Ht. congruence.
Qed.

Lemma same_flag started ended reg n t t' :
  registry_inv started ended reg n → started !! spawned_handle t = Some t →
  started !! spawned_handle t' = Some t' → spawned_cancelled t = spawned_cancelled t' → t = t'.
Proof.
  intros Hinv Ht Ht' Hf. destruct (ri_started _ _ _ _ Hinv _ _ Ht) as (_ & Hc & _).
  destruct (ri_started _ _ _ _ Hinv _ _ Ht') as (_ & Hc' & _). assert (Hh : spawned_handle t = spawned_handle t') by congruence.
  rewrite Hh in Ht. congruence.
Qed.

(** A turn stops running and its claim is given up, whoever does it. *)
Lemma drop_turn started ended reg n ended' reg' t :
  registry_inv started ended reg n → started !! spawned_handle t = Some t →
  turns reg' = turns (release (spawned_reservation t) reg) → next_token reg' = next_token reg →
  (∀ f, f ∈ raised reg' → f < n) → (∀ h, h ∈ ended' → h < n) →
  (∀ t', runs started ended' reg' t' ↔ runs started ended reg t' ∧ t' ≠ t) →
  registry_inv started ended' reg' n.
Proof.
  intros Hinv Ht Hturns Hnext Hraised Hended Hruns. split; try done.
  - rewrite Hnext. apply Hinv.
  - rewrite Hnext. apply Hinv.
  - apply Hinv.
  - intros c rt. rewrite Hturns. intros Hc. pose proof (release_turns _ _ _ _ Hc) as Hc0.
    destruct (ri_registered _ _ _ _ Hinv _ _ Hc0) as (t' & Hr & Hres & Hflag). exists t'. split; [|done].
    apply Hruns. split; [done|]. intros ->. unfold release in Hc. rewrite Hres in Hc. simpl in Hc.
    rewrite Hc0 in Hc. simpl in Hc. rewrite N.eqb_refl in Hc. simpl in Hc. by rewrite lookup_delete_eq in Hc.
  - intros t' [Hr Hne]%Hruns. destruct (ri_active _ _ _ _ Hinv _ Hr) as (rt & Hc & Htok). exists rt.
    split; [|done]. rewrite Hturns. unfold release. case_match eqn:E; [|done]. simpl.
    rewrite lookup_delete_ne; [done|]. intros Heq. rewrite Heq, Hc in E. simpl in E. apply N.eqb_eq in E.
    apply Hne. destruct Hr as (Hst & _). eapply same_token; [done..|]. congruence.
Qed.

Lemma stop_inv started ended reg n t :
  registry_inv started ended reg n → started !! spawned_handle t = Some t →
  registry_inv started ended (stop_turn t reg) n.
Proof.
  intros Hinv Ht. assert (Hmarks : raised (stop_turn t reg) = {[spawned_cancelled t]} ∪ raised reg)
    by (unfold stop_turn, release; by case_match).
  eapply (drop_turn _ ended reg _ _ _ t); try done.
  - unfold stop_turn, release. simpl. by case_match.
  - unfold stop_turn. by rewrite release_next.
  - rewrite Hmarks. intros f [->%elem_of_singleton|Hf]%elem_of_union; [|by apply Hinv].
    by destruct (ri_started _ _ _ _ Hinv _ _ Ht) as (_ & -> & ? & _).
  - apply Hinv.
  - intros t'. unfold runs. rewrite Hmarks. split.
    + intros (Hs & He & Hr). split; [set_solver|]. intros ->. set_solver.
    + intros [(Hs & He & Hr) Hne]. split_and!; [done..|]. intros [Hf%elem_of_singleton|?]%elem_of_union; [|done].
      apply Hne. by eapply same_flag.
Qed.

Lemma cancel_inv started ended reg n c :
  registry_inv started ended reg n → registry_inv started ended (RunningTurns.cancel c reg).2 n.
Proof.
  intros Hinv. unfold RunningTurns.cancel. destruct (turns reg !! c) as [rt|] eqn:Hc; [|done]. simpl.
  destruct (ri_registered _ _ _ _ Hinv _ _ Hc) as (t & (Ht & He & Hr) & Hres & Hflag & _).
  eapply (drop_turn _ ended reg _ _ _ t); try done; simpl.
  - unfold release. rewrite Hres. simpl. rewrite Hc. simpl. by rewrite N.eqb_refl.
  - intros f [->%elem_of_singleton|Hf]%elem_of_union; [|by apply Hinv]. rewrite Hflag.
    by destruct (ri_started _ _ _ _ Hinv _ _ Ht) as (_ & -> & ? & _).
  - apply Hinv.
  - intros t'. unfold runs. simpl. rewrite Hflag. split.
    + intros (Hs & He' & Hr'). split; [set_solver|]. intros ->. set_solver.
    + intros [(Hs & He' & Hr') Hne]. split_and!; [done..|]. intros [Hf%elem_of_singleton|?]%elem_of_union; [|done].
      apply Hne. by eapply same_flag.
Qed.

Lemma end_inv started ended reg n t :
  registry_inv started ended reg n → started !! spawned_handle t = Some t →
  registry_inv started ({[spawned_handle t]} ∪ ended) (release (spawned_reservation t) reg) n.
Proof.
  intros Hinv Ht. assert (Hmarks : raised (release (spawned_reservation t) reg) = raised reg)
    by (unfold release; by case_match).
  eapply (drop_turn _ ended reg _ _ _ t); try done.
  - apply release_next.
  - rewrite Hmarks. apply Hinv.
  - intros h [->%elem_of_singleton|Hh]%elem_of_union; [|by apply (ri_ended _ _ _ _ Hinv)].
    by destruct (ri_started _ _ _ _ Hinv _ _ Ht) as (_ & _ & ? & _).
  - intros t'. unfold runs. rewrite Hmarks. split.
    + intros (Hs & He & Hr). split; [set_solver|]. intros ->. set_solver.
    + intros [(Hs & He & Hr) Hne]. split_and!; [done| |done]. intros [Hh%elem_of_singleton|?]%elem_of_union; [|done].
      apply Hne. congruence.
Qed.

Lemma effect_none_inv started ended reg reg' n :
  (N.of_nat (Datatypes.S n) < 2 ^ 64)%N → registry_inv started ended reg n → registry_effect reg reg' None →
  registry_inv started ended reg' (Datatypes.S n).
Proof.
  intros Hw Hinv (Hraised & Hturns & Hnext). pose proof (ri_next _ _ _ _ Hinv) as Hn.
  assert (Hle : (next_token reg ≤ next_token reg')%N ∧ (next_token reg' ≤ N.of_nat (Datatypes.S n))%N).
  { unfold token_succ in Hnext. rewrite N.mod_small in Hnext by lia. destruct Hnext as [->| ->]; lia. }
  assert (Hruns : ∀ t, runs started ended reg' t ↔ runs started ended reg t) by (intros t; unfold runs; by rewrite Hraised).
  split; try (by apply Hinv); [by apply Hle|..].
  - intros h t Ht. destruct (ri_started _ _ _ _ Hinv _ _ Ht) as (? & ? & ? & ? & ?). split_and!; try done; lia.
  - rewrite Hraised. intros f Hf%(ri_raised _ _ _ _ Hinv). lia.
  - intros h Hh%(ri_ended _ _ _ _ Hinv). lia.
  - intros c rt. rewrite Hturns. intros Hc. destruct (ri_registered _ _ _ _ Hinv _ _ Hc) as (t & Hr & ?).
    exists t. by rewrite Hruns.
  - intros t Hr. rewrite Hturns. by apply Hinv, Hruns.
Qed.

Lemma mono_inv started ended reg n :
  registry_inv started ended reg n → registry_inv started ended reg (Datatypes.S n).
Proof.
  intros Hinv. pose proof (ri_next _ _ _ _ Hinv). split; try (by apply Hinv); [lia|..].
  - intros h t Ht. destruct (ri_started _ _ _ _ Hinv _ _ Ht) as (? & ? & ? & ? & ?). split_and!; try done; lia.
  - intros f Hf%(ri_raised _ _ _ _ Hinv). lia.
  - intros h Hh%(ri_ended _ _ _ _ Hinv). lia.
Qed.

Lemma effect_start_inv started ended reg reg' n t :
  (N.of_nat (Datatypes.S n) < 2 ^ 64)%N → registry_inv started ended reg n → registry_effect reg reg' (Some t) →
  spawned_cancelled t = n → spawned_handle t = n →
  registry_inv (<[n := t]> started) ended reg' (Datatypes.S n).
Proof.
  intros Hw Hinv (Hraised & Hfree & Hconv & Htok & Hnext & q & nm & sk & Hturns) Hflag Hhandle.
  pose proof (ri_next _ _ _ _ Hinv) as Hn.
  unfold token_succ in Hnext. rewrite N.mod_small in Hnext by lia.
  assert (Hnew : ∀ h t', started !! h = Some t' → h ≠ n).
  { intros h t' Ht'. destruct (ri_started _ _ _ _ Hinv _ _ Ht') as (_ & _ & ? & _). lia. }
  assert (Hruns : ∀ t', runs (<[n := t]> started) ended reg' t' ↔ t' = t ∨ runs started ended reg t').
  { intros t'. unfold runs. rewrite Hraised. split.
    - intros (Hs & He & Hr). apply lookup_insert_Some in Hs as [[_ ->]|[_ Hs]]; [by left|by right].
    - intros [->|(Hs & He & Hr)].
      + rewrite Hflag, Hhandle, lookup_insert_eq. split_and!; [done|..].
        * intros Hin%(ri_ended _ _ _ _ Hinv). lia.
        * intros Hin%(ri_raised _ _ _ _ Hinv). lia.
      + rewrite lookup_insert_ne by (symmetry; by eapply Hnew). done. }
  split.
  - lia.
  - intros h t' [[<- <-]|[_ Ht']]%lookup_insert_Some; [split_and!; try done; lia|].
    destruct (ri_started _ _ _ _ Hinv _ _ Ht') as (? & ? & ? & ? & ?). split_and!; try done; lia.
  - intros h1 t1 h2 t2 [[<- <-]|[? H1]]%lookup_insert_Some [[<- <-]|[? H2]]%lookup_insert_Some; try done.
    + intros Heq. destruct (ri_started _ _ _ _ Hinv _ _ H2) as (_ & _ & _ & ? & _). lia.
    + intros Heq. destruct (ri_started _ _ _ _ Hinv _ _ H1) as (_ & _ & _ & ? & _). lia.
    + by apply (ri_tokens _ _ _ _ Hinv).
  - rewrite Hraised. intros f Hf%(ri_raised _ _ _ _ Hinv). lia.
  - intros h Hh%(ri_ended _ _ _ _ Hinv). lia.
  - intros c rt. rewrite Hturns. intros [[<- <-]|[_ Hc]]%lookup_insert_Some.
    + exists t. rewrite Hruns. split; [by left|]. simpl. rewrite <- Htok. by destruct (spawned_reservation t).
    + destruct (ri_registered _ _ _ _ Hinv _ _ Hc) as (t' & Hr & ?). exists t'. rewrite Hruns. by split; [right|].
  - intros t' [->|Hr]%Hruns.
    + rewrite Hturns, lookup_insert_eq. by eexists.
    + destruct (ri_active _ _ _ _ Hinv _ Hr) as (rt & Hc & ?). exists rt. split; [|done].
      rewrite Hturns, lookup_insert_ne; [done|]. intros Heq. by rewrite Heq, Hc in Hfree.
Qed.
End registry.

(** ** Every step keeps it *)

Section steps.
Context {S : Type} `{!StorageAdapter S, !Lowercase, !WireText, !Signing, !Attachments, !JsonText, !JsonParse}.
Implicit Types (s : Server (S := S)).

Lemma start_inv (a : AppState S) : running_turns a = registry_new → server_inv (server_start a).
Proof.
  intros Ha _. split; [|by intros ????]. simpl. rewrite Ha.
  split; simpl; try done. intros t (Ht & _). by rewrite lookup_empty in Ht.
Qed.

(** A step that leaves the registry and the tasks alone only has to answer for the slots. *)
Lemma quiet_inv s s' :
  server_inv s → running_turns (sv_app s') = running_turns (sv_app s) → sv_started s' = sv_started s →
  sv_ended s' = sv_ended s → sv_frames s' = sv_frames s → (slots_inv s → slots_inv s') → server_inv s'.
Proof.
  intros Hinv Hr Hst He Hf Hsl Hw. rewrite Hf in Hw. destruct (Hinv Hw) as [Hreg Hslots].
  split; [by rewrite Hr, Hst, He, Hf|by apply Hsl].
Qed.

Lemma in_flight_slot fin slot r : in_flight fin slot = Some r → slot = Some r.
Proof. unfold in_flight, opt_filter. by repeat case_match. Qed.

Lemma frame_step_inv an k raw m s : server_inv s → server_inv (server_frame an k raw m s).
Proof.
  unfold server_frame. destruct (sv_connections s !! k) as [c|] eqn:Ek; [|done].
  set (m' := frame_moment m (sv_frames s)).
  pose proof (text_frame_effect (an_host an) (an_widget_auth_strict an) (an_agent_widget_auth an)
    (an_listening an) (an_interactions an) (an_otp an) (cn_access c) k (cn_cx c) (finished s) raw m' (cn_slot c)
    (cn_gate c) (mk_World (sv_app s) [])) as He.
  destruct (handle_text_frame _ _ _ _ _ _ _ _ _ _ _ _ _ _ _) as [w o]. simpl in He.
  intros Hinv Hw. simpl in *. assert (Hw0 : (N.of_nat (sv_frames s) < 2 ^ 64)%N) by lia.
  destruct (Hinv Hw0) as [Hreg Hslots]. unfold slots_inv. simpl.
  assert (Hkeep : to_slot o = None ∨ to_slot o = in_flight (finished s) (cn_slot c) →
    ∀ k' c' q t, <[k := mk_Connected _ (cn_cx c) (cn_access c) (to_slot o) (to_gate o)]> (sv_connections s) !! k' = Some c' →
      cn_slot c' = Some (q, t) → sv_started s !! spawned_handle t = Some t).
  { intros Hsl k' c' q t [[<- <-]|[_ Hc]]%lookup_insert_Some; [|by eapply Hslots]. simpl. intros Hs.
    destruct Hsl as [Hsl|Hsl]; rewrite Hsl in Hs; [done|]. apply in_flight_slot in Hs. by eapply Hslots. }
  destruct He as [(q & t & _ & Hfl & Hr & Hs & Hsp)|[(sid & ss & _ & _ & _ & _ & Hr & Hs & Hsp)|[Hr Hs]]].
  - rewrite Hsp, Hr. split; [|by apply Hkeep; left]. apply mono_inv, stop_inv; [done|].
    apply in_flight_slot in Hfl. by eapply Hslots.
  - rewrite Hsp, Hr. split; [|by apply Hkeep; left]. by apply mono_inv, cancel_inv.
  - destruct (fo_spawned (to_frame o)) as [t|].
    + destruct Hs as (Hflag & Hhandle & q & Hs). simpl in Hflag, Hhandle.
      split; [by eapply effect_start_inv|]. rewrite Hs.
      intros k' c' q' t' [[<- <-]|[_ Hc]]%lookup_insert_Some.
      * intros [= <- <-]. by rewrite Hhandle, lookup_insert_eq.
      * intros Hc'. pose proof (Hslots _ _ _ _ Hc Hc') as Ht'. rewrite lookup_insert_ne; [done|].
        destruct (ri_started _ _ _ _ Hreg _ _ Ht') as (_ & _ & ? & _). lia.
    + split; [by eapply effect_none_inv|by apply Hkeep].
Qed.

Lemma server_step_inv s s' : server_inv s → server_step s s' → server_inv s'.
Proof.
  intros Hinv Hs. inversion Hs as [k cx access s0 Hk|an k raw m s0|k s0|t s0 [Ht He]|a s0 Ha]; subst.
  - eapply quiet_inv; try done. intros Hsl k' c q t; simpl; intros [[<- <-]|[_ Hc]]%lookup_insert_Some; [done|by eapply Hsl].
  - by apply frame_step_inv.
  - unfold server_close. destruct (sv_connections s !! k) as [c|]; [|done].
    eapply quiet_inv; try done. intros Hsl k' c' q t; simpl; intros [_ Hc]%lookup_delete_Some. by eapply Hsl.
  - intros Hw. destruct (Hinv Hw) as [Hreg Hslots]. split; [|done]. by apply end_inv.
  - by eapply quiet_inv.
Qed.

Lemma server_reachable_inv s : server_reachable s → server_inv s.
Proof.
  intros (a & Ha & Hrun). apply start_inv in Ha. revert Ha.
  induction Hrun as [|x y z Hxy Hyz IH]; [done|]. intros Hx. by eapply IH, server_step_inv.
Qed.
End steps.

(** ** Properties *)

Section properties.
Context {S : Type} `{!StorageAdapter S, !Lowercase, !WireText, !Signing, !Attachments, !JsonText, !JsonParse}.
Implicit Types (s : Server (S := S)).

(** C4. One turn per conversation, over the whole process: whatever connections open, send and
    close, in whatever order, and whenever the tasks they started end, no two turns that run
    (neither ended nor cancelled) share a conversation, and a conversation is refused to new
    messages exactly while one runs on it, so that none is ever blocked for good. *)
Theorem one_active_turn s (Hreach : server_reachable s) (Hwrap : (N.of_nat (sv_frames s) < 2 ^ 64)%N) :
  (∀ t t', active s t → active s t' → turn_conversation t = turn_conversation t' → t = t') ∧
  ∀ c, is_running c (running_turns (sv_app s)) = true ↔ ∃ t, active s t ∧ turn_conversation t = c.
Proof.
  destruct (server_reachable_inv s Hreach Hwrap) as [Hinv _].
  assert (Hreg : ∀ t, active s t → ∃ rt, turns (running_turns (sv_app s)) !! turn_conversation t = Some rt ∧
    token rt = tr_token (spawned_reservation t)).
  { intros t Ht. destruct Ht as (Hs & Ht). destruct (ri_started _ _ _ _ Hinv _ _ Hs) as (_ & _ & _ & _ & <-).
    by apply (ri_active _ _ _ _ Hinv). }
  split.
  - intros t t' Ht Ht' Hc. destruct (Hreg t Ht) as (rt & Hr & Htok), (Hreg t' Ht') as (rt' & Hr' & Htok').
    destruct Ht as [Hs _], Ht' as [Hs' _]. eapply same_token; [done..|]. rewrite Hc in Hr. congruence.
  - intros c. unfold is_running. split.
    + destruct (turns _ !! c) as [rt|] eqn:Hc; [|done]. intros _.
      destruct (ri_registered _ _ _ _ Hinv _ _ Hc) as (t & Ht & Hres & _). exists t. split; [done|].
      destruct Ht as [Hs _]. destruct (ri_started _ _ _ _ Hinv _ _ Hs) as (_ & _ & _ & _ & <-). by rewrite Hres.
    + intros (t & Ht & <-). by destruct (Hreg t Ht) as (rt & -> & _).
Qed.

(** Which turns a frame leaves running. *)
Lemma frame_keeps_turn an k raw m s t c :
  server_reachable s → (N.of_nat (sv_frames s) < 2 ^ 64)%N → active s t → sv_connections s !! k = Some c →
  let s' := server_frame an k raw m s in
  let action := (frame_action_and_request_id raw).1 in
  let slot := in_flight (finished s) (cn_slot c) in
  (action = Some (lit "cancel") ∧ (∃ q, slot = Some (q, t)) ∧
     running_turns (sv_app s') = stop_turn t (running_turns (sv_app s))) ∨
  (∃ sid ss, action = Some (lit "cancel") ∧ slot = None ∧ frame_session_id raw = Some sid ∧
     readable_by (require_owned_conversations (an_host an)) (cn_cx c) sid (sv_app s) ss ∧
     sess_conversation_id ss = turn_conversation t ∧
     running_turns (sv_app s') = (RunningTurns.cancel (turn_conversation t) (running_turns (sv_app s))).2) ∨
  active s' t.
Proof.
  intros Hreach Hw Ht Ek. destruct (server_reachable_inv s Hreach Hw) as [Hinv Hslots].
  unfold server_frame. rewrite Ek.
  pose proof (text_frame_effect (an_host an) (an_widget_auth_strict an) (an_agent_widget_auth an)
    (an_listening an) (an_interactions an) (an_otp an) (cn_access c) k (cn_cx c) (finished s) raw
    (frame_moment m (sv_frames s)) (cn_slot c) (cn_gate c) (mk_World (sv_app s) [])) as He.
  destruct (handle_text_frame _ _ _ _ _ _ _ _ _ _ _ _ _ _ _) as [w o]. simpl in He |- *.
  pose proof Ht as (Hst & Hend & Hfl).
  destruct He as [(q & t' & Ha & Hslot & Hr & _ & Hsp)|[(sid & ss & Ha & Hslot & Hsid & Hread & Hr & _ & Hsp)|[Hr Hs]]].
  - assert (Hst' : sv_started s !! spawned_handle t' = Some t').
    { apply in_flight_slot in Hslot. by eapply Hslots. }
    destruct (decide (spawned_handle t' = spawned_handle t)) as [Hh|Hne].
    { rewrite Hh, Hst in Hst'. injection Hst' as <-. left; by eauto. }
    right. right. unfold active, runs. simpl. rewrite Hsp, Hr. split; [done|]. split; [done|].
    assert (Hmarks : raised (stop_turn t' (running_turns (sv_app s))) =
      {[spawned_cancelled t']} ∪ raised (running_turns (sv_app s))) by (unfold stop_turn, release; by case_match).
    rewrite Hmarks. intros [Hf%elem_of_singleton|?]%elem_of_union; [|done]. apply Hne.
    by rewrite (same_flag _ _ _ _ _ _ Hinv Hst Hst' Hf).
  - destruct (decide (sess_conversation_id ss = turn_conversation t)) as [Hc|Hc].
    { right. left. exists sid, ss. by rewrite <- Hc. }
    right. right. unfold active, runs. simpl. rewrite Hsp, Hr. split; [done|]. split; [done|].
    unfold RunningTurns.cancel. destruct (turns _ !! _) as [rt|] eqn:Hrt; [|done]. simpl.
    intros [Hf%elem_of_singleton|?]%elem_of_union; [|done].
    destruct (ri_registered _ _ _ _ Hinv _ _ Hrt) as (t' & (Hst' & _) & Hres & Hflag & _).
    assert (t = t') as <- by (eapply same_flag; [done..|congruence]).
    destruct (ri_started _ _ _ _ Hinv _ _ Hst) as (_ & _ & _ & _ & Hconv). by rewrite Hres in Hconv.
  - right. right. unfold active, runs. simpl. rewrite (proj1 Hr). split; [|done].
    destruct (fo_spawned (to_frame o)) as [t'|]; [|done]. rewrite lookup_insert_ne; [done|].
    destruct (ri_started _ _ _ _ Hinv _ _ Hst) as (_ & _ & ? & _). lia.
Qed.

(** C5. Only someone within reach can stop a turn: if a frame ends a running turn, it is a
    [cancel], sent on the connection that tracks that very turn, or naming a session whose
    organization is the connection's and whose conversation, the turn's, it may read; every
    other frame, of every other connection, leaves it running. *)
Theorem cancel_needs_reach s t an k raw m (Hreach : server_reachable s)
    (Hwrap : (N.of_nat (sv_frames s) < 2 ^ 64)%N) (Ht : active s t)
    (Hstopped : ¬ active (server_frame an k raw m s) t) :
  (frame_action_and_request_id raw).1 = Some (lit "cancel") ∧
  ∃ c, sv_connections s !! k = Some c ∧
    ((∃ q, cn_slot c = Some (q, t)) ∨
     ∃ sid ss, frame_session_id raw = Some sid ∧ sess_conversation_id ss = turn_conversation t ∧
       readable_by (require_owned_conversations (an_host an)) (cn_cx c) sid (sv_app s) ss).
Proof.
  destruct (sv_connections s !! k) as [c|] eqn:Ek.
  2: { exfalso. apply Hstopped. unfold server_frame. by rewrite Ek. }
  destruct (frame_keeps_turn an k raw m s t c Hreach Hwrap Ht Ek)
    as [(Ha & (q & Hs) & _)|[(sid & ss & Ha & _ & Hsid & Hread & Hc & _)|?]]; [..|done]; (split; [done|]);
    exists c; (split; [done|]).
  - left. exists q. by apply in_flight_slot in Hs.
  - right. by exists sid, ss.
Qed.

(** C26. A turn outlives its connection and stays within its owner's reach: the connection that
    started it can close and the turn runs on; and any connection that tracks no turn of its
    own and may read a session of the conversation stops it with one [cancel], which raises
    the turn's own flag, aborts its task and frees the conversation for the next message. *)
Theorem turn_outlives_connection s t (Hreach : server_reachable s)
    (Hwrap : (N.of_nat (sv_frames s) < 2 ^ 64)%N) (Ht : active s t) :
  (∀ k, active (server_close k s) t) ∧
  ∀ an k c raw m sid ss,
    sv_connections s !! k = Some c → in_flight (finished s) (cn_slot c) = None →
    (frame_action_and_request_id raw).1 = Some (lit "cancel") → frame_session_id raw = Some sid →
    (scoped_session (require_owned_conversations (an_host an)) sid (auth_org (cn_cx c)) (scope (cn_cx c))
       (sv_app s)).1 = Ok (Some ss) →
    sess_conversation_id ss = turn_conversation t →
    let reg' := running_turns (sv_app (server_frame an k raw m s)) in
    spawned_cancelled t ∈ raised reg' ∧ spawned_handle t ∈ aborted reg' ∧
    is_running (turn_conversation t) reg' = false.
Proof.
  split. { intros k. unfold server_close. by destruct (sv_connections s !! k). }
  intros an k c raw m sid ss Ek Hslot Ha Hsid Hsc Hconv. simpl.
  destruct (server_reachable_inv s Hreach Hwrap) as [Hinv _]. pose proof Ht as (Hst & _).
  destruct (ri_started _ _ _ _ Hinv _ _ Hst) as (_ & _ & _ & _ & Hc).
  destruct (ri_active _ _ _ _ Hinv _ Ht) as (rt & Hrt & Htok). rewrite Hc in Hrt.
  assert (Hr : running_turns (sv_app (server_frame an k raw m s)) =
    (RunningTurns.cancel (turn_conversation t) (running_turns (sv_app s))).2).
  { unfold server_frame. rewrite Ek. unfold handle_text_frame. rewrite Hslot.
    destruct (frame_action_and_request_id raw) as [action rid]. simpl in Ha. subst action. simpl. rewrite Hsid.
    unfold cancel_conversation_turn. simpl.
    pose proof (scoped_session_registry (require_owned_conversations (an_host an)) sid (auth_org (cn_cx c))
      (scope (cn_cx c)) (sv_app s)) as Hreg.
    destruct (scoped_session _ _ _ _ _) as [r a]. simpl in Hsc, Hreg. subst r. simpl. rewrite Hreg, Hconv.
    by destruct (RunningTurns.cancel _ _) as [[x|] r]. }
  rewrite Hr. unfold RunningTurns.cancel. rewrite Hrt. simpl.
  destruct (ri_registered _ _ _ _ Hinv _ _ Hrt) as (t' & (Hst' & _) & Hres & Hflag & Habort).
  assert (t' = t) as -> by (eapply same_token; [done..|by rewrite Hres, <- Htok]).
  rewrite Hflag, Habort. split_and!; [set_solver..|]. unfold is_running. simpl. by rewrite lookup_delete_eq.
Qed.
End properties.

(** ** A concrete run *)

Import Storage.Demo Conversations.Demo Widget.Demo Turns.Demo Approvals.Demo.

Module Demo.
Definition hello_frame : Value :=
  Object [field "action" (jstr "send_message"); field "requestId" (jstr "q"); field "sessionId" (jstr "s1");
          field "message" (jstr "hi")].
#[export] Instance demo_parse : JsonParse := {|
  from_str s :=
    if str_eqb s (lit "hello") then Ok hello_frame
    else if str_eqb s (lit "stop") then
      Ok (Object [field "action" (jstr "cancel"); field "sessionId" (jstr "s1")])
    else Err (lit "expected value") |}.
Definition answers : Answers :=
  mk_Answers (host (Some (lit "acme-key"))) false (λ _, None) (λ _, true) (λ _, None) None.
Definition moment : Moment := mk_Moment 9%Z 1060 9 (mk_NewIds (lit "c9") (lit "s9") (lit "u9") (lit "a9")) 0 0.
(** The same person's second device. *)
Definition phone : Conn := mk_Conn (lit "m") None (Some (lit "acme")) (UserOf (lit "ann@x.io")).
Definition s0 : Server := server_start (app Turns.Demo.w1).
Definition s1 : Server :=
  server_open 4 phone AccessContext.anonymous (server_open 3 cx AccessContext.anonymous s0).
(** The first connection starts a turn. *)
Definition s2 : Server := server_frame answers 3 (lit "hello") moment s1.
Definition t2 : SpawnedTurn := default turn1 (sv_started s2 !! 0).

Lemma s2_reachable : server_reachable s2.
Proof.
  exists (app Turns.Demo.w1). split; [reflexivity|].
  eapply rtc_l; [apply (sv_open 3 cx AccessContext.anonymous); reflexivity|].
  eapply rtc_l; [apply (sv_open 4 phone AccessContext.anonymous); reflexivity|].
  eapply rtc_l; [apply (sv_frame answers 3 (lit "hello") moment)|]. reflexivity.
Qed.

Lemma t2_active : active s2 t2.
Proof.
  assert (Hsome : is_some (sv_started s2 !! 0) = true) by vm_cast_no_check (eq_refl true).
  assert (Hh : spawned_handle t2 = 0) by vm_cast_no_check (eq_refl 0).
  assert (Hst : sv_started s2 !! 0 = Some t2)
    by (revert Hsome; unfold t2; generalize (sv_started s2 !! 0); by intros [t|]).
  split; [rewrite Hh; exact Hst|].
  assert (He : sv_ended s2 = ∅) by vm_cast_no_check (eq_refl (∅ : gset nat)).
  assert (Hr : raised (running_turns (sv_app s2)) = ∅) by vm_cast_no_check (eq_refl (∅ : gset nat)).
  rewrite He, Hr. split; apply not_elem_of_empty.
Qed.

Lemma t2_conversation : turn_conversation t2 = lit "c1".
Proof. vm_cast_no_check (eq_refl (lit "c1")). Qed.
End Demo.
Import Demo.

Lemma one_active_turn_witness :
  is_running (lit "c1") (running_turns (sv_app s2)) = true ∧
  ∀ t, active s2 t → turn_conversation t = lit "c1" → t = t2.
Proof.
  destruct (one_active_turn s2 s2_reachable ltac:(vm_compute; reflexivity)) as [Huniq Hrun]. split.
  - apply Hrun. exists t2. exact (conj t2_active t2_conversation).
  - intros t Ht Hc. apply Huniq; [exact Ht|exact t2_active|]. rewrite Hc. symmetry. exact t2_conversation.
Defined.

(** The second device has no turn of its own: its [cancel] stops the first one's. *)
Definition phone_session : Session :=
  default sess1 (match (scoped_session false (lit "s1") (auth_org phone) (scope phone) (sv_app s2)).1 with
                 | Ok o => o
                 | Err _ => None
                 end).

Lemma turn_outlives_connection_witness :
  active (server_close 3 s2) t2 ∧
  spawned_cancelled t2 ∈ raised (running_turns (sv_app (server_frame answers 4 (lit "stop") moment s2))) ∧
  is_running (lit "c1") (running_turns (sv_app (server_frame answers 4 (lit "stop") moment s2))) = false.
Proof.
  destruct (turn_outlives_connection s2 t2 s2_reachable ltac:(vm_compute; reflexivity) t2_active) as [Hclose Hcancel].
  split; [exact (Hclose 3)|].
  assert (Hk : sv_connections s2 !! 4 = Some (mk_Connected _ phone AccessContext.anonymous None None))
    by vm_cast_no_check (eq_refl (Some (mk_Connected _ phone AccessContext.anonymous None None))).
  assert (Hs : (scoped_session false (lit "s1") (auth_org phone) (scope phone) (sv_app s2)).1 = Ok (Some phone_session))
    by vm_cast_no_check (eq_refl (@Ok Prelude.error _ (Some phone_session))).
  assert (Hc : sess_conversation_id phone_session = turn_conversation t2)
    by vm_cast_no_check (eq_refl (lit "c1")).
  destruct (Hcancel answers 4 _ (lit "stop") moment (lit "s1") phone_session Hk eq_refl eq_refl eq_refl Hs Hc)
    as (Hr & _ & Hf).
  rewrite t2_conversation in Hf. exact (conj Hr Hf).
Defined.

Lemma cancel_needs_reach_witness :
  ∃ c, sv_connections s2 !! 4 = Some c ∧
    ((∃ q, cn_slot c = Some (q, t2)) ∨
     ∃ sid ss, frame_session_id (lit "stop") = Some sid ∧ sess_conversation_id ss = turn_conversation t2 ∧
       readable_by false (cn_cx c) sid (sv_app s2) ss).
Proof.
  assert (Hr : spawned_cancelled t2 ∈ raised (running_turns (sv_app (server_frame answers 4 (lit "stop") moment s2)))).
  { apply (bool_decide_unpack _). vm_cast_no_check I. }
  assert (Hstop : ¬ active (server_frame answers 4 (lit "stop") moment s2) t2)
    by (intros (_ & _ & Hf); exact (Hf Hr)).
  exact (proj2 (cancel_needs_reach s2 t2 answers 4 (lit "stop") moment s2_reachable ltac:(vm_compute; reflexivity)
    t2_active Hstop)).
Defined.
